(** * aspen-core: a shallow embedding of the branch-ownership engine

    The development follows the TypeScript sources [FileEntry.ts],
    [Directory.ts] and [Root.ts].  JavaScript objects live in a store
    indexed by their [_uid]; every method becomes a function in a
    state-and-exception monad over that store.  Recursion along parent
    links (and down the children of a directory) is bounded by an explicit
    fuel argument: running out of fuel stands for a call that never
    returns.  Asynchronous methods are run to completion at their [await]
    points, except in the section on the change-event queue, where the
    suspension of a reload is made explicit. *)

From stdpp Require Import gmap strings list fin_maps sorting.
From Stdlib Require Import ZArith Lia Ascii.

Local Open Scope Z_scope.

(** ** JavaScript values that cross the host interface *)

Inductive JsVal :=
| JUndefined
| JNull
| JBool (b : bool)
| JNum (z : Z)
| JStr (s : string)
| JObject.

Global Instance JsVal_eq_dec : EqDecision JsVal.
Proof. solve_decision. Defined.

(** [FileType.File = 1], [FileType.Directory = 2] (types.ts). *)
Inductive FileType := File | Directory.

Definition FileType_code (t : FileType) : Z :=
  match t with File => 1 | Directory => 2 end.

(** What [host.getItems] may hand back for one item: [null], [undefined],
    a primitive (its properties all read [undefined]) or an object with
    [type] and [name] properties. *)
Inductive RawItem :=
| RawNull
| RawUndefined
| RawPrimitive
| RawObj (type name : JsVal).

Inductive Exn :=
| TypeError (msg : string)
| RangeError (msg : string)
| Error (msg : string).

(** ** Typed arrays ([Uint32Array]) *)

Definition u32 (n : N) : N := (n mod 2 ^ 32)%N.

(** [Uint32Array.prototype.indexOf]: first position of [x], or [-1]. *)
Fixpoint indexOf (l : list N) (x : N) : Z :=
  match l with
  | [] => -1
  | y :: l' => if decide (y = x) then 0
               else let r := indexOf l' x in if decide (r = -1) then -1 else r + 1
  end.

(** Relative index resolution of [slice]: negative counts from the end. *)
Definition rel_index (len i : Z) : Z :=
  if decide (i < 0) then Z.max (len + i) 0 else Z.min i len.

(** [arr.slice(b, e)] *)
Definition ta_slice (arr : list N) (b e : Z) : list N :=
  let len := Z.of_nat (length arr) in
  let k := rel_index len b in
  let final := rel_index len e in
  take (Z.to_nat (final - k)) (drop (Z.to_nat k) arr).

(** [new Uint32Array(n)]: [n] zeroes, a [RangeError] for a negative length. *)
Definition ta_new (n : Z) : option (list N) :=
  if decide (n < 0) then None else Some (replicate (Z.to_nat n) 0%N).

(** [a.set(src, offset)]: overwrite in place; a [RangeError] when the
    source does not fit. *)
Definition ta_set (a src : list N) (offset : Z) : option (list N) :=
  if decide (offset < 0 ∨ Z.of_nat (length a) < offset + Z.of_nat (length src)) then None
  else Some (take (Z.to_nat offset) a ++ src
             ++ drop (Z.to_nat offset + length src) a).

(** [a[0] = v] on a typed array: ignored when out of range. *)
Definition ta_store0 (a : list N) (v : N) : list N :=
  match a with [] => [] | _ :: a' => u32 v :: a' end.

(** [spliceTypedArray(arr, start, deleteCount, items)] of Directory.ts. *)
Definition spliceTypedArray (arr : list N) (start deleteCount : Z)
    (items : option (list N)) : option (list N) :=
  let ilen := match items with Some it => Z.of_nat (length it) | None => 0 end in
  a ← ta_new ((Z.of_nat (length arr) - deleteCount) + ilen);
  a ← ta_set a (ta_slice arr 0 start) 0;
  a ← match items with Some it => ta_set a it start | None => Some a end;
  ta_set a (ta_slice arr (start + deleteCount) (Z.of_nat (length arr))) (start + ilen).

(** [Array.prototype.indexOf] on an array of object references. *)
Definition arr_indexOf (l : list N) (x : N) : Z := indexOf l x.

(** [arr[i]] for a JavaScript array: [undefined] outside the range. *)
Definition arr_get {A} (l : list A) (i : Z) : option A :=
  if decide (i < 0) then None else l !! Z.to_nat i.

(** [Array.prototype.splice(idx, 1)] *)
Definition arr_remove {A} (l : list A) (idx : Z) : list A :=
  let k := Z.to_nat (rel_index (Z.of_nat (length l)) idx) in
  take k l ++ drop (S k) l.

(** [Array.prototype.sort(cmp)], taken to be stable (ES2019): insertion
    from the right end keeps equal elements in their original order. *)
Fixpoint sort_insert {A} (cmp : A → A → Z) (x : A) (l : list A) : list A :=
  match l with
  | [] => [x]
  | y :: l' => if decide (cmp x y <= 0) then x :: y :: l'
               else y :: sort_insert cmp x l'
  end.

Definition arr_sort {A} (cmp : A → A → Z) (l : list A) : list A :=
  foldr (sort_insert cmp) [] l.

(** ** The object store *)

(** The class an object was constructed from ([x.constructor]). *)
Inductive Class := CFileEntry | CDirectory | CRoot.

Global Instance Class_eq_dec : EqDecision Class.
Proof. solve_decision. Defined.

(** [x instanceof Directory] *)
Definition instanceof_Directory (c : Class) : bool :=
  match c with CFileEntry => false | _ => true end.

(** The value of a directory's [watchTerminator] field when it is a
    function: either [Root.prototype.terminateWatch], taken off the root
    without binding it, or whatever [host.watch] returned. *)
Inductive WatchTerminator := TerminateWatch | HostTerminator.

Record Entry := mkEntry {
  cls : Class;
  _uid : N;
  _fileName : option string;
  _parent : option N;
  _depth : nat;
  _disposed : bool;
  _children : option (list N);
  _branchSize : Z;
  flattenedBranch : option (list N);
  isExpanded : bool;
  watchTerminator : option WatchTerminator;
  hardReloadPromise : bool;
  resolvedPathCache : option string;
}.

Inductive WatchEvent :=
| Added (directory : string) (file : RawItem)
| Removed (path : string)
| Changed (directory : string)
| Moved (oldPath newPath : JsVal).

(** What the supervisor dispatches on the root's event hub. *)
Inductive Notification :=
| WillChangeExpansionState (t : N) (nowExpanded : bool)
| DidChangeExpansionState (t : N) (nowExpanded visibleAtSurface : bool)
| WillChangeParent (t : N) (prevParent newParent : option N)
| DidChangeParent (t : N) (prevParent newParent : option N)
| WillDispose (t : N)
| DidDispose (t : N)
| BranchDidUpdate
| DidChangePath (t : N)
| WillProcessWatchEvent (t : N) (ev : WatchEvent)
| DidProcessWatchEvent (t : N) (ev : WatchEvent).

Record State := mkState {
  heap : gmap N Entry;
  nextId : N;
  idToFileEntry : gset N;
  rootId : N;
  rootPath : string;
  fswatchers : gmap string N;
  changeEventDispatchQueue : list string;
  events : list Notification;
  hostCalls : list string;
  eventFlushTimeout : bool;
}.

(** [events] is the sequence of dispatches on the root's event hub, oldest
    first; [hostCalls] records the paths [host.getItems] was asked for.
    [idToFileEntry] holds the keys of the static id registry (its values
    are the objects of [heap]); [fswatchers] maps a watched path to the
    directory whose [handleWatchEvent] is the registered callback;
    [eventFlushTimeout] tells whether the root's debounce timer is armed. *)

(** ** External collaborators *)

(** The [path-fx] package is not part of the repository; its functions are
    parameters of the development. *)
Record PathFx := mkPathFx {
  isRelative : string → bool;
  dirname : string → string;
  basename : string → string;
  join : string → string → string;
  normalize : string → string;
  splitPath : string → list string;
  pathDepth : string → Z;
}.

(** [IBasicFileSystemHost].  [getItems] answers [None] for a falsy result
    (read as the empty list by [|| []]); [watch] tells whether the host
    has a [watch] function. *)
Record Host := mkHost {
  getItems : string → option (list RawItem);
  sortComparator : option (Entry → Entry → Z);
  watch : bool;
}.

(** The part of the execution environment [hardReloadChildren] looks at:
    whether a global [process] exists, and [process.env.NODE_ENV]. *)
Record Env := mkEnv {
  process_defined : bool;
  NODE_ENV : JsVal;
}.

(** ** The monad *)

Inductive Outcome (A : Type) : Type :=
| Ok (a : A) (s : State)
| Throw (e : Exn) (s : State)
| Diverge.
Arguments Ok {A} a s.
Arguments Throw {A} e s.
Arguments Diverge {A}.

Definition M (A : Type) : Type := State → Outcome A.

Definition ret {A} (a : A) : M A := λ s, Ok a s.
Definition bind {A B} (m : M A) (k : A → M B) : M B :=
  λ s, match m s with
       | Ok a s' => k a s'
       | Throw e s' => Throw e s'
       | Diverge => Diverge
       end.
Definition throw {A} (e : Exn) : M A := λ s, Throw e s.
Definition diverge {A} : M A := λ _, Diverge.
Definition gets {A} (f : State → A) : M A := λ s, Ok (f s) s.
Definition modify (f : State → State) : M unit := λ s, Ok tt (f s).

Notation "'let!' x ':=' m 'in' k" := (bind m (λ x, k))
  (at level 10, x name, m at level 100, k at level 200).
Notation "m ';;' k" := (bind m (λ _, k))
  (at level 100, k at level 200, right associativity).

Definition when (b : bool) (m : M unit) : M unit := if b then m else ret tt.

(** [for (const x of l) body(x)] *)
Fixpoint forEach {A} (l : list A) (body : A → M unit) : M unit :=
  match l with
  | [] => ret tt
  | x :: l' => body x ;; forEach l' body
  end.

(** *** State updates *)

Definition set_heap (h : gmap N Entry) (s : State) : State :=
  mkState h (nextId s) (idToFileEntry s) (rootId s) (rootPath s) (fswatchers s)
          (changeEventDispatchQueue s) (events s) (hostCalls s) (eventFlushTimeout s).
Definition set_nextId (n : N) (s : State) : State :=
  mkState (heap s) n (idToFileEntry s) (rootId s) (rootPath s) (fswatchers s)
          (changeEventDispatchQueue s) (events s) (hostCalls s) (eventFlushTimeout s).
Definition set_idToFileEntry (r : gset N) (s : State) : State :=
  mkState (heap s) (nextId s) r (rootId s) (rootPath s) (fswatchers s)
          (changeEventDispatchQueue s) (events s) (hostCalls s) (eventFlushTimeout s).
Definition set_fswatchers (w : gmap string N) (s : State) : State :=
  mkState (heap s) (nextId s) (idToFileEntry s) (rootId s) (rootPath s) w
          (changeEventDispatchQueue s) (events s) (hostCalls s) (eventFlushTimeout s).
Definition set_queue (q : list string) (s : State) : State :=
  mkState (heap s) (nextId s) (idToFileEntry s) (rootId s) (rootPath s) (fswatchers s)
          q (events s) (hostCalls s) (eventFlushTimeout s).
Definition set_events (l : list Notification) (s : State) : State :=
  mkState (heap s) (nextId s) (idToFileEntry s) (rootId s) (rootPath s) (fswatchers s)
          (changeEventDispatchQueue s) l (hostCalls s) (eventFlushTimeout s).
Definition set_root (r : N) (p : string) (s : State) : State :=
  mkState (heap s) (nextId s) (idToFileEntry s) r p (fswatchers s)
          (changeEventDispatchQueue s) (events s) (hostCalls s) (eventFlushTimeout s).
Definition set_hostCalls (l : list string) (s : State) : State :=
  mkState (heap s) (nextId s) (idToFileEntry s) (rootId s) (rootPath s) (fswatchers s)
          (changeEventDispatchQueue s) (events s) l (eventFlushTimeout s).
Definition set_eventFlushTimeout (armed : bool) (s : State) : State :=
  mkState (heap s) (nextId s) (idToFileEntry s) (rootId s) (rootPath s) (fswatchers s)
          (changeEventDispatchQueue s) (events s) (hostCalls s) armed.

Definition with_parent (p : option N) (e : Entry) : Entry :=
  mkEntry (cls e) (_uid e) (_fileName e) p (_depth e) (_disposed e) (_children e)
          (_branchSize e) (flattenedBranch e) (isExpanded e) (watchTerminator e) (hardReloadPromise e) (resolvedPathCache e).
Definition with_fileName (f : option string) (e : Entry) : Entry :=
  mkEntry (cls e) (_uid e) f (_parent e) (_depth e) (_disposed e) (_children e)
          (_branchSize e) (flattenedBranch e) (isExpanded e) (watchTerminator e) (hardReloadPromise e) (resolvedPathCache e).
Definition with_depth (d : nat) (e : Entry) : Entry :=
  mkEntry (cls e) (_uid e) (_fileName e) (_parent e) d (_disposed e) (_children e)
          (_branchSize e) (flattenedBranch e) (isExpanded e) (watchTerminator e) (hardReloadPromise e) (resolvedPathCache e).
Definition with_disposed (b : bool) (e : Entry) : Entry :=
  mkEntry (cls e) (_uid e) (_fileName e) (_parent e) (_depth e) b (_children e)
          (_branchSize e) (flattenedBranch e) (isExpanded e) (watchTerminator e) (hardReloadPromise e) (resolvedPathCache e).
Definition with_children (c : option (list N)) (e : Entry) : Entry :=
  mkEntry (cls e) (_uid e) (_fileName e) (_parent e) (_depth e) (_disposed e) c
          (_branchSize e) (flattenedBranch e) (isExpanded e) (watchTerminator e) (hardReloadPromise e) (resolvedPathCache e).
Definition with_branchSize (z : Z) (e : Entry) : Entry :=
  mkEntry (cls e) (_uid e) (_fileName e) (_parent e) (_depth e) (_disposed e) (_children e)
          z (flattenedBranch e) (isExpanded e) (watchTerminator e) (hardReloadPromise e) (resolvedPathCache e).
Definition with_flattenedBranch (f : option (list N)) (e : Entry) : Entry :=
  mkEntry (cls e) (_uid e) (_fileName e) (_parent e) (_depth e) (_disposed e) (_children e)
          (_branchSize e) f (isExpanded e) (watchTerminator e) (hardReloadPromise e) (resolvedPathCache e).
Definition with_isExpanded (b : bool) (e : Entry) : Entry :=
  mkEntry (cls e) (_uid e) (_fileName e) (_parent e) (_depth e) (_disposed e) (_children e)
          (_branchSize e) (flattenedBranch e) b (watchTerminator e) (hardReloadPromise e) (resolvedPathCache e).
Definition with_hardReloadPromise (b : bool) (e : Entry) : Entry :=
  mkEntry (cls e) (_uid e) (_fileName e) (_parent e) (_depth e) (_disposed e) (_children e)
          (_branchSize e) (flattenedBranch e) (isExpanded e) (watchTerminator e) b (resolvedPathCache e).
Definition with_resolvedPathCache (c : option string) (e : Entry) : Entry :=
  mkEntry (cls e) (_uid e) (_fileName e) (_parent e) (_depth e) (_disposed e) (_children e)
          (_branchSize e) (flattenedBranch e) (isExpanded e) (watchTerminator e)
          (hardReloadPromise e) c.
Definition with_watchTerminator (w : option WatchTerminator) (e : Entry) : Entry :=
  mkEntry (cls e) (_uid e) (_fileName e) (_parent e) (_depth e) (_disposed e) (_children e)
          (_branchSize e) (flattenedBranch e) (isExpanded e) w (hardReloadPromise e) (resolvedPathCache e).

(** Dereference an object.  References are never dangling in JavaScript;
    a missing key is reported as a [TypeError]. *)
Definition obj (id : N) : M Entry :=
  λ s, match heap s !! id with
       | Some e => Ok e s
       | None => Throw (TypeError "dangling reference") s
       end.

Definition update (id : N) (f : Entry → Entry) : M unit :=
  λ s, match heap s !! id with
       | Some e => Ok tt (set_heap (<[id := f e]> (heap s)) s)
       | None => Throw (TypeError "dangling reference") s
       end.

(** [this.events.dispatch(...)] *)
Definition dispatch (n : Notification) : M unit :=
  modify (λ s, set_events (events s ++ [n]) s).

(** ** FileEntry.ts, Directory.ts, Root.ts *)

Section Methods.
Context (pathfx : PathFx) (host : Host) (env : Env).

(** [typeof v === 'string'] *)
Definition is_string (v : JsVal) : bool :=
  match v with JStr _ => true | _ => false end.

(** [FileEntry.checkRawFile] *)
Definition checkRawFile (file : RawItem) : M unit :=
  match file with
  | RawObj type name =>
      if negb (bool_decide (type = JNum (FileType_code Directory)))
         && negb (bool_decide (type = JNum (FileType_code File)))
      then throw (TypeError "IFileEntryItem must have a 'type' property which is either FileType.File or FileType.Directory")
      else if negb (is_string name)
      then throw (TypeError "IFileEntryItem must have a 'name' property of type string")
      else ret tt
  | _ => throw (TypeError "Item must be IFileEntryItem object. See docs for more info")
  end.

(** [const { type, name, metadata } = file] *)
Definition destructure (file : RawItem) : M (JsVal * JsVal) :=
  match file with
  | RawObj type name => ret (type, name)
  | RawPrimitive => ret (JUndefined, JUndefined)
  | _ => throw (TypeError "Cannot destructure 'file' as it is null or undefined")
  end.

(** The constructors.  [FileEntry]'s takes the next id, computes the depth
    from the parent, keeps the name only when there is a parent and the
    name is a string, and registers the object; [Directory]'s adds
    [isExpanded = false], [_branchSize = 0], [_children = null]. *)
Definition construct (c : Class) (parent : option N) (fileName : JsVal) : M N :=
  let! uid := gets nextId in
  modify (λ s, set_nextId (uid + 1)%N s) ;;
  let! depth := match parent with
                | Some p => let! pe := obj p in ret (S (_depth pe))
                | None => ret 0%nat
                end in
  let fname := match parent, fileName with
               | Some _, JStr f => Some f
               | _, _ => None
               end in
  modify (λ s, set_heap (<[uid := mkEntry c uid fname parent depth false None 0 None
                                          false None false None]> (heap s)) s) ;;
  modify (λ s, set_idToFileEntry ({[uid]} ∪ idToFileEntry s) s) ;;
  ret uid.

(** [new (type === FileType.Directory ? Directory : FileEntry)(root, superv, parent, name)] *)
Definition construct_child (parent : N) (type name : JsVal) : M N :=
  construct (if bool_decide (type = JNum (FileType_code Directory)) then CDirectory
             else CFileEntry) (Some parent) name.

(** The [type] getter. *)
Definition type_of (e : Entry) : FileType :=
  if instanceof_Directory (cls e) then Directory else File.

(** The [expanded] getter: [isExpanded], but always [true] on the root. *)
Definition expanded (e : Entry) : bool :=
  match cls e with CRoot => true | _ => isExpanded e end.

(** The [path] getter, with its memo [resolvedPathCache] (an empty
    string in the memo is falsy and recomputed); [Root] overrides the
    getter with [rootPath]. *)
Fixpoint path (fuel : nat) (this : N) : M string :=
  match fuel with
  | O => diverge
  | S fuel =>
      let! e := obj this in
      match cls e with
      | CRoot => gets rootPath
      | _ =>
          match _parent e with
          | None => throw (Error "orphaned/detached FileEntries don't have path (except Root)")
          | Some p =>
              match resolvedPathCache e with
              | Some (String c r) => ret (String c r)
              | _ =>
                  let! v := match _fileName e with
                            | None => throw (TypeError "path-fx: path must be a string")
                            | Some f =>
                                if isRelative pathfx f
                                then let! pp := path fuel p in ret (join pathfx pp f)
                                else ret f
                            end in
                  update this (with_resolvedPathCache (Some v)) ;;
                  ret v
              end
          end
      end
  end.

(** [Root.isItemVisibleAtSurface] *)
Definition isItemVisibleAtSurface (item : N) : M bool :=
  let! r := gets rootId in
  if decide (item = r) then ret true
  else
    let! re := obj r in
    match flattenedBranch re with
    | None => throw (TypeError "Cannot read property 'indexOf' of undefined")
    | Some fb => ret (bool_decide (indexOf fb item > -1))
    end.

(** The supervisor handed to every node.  The one-shot watcher tables hold
    caller-supplied callbacks and are left out; what remains of each
    [notify...] is the dispatch on the event hub. *)
Definition notifyWillChangeExpansionState (t : N) (nowExpanded : bool) : M unit :=
  dispatch (WillChangeExpansionState t nowExpanded).

Definition notifyDidChangeExpansionState (t : N) (nowExpanded : bool) : M unit :=
  let! vis := isItemVisibleAtSurface t in
  dispatch (DidChangeExpansionState t nowExpanded vis).

Definition supervisedWatch (p : string) (callbackOwner : N) : M WatchTerminator :=
  let p := normalize pathfx p in
  let terminator := if watch host then HostTerminator else TerminateWatch in
  modify (λ s, set_fswatchers (<[p := callbackOwner]> (fswatchers s)) s) ;;
  ret terminator.

(** [this.watchTerminator(p)].  [terminateWatch] runs with [this] bound to
    the directory it is called on: only on the root does [this.fswatchers]
    exist. *)
Definition call_watchTerminator (this : N) (w : WatchTerminator) (p : string) : M unit :=
  match w with
  | HostTerminator => ret tt
  | TerminateWatch =>
      let! e := obj this in
      match cls e with
      | CRoot => modify (λ s, set_fswatchers (delete (normalize pathfx p) (fswatchers s)) s)
      | _ => throw (TypeError "Cannot read property 'delete' of undefined")
      end
  end.

(** [setFlattenedBranch]; the root's override also dispatches
    [BranchDidUpdate]. *)
Definition setFlattenedBranch (this : N) (leaves : option (list N)) : M unit :=
  let! e := obj this in
  update this (with_flattenedBranch leaves) ;;
  match cls e with
  | CRoot => dispatch BranchDidUpdate
  | _ => ret tt
  end.

Definition lift_range {A} (o : option A) : M A :=
  match o with
  | Some a => ret a
  | None => throw (RangeError "offset is out of bounds")
  end.

(** [expandBranch] *)
Fixpoint expandBranch (fuel : nat) (this branch : N) : M unit :=
  match fuel with
  | O => diverge
  | S fuel =>
      let! b := obj branch in
      when (negb (bool_decide (this = branch)))
           (update this (λ e, with_branchSize (_branchSize e + _branchSize b) e)) ;;
      let! e := obj this in
      match negb (bool_decide (this = branch)), flattenedBranch e with
      | true, Some fb =>
          let injectionStartIdx := indexOf fb branch + 1 in
          let! b := obj branch in
          let! spliced := lift_range (spliceTypedArray fb injectionStartIdx 0 (flattenedBranch b)) in
          setFlattenedBranch this (Some spliced) ;;
          setFlattenedBranch branch None
      | _, _ =>
          match _parent e with
          | Some p => expandBranch fuel p branch
          | None => ret tt
          end
      end
  end.

(** [shrinkBranch] *)
Fixpoint shrinkBranch (fuel : nat) (this branch : N) : M unit :=
  match fuel with
  | O => diverge
  | S fuel =>
      let! b := obj branch in
      when (negb (bool_decide (this = branch)))
           (update this (λ e, with_branchSize (_branchSize e - _branchSize b) e)) ;;
      let! e := obj this in
      match negb (bool_decide (this = branch)), flattenedBranch e with
      | true, Some fb =>
          let removalStartIdx := indexOf fb branch + 1 in
          let returned := ta_slice fb removalStartIdx (removalStartIdx + _branchSize b) in
          setFlattenedBranch branch (Some returned) ;;
          let! spliced := lift_range (spliceTypedArray fb removalStartIdx
                                        (Z.of_nat (length returned)) None) in
          setFlattenedBranch this (Some spliced)
      | _, _ =>
          match _parent e with
          | Some p => shrinkBranch fuel p branch
          | None => ret tt
          end
      end
  end.

(** [dispose]: [FileEntry.dispose] unregisters the id; [Directory.dispose]
    first stops the watcher and disposes of the loaded children. *)
Definition FileEntry_dispose (this : N) : M unit :=
  let! e := obj this in
  if _disposed e then ret tt
  else
    dispatch (WillDispose this) ;;
    update this (with_disposed true) ;;
    modify (λ s, set_idToFileEntry (idToFileEntry s ∖ {[this]}) s) ;;
    dispatch (DidDispose this).

Fixpoint dispose (fuel : nat) (this : N) : M unit :=
  match fuel with
  | O => diverge
  | S fuel =>
      let! e := obj this in
      match cls e with
      | CFileEntry => FileEntry_dispose this
      | _ =>
          match watchTerminator e with
          | Some w => let! p := path (S fuel) this in call_watchTerminator this w p
          | None => ret tt
          end ;;
          match _children e with
          | Some cs => forEach cs (dispose fuel)
          | None => ret tt
          end ;;
          FileEntry_dispose this
      end
  end.

(** [hardReloadChildren], in two halves: up to the [await] of
    [host.getItems], and from the host's answer on.  [hardReloadPromise]
    is [true] while a reload is pending.  When the first half finds a
    reload already pending it hands back that promise, and nothing is
    left to resume: it answers [false]. *)
Definition hardReloadChildren_begin (fuel : nat) (this : N) : M bool :=
  let! e := obj this in
  if hardReloadPromise e then ret false
  else
    update this (with_hardReloadPromise true) ;;
    let! p := path fuel this in
    modify (λ s, set_hostCalls (hostCalls s ++ [p]) s) ;;
    ret true.

Definition validation_enabled : bool :=
  process_defined env && negb (bool_decide (NODE_ENV env = JStr "production")).

(** One turn of the loop that builds the children. *)
Definition load_child (this : N) (file : RawItem) : M unit :=
  when validation_enabled (checkRawFile file) ;;
  let! tn := destructure file in
  let! child := construct_child this tn.1 tn.2 in
  update this (λ e, with_children (Some (default [] (_children e) ++ [child])) e).

Definition defaultSortComparator (a b : Entry) : Z :=
  if decide (cls a = cls b) then
    match _fileName a, _fileName b with
    | Some x, Some y =>
        match String.compare x y with Gt => 1 | Lt => -1 | Eq => 0 end
    | _, _ => 0
    end
  else if decide (cls a = CDirectory) then -1
  else if decide (cls b = CDirectory) then 1
  else 0.

(** [this._children.sort(this.root.host.sortComparator || Directory.defaultSortComparator)] *)
Definition sort_children (this : N) : M unit :=
  let! e := obj this in
  match _children e with
  | None => throw (TypeError "Cannot read property 'sort' of null")
  | Some cs =>
      let! h := gets heap in
      match mapM (λ c, h !! c) cs with
      | None => throw (TypeError "dangling reference")
      | Some es =>
          let cmp := default defaultSortComparator (sortComparator host) in
          update this (with_children (Some (_uid <$> arr_sort cmp es)))
      end
  end.

(** The array [this._children = Array(n)] is filled front to back; the
    model keeps the part filled so far. *)
Definition hardReloadChildren_resume (fuel : nat) (this : N)
    (rawItems : option (list RawItem)) : M unit :=
  let rawItems := default [] rawItems in
  let! e := obj this in
  match _children e with
  | Some _ => shrinkBranch fuel this this
  | None => ret tt
  end ;;
  update this (with_children (Some [])) ;;
  forEach rawItems (load_child this) ;;
  sort_children this ;;
  let! e := obj this in
  let flatTree := u32 <$> default [] (_children e) in
  update this (with_branchSize (Z.of_nat (length flatTree))) ;;
  setFlattenedBranch this (Some flatTree) ;;
  let! p := path fuel this in
  match watchTerminator e with
  | Some w => call_watchTerminator this w p
  | None => ret tt
  end ;;
  let! w := supervisedWatch p this in
  update this (with_watchTerminator (Some w)) ;;
  update this (with_hardReloadPromise false).

(** A reload run to completion: the host answers at once.  When a
    reload is found pending the call hands back the promise of that
    earlier reload, which settles only when the earlier reload is resumed
    with its host's answer ([hardReloadChildren_resume]), or never, if it
    has failed: nothing in this call settles it, and the call is taken
    not to return. *)
Definition hardReloadChildren (fuel : nat) (this : N) : M unit :=
  let! started := hardReloadChildren_begin fuel this in
  if started : bool then
    let! p := path fuel this in
    hardReloadChildren_resume fuel this (getItems host p)
  else diverge.

(** A [FileEntry] has none of the directory methods. *)
Definition not_a_function {A} : M A :=
  throw (TypeError "is not a function").

Definition ensureLoaded (fuel : nat) (this : N) : M unit :=
  let! e := obj this in
  match cls e with
  | CFileEntry => not_a_function
  | _ =>
      match _children e with
      | Some _ => ret tt
      | None => hardReloadChildren fuel this
      end
  end.

(** [Directory.prototype.setExpanded] from the point where the children
    are loaded: the liveness check, the expansion of the ancestors, the
    donation walk.  [parent_setExpanded] is [this.parent.setExpanded]. *)
Definition setExpanded_loaded (parent_setExpanded : N → bool → M unit) (fuel : nat)
    (this : N) (ensureVisible : bool) : M unit :=
  let! e := obj this in
  let! r := gets rootId in
  match _parent e with
  | Some p => when (ensureVisible && negb (bool_decide (p = r))) (parent_setExpanded p true)
  | None => ret tt
  end ;;
  let! e := obj this in
  when (isExpanded e)
       (notifyWillChangeExpansionState this true ;;
        expandBranch fuel this this ;;
        notifyDidChangeExpansionState this true).

(** [Directory.prototype.setExpanded]; a call on the root lands in the
    root's override, which does nothing. *)
Fixpoint Directory_setExpanded (fuel : nat) (this : N) (ensureVisible : bool) : M unit :=
  match fuel with
  | O => diverge
  | S fuel =>
      let! e := obj this in
      if isExpanded e then ret tt
      else
        update this (with_isExpanded true) ;;
        let! stillExpanded :=
           match _children e with
           | None => hardReloadChildren (S fuel) this ;;
                     let! e := obj this in ret (isExpanded e)
           | Some _ => ret true
           end in
        if stillExpanded : bool then
          setExpanded_loaded
            (λ p ev, let! pe := obj p in
                     match cls pe with
                     | CRoot => ret tt
                     | CDirectory => Directory_setExpanded fuel p ev
                     | CFileEntry => not_a_function
                     end)
            (S fuel) this ensureVisible
        else ret tt
  end.

(** [setExpanded] as dispatched on the receiver's class. *)
Definition setExpanded (fuel : nat) (this : N) (ensureVisible : bool) : M unit :=
  let! e := obj this in
  match cls e with
  | CRoot => ret tt
  | CDirectory => Directory_setExpanded fuel this ensureVisible
  | CFileEntry => not_a_function
  end.

Definition Directory_setCollapsed (fuel : nat) (this : N) : M unit :=
  let! e := obj this in
  if negb (isExpanded e) then ret tt
  else
    match _children e, _parent e with
    | Some _, Some _ =>
        notifyWillChangeExpansionState this false ;;
        shrinkBranch fuel this this
    | _, _ => ret tt
    end ;;
    update this (with_isExpanded false) ;;
    notifyDidChangeExpansionState this false.

Definition setCollapsed (fuel : nat) (this : N) : M unit :=
  let! e := obj this in
  match cls e with
  | CRoot => ret tt
  | CDirectory => Directory_setCollapsed fuel this
  | CFileEntry => not_a_function
  end.

(** The [while (!master.flattenedBranch)] walk of [insertItem] and
    [unlinkItem]: [delta] is added to the size of every directory stepped
    onto.  A directory with neither an array nor a parent spins forever. *)
Fixpoint find_master (fuel : nat) (master : N) (delta : Z) : M N :=
  match fuel with
  | O => diverge
  | S fuel =>
      let! e := obj master in
      match flattenedBranch e with
      | Some _ => ret master
      | None =>
          match _parent e with
          | Some p =>
              update p (λ pe, with_branchSize (_branchSize pe + delta) pe) ;;
              find_master fuel p delta
          | None => find_master fuel master delta
          end
      end
  end.

(** [1 + ((item instanceof Directory && item.expanded) ? item._branchSize : 0)] *)
Definition branch_weight (it : Entry) : Z :=
  1 + (if instanceof_Directory (cls it) && expanded it then _branchSize it else 0).

Section OpenRecursion.
(** [insertItem], [unlinkItem] and [mv] call one another; they are first
    written against [item.mv], then closed by [mv] below. *)
Variable item_mv : N → option N → option string → M unit.

Definition insertItem_body (fuel : nat) (this item : N) : M unit :=
  let! it := obj item in
  if negb (bool_decide (_parent it = Some this)) then item_mv item (Some this) (_fileName it)
  else
    let! e := obj this in
    match _children e with
    | None => throw (TypeError "Cannot read property 'indexOf' of null")
    | Some cs =>
        if bool_decide (arr_indexOf cs item > -1) then ret tt
        else
          let branchSizeIncrease := branch_weight it in
          update this (with_children (Some (cs ++ [item]))) ;;
          sort_children this ;;
          update this (λ e, with_branchSize (_branchSize e + branchSizeIncrease) e) ;;
          let! master := find_master fuel this branchSizeIncrease in
          let! e := obj this in
          let cs := default [] (_children e) in
          let relativeInsertionIndex := arr_indexOf cs item in
          let! me := obj master in
          let fb := default [] (flattenedBranch me) in
          let! relativeInsertionIndex :=
             match arr_get cs (relativeInsertionIndex - 1) with
             | Some leadingSibling =>
                 let! ls := obj leadingSibling in
                 let siblingIdx := indexOf fb leadingSibling in
                 ret (siblingIdx + (if instanceof_Directory (cls ls) && expanded ls
                                    then _branchSize ls else 0))
             | None => ret (indexOf fb this)
             end in
          let absInsertionIndex := relativeInsertionIndex + 1 in
          let! branch := lift_range (ta_new branchSizeIncrease) in
          let branch := ta_store0 branch item in
          let! it := obj item in
          let! branch :=
             match instanceof_Directory (cls it) && expanded it, flattenedBranch it with
             | true, Some ifb =>
                 let! branch := lift_range (ta_set branch ifb 1) in
                 setFlattenedBranch item None ;;
                 ret branch
             | _, _ => ret branch
             end in
          let! me := obj master in
          match flattenedBranch me with
          | None => throw (TypeError "Cannot read property 'length' of null")
          | Some fb =>
              let! spliced := lift_range (spliceTypedArray fb absInsertionIndex 0 (Some branch)) in
              setFlattenedBranch master (Some spliced)
          end
    end.

Definition unlinkItem_body (fuel : nat) (this item : N) (reparenting : bool) : M unit :=
  let! e := obj this in
  match _children e with
  | None => throw (TypeError "Cannot read property 'indexOf' of null")
  | Some cs =>
      let idx := arr_indexOf cs item in
      if bool_decide (idx = -1) then ret tt
      else
        update this (with_children (Some (arr_remove cs idx))) ;;
        let! it := obj item in
        let branchSizeDecrease := branch_weight it in
        update this (λ e, with_branchSize (_branchSize e - branchSizeDecrease) e) ;;
        let! master := find_master fuel this (- branchSizeDecrease) in
        let! me := obj master in
        let fb := default [] (flattenedBranch me) in
        let removalBeginIdx := indexOf fb item in
        if bool_decide (removalBeginIdx = -1) then ret tt
        else
          when (instanceof_Directory (cls it) && expanded it)
               (setFlattenedBranch item
                  (Some (ta_slice fb (removalBeginIdx + 1)
                                  (removalBeginIdx + branchSizeDecrease)))) ;;
          let! me := obj master in
          match flattenedBranch me with
          | None => throw (TypeError "Cannot read property 'length' of null")
          | Some fb =>
              let! spliced := lift_range (spliceTypedArray fb removalBeginIdx
                                            branchSizeDecrease None) in
              setFlattenedBranch master (Some spliced) ;;
              let! it := obj item in
              when (negb reparenting && bool_decide (_parent it = Some this))
                   (item_mv item None None)
          end
  end.

(** [FileEntry.prototype.mv].  [fname = None] stands for an omitted
    argument, replaced by [this.fileName]. *)
Definition FileEntry_mv (fuel : nat) (this : N) (to : option N) (fname : option string)
    : M unit :=
  let! e := obj this in
  let fname := match fname with Some f => Some f | None => _fileName e end in
  let prevParent := _parent e in
  let! dest := match to with
               | None => ret None
               | Some t => let! te := obj t in
                           ret (match type_of te with Directory => Some (t, te) | File => None end)
               end in
  match dest with
  | None =>
      dispose fuel this ;;
      update this (with_parent None) ;;
      match prevParent with
      | Some pp => unlinkItem_body fuel pp this false
      | None => throw (TypeError "Cannot read property 'unlinkItem' of null")
      end
  | Some (t, te) =>
      let didChangeParent := negb (bool_decide (prevParent = Some t)) in
      let! prevPath := path fuel this in
      update this (with_resolvedPathCache None) ;;
      update this (with_depth (S (_depth te))) ;;
      when (didChangeParent || negb (bool_decide (fname = _fileName e)))
           (update this (with_fileName fname) ;;
            when didChangeParent (dispatch (WillChangeParent this prevParent (Some t))) ;;
            match prevParent with
            | Some pp => unlinkItem_body fuel pp this true
            | None => throw (TypeError "Cannot read property 'unlinkItem' of null")
            end ;;
            update this (with_parent (Some t)) ;;
            insertItem_body fuel t this ;;
            when didChangeParent (dispatch (DidChangeParent this prevParent (Some t)))) ;;
      let! newPath := path fuel this in
      when (negb (bool_decide (newPath = prevPath))) (dispatch (DidChangePath this))
  end.

(** [Directory.prototype.mv].  The loop over [this._children] never
    changes that array (each child keeps its parent and its name). *)
Definition Directory_mv (fuel : nat) (this : N) (to : option N) (newName : option string)
    : M unit :=
  let! prevPath := path fuel this in
  FileEntry_mv fuel this to newName ;;
  let! e := obj this in
  if _disposed e then ret tt
  else
    match watchTerminator e with
    | Some w =>
        call_watchTerminator this w prevPath ;;
        match _children e with
        | Some _ =>
            let! p := path fuel this in
            let! w := supervisedWatch p this in
            update this (with_watchTerminator (Some w))
        | None => ret tt
        end
    | None => ret tt
    end ;;
    match _children e with
    | Some cs =>
        forEach cs (λ child, let! ce := obj child in
                             item_mv child (_parent ce) (_fileName ce))
    | None => ret tt
    end.

End OpenRecursion.

(** [x.mv(to, newName)] as dispatched on the class of [x]. *)
Fixpoint mv (fuel : nat) (this : N) (to : option N) (newName : option string) : M unit :=
  match fuel with
  | O => diverge
  | S fuel' =>
      let! e := obj this in
      match cls e with
      | CFileEntry => FileEntry_mv (mv fuel') fuel this to newName
      | _ => Directory_mv (mv fuel') fuel this to newName
      end
  end.

Definition insertItem (fuel : nat) (this item : N) : M unit :=
  let! e := obj this in
  match cls e with
  | CFileEntry => not_a_function
  | _ => insertItem_body (mv fuel) fuel this item
  end.

Definition unlinkItem (fuel : nat) (this item : N) (reparenting : bool) : M unit :=
  let! e := obj this in
  match cls e with
  | CFileEntry => not_a_function
  | _ => unlinkItem_body (mv fuel) fuel this item reparenting
  end.

(** [children.find((c) => c.fileName === fileName)] *)
Definition find_child (h : gmap N Entry) (cs : list N) (fileName : string) : option N :=
  list_find (λ c, (h !! c) ≫= _fileName = Some fileName) cs ≫= (λ r, Some r.2).

(** [Root.walkPathTillRelative]: strip the root's own fragments off the
    front.  A [while (x = frags.shift())] loop also stops at an empty
    fragment. *)
Fixpoint strip_prefix (path : string) (rootPrefix pathfrags : list string)
    : M (list string) :=
  match rootPrefix with
  | [] => ret pathfrags
  | nextRootFrag :: rootPrefix =>
      if bool_decide (nextRootFrag = "") then ret pathfrags
      else match pathfrags with
           | f :: pathfrags' =>
               if bool_decide (nextRootFrag = f) then strip_prefix path rootPrefix pathfrags'
               else throw (Error (path +:+ " stopped matching"))
           | [] => throw (Error (path +:+ " stopped matching"))
           end
  end.

Definition walkPathTillRelative (path : string) : M (list string) :=
  let! rp := gets rootPath in
  strip_prefix path (splitPath pathfx rp) (splitPath pathfx path).

(** The loop of [Root.findFileEntryInLoadedTree]; [None] is the [null]
    (or [undefined]) the method may answer. *)
Fixpoint find_in_loaded (path : string) (pathfrags : list string) (next : option (list N))
    : M (option N) :=
  match pathfrags with
  | [] => ret None
  | fileName :: pathfrags =>
      if bool_decide (fileName = "") then ret None
      else
        match next with
        | None => throw (TypeError "Cannot read property 'find' of null")
        | Some cs =>
            let! h := gets heap in
            match find_child h cs fileName with
            | None => throw (Error (path +:+ " not found"))
            | Some item =>
                let! ie := obj item in
                match pathfrags, type_of ie with
                | [], _ => ret (Some item)
                | _ :: _, File => throw (Error (path +:+ " not found"))
                | _ :: _, Directory =>
                    match _children ie with
                    | None => ret None
                    | Some cs' => find_in_loaded path pathfrags (Some cs')
                    end
                end
            end
        end
  end.

Definition findFileEntryInLoadedTree (path : string) : M (option N) :=
  let! pathfrags := if isRelative pathfx path then ret (splitPath pathfx path)
                    else walkPathTillRelative path in
  let! r := gets rootId in
  match pathfrags with
  | [] => ret (Some r)
  | _ =>
      let! re := obj r in
      find_in_loaded path pathfrags (_children re)
  end.

(** [Directory.transferItem] *)
Definition transferItem (fuel : nat) (this : N) (oldPath newPath : string) : M unit :=
  let from := dirname pathfx oldPath in
  let! thisPath := path fuel this in
  if negb (bool_decide (from = thisPath)) then ret tt
  else
    let fileName := basename pathfx oldPath in
    let! e := obj this in
    match _children e with
    | None => throw (TypeError "Cannot read property 'find' of null")
    | Some cs =>
        let! h := gets heap in
        match find_child h cs fileName with
        | None => ret tt
        | Some item =>
            let to := dirname pathfx newPath in
            let! destDir := if bool_decide (to = from) then ret (Some this)
                            else findFileEntryInLoadedTree to in
            let! isDir := match destDir with
                          | None => ret false
                          | Some d => let! de := obj d in ret (instanceof_Directory (cls de))
                          end in
            if negb isDir then unlinkItem fuel this item false
            else mv fuel item destDir (Some (basename pathfx newPath))
        end
    end.

(** A call whose promise nobody awaits: a failure inside it does not
    reach the caller. *)
Definition unawaited {A} (m : M A) : M unit :=
  λ s, match m s with
       | Ok _ s' => Ok tt s'
       | Throw _ s' => Ok tt s'
       | Diverge => Diverge
       end.

(** [Directory.handleWatchEvent].  The function is [async] and holds no
    [await]: the reload started for a generic change is left pending. *)
Definition handleWatchEvent (fuel : nat) (this : N) (event : WatchEvent) : M unit :=
  dispatch (WillProcessWatchEvent this event) ;;
  match event with
  | Moved oldPath newPath =>
      match oldPath, newPath with
      | JStr o, JStr n =>
          if isRelative pathfx o then throw (TypeError "oldPath must be absolute")
          else if isRelative pathfx n then throw (TypeError "newPath must be absolute")
          else transferItem fuel this o n
      | JStr _, _ => throw (TypeError "Expected newPath to be a string")
      | _, _ => throw (TypeError "Expected oldPath to be a string")
      end
  | Added _ file =>
      checkRawFile file ;;
      let! tn := destructure file in
      let! newItem := construct_child this tn.1 tn.2 in
      insertItem fuel this newItem
  | Removed p =>
      let dirName := dirname pathfx p in
      let fileName := basename pathfx p in
      let! thisPath := path fuel this in
      when (bool_decide (dirName = thisPath))
           (let! e := obj this in
            match _children e with
            | None => throw (TypeError "Cannot read property 'find' of null")
            | Some cs =>
                let! h := gets heap in
                match find_child h cs fileName with
                | Some item => unlinkItem fuel this item false
                | None => ret tt
                end
            end)
  | Changed _ =>
      let! e := obj this in
      match _children e with
      | None => throw (TypeError "Cannot read property 'length' of null")
      | Some cs => forEach cs (dispose fuel)
      end ;;
      unawaited (hardReloadChildren_begin fuel this)
  end ;;
  dispatch (DidProcessWatchEvent this event).

(** ** Root.ts *)

(** [new Root(host, root)], which runs [super.setExpanded()] up to its
    first [await]: the root comes back unloaded, with its reload pending.
    The new root has a queue and a watcher table of its own, both empty,
    and no timer ([eventFlushTimeout] is declared and left undefined). *)
Definition Root_constructor (root : string) : M N :=
  if isRelative pathfx root
  then throw (Error "Root path must be absolute. Example: 'C:\\Users\\Desktop' or '/home/desktop'")
  else
    let! this := construct CRoot None JNull in
    modify (set_root this root) ;;
    modify (set_queue []) ;;
    modify (set_fswatchers ∅) ;;
    modify (set_eventFlushTimeout false) ;;
    update this (with_isExpanded true) ;;
    unawaited (hardReloadChildren_begin 1 this) ;;
    ret this.

(** The rest of the constructor's [super.setExpanded()], once the host
    has answered. *)
Definition Root_constructor_resume (fuel : nat) (this : N)
    (rawItems : option (list RawItem)) : M unit :=
  hardReloadChildren_resume fuel this rawItems ;;
  let! e := obj this in
  when (isExpanded e)
       (setExpanded_loaded (λ p ev, setExpanded fuel p ev) fuel this true).

(** The root's constructor with a host that answers at once. *)
Definition Root_new (fuel : nat) (root : string) : M N :=
  let! this := Root_constructor root in
  Root_constructor_resume fuel this (getItems host root) ;;
  ret this.

Definition expandDirectory (fuel : nat) (directory : N) (ensureVisible : bool) : M unit :=
  setExpanded fuel directory ensureVisible.

Definition collapseDirectory (fuel : nat) (directory : N) : M unit :=
  setCollapsed fuel directory.

(** [FileEntry.getFileEntryById]: [Map.prototype.get], [None] for
    [undefined]. *)
Definition getFileEntryById (id : option N) : M (option N) :=
  match id with
  | None => ret None
  | Some i => let! reg := gets idToFileEntry in
              ret (if decide (i ∈ reg) then Some i else None)
  end.

(** [Root.getFileEntryAtIndex] *)
Definition getFileEntryAtIndex (index : Z) : M (option N) :=
  let! r := gets rootId in
  let! re := obj r in
  match flattenedBranch re with
  | None => throw (TypeError "Cannot read property of undefined")
  | Some fb => getFileEntryById (arr_get fb index)
  end.

Definition getIndexAtFileEntryID (id : N) : M Z :=
  let! r := gets rootId in
  let! re := obj r in
  match flattenedBranch re with
  | None => throw (TypeError "Cannot read property 'indexOf' of undefined")
  | Some fb => ret (indexOf fb id)
  end.

(** [Root.queueChangeEvent]: [clearTimeout] drops the pending debounce
    timer, [setTimeout(this.flushEventQueue, 150)] arms a new one, then the
    path joins the queue unless it is there. *)
Definition queueChangeEvent (abspath : string) : M unit :=
  modify (set_eventFlushTimeout false) ;;
  modify (set_eventFlushTimeout true) ;;
  let! q := gets changeEventDispatchQueue in
  when (negb (bool_decide (abspath ∈ q))) (modify (set_queue (q ++ [abspath]))).


Definition dispatchWatchEvent (fuel : nat) (p : string) (event : WatchEvent) : M unit :=
  let! ws := gets fswatchers in
  match ws !! normalize pathfx p with
  | Some owner => unawaited (handleWatchEvent fuel owner event)
  | None => ret tt
  end.

(** The comparator [flushEventQueue] sorts with. *)
Definition depth_order (pathA pathB : string) : Z :=
  pathDepth pathfx pathA - pathDepth pathfx pathB.

(** The order the flush puts the queued paths in. *)
Definition shallower (a b : string) : Prop := pathDepth pathfx a <= pathDepth pathfx b.

(** [Root.flushEventQueue]: the queue is sorted and emptied, then the
    callbacks run in series, each awaited before the next starts. *)
Definition flushEventQueue (fuel : nat) : M unit :=
  let! q := gets changeEventDispatchQueue in
  match q with
  | [] => ret tt
  | _ =>
      let sorted := arr_sort depth_order q in
      modify (set_queue []) ;;
      forEach sorted (λ p,
        let! ws := gets fswatchers in
        match ws !! p with
        | Some owner => handleWatchEvent fuel owner (Changed p)
        | None => ret tt
        end)
  end.

(** [Root.inotify] *)
Definition inotify (fuel : nat) (event : WatchEvent) : M unit :=
  match event with
  | Moved (JStr oldPath) _ => dispatchWatchEvent fuel (dirname pathfx oldPath) event
  | Moved _ _ => throw (TypeError "path-fx: path must be a string")
  | Removed p => dispatchWatchEvent fuel (dirname pathfx p) event
  | Added directory _ => dispatchWatchEvent fuel directory event
  | Changed directory => queueChangeEvent directory
  end.

End Methods.

(** ** A concrete setting for worked examples *)

(** A POSIX-style stand-in for [path-fx]: fragments are the non-empty
    pieces between slashes. *)
Fixpoint split_slash (acc : string) (p : string) : list string :=
  match p with
  | EmptyString => [acc]
  | String c p' =>
      if decide (c = "/"%char) then acc :: split_slash "" p'
      else split_slash (acc +:+ String c "") p'
  end.

Definition unix_splitPath (p : string) : list string :=
  filter (λ f, f ≠ "") (split_slash "" p).

Definition unix_join_frags (fs : list string) : string :=
  foldr (λ f acc, "/" +:+ f +:+ acc) "" fs.

Definition unix_isRelative (p : string) : bool :=
  match p with String "/" _ => false | _ => true end.

Definition unix_normalize (p : string) : string :=
  match unix_splitPath p with
  | [] => if unix_isRelative p then "." else "/"
  | fs => if unix_isRelative p then String.concat "/" fs else unix_join_frags fs
  end.

Definition unix_dirname (p : string) : string :=
  match removelast (unix_splitPath p) with
  | [] => if unix_isRelative p then "." else "/"
  | fs => if unix_isRelative p then String.concat "/" fs else unix_join_frags fs
  end.

Definition unix_basename (p : string) : string :=
  default "" (last (unix_splitPath p)).

Definition unix_join (a b : string) : string :=
  unix_normalize (a +:+ "/" +:+ b).

Definition unix : PathFx :=
  mkPathFx unix_isRelative unix_dirname unix_basename unix_join unix_normalize
           unix_splitPath (λ p, Z.of_nat (length (unix_splitPath p))).

Definition dev : Env := mkEnv true (JStr "development").
Definition browser : Env := mkEnv false JUndefined.

Definition file_item (name : string) : RawItem :=
  RawObj (JNum (FileType_code File)) (JStr name).
Definition dir_item (name : string) : RawItem :=
  RawObj (JNum (FileType_code Directory)) (JStr name).

(** The state of a fresh process: no object yet, ids start at 0. *)
Definition fresh : State := mkState ∅ 0 ∅ 0 "" ∅ [] [] [] false.

(** What an outcome leaves behind. *)
Definition state_of {A} (o : Outcome A) : option State :=
  match o with Ok _ s => Some s | Throw _ s => Some s | Diverge => None end.

Definition is_Ok {A} (o : Outcome A) : bool :=
  match o with Ok _ _ => true | _ => false end.

Definition is_Throw {A} (o : Outcome A) : bool :=
  match o with Throw _ _ => true | _ => false end.

(** Run [m] from the state an earlier outcome ended in. *)
Definition and_then {A B} (o : Outcome A) (m : M B) : Outcome B :=
  match o with
  | Ok _ s => m s
  | Throw e s => Throw e s
  | Diverge => Diverge
  end.

(** What [f] reads in the state an outcome ended in. *)
Definition after {A B} (o : Outcome A) (f : State → option B) : option B :=
  state_of o ≫= f.

(** Field reads on a state, for stating examples. *)
Definition flat_of (s : State) (id : N) : option (list N) :=
  heap s !! id ≫= flattenedBranch.
Definition size_of (s : State) (id : N) : option Z :=
  _branchSize <$> heap s !! id.
Definition children_of (s : State) (id : N) : option (list N) :=
  heap s !! id ≫= _children.
Definition name_of (s : State) (id : N) : option string :=
  heap s !! id ≫= _fileName.

(** *** The tree [/root/{a/{c.txt}, b.txt}] *)
Definition host_abc : Host :=
  mkHost (λ p, if decide (p = "/root") then Some [file_item "b.txt"; dir_item "a"]
               else if decide (p = "/root/a") then Some [file_item "c.txt"]
               else Some [])
         None true.

Definition abc_loaded : Outcome N := Root_new unix host_abc dev 8 "/root" fresh.
Definition abc_expanded : Outcome unit :=
  and_then abc_loaded (expandDirectory unix host_abc dev 8 2 true).
Definition abc_collapsed : Outcome unit :=
  and_then abc_expanded (collapseDirectory 8 2).

(** The names of the rows the root exposes, top to bottom. *)
Definition rows (s : State) : option (list (option string)) :=
  match flat_of s (rootId s) with
  | Some fb => Some (map (name_of s) fb)
  | None => None
  end.

(** The same tree, the root's items listed in the order [items]. *)
Definition host_listing (items : list RawItem) : Host :=
  mkHost (λ p, if decide (p = "/root") then Some items
               else if decide (p = "/root/a") then Some [file_item "c.txt"]
               else Some [])
         None true.

(** Expanding the entry shown in row [index]. *)
Definition expand_row (host : Host) (index : Z) : M unit :=
  let! r := getFileEntryAtIndex index in
  match r with
  | Some id => expandDirectory unix host dev 8 id true
  | None => throw (Error "no such row")
  end.

(** The lexicographic order on names, by character codes. *)
Inductive lex_lt : string → string → Prop :=
| lex_lt_nil c s : lex_lt "" (String c s)
| lex_lt_head c d s t :
    (Ascii.N_of_ascii c < Ascii.N_of_ascii d)%N → lex_lt (String c s) (String d t)
| lex_lt_tail c s t : lex_lt s t → lex_lt (String c s) (String c t).

(** *** The tree [/root/p/d/x], every directory loaded and collapsed *)
Definition host_pdx : Host :=
  mkHost (λ p, if decide (p = "/root") then Some [dir_item "p"]
               else if decide (p = "/root/p") then Some [dir_item "d"]
               else if decide (p = "/root/p/d") then Some [file_item "x"]
               else Some [])
         None true.

Definition pdx_loaded : Outcome unit :=
  and_then (and_then (Root_new unix host_pdx dev 8 "/root" fresh)
                     (ensureLoaded unix host_pdx dev 8 1))
           (ensureLoaded unix host_pdx dev 8 2).
Definition pdx_expanded (ensureVisible : bool) : Outcome unit :=
  and_then pdx_loaded (setExpanded unix host_pdx dev 8 2 ensureVisible).
Definition pdx_round_trip (ensureVisible : bool) : Outcome unit :=
  and_then (pdx_expanded ensureVisible) (setCollapsed 8 2).

(** *** A generic change under the collapsed, loaded directory [p] of the
    tree [/root/p/d/x]: the event is queued, the queue flushed, and the
    host answers the reload the flush started *)
Definition pdx_changed : Outcome unit :=
  and_then
    (and_then
       (and_then
          (and_then (Root_new unix host_pdx dev 8 "/root" fresh)
                    (ensureLoaded unix host_pdx dev 8 1))
          (inotify unix host_pdx 8 (Changed "/root/p")))
       (flushEventQueue unix host_pdx 8))
    (hardReloadChildren_resume unix host_pdx dev 8 1 (getItems host_pdx "/root/p")).

(** *** The same change one level down, under the collapsed, loaded
    directory [d] of the fully loaded tree *)
Definition pdx_d_changed : Outcome unit :=
  and_then
    (and_then
       (and_then pdx_loaded (inotify unix host_pdx 8 (Changed "/root/p/d")))
       (flushEventQueue unix host_pdx 8))
    (hardReloadChildren_resume unix host_pdx dev 8 2 (getItems host_pdx "/root/p/d")).


(** [name] is a string and [type] is [File] or [Directory]. *)
Definition well_formed (file : RawItem) : bool :=
  match file with
  | RawObj type name =>
      (bool_decide (type = JNum (FileType_code File))
       || bool_decide (type = JNum (FileType_code Directory)))
      && is_string name
  | _ => false
  end.

(** *** The tree [/root/a/x.txt], with [a] loaded *)
Definition host_ax : Host :=
  mkHost (λ p, if decide (p = "/root") then Some [dir_item "a"; dir_item "b"]
               else if decide (p = "/root/a") then Some [file_item "x.txt"]
               else Some [])
         None true.

Definition ax_loaded : Outcome unit :=
  and_then (Root_new unix host_ax dev 8 "/root" fresh) (ensureLoaded unix host_ax dev 8 1).

(** *** The root as the constructor leaves it, before the host answers *)
Definition abc_constructed : Outcome N := Root_constructor unix "/root" fresh.

(** *** Two watched sibling directories, for the change-event queue *)
Definition ab_watched : Outcome unit :=
  and_then ax_loaded (ensureLoaded unix host_ax dev 8 2).

Definition ab_queued : Outcome unit :=
  and_then (and_then (and_then (and_then ab_watched (queueChangeEvent "/root/b"))
                               (queueChangeEvent "/root"))
                     (queueChangeEvent "/root/a"))
           (queueChangeEvent "/root/b").

Definition ab_flushed : Outcome unit :=
  and_then ab_queued (flushEventQueue unix host_ax 8).

(** Whether the reload of a directory is pending. *)
Definition reload_pending (s : State) (id : N) : option bool :=
  hardReloadPromise <$> heap s !! id.

(** * The ownership and size invariant *)

(** The rows of a list that start [off] places after the first occurrence
    of the anchor [a]: [del] of them are dropped and [ins] is put in their
    place.  Every change an operation makes to a flat array has this
    shape. *)
Definition resplice (a : N) (off del : nat) (ins l : list N) : list N :=
  if decide (a ∈ l) then
    let i := Z.to_nat (indexOf l a) in
    take (i + off) l ++ ins ++ drop (i + off + del) l
  else l.

Section Invariant.
(** [P] holds the directories whose expansion is under way: their flag is
    already set, their rows not yet donated.  For the arrays they still
    count as collapsed. *)
Context (P : gset N).

Definition shown (n : N) (e : Entry) : bool :=
  instanceof_Directory (cls e) && expanded e && bool_decide (n ∉ P).

Definition shown_in (h : gmap N Entry) (c : N) : bool :=
  match h !! c with Some e => shown c e | None => false end.

(** What a child contributes to the visible sequence of its parent:
    itself, then its own visible sequence when it is shown expanded. *)
Definition block (h : gmap N Entry) (g : N → list N) (c : N) : list N :=
  c :: (if shown_in h c then g c else []).

(** A directory keeps its own flat array when it has no parent or is not
    shown expanded. *)
Definition owns (n : N) (e : Entry) : bool :=
  bool_decide (_parent e = None) || negb (shown n e).

(** [g n] is the visible sequence below [n], whoever holds it. *)
Record node_ok (s : State) (g : N → list N) (n : N) (e : Entry) : Prop := {
  ok_uid : _uid e = n;
  ok_fresh : (n < nextId s)%N;
  ok_parent : ∀ p, _parent e = Some p →
    ∃ ep cs, heap s !! p = Some ep ∧ _children ep = Some cs ∧ n ∈ cs
             ∧ _depth e = S (_depth ep);
  ok_root : cls e = CRoot → _parent e = None;
  ok_file : cls e = CFileEntry → _children e = None;
  ok_unloaded : _children e = None →
    flattenedBranch e = None ∧ shown n e = false ∧ g n = [];
  ok_loaded : ∀ cs, _children e = Some cs →
    NoDup cs
    ∧ (∀ c, c ∈ cs → ∃ ec, heap s !! c = Some ec ∧ _parent ec = Some n)
    ∧ (∃ o, o ≡ₚ cs ∧ g n = o ≫= block (heap s) g)
    ∧ _branchSize e = Z.of_nat (length (g n))
    ∧ flattenedBranch e = (if owns n e then Some (g n) else None);
}.

Definition ghost_ok (s : State) (g : N → list N) : Prop :=
  (∀ n e, heap s !! n = Some e → node_ok s g n e)
  ∧ (∀ n, heap s !! n = None → g n = []).

Definition InvP (s : State) : Prop :=
  (nextId s <= 2 ^ 32)%N ∧ ∃ g, ghost_ok s g.

End Invariant.

(** The invariant between two operations: no expansion under way. *)
Definition Inv : State → Prop := InvP ∅.

(** The visible sequence below [n], read off the tree itself: the
    children in their order, each followed by its own visible sequence
    when it is an expanded directory. *)
Fixpoint visible (fuel : nat) (h : gmap N Entry) (n : N) : list N :=
  match fuel with
  | O => []
  | S fuel =>
      match h !! n ≫= _children with
      | Some cs => cs ≫= (λ c, c :: (if shown_in ∅ h c then visible fuel h c else []))
      | None => []
      end
  end.

(** A test for [node_ok], for stores whose flat arrays follow the order
    of the children. *)
Definition node_okb (s : State) (g : N → list N) (n : N) (e : Entry) : bool :=
  bool_decide (_uid e = n) && bool_decide (n < nextId s)%N
  && match _parent e with
     | Some p =>
         match heap s !! p with
         | Some ep =>
             match _children ep with
             | Some cs => bool_decide (n ∈ cs) && bool_decide (_depth e = S (_depth ep))
             | None => false
             end
         | None => false
         end
     | None => true
     end
  && (if bool_decide (cls e = CRoot) then bool_decide (_parent e = None) else true)
  && (if bool_decide (cls e = CFileEntry) then bool_decide (_children e = None) else true)
  && match _children e with
     | None =>
         bool_decide (flattenedBranch e = None) && negb (shown ∅ n e)
         && bool_decide (g n = [])
     | Some cs =>
         bool_decide (NoDup cs)
         && forallb (λ c, bool_decide (heap s !! c ≫= _parent = Some n)) cs
         && bool_decide (g n = cs ≫= block ∅ (heap s) g)
         && bool_decide (_branchSize e = Z.of_nat (length (g n)))
         && bool_decide (flattenedBranch e = if owns ∅ n e then Some (g n) else None)
     end.

Definition Inv_check (fuel : nat) (s : State) : bool :=
  bool_decide (nextId s ≤ 2 ^ 32)%N
  && forallb (λ ne, node_okb s (visible fuel (heap s)) ne.1 ne.2) (map_to_list (heap s)).

(** The rows an expanded child directory adds to its parent's count. *)
Definition expanded_rows (s : State) (c : N) : Z :=
  if shown_in ∅ (heap s) c then default 0 (size_of s c) else 0.

(** The walk from a directory up to the first one holding a flat array:
    the directories passed on the way, and where the walk ends. *)
Inductive owner_path (h : gmap N Entry) : N → list N → N → Prop :=
| owner_here a e fb :
    h !! a = Some e → flattenedBranch e = Some fb → owner_path h a [] a
| owner_up a e p l o :
    h !! a = Some e → flattenedBranch e = None → _parent e = Some p →
    owner_path h p l o → owner_path h a (a :: l) o.

(** The sizes after a walk that added [delta] at every directory of [l]. *)
Definition resized (l : list N) (delta : Z) (n : N) (e : Entry) : Entry :=
  if bool_decide (n ∈ l) then with_branchSize (_branchSize e + delta) e else e.

(** An object after a walk from [branch] that went through [l] and ended
    at the owner [o]: the sizes along [l] and at [o] moved by [delta], the
    owner's array is now [fo], the branch's [fbr]. *)
Definition rewalked (branch o : N) (l : list N) (delta : Z)
    (fo fbr : option (list N)) (n : N) (e : Entry) : Entry :=
  let e1 := resized (l ++ [o]) delta n e in
  if bool_decide (n = o) then with_flattenedBranch fo e1
  else if bool_decide (n = branch) then with_flattenedBranch fbr e1
  else e1.

(** What [setFlattenedBranch] dispatches on an object of class [c]. *)
Definition update_events (c : Class) : list Notification :=
  match c with CRoot => [BranchDidUpdate] | _ => [] end.

(** The rows [shrinkBranch] hands back to [branch] out of the owner's
    array [fb], and what it leaves to the owner. *)
Definition returned_rows (fb : list N) (branch : N) (size : Z) : list N :=
  ta_slice fb (indexOf fb branch + 1) (indexOf fb branch + 1 + size).

Definition rows_without (fb : list N) (branch : N) (size : Z) : list N :=
  take (Z.to_nat (indexOf fb branch + 1)) fb
  ++ drop (Z.to_nat (indexOf fb branch + 1) + length (returned_rows fb branch size)) fb.

(** The owner's array once [expandBranch] has put the rows [ins] of
    [branch] right after it. *)
Definition rows_with (fb : list N) (branch : N) (ins : option (list N)) : list N :=
  take (Z.to_nat (indexOf fb branch + 1)) fb ++ default [] ins
  ++ drop (Z.to_nat (indexOf fb branch + 1)) fb.

(** The root can tell whether [t] is at the surface: it is asked about
    itself, or it holds a flat array. *)
Definition root_answers (s : State) (t : N) : Prop :=
  t = rootId s ∨ ∃ re fb, heap s !! rootId s = Some re ∧ flattenedBranch re = Some fb.

(** [setExpanded(ensureVisible)] has no ancestor to expand first: it was
    told not to, or the parent [p] is the root or expanded already. *)
Definition parent_shown (s : State) (ensureVisible : bool) (p : N) : Prop :=
  ensureVisible = false ∨ p = rootId s
  ∨ ∃ ep, heap s !! p = Some ep ∧ cls ep ≠ CFileEntry ∧ expanded ep = true.

(** An object after [setCollapsed] of the directory [D] ... *)
Definition collapsed_entry (D o : N) (l : list N) (size : Z) (fb : list N)
    (n : N) (e : Entry) : Entry :=
  let e1 := rewalked D o l (- size) (Some (rows_without fb D size))
              (Some (returned_rows fb D size)) n e in
  if bool_decide (n = D) then with_isExpanded false e1 else e1.

(** ... and after [setExpanded], when its children were loaded. *)
Definition expanded_entry (D o : N) (l : list N) (size : Z) (fb : list N)
    (ins : option (list N)) (n : N) (e : Entry) : Entry :=
  rewalked D o l size (Some (rows_with fb D ins)) None n
    (if bool_decide (n = D) then with_isExpanded true e else e).

(** * Views of the store *)

(** An object without its path memo, and without its disposal flag
    either: what is left is its place in the tree and its arrays. *)
Definition uncache (e : Entry) : Entry := with_resolvedPathCache None e.
Definition shape (e : Entry) : Entry := with_disposed false (uncache e).

(** [m] keeps [R]: whenever it ends, normally or by an exception, the
    state it ends in is related to the one it started from. *)
Definition preserves {A} (R : State → State → Prop) (m : M A) : Prop :=
  ∀ s s', state_of (m s) = Some s' → R s s'.

(** Nothing was written but path memos. *)
Definition same_but_memos (s s' : State) : Prop :=
  uncache <$> heap s' = uncache <$> heap s ∧ s' = set_heap (heap s') s.

(** The tree and its arrays are as they were: objects may have been
    disposed of, memos, watchers and the event log may have changed. *)
Definition same_tree (s s' : State) : Prop :=
  shape <$> heap s' = shape <$> heap s
  ∧ nextId s' = nextId s ∧ rootId s' = rootId s ∧ rootPath s' = rootPath s
  ∧ changeEventDispatchQueue s' = changeEventDispatchQueue s
  ∧ hostCalls s' = hostCalls s ∧ eventFlushTimeout s' = eventFlushTimeout s.

(** Reachability through the [_children] of directories. *)
Inductive below (h : gmap N Entry) : N → N → Prop :=
| below_self n : below h n n
| below_child p e cs c n :
    h !! p = Some e → cls e ≠ CFileEntry → _children e = Some cs → c ∈ cs →
    below h c n → below h p n.

(** [dispose] has run on the object. *)
Definition disposed_in (s : State) (n : N) : Prop :=
  ∃ e, heap s !! n = Some e ∧ _disposed e = true.

(** What disposing does to a state: the tree is as it was, disposed
    objects stay disposed, the id registry only loses entries, and an
    object disposed of on the way is no longer registered. *)
Definition disposal (s s' : State) : Prop :=
  same_tree s s'
  ∧ (∀ n, disposed_in s n → disposed_in s' n)
  ∧ idToFileEntry s' ⊆ idToFileEntry s
  ∧ (∀ n, disposed_in s' n → n ∈ idToFileEntry s' → disposed_in s n).

(** An object without its branch size, flattened array, expansion flag
    and path memo: what expanding and collapsing leave alone. *)
Definition skeleton (e : Entry) : Entry :=
  with_branchSize 0 (with_flattenedBranch None (with_isExpanded false (uncache e))).

(** Only sizes, flattened arrays, expansion flags, path memos and the
    event log may differ. *)
Definition same_nodes (s s' : State) : Prop :=
  skeleton <$> heap s' = skeleton <$> heap s
  ∧ s' = set_events (events s') (set_heap (heap s') s).

(** Two versions of an object that the invariant cannot tell apart: the
    same place in the tree, the same size and array, the same standing
    towards the pending sets [P] and [P']. *)
Definition ghost_same (P P' : gset N) (n : N) (e e' : Entry) : Prop :=
  _uid e' = _uid e ∧ cls e' = cls e ∧ _parent e' = _parent e
  ∧ _children e' = _children e ∧ _depth e' = _depth e
  ∧ _branchSize e' = _branchSize e ∧ flattenedBranch e' = flattenedBranch e
  ∧ owns P' n e' = owns P n e
  ∧ (is_Some (_parent e) ∨ _children e = None → shown P' n e' = shown P n e).

(** The current root is a [Root] and holds its flat array. *)
Definition root_loaded (s : State) : Prop :=
  ∃ re fb, heap s !! rootId s = Some re ∧ cls re = CRoot ∧ flattenedBranch re = Some fb.

(** No expansion flag has been cleared. *)
Definition flags_kept (s s' : State) : Prop :=
  ∀ n e, heap s !! n = Some e → isExpanded e = true →
         ∃ e', heap s' !! n = Some e' ∧ isExpanded e' = true.

(** The directories whose expansion is under way have their flag set. *)
Definition pending_flagged (P : gset N) (s : State) : Prop :=
  ∀ n, n ∈ P → ∃ e, heap s !! n = Some e ∧ isExpanded e = true.

(** What the constructor leaves for a listed item: a collapsed, unloaded
    object below [D], with a name. *)
Definition fresh_child (D : N) (dD : nat) (c : N) (ec : Entry) : Prop :=
  _uid ec = c ∧ cls ec ≠ CRoot ∧ _parent ec = Some D ∧ _depth ec = S dD
  ∧ _children ec = None ∧ flattenedBranch ec = None ∧ isExpanded ec = false
  ∧ is_Some (_fileName ec).

(** The ids [k] constructor calls take, starting at [n0]. *)
Definition fresh_ids (n0 : N) (k : nat) : list N :=
  (λ i, (n0 + N.of_nat i)%N) <$> seq 0 k.

(** A memo counts when it is a non-empty string. *)
Definition memo (e : Entry) : option string :=
  match resolvedPathCache e with
  | Some (String c r) => Some (String c r)
  | _ => None
  end.

(** What the [path] getter answers for [n], read off the state: the
    root's path for a root; else the memo when there is one; else the
    name, joined to the parent's path when it is relative. *)
Inductive has_path (pathfx : PathFx) (s : State) : N → string → Prop :=
| has_path_root n e :
    heap s !! n = Some e → cls e = CRoot → has_path pathfx s n (rootPath s)
| has_path_memo n e par p :
    heap s !! n = Some e → cls e ≠ CRoot → _parent e = Some par →
    memo e = Some p → has_path pathfx s n p
| has_path_abs n e par f :
    heap s !! n = Some e → cls e ≠ CRoot → _parent e = Some par →
    memo e = None → _fileName e = Some f → isRelative pathfx f = false →
    has_path pathfx s n f
| has_path_rel n e par f pp :
    heap s !! n = Some e → cls e ≠ CRoot → _parent e = Some par →
    memo e = None → _fileName e = Some f → isRelative pathfx f = true →
    has_path pathfx s par pp → has_path pathfx s n (join pathfx pp f).

(** [s'] has the objects of [s], of the same classes, at the same places,
    under the same names and with the same memos. *)
Definition same_paths (s s' : State) : Prop :=
  rootPath s' = rootPath s
  ∧ ∀ n e, heap s !! n = Some e →
      ∃ e', heap s' !! n = Some e' ∧ cls e' = cls e ∧ _parent e' = _parent e
            ∧ _fileName e' = _fileName e ∧ resolvedPathCache e' = resolvedPathCache e.

(** As [same_paths], but [s'] may hold more memos: each is the path [s]
    gives to the object. *)
Definition memo_ext (pathfx : PathFx) (s s' : State) : Prop :=
  rootPath s' = rootPath s
  ∧ ∀ n e, heap s !! n = Some e →
      ∃ e', heap s' !! n = Some e' ∧ cls e' = cls e ∧ _parent e' = _parent e
            ∧ _fileName e' = _fileName e
            ∧ (memo e' = memo e ∨ ∃ v, memo e' = Some v ∧ has_path pathfx s n v).

(** The object [new (type === FileType.Directory ? Directory : FileEntry)]
    makes of a listed item: its name and its class. *)
Definition built_from (file : RawItem) (e : Entry) : Prop :=
  match file with
  | RawObj type (JStr f) =>
      _fileName e = Some f
      ∧ cls e = (if bool_decide (type = JNum (FileType_code Directory)) then CDirectory
                 else CFileEntry)
  | _ => False
  end.


(** An object without what a reload touches besides the tree: the path
    memo, the watcher and the pending promise. *)
Definition core (e : Entry) : Entry :=
  with_resolvedPathCache None (with_watchTerminator None (with_hardReloadPromise false e)).

Definition same_core (s s' : State) : Prop :=
  core <$> heap s' = core <$> heap s ∧ nextId s' = nextId s ∧ rootId s' = rootId s.

(** The host lists nothing but well-formed items. *)
Definition host_well_formed (host : Host) : Prop :=
  ∀ p, Forall (λ f, well_formed f = true) (default [] (getItems host p)).

(** *** The tree [/root/a/x.txt] on a host without [watch] *)
Definition host_nowatch : Host :=
  mkHost (λ p, if decide (p = "/root") then Some [dir_item "a"]
               else if decide (p = "/root/a") then Some [file_item "x.txt"]
               else Some [])
         None false.

Definition nowatch_loaded : Outcome unit :=
  and_then (Root_new unix host_nowatch dev 8 "/root" fresh)
           (ensureLoaded unix host_nowatch dev 8 1).

(** The states of the examples, evaluated once. *)
Definition abc_expanded_state : State :=
  Eval vm_compute in default fresh (state_of abc_expanded).
Definition abc_constructed_state : State :=
  Eval vm_compute in default fresh (state_of abc_constructed).
Definition pdx_loaded_state : State :=
  Eval vm_compute in default fresh (state_of pdx_loaded).
Definition nowatch_loaded_state : State :=
  Eval vm_compute in default fresh (state_of nowatch_loaded).
Definition abc_removed_state : State :=
  Eval vm_compute in
    default fresh (state_of (handleWatchEvent unix host_abc 8 0 (Removed "/root/b.txt")
                               abc_expanded_state)).
Definition abc_disposed_state : State :=
  Eval vm_compute in default fresh (state_of (dispose unix 8 2 abc_expanded_state)).
Definition pdx_expanded_state : State :=
  Eval vm_compute in default fresh (state_of (pdx_expanded true)).
Definition ax_loaded_state : State :=
  Eval vm_compute in default fresh (state_of ax_loaded).
Definition abc_loaded_state : State :=
  Eval vm_compute in default fresh (state_of abc_loaded).
Definition pdx_changed_state : State :=
  Eval vm_compute in default fresh (state_of pdx_changed).
Definition pdx_d_changed_state : State :=
  Eval vm_compute in default fresh (state_of pdx_d_changed).

(** * Properties *)

(** ** The monad *)

Lemma bind_Ok {A B} (m : M A) (k : A → M B) s b s' :
  bind m k s = Ok b s' ↔ ∃ a s1, m s = Ok a s1 ∧ k a s1 = Ok b s'.
Proof.
  unfold bind. destruct (m s) as [a s1| |]; split.
  - eauto.
  - by intros (? & ? & [= -> ->] & ?).
  - done.
  - by intros (? & ? & ? & ?).
  - done.
  - by intros (? & ? & ? & ?).
Qed.

Lemma bind_not_Ok {A B} (m : M A) (k : A → M B) s :
  is_Ok (m s) = false → is_Ok (bind m k s) = false.
Proof. unfold bind. by destruct (m s). Qed.

(** Run the first action of a [bind]; the goal is closed when that
    action does not return. *)
Ltac bind_step :=
  unfold bind at 1;
  match goal with
  | |- context [match ?m with Ok _ _ => _ | Throw _ _ => _ | Diverge => _ end] =>
      destruct m as [? ?|? ?|] eqn:?; try done
  end.

(** Close a conjunction of closed equations by evaluation, one conjunct
    at a time. *)
Ltac by_computation :=
  lazymatch goal with
  | |- _ ∧ _ => split; [vm_compute; reflexivity | by_computation]
  | |- _ => vm_compute; reflexivity
  end.

Lemma obj_Ok id s e : heap s !! id = Some e → obj id s = Ok e s.
Proof. unfold obj. by intros ->. Qed.

Lemma obj_inv id s e s' : obj id s = Ok e s' → heap s !! id = Some e ∧ s' = s.
Proof. unfold obj. destruct (heap s !! id); naive_solver. Qed.

Lemma indexOf_ge l x : indexOf l x >= -1.
Proof. induction l as [|z l IH]; simpl; [lia|]. repeat case_decide; lia. Qed.

Lemma indexOf_elem l x : x ∈ l ↔ indexOf l x > -1.
Proof.
  induction l as [|y l IH]; simpl.
  - split; [by intros ?%elem_of_nil | lia].
  - rewrite elem_of_cons. pose proof (indexOf_ge l x).
    destruct (decide (y = x)) as [->|Hne].
    + split; [lia | by left].
    + destruct (decide (indexOf l x = -1)) as [Heq|Hneq].
      * split; [|lia]. intros [->|Hin]; [done|]. apply IH in Hin. lia.
      * split; [lia|]. intros _. right. apply IH. lia.
Qed.

(** ** Worked scenario (C9) *)

Lemma compare_Lt_lex x y : String.compare x y = Lt ↔ lex_lt x y.
Proof.
  revert y. induction x as [|c x IH]; intros [|d y]; simpl.
  - split; [done|]. intros H. inversion H.
  - split; [constructor|done].
  - split; [done|]. intros H. inversion H.
  - unfold Ascii.compare.
    destruct (N.compare_spec (Ascii.N_of_ascii c) (Ascii.N_of_ascii d)) as [Heq|Hlt|Hgt].
    + assert (c = d) as ->.
      { rewrite <- (Ascii.ascii_N_embedding c), <- (Ascii.ascii_N_embedding d).
        by rewrite Heq. }
      rewrite IH. split; [by constructor|].
      intros H. inversion H as [| ? ? ? ? Hcd | ? ? ? Hxy]; subst; [lia|done].
    + split; [by constructor|done].
    + split; [done|].
      intros H. inversion H as [| ? ? ? ? Hcd | ? ? ? Hxy]; subst; lia.
Qed.

Lemma compare_Gt_lex x y : String.compare x y = Gt ↔ lex_lt y x.
Proof.
  rewrite <- compare_Lt_lex, (String.compare_antisym x y).
  by destruct (String.compare y x).
Qed.

(** C9: the default comparator puts directories before files and orders
    the entries of one class lexicographically by name.  With it, a root
    holding directory [a] and file [b.txt], in whichever order the host
    lists the two, where [a] holds [c.txt], first shows the rows
    [a, b.txt]; after expanding the first row, [a], the rows are
    [a, c.txt, b.txt] and the root's branchSize is 3. *)
Theorem scenario_expand_a :
  (∀ a b x y, _fileName a = Some x → _fileName b = Some y →
     (defaultSortComparator a b < 0
      ↔ (cls a = CDirectory ∧ cls b ≠ CDirectory) ∨ (cls a = cls b ∧ lex_lt x y))
     ∧ (defaultSortComparator a b > 0
        ↔ (cls b = CDirectory ∧ cls a ≠ CDirectory) ∨ (cls a = cls b ∧ lex_lt y x)))
  ∧ (∀ items, items ≡ₚ [dir_item "a"; file_item "b.txt"] →
       let loaded := Root_new unix (host_listing items) dev 8 "/root" fresh in
       let expanded := and_then loaded (expand_row (host_listing items) 0) in
       is_Ok loaded = true
       ∧ after loaded rows = Some [Some "a"; Some "b.txt"]
       ∧ after loaded (λ s, size_of s (rootId s)) = Some 2
       ∧ is_Ok expanded = true
       ∧ after expanded rows = Some [Some "a"; Some "c.txt"; Some "b.txt"]
       ∧ after expanded (λ s, size_of s (rootId s)) = Some 3).
Proof.
  split.
  - intros a b x y Hx Hy. unfold defaultSortComparator. rewrite Hx, Hy.
    destruct (decide (cls a = cls b)) as [Heq|Hne].
    + pose proof (compare_Lt_lex x y) as HLt. pose proof (compare_Gt_lex x y) as HGt.
      destruct (String.compare x y); split; split; intros H; try lia.
      all: try (right; split; [done|]; first [by apply HLt | by apply HGt]).
      all: destruct H as [[? ?]|[_ H]]; try congruence.
      all: first [apply HLt in H | apply HGt in H]; done.
    + destruct (decide (cls a = CDirectory)) as [Ha|Ha].
      * split; split; intros H; try lia; [left; split; [done|congruence]|].
        destruct H as [[? ?]|[? _]]; done.
      * destruct (decide (cls b = CDirectory)) as [Hb|Hb].
        -- split; split; intros H; try lia; [|by left].
           destruct H as [[? ?]|[? _]]; done.
        -- split; split; intros H; try lia; destruct H as [[? ?]|[? _]]; done.
  - intros items Hperm. symmetry in Hperm.
    apply Permutation_length_2_inv in Hperm as [-> | ->]; cbv zeta; by_computation.
Qed.

(** ** Idempotence (C8) *)

(** C8: on a directory that is already expanded, [setExpanded] returns
    the state it was given (nothing is written, nothing is dispatched);
    and [insertItem] of an item that is already among the children of its
    parent returns the state it was given. *)
Theorem idempotent_setExpanded_insertItem pathfx host env fuel s :
  (∀ d ev e, heap s !! d = Some e → instanceof_Directory (cls e) = true →
             expanded e = true →
             setExpanded pathfx host env (S fuel) d ev s = Ok tt s)
  ∧ (∀ this item e it cs,
       heap s !! this = Some e → instanceof_Directory (cls e) = true →
       _children e = Some cs → item ∈ cs →
       heap s !! item = Some it → _parent it = Some this →
       insertItem pathfx host fuel this item s = Ok tt s).
Proof.
  split.
  - intros d ev e Hd Hdir Hexp. unfold setExpanded, bind.
    rewrite (obj_Ok _ _ _ Hd). destruct (cls e) eqn:Hc; try done.
    simpl. unfold bind. rewrite (obj_Ok _ _ _ Hd).
    unfold expanded in Hexp. rewrite Hc in Hexp. by rewrite Hexp.
  - intros this item e it cs Hthis Hdir Hcs Hin Hitem Hpar.
    unfold insertItem, bind. rewrite (obj_Ok _ _ _ Hthis).
    assert (insertItem_body host (mv pathfx host fuel) fuel this item s = Ok tt s)
      as Hbody.
    { unfold insertItem_body, bind. rewrite (obj_Ok _ _ _ Hitem).
      rewrite bool_decide_eq_true_2 by done. simpl.
      rewrite (obj_Ok _ _ _ Hthis), Hcs.
      rewrite bool_decide_eq_true_2; [done|]. by apply indexOf_elem. }
    by destruct (cls e).
Qed.

Lemma idempotent_setExpanded_insertItem_witness :
  setExpanded unix host_abc dev 1 2 true abc_expanded_state = Ok tt abc_expanded_state
  ∧ insertItem unix host_abc 0 0 1 abc_expanded_state = Ok tt abc_expanded_state.
Proof.
  split.
  - eapply (proj1 (idempotent_setExpanded_insertItem unix host_abc dev 0 _));
      reflexivity.
  - eapply (proj2 (idempotent_setExpanded_insertItem unix host_abc dev 0 _));
      try reflexivity.
    apply list_elem_of_In. simpl. tauto.
Defined.

(** ** Reading a row outside the flat sequence (C10) *)

Lemma arr_get_out_of_range {A} (l : list A) (i : Z) :
  i < 0 ∨ Z.of_nat (length l) <= i → arr_get l i = None.
Proof.
  intros Hi. unfold arr_get. case_decide; [done|].
  apply lookup_ge_None. lia.
Qed.

(** C10, as amended: once the root holds its flat array,
    [getFileEntryAtIndex] answers [undefined] ([None]) for every index
    below 0 or from the length of that array on, and leaves the state
    alone. *)
Theorem getFileEntryAtIndex_out_of_range s re fb index :
  heap s !! rootId s = Some re →
  flattenedBranch re = Some fb →
  index < 0 ∨ Z.of_nat (length fb) <= index →
  getFileEntryAtIndex index s = Ok None s.
Proof.
  intros Hr Hfb Hi. unfold getFileEntryAtIndex, bind, gets.
  rewrite (obj_Ok _ _ _ Hr), Hfb.
  by rewrite arr_get_out_of_range.
Qed.

Lemma getFileEntryAtIndex_out_of_range_witness :
  getFileEntryAtIndex 3 abc_expanded_state = Ok None abc_expanded_state
  ∧ getFileEntryAtIndex (-1) abc_expanded_state = Ok None abc_expanded_state
  ∧ getFileEntryAtIndex 1 pdx_changed_state = Ok None pdx_changed_state.
Proof.
  split; [|split].
  - eapply getFileEntryAtIndex_out_of_range; try reflexivity.
    right. simpl. lia.
  - eapply getFileEntryAtIndex_out_of_range; try reflexivity.
    left. lia.
  - eapply getFileEntryAtIndex_out_of_range; try reflexivity.
    right. simpl. lia.
Defined.

(** The two ways an index outside [0, branchSize) is not answered with
    [undefined].  Between the constructor's return and the host's first
    answer the root has no flat array: its branchSize is 0 and the read
    throws.  And after a generic change under the collapsed, loaded
    directory [p] ([pdx_changed]) the reload of [p] has taken [p]'s size
    off the root: the root's branchSize is 0, its array still holds [p],
    and index 0 is answered with [p]. *)
Lemma getFileEntryAtIndex_outside_branchSize :
  (Root_constructor unix "/root" fresh = Ok 0%N abc_constructed_state
   ∧ size_of abc_constructed_state (rootId abc_constructed_state) = Some 0
   ∧ getFileEntryAtIndex 0 abc_constructed_state
     = Throw (TypeError "Cannot read property of undefined") abc_constructed_state)
  ∧ (pdx_changed = Ok tt pdx_changed_state
     ∧ size_of pdx_changed_state (rootId pdx_changed_state) = Some 0
     ∧ flat_of pdx_changed_state (rootId pdx_changed_state) = Some [1%N]
     ∧ getFileEntryAtIndex 0 pdx_changed_state = Ok (Some 1%N) pdx_changed_state).
Proof. split; by_computation. Qed.

(** ** Validation of host items (C5) *)


(** ** Collapse and the owner's size (C4), by example *)

(** Collapsing [a] (id 2, branchSize 1) under the root, which owns the
    array [a]'s rows live in, takes [a]'s branchSize off the root's own
    branchSize. *)
Lemma collapse_shrinks_owner :
  after abc_expanded (λ s, flat_of s 0) = Some [2; 3; 1]%N
  ∧ after abc_expanded (λ s, Some (flat_of s 2)) = Some None
  ∧ after abc_expanded (λ s, size_of s 2) = Some 1
  ∧ after abc_expanded (λ s, size_of s 0) = Some 3
  ∧ abc_collapsed = and_then abc_expanded (collapseDirectory 8 2)
  ∧ is_Ok abc_collapsed = true
  ∧ after abc_collapsed (λ s, size_of s 0) = Some 2.
Proof.
  do 4 (split; [vm_compute; reflexivity|]). split; [reflexivity|]. by_computation.
Qed.

(** ** Expand then collapse (C3), by example *)

(** Two ways for the round trip not to restore the tree.  With the
    default [ensureVisible = true], expanding [d] (id 2) under the
    collapsed [p] (id 1) also expands [p]; collapsing [d] afterwards
    leaves [p] expanded, so [p], which owned the array holding [d], has
    lost it, and the root's array and branchSize have grown.  And after
    a reload of the collapsed [d], which takes [d]'s size off [p] although
    [p]'s array keeps [d], [p] holds one row with branchSize 0: expanding
    [p] with [ensureVisible = false] gives the root that row, collapsing
    [p] takes back none. *)
Lemma setExpanded_setCollapsed_not_restoring :
  (after pdx_loaded (λ s, flat_of s 1) = Some [2]%N
   ∧ after pdx_loaded (λ s, flat_of s 2) = Some [3]%N
   ∧ after pdx_loaded (λ s, isExpanded <$> heap s !! 1%N) = Some false
   ∧ after pdx_loaded (λ s, isExpanded <$> heap s !! 2%N) = Some false
   ∧ after pdx_loaded (λ s, size_of s 0) = Some 1
   ∧ pdx_round_trip true
     = and_then (and_then pdx_loaded (setExpanded unix host_pdx dev 8 2 true))
                (setCollapsed 8 2)
   ∧ is_Ok (pdx_round_trip true) = true
   ∧ after (pdx_round_trip true) (λ s, Some (flat_of s 1)) = Some None
   ∧ after (pdx_round_trip true) (λ s, flat_of s 0) = Some [1; 2]%N
   ∧ after (pdx_round_trip true) (λ s, size_of s 0) = Some 2)
  ∧ (pdx_d_changed = Ok tt pdx_d_changed_state
     ∧ isExpanded <$> heap pdx_d_changed_state !! 1%N = Some false
     ∧ children_of pdx_d_changed_state 1 = Some [2]%N
     ∧ size_of pdx_d_changed_state 1 = Some 0
     ∧ flat_of pdx_d_changed_state 1 = Some [2]%N
     ∧ flat_of pdx_d_changed_state 0 = Some [1]%N
     ∧ is_Ok (and_then (setExpanded unix host_pdx dev 8 1 false pdx_d_changed_state)
                       (setCollapsed 8 1)) = true
     ∧ after (and_then (setExpanded unix host_pdx dev 8 1 false pdx_d_changed_state)
                       (setCollapsed 8 1)) (λ s, flat_of s 1) = Some []
     ∧ after (and_then (setExpanded unix host_pdx dev 8 1 false pdx_d_changed_state)
                       (setCollapsed 8 1)) (λ s, flat_of s 0) = Some [1; 2]%N).
Proof.
  split.
  - do 5 (split; [vm_compute; reflexivity|]). split; [reflexivity|]. by_computation.
  - by_computation.
Qed.

(** ** A move whose destination cannot be resolved (C6) *)

(** C6, on the code: in [ax_loaded] the root [/root] holds [a] (id 1,
    loaded, holding [x.txt], id 3) and [b] (id 2, not loaded).
    [/root/a/x.txt] is moved to [/root/nowhere/y.txt], and [/root] has no
    child [nowhere].  [findFileEntryInLoadedTree] throws, [transferItem]
    lets the exception through, and [x.txt] is still a child of [a],
    still in [a]'s flat array; the host was not called. *)
Theorem transferItem_missing_destination_throws :
  after ax_loaded (λ s, children_of s 1) = Some [3]%N
  ∧ after ax_loaded (λ s, name_of s 3) = Some "x.txt"
  ∧ is_Throw (and_then ax_loaded
                (transferItem unix host_ax 8 1 "/root/a/x.txt" "/root/nowhere/y.txt"))
    = true
  ∧ after (and_then ax_loaded
             (transferItem unix host_ax 8 1 "/root/a/x.txt" "/root/nowhere/y.txt"))
          (λ s, children_of s 1) = Some [3]%N
  ∧ after (and_then ax_loaded
             (transferItem unix host_ax 8 1 "/root/a/x.txt" "/root/nowhere/y.txt"))
          (λ s, flat_of s 1) = Some [3]%N
  ∧ after (and_then ax_loaded
             (transferItem unix host_ax 8 1 "/root/a/x.txt" "/root/nowhere/y.txt"))
          (λ s, Some (hostCalls s)) = after ax_loaded (λ s, Some (hostCalls s)).
Proof. by_computation. Qed.

(** Sent through [Root.inotify], the same notification is lost: the
    rejection of the callback's promise reaches nobody, [x.txt] stays,
    and the post-processing notification is never dispatched. *)
Lemma inotify_missing_destination_is_dropped :
  is_Ok (and_then ax_loaded
           (inotify unix host_ax 8
              (Moved (JStr "/root/a/x.txt") (JStr "/root/nowhere/y.txt")))) = true
  ∧ after (and_then ax_loaded
             (inotify unix host_ax 8
                (Moved (JStr "/root/a/x.txt") (JStr "/root/nowhere/y.txt"))))
          (λ s, children_of s 1) = Some [3]%N
  ∧ after (and_then ax_loaded
             (inotify unix host_ax 8
                (Moved (JStr "/root/a/x.txt") (JStr "/root/nowhere/y.txt"))))
          (λ s, last (events s))
    = Some (WillProcessWatchEvent 1 (Moved (JStr "/root/a/x.txt")
                                           (JStr "/root/nowhere/y.txt"))).
Proof. by_computation. Qed.

(** The neighbouring path does fall back: when the walk stops at a
    directory that is not loaded ([/root/b] here) the lookup answers
    [null], the item is unlinked and disposed of, and the host is not
    asked for anything. *)
Lemma transferItem_unloaded_destination_unlinks :
  after ax_loaded (λ s, Some (children_of s 2)) = Some None
  ∧ is_Ok (and_then ax_loaded
             (transferItem unix host_ax 8 1 "/root/a/x.txt" "/root/b/c/y.txt")) = true
  ∧ after (and_then ax_loaded
             (transferItem unix host_ax 8 1 "/root/a/x.txt" "/root/b/c/y.txt"))
          (λ s, children_of s 1) = Some []
  ∧ after (and_then ax_loaded
             (transferItem unix host_ax 8 1 "/root/a/x.txt" "/root/b/c/y.txt"))
          (λ s, flat_of s 1) = Some []
  ∧ after (and_then ax_loaded
             (transferItem unix host_ax 8 1 "/root/a/x.txt" "/root/b/c/y.txt"))
          (λ s, (λ e, (_parent e, _disposed e)) <$> heap s !! 3%N) = Some (None, true)
  ∧ after (and_then ax_loaded
             (transferItem unix host_ax 8 1 "/root/a/x.txt" "/root/b/c/y.txt"))
          (λ s, Some (children_of s 2)) = Some None
  ∧ after (and_then ax_loaded
             (transferItem unix host_ax 8 1 "/root/a/x.txt" "/root/b/c/y.txt"))
          (λ s, Some (hostCalls s)) = after ax_loaded (λ s, Some (hostCalls s)).
Proof. by_computation. Qed.

(** With the paths of the claim, the destination directory is the root
    itself, which is a loaded directory: the item is really moved. *)
Lemma transferItem_to_root_moves :
  is_Ok (and_then ax_loaded
           (transferItem unix host_ax 8 1 "/root/a/x.txt" "/root/y.txt")) = true
  ∧ after (and_then ax_loaded
             (transferItem unix host_ax 8 1 "/root/a/x.txt" "/root/y.txt"))
          (λ s, children_of s 1) = Some []
  ∧ after (and_then ax_loaded
             (transferItem unix host_ax 8 1 "/root/a/x.txt" "/root/y.txt"))
          (λ s, children_of s 0) = Some [1; 2; 3]%N
  ∧ after (and_then ax_loaded
             (transferItem unix host_ax 8 1 "/root/a/x.txt" "/root/y.txt"))
          (λ s, name_of s 3) = Some "y.txt".
Proof. by_computation. Qed.

(** ** The change-event queue (C7) *)

Lemma set_eventFlushTimeout_twice a b s :
  set_eventFlushTimeout b (set_eventFlushTimeout a s) = set_eventFlushTimeout b s.
Proof. by destruct s. Qed.

(** A path that is queued already only re-arms the timer. *)
Lemma queueChangeEvent_duplicate p s :
  p ∈ changeEventDispatchQueue s →
  queueChangeEvent p s = Ok tt (set_eventFlushTimeout true s).
Proof.
  intros Hin. unfold queueChangeEvent, bind, gets, modify.
  rewrite set_eventFlushTimeout_twice.
  assert (changeEventDispatchQueue (set_eventFlushTimeout true s)
          = changeEventDispatchQueue s) as -> by by destruct s.
  by rewrite bool_decide_eq_true_2.
Qed.

Lemma queueChangeEvent_NoDup p s :
  NoDup (changeEventDispatchQueue s) →
  ∃ s', queueChangeEvent p s = Ok tt s'
        ∧ NoDup (changeEventDispatchQueue s')
        ∧ p ∈ changeEventDispatchQueue s'.
Proof.
  intros Hnd. unfold queueChangeEvent, bind, gets, modify.
  rewrite set_eventFlushTimeout_twice.
  assert (changeEventDispatchQueue (set_eventFlushTimeout true s)
          = changeEventDispatchQueue s) as -> by by destruct s.
  destruct (decide (p ∈ changeEventDispatchQueue s)) as [Hin|Hnin].
  - rewrite bool_decide_eq_true_2 by done. simpl. eexists. split; [done|].
    by destruct s.
  - rewrite bool_decide_eq_false_2 by done. simpl. eexists. split; [done|].
    simpl. split.
    + apply NoDup_app. split; [done|]. split; [|apply NoDup_singleton].
      intros x Hx ->%list_elem_of_singleton. done.
    + apply elem_of_app. right. by apply list_elem_of_singleton.
Qed.

Section DepthOrder.
Context (pathfx : PathFx).

Lemma sort_insert_depth_perm x l :
  sort_insert (depth_order pathfx) x l ≡ₚ x :: l.
Proof.
  induction l as [|y l IH]; simpl; [done|].
  case_decide; [done|]. rewrite IH. apply Permutation_swap.
Qed.

Lemma sort_insert_depth_sorted x l :
  StronglySorted (shallower pathfx) l →
  StronglySorted (shallower pathfx) (sort_insert (depth_order pathfx) x l).
Proof.
  induction 1 as [|y l Hs IH Hall]; simpl.
  - repeat constructor.
  - unfold depth_order at 1. case_decide as Hc.
    + constructor; [by constructor|]. constructor; [unfold shallower; lia|].
      eapply Forall_impl; [done|]. unfold shallower. intros; simpl in *. lia.
    + constructor; [done|].
      rewrite sort_insert_depth_perm. constructor; [unfold shallower; lia|done].
Qed.

(** The flush order: a permutation of the queue, shallowest path first. *)
Lemma flush_order_sorted q :
  arr_sort (depth_order pathfx) q ≡ₚ q
  ∧ StronglySorted (shallower pathfx) (arr_sort (depth_order pathfx) q).
Proof.
  induction q as [|x q [IHp IHs]]; simpl; [split; [done|constructor]|].
  split.
  - by rewrite sort_insert_depth_perm, IHp.
  - by apply sort_insert_depth_sorted.
Qed.

End DepthOrder.

(** C7, on the code: in [ab_watched] the directories [/root] (id 0),
    [/root/a] (id 1) and [/root/b] (id 2) are loaded and watched, no
    reload pending.  [/root/b], [/root], [/root/a] and [/root/b] again are
    queued ([ab_queued]): the queue holds each path once.  The flush
    ([ab_flushed]) asks the host for [/root], [/root/b], [/root/a], in
    that order, and returns with all three reloads pending: the second
    and the third were started while the first had not finished. *)
Theorem flush_starts_reloads_without_awaiting :
  after ab_watched (λ s, Some (hostCalls s)) = Some ["/root"; "/root/a"; "/root/b"]
  ∧ after ab_queued (λ s, Some (changeEventDispatchQueue s))
    = Some ["/root/b"; "/root"; "/root/a"]
  ∧ after ab_queued (λ s, Some (hostCalls s)) = Some ["/root"; "/root/a"; "/root/b"]
  ∧ after ab_queued (λ s, reload_pending s 0) = Some false
  ∧ after ab_queued (λ s, reload_pending s 1) = Some false
  ∧ after ab_queued (λ s, reload_pending s 2) = Some false
  ∧ ab_flushed = and_then ab_queued (flushEventQueue unix host_ax 8)
  ∧ is_Ok ab_flushed = true
  ∧ after ab_flushed (λ s, Some (changeEventDispatchQueue s)) = Some []
  ∧ after ab_flushed (λ s, Some (hostCalls s))
    = Some ["/root"; "/root/a"; "/root/b"; "/root"; "/root/b"; "/root/a"]
  ∧ after ab_flushed (λ s, reload_pending s 0) = Some true
  ∧ after ab_flushed (λ s, reload_pending s 1) = Some true
  ∧ after ab_flushed (λ s, reload_pending s 2) = Some true.
Proof.
  do 6 (split; [vm_compute; reflexivity|]). split; [reflexivity|]. by_computation.
Qed.

(** ** Arrays *)

Lemma indexOf_notin l x : x ∉ l → indexOf l x = -1.
Proof.
  intros Hn. pose proof (indexOf_ge l x).
  destruct (decide (indexOf l x = -1)) as [|Hne]; [done|].
  exfalso. apply Hn, indexOf_elem. lia.
Qed.

Lemma indexOf_app_l X R x : x ∉ X → indexOf (X ++ x :: R) x = Z.of_nat (length X).
Proof.
  induction X as [|y X IH]; simpl; intros Hn.
  - by rewrite decide_True.
  - apply not_elem_of_cons in Hn as [Hne Hn].
    rewrite decide_False by done. rewrite IH by done.
    rewrite decide_False by lia. lia.
Qed.

Lemma elem_of_split_first (l : list N) x :
  x ∈ l → ∃ X R, l = X ++ x :: R ∧ x ∉ X.
Proof.
  induction l as [|y l IH]; [by intros ?%elem_of_nil|].
  destruct (decide (y = x)) as [->|Hne].
  - intros _. exists [], l. split; [done|]. apply not_elem_of_nil.
  - intros [->|Hin]%elem_of_cons; [done|].
    destruct (IH Hin) as (X & R & -> & Hn). exists (y :: X), R.
    split; [done|]. by apply not_elem_of_cons.
Qed.

Lemma rel_index_mid len i : 0 <= i <= len → rel_index len i = i.
Proof. intros. unfold rel_index. case_decide; lia. Qed.

Lemma rel_index_over len i : len <= i → 0 <= len → rel_index len i = len.
Proof. intros. unfold rel_index. case_decide; lia. Qed.

Lemma ta_slice_mid (l : list N) (i j : nat) :
  (i <= j)%nat → (j <= length l)%nat →
  ta_slice l (Z.of_nat i) (Z.of_nat j) = take (j - i) (drop i l).
Proof.
  intros Hij Hj. unfold ta_slice.
  rewrite !rel_index_mid by lia. f_equal; [lia|]. f_equal. lia.
Qed.

Lemma ta_set_fits (a src : list N) (off : nat) :
  (off + length src <= length a)%nat →
  ta_set a src (Z.of_nat off) = Some (take off a ++ src ++ drop (off + length src) a).
Proof.
  intros H. unfold ta_set. rewrite decide_False by lia. by rewrite Nat2Z.id.
Qed.

(** What [spliceTypedArray] computes when the cut lies inside the array. *)
Lemma splice_spec (l : list N) (i k : nat) (items : option (list N)) :
  (i + k <= length l)%nat →
  spliceTypedArray l (Z.of_nat i) (Z.of_nat k) items
  = Some (take i l ++ default [] items ++ drop (i + k) l).
Proof.
  intros Hik. unfold spliceTypedArray.
  set (m := length (default [] items)).
  assert (match items with Some it => Z.of_nat (length it) | None => 0 end = Z.of_nat m)
    as -> by (by destruct items).
  set (n := (length l - k + m)%nat).
  unfold ta_new. rewrite decide_False by lia.
  replace (Z.to_nat (Z.of_nat (length l) - Z.of_nat k + Z.of_nat m)) with n by lia.
  simpl.
  replace 0 with (Z.of_nat 0) at 1 by done.
  rewrite ta_slice_mid by lia. rewrite Nat.sub_0_r, drop_0.
  replace 0 with (Z.of_nat 0) by done.
  rewrite ta_set_fits by (rewrite length_replicate, length_take; lia).
  simpl. rewrite length_take, Nat.min_l by lia. rewrite drop_replicate.
  set (a1 := take i l ++ replicate (n - i) 0%N).
  assert (length a1 = n) as Ha1.
  { unfold a1. rewrite length_app, length_take, length_replicate. lia. }
  assert (∃ a2, match items with Some it => ta_set a1 it (Z.of_nat i) | None => Some a1 end
                = Some a2
                ∧ a2 = take i l ++ default [] items ++ replicate (n - i - m) 0%N)
    as (a2 & -> & Ha2).
  { destruct items as [it|]; simpl in *.
    - eexists. split; [apply ta_set_fits; lia|].
      unfold a1. rewrite take_app_length' by (rewrite length_take; lia).
      rewrite drop_app_ge by (rewrite length_take; lia).
      rewrite length_take, Nat.min_l by lia. rewrite drop_replicate.
      do 3 f_equal. unfold m. lia.
    - eexists. split; [done|]. unfold a1. do 2 f_equal. unfold m. simpl. lia. }
  simpl.
  replace (Z.of_nat i + Z.of_nat k) with (Z.of_nat (i + k)) by lia.
  rewrite ta_slice_mid by lia.
  rewrite take_ge by (rewrite length_drop; lia).
  replace (Z.of_nat i + Z.of_nat m) with (Z.of_nat (i + m)) by lia.
  assert (length a2 = n) as Hl2.
  { rewrite Ha2, !length_app, length_take, length_replicate. fold m. lia. }
  rewrite ta_set_fits by (rewrite length_drop; lia).
  f_equal. rewrite (drop_ge a2) by (rewrite length_drop; lia).
  rewrite app_nil_r, Ha2.
  assert (take (i + m) (take i l ++ default [] items ++ replicate (n - i - m) 0%N)
          = take i l ++ default [] items) as ->; [|by rewrite <- app_assoc].
  rewrite app_assoc. apply take_app_length'.
  rewrite length_app, length_take. fold m. lia.
Qed.

Lemma splice_insert (l ins : list N) (i : nat) :
  (i <= length l)%nat →
  spliceTypedArray l (Z.of_nat i) 0 (Some ins) = Some (take i l ++ ins ++ drop i l).
Proof.
  intros Hi. pose proof (splice_spec l i 0 (Some ins)) as H.
  rewrite Nat.add_0_r in H. apply H. lia.
Qed.

Lemma splice_delete (l : list N) (i k : nat) :
  (i + k <= length l)%nat →
  spliceTypedArray l (Z.of_nat i) (Z.of_nat k) None = Some (take i l ++ drop (i + k) l).
Proof. intros Hi. by rewrite splice_spec. Qed.

(** ** [resplice] *)

Section Resplice.
Context (a : N) (off del : nat) (ins : list N).
Local Abbreviation rs := (resplice a off del ins).

Lemma resplice_notin l : a ∉ l → rs l = l.
Proof. intros Hn. unfold resplice. by rewrite decide_False. Qed.

Lemma resplice_decomp X R :
  a ∉ X →
  rs (X ++ a :: R) = X ++ take off (a :: R) ++ ins ++ drop (off + del) (a :: R).
Proof.
  intros Hn. unfold resplice.
  rewrite decide_True by (apply elem_of_app; right; apply elem_of_cons; by left).
  rewrite indexOf_app_l by done. rewrite Nat2Z.id.
  rewrite take_app_ge by lia.
  rewrite drop_app_ge by lia.
  rewrite <- app_assoc. do 2 f_equal; [f_equal; lia|]. do 2 f_equal. lia.
Qed.

Lemma resplice_head R :
  rs (a :: R) = take off (a :: R) ++ ins ++ drop (off + del) (a :: R).
Proof. apply (resplice_decomp [] R), not_elem_of_nil. Qed.

Lemma resplice_cons_ne c l : c ≠ a → rs (c :: l) = c :: rs l.
Proof.
  intros Hne. destruct (decide (a ∈ l)) as [Hin|Hn].
  - destruct (elem_of_split_first _ _ Hin) as (X & R & -> & HX).
    rewrite (resplice_decomp X R) by done.
    change (c :: X ++ a :: R) with ((c :: X) ++ a :: R).
    rewrite resplice_decomp; [done|]. by apply not_elem_of_cons.
  - rewrite !resplice_notin; [done|done|]. by apply not_elem_of_cons.
Qed.

Lemma resplice_app_r l1 l2 : a ∉ l1 → rs (l1 ++ l2) = l1 ++ rs l2.
Proof.
  induction l1 as [|c l1 IH]; [done|]. intros [Hne Hn]%not_elem_of_cons.
  simpl. rewrite resplice_cons_ne by done. by rewrite IH.
Qed.

(** The anchor heads a run [B] that is long enough to hold the cut: the
    change stays inside whatever encloses [B]. *)
Lemma resplice_inside X B Y :
  a ∉ X → (off + del <= length (a :: B))%nat →
  rs (X ++ (a :: B) ++ Y) = X ++ rs (a :: B) ++ Y.
Proof.
  intros Hn Hlen.
  change (X ++ (a :: B) ++ Y) with (X ++ a :: (B ++ Y)).
  rewrite resplice_decomp by done. rewrite resplice_head.
  f_equal.
  change (a :: B ++ Y) with ((a :: B) ++ Y).
  rewrite take_app_le by lia. rewrite drop_app_le by lia.
  by rewrite <- !app_assoc.
Qed.

Lemma resplice_length X B Y :
  a ∉ X → (off + del <= length (a :: B))%nat →
  length (rs (X ++ (a :: B) ++ Y))
  = (length (X ++ (a :: B) ++ Y) + length ins - del)%nat.
Proof.
  intros Hn Hlen. rewrite resplice_inside by done.
  rewrite resplice_head.
  rewrite !length_app, length_take, length_drop. simpl length in *. lia.
Qed.

End Resplice.

(** ** What the invariant says about the visible sequences *)

Lemma bind_split {A B} (f : A → list B) (o : list A) (c : A) :
  c ∈ o → ∃ o1 o2, o = o1 ++ c :: o2 ∧ o ≫= f = (o1 ≫= f) ++ f c ++ (o2 ≫= f).
Proof.
  intros (o1 & o2 & ->)%list_elem_of_split. exists o1, o2. split; [done|].
  by rewrite bind_app, bind_cons.
Qed.

Section Ghost.
Context (P : gset N) (s : State) (g : N → list N) (Hok : ghost_ok P s g).
Local Abbreviation h := (heap s).
Local Abbreviation blk := (block P (heap s) g).

Lemma ghost_node n e : h !! n = Some e → node_ok P s g n e.
Proof. apply Hok. Qed.

Lemma g_cases n : g n = [] ∨ ∃ e cs, h !! n = Some e ∧ _children e = Some cs.
Proof.
  destruct (h !! n) as [e|] eqn:Hn.
  - destruct (_children e) as [cs|] eqn:Hcs; [eauto|]. left.
    by destruct (ok_unloaded _ _ _ _ _ (ghost_node _ _ Hn) Hcs) as (_ & _ & Hg).
  - left. apply (proj2 Hok n Hn).
Qed.

Lemma g_elem_loaded n c :
  c ∈ g n → ∃ e cs, h !! n = Some e ∧ _children e = Some cs.
Proof.
  intros Hc. destruct (g_cases n) as [Hnil|?]; [|done].
  rewrite Hnil in Hc. by apply elem_of_nil in Hc.
Qed.

Lemma g_children n e cs :
  h !! n = Some e → _children e = Some cs → ∃ o, o ≡ₚ cs ∧ g n = o ≫= blk.
Proof. intros Hn Hcs. by destruct (ok_loaded _ _ _ _ _ (ghost_node _ _ Hn) _ Hcs) as (_&_&?&_). Qed.

Lemma child_entry n e cs c :
  h !! n = Some e → _children e = Some cs → c ∈ cs →
  ∃ ec, h !! c = Some ec ∧ _parent ec = Some n ∧ _depth ec = S (_depth e).
Proof.
  intros Hn Hcs Hc.
  destruct (ok_loaded _ _ _ _ _ (ghost_node _ _ Hn) _ Hcs) as (_ & Hch & _).
  destruct (Hch c Hc) as (ec & Hec & Hpar). exists ec. split_and!; [done..|].
  destruct (ok_parent _ _ _ _ _ (ghost_node _ _ Hec) _ Hpar) as (ep & ? & Hep & _ & _ & Hd).
  by simplify_eq.
Qed.

Lemma parent_entry c ec p :
  h !! c = Some ec → _parent ec = Some p →
  ∃ ep cs, h !! p = Some ep ∧ _children ep = Some cs ∧ c ∈ cs
           ∧ _depth ec = S (_depth ep).
Proof. intros Hc Hp. exact (ok_parent _ _ _ _ _ (ghost_node _ _ Hc) _ Hp). Qed.

Lemma block_head c : c ∈ blk c.
Proof. apply elem_of_cons. by left. Qed.

Lemma block_elem c x : x ∈ blk c ↔ x = c ∨ (shown_in P h c = true ∧ x ∈ g c).
Proof.
  unfold block. rewrite elem_of_cons. destruct (shown_in P h c).
  - split; intros [?|?]; [by left|by right|by left|right; tauto].
  - split; [intros [?|?%elem_of_nil]; [by left|done]|].
    intros [?|[? _]]; [by left|done].
Qed.

Lemma block_shown c : shown_in P h c = true → blk c = c :: g c.
Proof. unfold block. by intros ->. Qed.

Lemma block_not_shown c : shown_in P h c = false → blk c = [c].
Proof. unfold block. by intros ->. Qed.

Lemma block_length_shown c :
  shown_in P h c = true → length (blk c) = S (length (g c)).
Proof. unfold block. by intros ->. Qed.

(** The block of a child sits, in one piece, inside the sequence of its
    parent. *)
Lemma child_block_inside n e cs c :
  h !! n = Some e → _children e = Some cs → c ∈ cs →
  ∃ X Y, g n = X ++ blk c ++ Y.
Proof.
  intros Hn Hcs Hc. destruct (g_children _ _ _ Hn Hcs) as (o & Ho & ->).
  rewrite <- Ho in Hc. destruct (bind_split blk _ _ Hc) as (o1 & o2 & _ & ->). eauto.
Qed.

(** So does the block of anything that occurs in the sequence. *)
Lemma g_block_inside n c : c ∈ g n → ∃ X Y, g n = X ++ blk c ++ Y.
Proof.
  remember (length (g n)) as k eqn:Hk. revert n Hk c.
  induction k as [k IH] using lt_wf_ind. intros n -> c Hc.
  destruct (g_elem_loaded _ _ Hc) as (e & cs & Hn & Hcs).
  destruct (g_children _ _ _ Hn Hcs) as (o & Ho & Hg).
  rewrite Hg in Hc. apply list_elem_of_bind in Hc as (c' & Hc & Hc').
  destruct (bind_split blk _ _ Hc') as (o1 & o2 & _ & Hsplit).
  rewrite Hg, Hsplit.
  apply block_elem in Hc as [->|[Hsh Hc]]; [by exists (o1 ≫= blk), (o2 ≫= blk)|].
  destruct (IH (length (g c'))) with (n := c') (c := c) as (X & Y & HXY); [|done..|].
  { rewrite Hg, Hsplit, !length_app, block_length_shown by done. lia. }
  exists ((o1 ≫= blk) ++ c' :: X), (Y ++ (o2 ≫= blk)).
  rewrite (block_shown c') by done. rewrite HXY.
  rewrite <- !app_assoc. f_equal. rewrite <- !app_comm_cons.
  by rewrite <- !app_assoc.
Qed.

Lemma g_sub n p x : p ∈ g n → shown_in P h p = true → x ∈ g p → x ∈ g n.
Proof.
  intros Hp Hsh Hx. destruct (g_block_inside _ _ Hp) as (X & Y & ->).
  rewrite !elem_of_app. right. left. apply block_elem. by right.
Qed.

(** Going up from an element of [g n] one parent at a time, through
    directories that are shown expanded, leads to [n]. *)
Lemma g_elem_parent n c :
  c ∈ g n →
  ∃ ec p, h !! c = Some ec ∧ _parent ec = Some p
          ∧ (p = n ∨ (p ∈ g n ∧ shown_in P h p = true)).
Proof.
  remember (length (g n)) as k eqn:Hk. revert n Hk c.
  induction k as [k IH] using lt_wf_ind. intros n -> c Hc.
  destruct (g_elem_loaded _ _ Hc) as (e & cs & Hn & Hcs).
  destruct (g_children _ _ _ Hn Hcs) as (o & Ho & Hg).
  rewrite Hg in Hc. apply list_elem_of_bind in Hc as (c' & Hc & Hc').
  assert (c' ∈ g n) as Hc'g.
  { rewrite Hg. apply list_elem_of_bind. exists c'. split; [apply block_head|done]. }
  apply block_elem in Hc as [->|[Hsh Hc]].
  - rewrite Ho in Hc'. destruct (child_entry _ _ _ _ Hn Hcs Hc') as (ec & ? & ? & _).
    eauto 10.
  - destruct (bind_split blk _ _ Hc') as (o1 & o2 & _ & Hsplit).
    destruct (IH (length (g c'))) with (n := c') (c := c) as (ec & p & ? & ? & Hp);
      [|done..|].
    { rewrite Hg, Hsplit, !length_app, block_length_shown by done. lia. }
    exists ec, p. split_and!; [done..|]. right.
    destruct Hp as [->|[Hp Hpsh]]; [done|]. split; [|done]. by eapply g_sub.
Qed.

Lemma g_depth n c :
  c ∈ g n →
  ∃ e ec, h !! n = Some e ∧ h !! c = Some ec ∧ (_depth e < _depth ec)%nat.
Proof.
  remember (length (g n)) as k eqn:Hk. revert n Hk c.
  induction k as [k IH] using lt_wf_ind. intros n -> c Hc.
  destruct (g_elem_loaded _ _ Hc) as (e & cs & Hn & Hcs).
  destruct (g_children _ _ _ Hn Hcs) as (o & Ho & Hg).
  rewrite Hg in Hc. apply list_elem_of_bind in Hc as (c' & Hc & Hc').
  destruct (bind_split blk _ _ Hc') as (o1 & o2 & _ & Hsplit).
  rewrite Ho in Hc'. destruct (child_entry _ _ _ _ Hn Hcs Hc') as (ec' & Hec' & _ & Hd).
  apply block_elem in Hc as [->|[Hsh Hc]].
  - exists e, ec'. split_and!; [done..|lia].
  - destruct (IH (length (g c'))) with (n := c') (c := c) as (e1 & ec & ? & ? & ?);
      [|done..|].
    { rewrite Hg, Hsplit, !length_app, block_length_shown by done. lia. }
    simplify_eq. exists e, ec. split_and!; [done..|lia].
Qed.

Lemma g_irrefl n : n ∉ g n.
Proof. intros (e & ec & ? & ? & ?)%g_depth. simplify_eq. lia. Qed.

Lemma block_depth c x ec ex :
  x ∈ blk c → h !! c = Some ec → h !! x = Some ex → (_depth ec <= _depth ex)%nat.
Proof.
  intros [->|[_ Hx]]%block_elem Hc Hx'; [simplify_eq; lia|].
  destruct (g_depth _ _ Hx) as (? & ? & ? & ? & ?). simplify_eq. lia.
Qed.

(** Two blocks of nodes at the same depth share nothing. *)
Lemma block_disjoint a b ea eb x :
  h !! a = Some ea → h !! b = Some eb → _depth ea = _depth eb →
  x ∈ blk a → x ∈ blk b → a = b.
Proof.
  intros Ha Hb Hd Hxa Hxb.
  assert (∃ ex, h !! x = Some ex) as [ex Hx].
  { apply block_elem in Hxa as [->|[_ Hxa]]; [eauto|].
    destruct (g_depth _ _ Hxa) as (? & ? & ? & ? & ?). eauto. }
  remember (_depth ex) as k eqn:Hk. revert x ex Hx Hk Hxa Hxb.
  induction k as [k IH] using lt_wf_ind. intros x ex Hx -> Hxa Hxb.
  apply block_elem in Hxa as [->|[Hsa Hxa]].
  { apply block_elem in Hxb as [->|[_ Hxb]]; [done|].
    destruct (g_depth _ _ Hxb) as (? & ? & ? & ? & ?). simplify_eq. lia. }
  apply block_elem in Hxb as [->|[Hsb Hxb]].
  { destruct (g_depth _ _ Hxa) as (? & ? & ? & ? & ?). simplify_eq. lia. }
  destruct (g_elem_parent _ _ Hxa) as (ex1 & p & Hx1 & Hp & Hpa).
  destruct (g_elem_parent _ _ Hxb) as (ex2 & p' & Hx2 & Hp' & Hpb).
  simplify_eq.
  destruct (parent_entry _ _ _ Hx Hp) as (ep & ? & Hep & _ & _ & Hdp).
  apply (IH (_depth ep)) with (x := p) (ex := ep); [lia|done..| |].
  - apply block_elem. destruct Hpa as [->|[? ?]]; eauto.
  - apply block_elem. destruct Hpb as [->|[? ?]]; eauto.
Qed.

Lemma g_NoDup n : NoDup (g n).
Proof.
  remember (length (g n)) as k eqn:Hk. revert n Hk.
  induction k as [k IH] using lt_wf_ind. intros n ->.
  destruct (g_cases n) as [Hnil|(e & cs & Hn & Hcs)]; [rewrite Hnil; constructor|].
  destruct (ok_loaded _ _ _ _ _ (ghost_node _ _ Hn) _ Hcs) as (Hnd & _ & (o & Ho & Hg) & _).
  rewrite Hg. apply NoDup_bind.
  - intros c1 c2 y Hc1 Hc2 Hy1 Hy2. rewrite Ho in Hc1, Hc2.
    destruct (child_entry _ _ _ _ Hn Hcs Hc1) as (e1 & ? & _ & ?).
    destruct (child_entry _ _ _ _ Hn Hcs Hc2) as (e2 & ? & _ & ?).
    eapply block_disjoint; [done..|congruence|done|done].
  - intros c Hc. unfold block. destruct (shown_in P h c) eqn:Hsh.
    + apply NoDup_cons. split; [apply g_irrefl|].
      destruct (bind_split blk _ _ Hc) as (o1 & o2 & _ & Hsplit).
      apply (IH (length (g c))); [|done].
      rewrite Hg, Hsplit, !length_app, block_length_shown by done. lia.
    + apply NoDup_singleton.
  - by rewrite Ho.
Qed.

Lemma children_in_g n e cs c :
  h !! n = Some e → _children e = Some cs → c ∈ cs → c ∈ g n.
Proof.
  intros Hn Hcs Hc. destruct (child_block_inside _ _ _ _ Hn Hcs Hc) as (X & Y & ->).
  rewrite !elem_of_app. right. left. apply block_head.
Qed.

(** The converse of [g_elem_parent]. *)
Lemma g_elem_of_parent n c ec p :
  h !! c = Some ec → _parent ec = Some p →
  p = n ∨ (p ∈ g n ∧ shown_in P h p = true) → c ∈ g n.
Proof.
  intros Hc Hp Hn. destruct (parent_entry _ _ _ Hc Hp) as (ep & cs & Hep & Hcs & Hin & _).
  pose proof (children_in_g _ _ _ _ Hep Hcs Hin) as Hcp.
  destruct Hn as [->|[Hpn Hsh]]; [done|]. by eapply g_sub.
Qed.

(** At most one directory that keeps its array has a given row. *)
Lemma owner_unique o1 o2 e1 e2 x :
  h !! o1 = Some e1 → h !! o2 = Some e2 →
  owns P o1 e1 = true → owns P o2 e2 = true →
  x ∈ g o1 → x ∈ g o2 → o1 = o2.
Proof.
  intros H1 H2 Ho1 Ho2 Hx1 Hx2.
  assert (∀ o eo, h !! o = Some eo → owns P o eo = true →
                  ∀ n, ¬ (o ∈ g n ∧ shown_in P h o = true)) as Hnot.
  { intros o eo Ho Hown n [Hin Hsh]. unfold shown_in in Hsh. rewrite Ho in Hsh.
    unfold owns in Hown. rewrite Hsh in Hown. simpl in Hown.
    rewrite orb_false_r in Hown. apply bool_decide_eq_true in Hown.
    destruct (g_elem_parent _ _ Hin) as (? & ? & ? & ? & _). by simplify_eq. }
  destruct (g_depth _ _ Hx1) as (_ & ex & _ & Hx & _).
  remember (_depth ex) as k eqn:Hk. revert x ex Hx Hk Hx1 Hx2.
  induction k as [k IH] using lt_wf_ind. intros x ex Hx -> Hx1 Hx2.
  destruct (g_elem_parent _ _ Hx1) as (ex1 & p & Hxa & Hp & Hp1).
  destruct (g_elem_parent _ _ Hx2) as (ex2 & p' & Hxb & Hp' & Hp2).
  simplify_eq.
  destruct (parent_entry _ _ _ Hx Hp) as (ep & ? & Hep & _ & _ & Hdp).
  destruct Hp1 as [->|[Hp1 Hs1]], Hp2 as [->|[Hp2 Hs2]]; [done| | |].
  - by destruct (Hnot _ _ H1 Ho1 o2).
  - by destruct (Hnot _ _ H2 Ho2 o1).
  - apply (IH (_depth ep)) with (x := p) (ex := ep); [lia|done..].
Qed.

End Ghost.

(** ** The walk to the owner *)

Section OwnerPath.
Context (P : gset N) (s : State) (g : N → list N) (Hok : ghost_ok P s g).
Local Abbreviation h := (heap s).

Lemma loaded_flat n e cs :
  h !! n = Some e → _children e = Some cs →
  flattenedBranch e = (if owns P n e then Some (g n) else None).
Proof.
  intros Hn Hcs. by destruct (ok_loaded _ _ _ _ _ (ghost_node _ _ _ Hok _ _ Hn) _ Hcs)
    as (_&_&_&_&?).
Qed.

Lemma loaded_size n e cs :
  h !! n = Some e → _children e = Some cs → _branchSize e = Z.of_nat (length (g n)).
Proof.
  intros Hn Hcs. by destruct (ok_loaded _ _ _ _ _ (ghost_node _ _ _ Hok _ _ Hn) _ Hcs)
    as (_&_&_&?&_).
Qed.

(** A loaded directory without an array is shown expanded and has a
    parent. *)
Lemma no_flat_shown n e cs :
  h !! n = Some e → _children e = Some cs → flattenedBranch e = None →
  shown P n e = true ∧ ∃ p, _parent e = Some p.
Proof.
  intros Hn Hcs Hfb. rewrite (loaded_flat _ _ _ Hn Hcs) in Hfb.
  unfold owns in Hfb. destruct (shown P n e); [|by rewrite orb_true_r in Hfb].
  split; [done|]. destruct (_parent e); [eauto|done].
Qed.

Lemma flat_owns n e fb : h !! n = Some e → flattenedBranch e = Some fb →
  owns P n e = true ∧ fb = g n ∧ ∃ cs, _children e = Some cs.
Proof.
  intros Hn Hfb. destruct (_children e) as [cs|] eqn:Hcs.
  - rewrite (loaded_flat _ _ _ Hn Hcs) in Hfb. destruct (owns P n e); naive_solver.
  - destruct (ok_unloaded _ _ _ _ _ (ghost_node _ _ _ Hok _ _ Hn) Hcs) as (? & _).
    congruence.
Qed.

Lemma owner_path_exists a e cs :
  h !! a = Some e → _children e = Some cs →
  ∃ l o, owner_path h a l o ∧ (length l <= _depth e)%nat.
Proof.
  remember (_depth e) as k eqn:Hk. revert a e cs Hk.
  induction k as [k IH] using lt_wf_ind. intros a e cs -> Ha Hcs.
  destruct (flattenedBranch e) as [fb|] eqn:Hfb.
  - exists [], a. split; [by econstructor|simpl; lia].
  - destruct (no_flat_shown _ _ _ Ha Hcs Hfb) as (_ & p & Hp).
    destruct (parent_entry _ _ _ Hok _ _ _ Ha Hp) as (ep & cs' & Hep & Hcs' & _ & Hd).
    destruct (IH (_depth ep)) with (a := p) (e := ep) (cs := cs')
      as (l & o & Hpath & Hlen); [lia|done..|].
    exists (a :: l), o. split; [by econstructor|simpl; lia].
Qed.

Lemma owner_path_end a l o :
  owner_path h a l o → ∃ eo fb, h !! o = Some eo ∧ flattenedBranch eo = Some fb.
Proof. induction 1; eauto. Qed.

(** The directories on the walk from the parent of [c] are those whose
    visible sequence has [c]. *)
Lemma owner_path_members p l o c ec :
  owner_path h p l o → h !! c = Some ec → _parent ec = Some p →
  ∀ n, c ∈ g n ↔ n ∈ l ++ [o].
Proof.
  intros Hpath. revert c ec.
  induction Hpath as [p e fb Hp Hfb|a e p l o Ha Hfb Hap Hpath IH];
    intros c ec Hc Hcp n.
  - destruct (flat_owns _ _ _ Hp Hfb) as (Hown & _ & cs & Hcs).
    simpl. rewrite list_elem_of_singleton. split.
    + intros (? & ? & ? & ? & [->|[Hin Hsh]])%(g_elem_parent _ _ _ Hok);
        simplify_eq; [done|].
      exfalso. unfold shown_in in Hsh. rewrite Hp in Hsh. unfold owns in Hown.
      rewrite Hsh, orb_false_r in Hown. apply bool_decide_eq_true in Hown.
      destruct (g_elem_parent _ _ _ Hok _ _ Hin) as (? & ? & ? & ? & _). by simplify_eq.
    + intros ->. eapply g_elem_of_parent; eauto.
  - destruct (parent_entry _ _ _ Hok _ _ _ Hc Hcp) as (ea & cs & Hea & Hcs & _).
    assert (ea = e) as -> by congruence.
    destruct (no_flat_shown _ _ _ Ha Hcs Hfb) as (Hsh & _).
    simpl. rewrite elem_of_cons, <- (IH a e Ha Hap n). split.
    + intros (? & ? & ? & ? & [->|[Hin _]])%(g_elem_parent _ _ _ Hok);
        simplify_eq; [by left|by right].
    + intros Hn. eapply g_elem_of_parent; [done..|].
      destruct Hn as [->|Hin]; [by left|right]. split; [done|].
      unfold shown_in. by rewrite Ha.
Qed.

Lemma owner_path_self_members a e cs l o :
  owner_path h a l o → h !! a = Some e → _children e = Some cs →
  ∀ n, n ∈ l ++ [o] ↔ n = a ∨ (shown P a e = true ∧ a ∈ g n).
Proof.
  intros Hpath Ha Hcs n. destruct Hpath as [a e' fb Ha' Hfb|a e' p l o Ha' Hfb Hap Hpath].
  - assert (e' = e) as -> by congruence.
    simpl. rewrite list_elem_of_singleton. split; [by left|].
    intros [->|[Hsh Hin]]; [done|]. exfalso.
    destruct (flat_owns _ _ _ Ha Hfb) as (Hown & _). unfold owns in Hown.
    rewrite Hsh, orb_false_r in Hown. apply bool_decide_eq_true in Hown.
    destruct (g_elem_parent _ _ _ Hok _ _ Hin) as (? & ? & ? & ? & _). by simplify_eq.
  - assert (e' = e) as -> by congruence.
    destruct (no_flat_shown _ _ _ Ha Hcs Hfb) as (Hsh & _).
    simpl. rewrite elem_of_cons, <- (owner_path_members _ _ _ _ _ Hpath Ha Hap n).
    split; [intros [?|?]; [by left|by right]|intros [?|[_ ?]]; [by left|by right]].
Qed.

Lemma owner_path_NoDup a l o : owner_path h a l o → NoDup (l ++ [o]).
Proof.
  induction 1 as [p e fb Hp Hfb|a e p l o Ha Hfb Hap Hpath IH]; simpl.
  - apply NoDup_singleton.
  - apply NoDup_cons. split; [|done].
    rewrite <- (owner_path_members _ _ _ _ _ Hpath Ha Hap a). apply (g_irrefl _ _ _ Hok).
Qed.

End OwnerPath.

(** ** An anchored change, seen from every enclosing sequence *)

Lemma bind_ext_in {A B} (f f' : A → list B) (o : list A) :
  (∀ c, c ∈ o → f c = f' c) → o ≫= f = o ≫= f'.
Proof.
  induction o as [|c o IH]; intros Hf; [done|]. rewrite !bind_cons.
  rewrite Hf by (apply elem_of_cons; by left).
  rewrite IH; [done|]. intros c' Hc'. apply Hf, elem_of_cons. by right.
Qed.

Section Propagate.
Context (P : gset N) (s : State) (g : N → list N) (Hok : ghost_ok P s g).
Context (a : N) (off del : nat) (ins : list N).
Context (Hfit : (off + del <= length (block P (heap s) g a))%nat).
Local Abbreviation h := (heap s).
Local Abbreviation blk := (block P (heap s) g).
Local Abbreviation T := (resplice a off del ins).

Lemma g_anchor_inside n :
  a ∈ g n → ∃ X Y, g n = X ++ blk a ++ Y ∧ a ∉ X.
Proof.
  intros Hin. destruct (g_block_inside _ _ _ Hok _ _ Hin) as (X & Y & HXY).
  exists X, Y. split; [done|]. intros HaX.
  pose proof (g_NoDup _ _ _ Hok n) as Hnd. rewrite HXY in Hnd.
  apply NoDup_app in Hnd as (_ & Hdis & _). apply (Hdis a HaX).
  apply elem_of_app. left. apply elem_of_cons. by left.
Qed.

Lemma block_anchor_inside c :
  a ∈ blk c → ∃ X Y, blk c = X ++ blk a ++ Y ∧ a ∉ X.
Proof.
  intros [->|[Hsh Hin]]%block_elem.
  - exists [], []. split; [by rewrite app_nil_r|apply not_elem_of_nil].
  - destruct (g_anchor_inside _ Hin) as (X & Y & HXY & HX).
    exists (c :: X), Y. rewrite (block_shown _ _ _ c) by done. rewrite HXY.
    split; [done|]. apply not_elem_of_cons. split; [|done].
    intros ->. by apply (g_irrefl _ _ _ Hok c).
Qed.

Lemma resplice_enclosed X Y :
  a ∉ X → T (X ++ blk a ++ Y) = X ++ T (blk a) ++ Y.
Proof. intros HX. unfold block in *. by apply resplice_inside. Qed.

Lemma resplice_enclosed_length X Y :
  a ∉ X →
  length (T (X ++ blk a ++ Y)) = (length (X ++ blk a ++ Y) + length ins - del)%nat.
Proof. intros HX. unfold block in *. by apply resplice_length. Qed.

Lemma resplice_g_length n :
  a ∈ g n → length (T (g n)) = (length (g n) + length ins - del)%nat.
Proof.
  intros Hin. destruct (g_anchor_inside _ Hin) as (X & Y & -> & HX).
  by apply resplice_enclosed_length.
Qed.

Lemma resplice_g_length_le n : a ∈ g n → (del <= length (g n))%nat.
Proof.
  intros Hin. destruct (g_anchor_inside _ Hin) as (X & Y & -> & HX).
  rewrite !length_app. lia.
Qed.

Lemma resplice_bind o (f' : N → list N) :
  NoDup (o ≫= blk) → (∀ c, c ∈ o → f' c = T (blk c)) → T (o ≫= blk) = o ≫= f'.
Proof.
  induction o as [|c o IH]; intros Hnd Hf; [done|].
  rewrite !bind_cons in *. apply NoDup_app in Hnd as (Hc & Hdis & Hrest).
  rewrite Hf by (apply elem_of_cons; by left).
  destruct (decide (a ∈ blk c)) as [Hin|Hn].
  - destruct (block_anchor_inside _ Hin) as (X & Y & HXY & HX).
    rewrite HXY, <- !app_assoc, !resplice_enclosed by done.
    rewrite <- !app_assoc. do 3 f_equal.
    apply bind_ext_in. intros c' Hc'. rewrite Hf by (apply elem_of_cons; by right).
    rewrite resplice_notin; [done|]. intros Hac. apply (Hdis a Hin).
    apply list_elem_of_bind. eauto.
  - rewrite resplice_app_r by done. rewrite (resplice_notin _ _ _ _ (blk c)) by done.
    f_equal. apply IH; [done|]. intros c' Hc'. apply Hf, elem_of_cons. by right.
Qed.

(** A child other than the anchor, whose own sequence changes the same
    way, contributes the changed block. *)
Lemma resplice_block c (b : bool) (l : list N) :
  c ≠ a → b = shown_in P h c → l = T (g c) →
  c :: (if b then l else []) = T (blk c).
Proof.
  intros Hne -> ->. unfold block. rewrite resplice_cons_ne by done.
  destruct (shown_in P h c); [done|].
  by rewrite resplice_notin by apply not_elem_of_nil.
Qed.

End Propagate.

(** * Further properties of the code *)

(** ** Running the monad forward *)

Lemma bind_obj {B} id (k : Entry → M B) s e :
  heap s !! id = Some e → bind (obj id) k s = k e s.
Proof. intros H. unfold bind. by rewrite (obj_Ok _ _ _ H). Qed.

Lemma update_Ok id f s e :
  heap s !! id = Some e → update id f s = Ok tt (set_heap (<[id := f e]> (heap s)) s).
Proof. unfold update. by intros ->. Qed.

Lemma bind_update {B} id f (k : unit → M B) s e :
  heap s !! id = Some e →
  bind (update id f) k s = k tt (set_heap (<[id := f e]> (heap s)) s).
Proof. intros H. unfold bind. by rewrite (update_Ok _ _ _ _ H). Qed.

(** ** [spliceTypedArray] *)

(** X1: when the cut [start, start + deleteCount) lies inside the array,
    [spliceTypedArray] returns the rows before the cut, then the items,
    then the rows after the cut; when more rows are to be deleted than the
    array and the items hold together, the allocation of the result
    raises a [RangeError]. *)
Theorem spliceTypedArray_behaviour (arr : list N) (start deleteCount : nat)
    (items : option (list N)) :
  ((start + deleteCount <= length arr)%nat →
   spliceTypedArray arr (Z.of_nat start) (Z.of_nat deleteCount) items
   = Some (take start arr ++ default [] items ++ drop (start + deleteCount) arr))
  ∧ ((length arr + length (default [] items) < deleteCount)%nat →
     spliceTypedArray arr (Z.of_nat start) (Z.of_nat deleteCount) items = None).
Proof.
  split; [apply splice_spec|].
  intros Hlt. unfold spliceTypedArray, ta_new.
  assert (match items with Some it => Z.of_nat (length it) | None => 0 end
          = Z.of_nat (length (default [] items))) as -> by (by destruct items).
  by rewrite decide_True by lia.
Qed.

Lemma spliceTypedArray_behaviour_witness :
  spliceTypedArray [1; 2; 3; 4]%N 1 2 (Some [9]%N) = Some [1; 9; 4]%N
  ∧ spliceTypedArray [1; 2]%N 0 4 (Some [9]%N) = None.
Proof.
  split.
  - apply (proj1 (spliceTypedArray_behaviour [1; 2; 3; 4]%N 1 2 (Some [9]%N))).
    simpl. lia.
  - apply (proj2 (spliceTypedArray_behaviour [1; 2]%N 0 4 (Some [9]%N))).
    simpl. lia.
Defined.

(** ** [Directory.defaultSortComparator] *)

(** X2: the default comparator is antisymmetric, [cmp a b = - cmp b a],
    for all pairs of nodes, and it puts a [Directory] before a
    [FileEntry] whatever their names.  Two nodes of one class tie exactly
    when their names are equal or one of them has no name: a nameless
    node ties with every node of its class.  Two nodes of different
    classes tie exactly when neither is a [Directory]. *)
Theorem defaultSortComparator_antisym (a b : Entry) :
  defaultSortComparator a b = - defaultSortComparator b a
  ∧ (cls a = CDirectory → cls b = CFileEntry → defaultSortComparator a b = -1)
  ∧ (cls a = cls b →
     (defaultSortComparator a b = 0
      ↔ _fileName a = _fileName b ∨ _fileName a = None ∨ _fileName b = None))
  ∧ (cls a ≠ cls b →
     (defaultSortComparator a b = 0 ↔ cls a ≠ CDirectory ∧ cls b ≠ CDirectory)).
Proof.
  unfold defaultSortComparator. split_and!.
  - destruct (decide (cls a = cls b)) as [Heq|Hne].
    + rewrite decide_True by done.
      destruct (_fileName a) as [x|], (_fileName b) as [y|]; try done.
      rewrite (String.compare_antisym x y). by destruct (String.compare y x).
    + rewrite (decide_False (P := cls b = cls a)) by done.
      destruct (cls a), (cls b); try done.
  - intros -> ->. done.
  - intros Heq. rewrite decide_True by done.
    destruct (_fileName a) as [x|], (_fileName b) as [y|]; try naive_solver.
    split.
    + intros H. left. f_equal. apply String.compare_eq_iff.
      by destruct (String.compare x y).
    + intros [[= ->]|[?|?]]; try done.
      pose proof (String.compare_antisym y y) as H.
      by destruct (String.compare y y).
  - intros Hne. rewrite decide_False by done.
    destruct (cls a), (cls b); try done; simpl; naive_solver.
Qed.

(** ** [FileEntry.checkRawFile] *)

(** X3: [checkRawFile] accepts exactly the objects whose [type] is [File]
    or [Directory] and whose [name] is a string; every other value makes
    it throw a [TypeError].  It never touches the state. *)
Theorem checkRawFile_accepts_iff (file : RawItem) (s : State) :
  (well_formed file = true ∧ checkRawFile file s = Ok tt s)
  ∨ (well_formed file = false ∧ ∃ msg, checkRawFile file s = Throw (TypeError msg) s).
Proof.
  destruct file as [| | |type name]; try (right; split; [done|eexists; reflexivity]).
  unfold checkRawFile, well_formed.
  destruct (bool_decide (type = JNum (FileType_code Directory))),
           (bool_decide (type = JNum (FileType_code File))),
           (is_string name); simpl;
    first [left; split; reflexivity | right; split; [reflexivity|eexists; reflexivity]].
Qed.

(** ** Lookups that leave the state alone *)

(** An action is an observer when, whatever it answers, it ends in the
    state it started from. *)
Lemma observer_bind {A B} (m : M A) (k : A → M B) s :
  state_of (m s) = Some s → (∀ a, state_of (k a s) = Some s) →
  state_of (bind m k s) = Some s.
Proof.
  intros Hm Hk. unfold bind. destruct (m s) as [a s1|e s1|]; simpl in *; [|done..].
  injection Hm as ->. apply Hk.
Qed.

Lemma observer_obj id s : state_of (obj id s) = Some s.
Proof. unfold obj. by destruct (heap s !! id). Qed.

Lemma strip_prefix_observer p rootPrefix pathfrags s :
  state_of (strip_prefix p rootPrefix pathfrags s) = Some s.
Proof.
  revert pathfrags. induction rootPrefix as [|r rootPrefix IH]; intros pathfrags; [done|].
  simpl. case_bool_decide; [done|]. destruct pathfrags as [|f pathfrags]; [done|].
  by case_bool_decide.
Qed.

Lemma find_in_loaded_observer p pathfrags next s :
  state_of (find_in_loaded p pathfrags next s) = Some s.
Proof.
  revert next. induction pathfrags as [|f pathfrags IH]; intros next; [done|].
  simpl. case_bool_decide; [done|]. destruct next as [cs|]; [|done].
  apply observer_bind; [done|]. intros h.
  destruct (find_child h cs f) as [item|]; [|done].
  apply observer_bind; [apply observer_obj|]. intros ie.
  destruct pathfrags as [|f' pathfrags]; [done|].
  destruct (type_of ie); [done|]. destruct (_children ie); [apply IH|done].
Qed.

(** X4: [Root.findFileEntryInLoadedTree] only looks: whether it answers
    an item, [null], or throws, the state it ends in is the state it
    started from.  In particular it loads nothing and does not call the
    host. *)
Theorem findFileEntryInLoadedTree_observer pathfx p s :
  state_of (findFileEntryInLoadedTree pathfx p s) = Some s.
Proof.
  unfold findFileEntryInLoadedTree. apply observer_bind.
  - destruct (isRelative pathfx p); [done|].
    unfold walkPathTillRelative. apply observer_bind; [done|].
    intros rp. apply strip_prefix_observer.
  - intros pathfrags. apply observer_bind; [done|]. intros r.
    destruct pathfrags; [done|].
    apply observer_bind; [apply observer_obj|]. intros re.
    apply find_in_loaded_observer.
Qed.

Lemma strip_prefix_same p l rest s :
  Forall (λ f, f ≠ "") l → strip_prefix p l (l ++ rest) s = Ok rest s.
Proof.
  induction 1 as [|f l Hf Hl IH]; [done|]. simpl.
  rewrite bool_decide_eq_false_2 by done. by rewrite bool_decide_eq_true_2.
Qed.

(** X5: asked for the root's own path (absolute, none of its fragments
    empty), [findFileEntryInLoadedTree] answers the root itself, loaded
    or not. *)
Theorem findFileEntryInLoadedTree_root pathfx s :
  isRelative pathfx (rootPath s) = false →
  Forall (λ f, f ≠ "") (splitPath pathfx (rootPath s)) →
  findFileEntryInLoadedTree pathfx (rootPath s) s = Ok (Some (rootId s)) s.
Proof.
  intros Habs Hfr. unfold findFileEntryInLoadedTree, bind. rewrite Habs.
  unfold walkPathTillRelative, bind, gets.
  pose proof (strip_prefix_same (rootPath s) _ [] s Hfr) as H.
  rewrite app_nil_r in H. by rewrite H.
Qed.

Lemma findFileEntryInLoadedTree_root_witness :
  findFileEntryInLoadedTree unix "/root" ax_loaded_state = Ok (Some 0%N) ax_loaded_state.
Proof.
  apply (findFileEntryInLoadedTree_root unix ax_loaded_state); [reflexivity|].
  repeat constructor; discriminate.
Defined.

(** ** Actions that keep a relation *)

Section Preserves.
Context (R : State → State → Prop) `{!Reflexive R} `{!Transitive R}.

Lemma preserves_ret {A} (a : A) : preserves R (ret a).
Proof. intros s s' [= <-]. reflexivity. Qed.

Lemma preserves_throw {A} e : preserves R (throw (A := A) e).
Proof. intros s s' [= <-]. reflexivity. Qed.

Lemma preserves_diverge {A} : preserves R (diverge (A := A)).
Proof. by intros s s'. Qed.

Lemma preserves_gets {A} (f : State → A) : preserves R (gets f).
Proof. intros s s' [= <-]. reflexivity. Qed.

Lemma preserves_obj id : preserves R (obj id).
Proof. intros s s'. unfold obj. destruct (heap s !! id); intros [= <-]; reflexivity. Qed.

Lemma preserves_bind {A B} (m : M A) (k : A → M B) :
  preserves R m → (∀ a, preserves R (k a)) → preserves R (bind m k).
Proof.
  intros Hm Hk s s' H. unfold bind in H.
  destruct (m s) as [a s1|e s1|] eqn:Hms; [|injection H as <-; apply Hm; by rewrite Hms|done].
  etrans; [apply Hm; by rewrite Hms|]. by eapply Hk.
Qed.

Lemma preserves_when b (m : M unit) : preserves R m → preserves R (when b m).
Proof. destruct b; [done|]. intros _. by apply preserves_ret. Qed.

Lemma preserves_forEach {A} (l : list A) (body : A → M unit) :
  (∀ x, x ∈ l → preserves R (body x)) → preserves R (forEach l body).
Proof.
  induction l as [|x l IH]; intros Hb; [by apply preserves_ret|]. simpl.
  apply preserves_bind; [apply Hb, elem_of_cons; by left|]. intros _.
  apply IH. intros y Hy. apply Hb, elem_of_cons. by right.
Qed.

Lemma preserves_unawaited {A} (m : M A) : preserves R m → preserves R (unawaited m).
Proof.
  intros Hm s s' H. unfold unawaited in H. apply Hm.
  by destruct (m s).
Qed.

Lemma preserves_lift_range {A} (o : option A) : preserves R (lift_range o).
Proof. destruct o; [by apply preserves_ret|by apply preserves_throw]. Qed.

Lemma preserves_modify (f : State → State) : (∀ s, R s (f s)) → preserves R (modify f).
Proof. intros Hf s s' [= <-]. apply Hf. Qed.

Lemma preserves_update id (f : Entry → Entry) :
  (∀ s e, heap s !! id = Some e → R s (set_heap (<[id := f e]> (heap s)) s)) →
  preserves R (update id f).
Proof.
  intros Hf s s'. unfold update. destruct (heap s !! id) as [e|] eqn:He.
  - intros [= <-]. by apply Hf.
  - intros [= <-]. reflexivity.
Qed.

End Preserves.

(** Take an action apart along its [bind]s and case distinctions. *)
Ltac preserves_step :=
  lazymatch goal with
  | |- preserves _ (bind _ _) => apply preserves_bind; [apply _|try done|intros ?]
  | |- preserves _ (ret _) => apply preserves_ret; apply _
  | |- preserves _ (throw _) => apply preserves_throw; apply _
  | |- preserves _ not_a_function => apply preserves_throw; apply _
  | |- preserves _ diverge => apply preserves_diverge
  | |- preserves _ (gets _) => apply preserves_gets; apply _
  | |- preserves _ (obj _) => apply preserves_obj; apply _
  | |- preserves _ (lift_range _) => apply preserves_lift_range; apply _
  | |- preserves _ (when _ _) => apply preserves_when; [apply _|]
  | |- preserves _ (unawaited _) => apply preserves_unawaited
  | |- preserves _ (match ?x with _ => _ end) => destruct x eqn:?
  | |- preserves _ (let (_, _) := ?x in _) => destruct x eqn:?
  end.

Global Instance same_but_memos_refl : Reflexive same_but_memos.
Proof. intros s. split; [done|by destruct s]. Qed.

Global Instance same_but_memos_trans : Transitive same_but_memos.
Proof.
  intros s1 s2 s3 [H1 E1] [H2 E2]. split; [by rewrite H2|].
  rewrite E2, E1. by destruct s1.
Qed.

Global Instance same_tree_refl : Reflexive same_tree.
Proof. by intros s. Qed.

Global Instance same_tree_trans : Transitive same_tree.
Proof.
  intros s1 s2 s3 (Ha & ? & ? & ? & ? & ? & ?) (Hb & ? & ? & ? & ? & ? & ?).
  split_and!; congruence.
Qed.

Lemma same_but_memos_tree s s' : same_but_memos s s' → same_tree s s'.
Proof.
  intros [Hh ->]. split_and!; try done. simpl.
  apply (f_equal (fmap (with_disposed false))) in Hh.
  by rewrite <- !map_fmap_compose in Hh.
Qed.

(** ** The [path] getter *)

Lemma fmap_insert_same {A B} (f : A → B) (h : gmap N A) n x y :
  h !! n = Some y → f x = f y → f <$> <[n := x]> h = f <$> h.
Proof.
  intros Hn Hf. rewrite fmap_insert, Hf. apply insert_id.
  by rewrite lookup_fmap, Hn.
Qed.

Lemma update_memo_only id f :
  (∀ e, uncache (f e) = uncache e) → preserves same_but_memos (update id f).
Proof.
  intros Hf. apply preserves_update; [apply _|]. intros s e He. split; [|done].
  simpl. by apply (fmap_insert_same uncache _ _ _ e).
Qed.

(** [path] writes nothing but memos. *)
Lemma path_frame pathfx fuel this : preserves same_but_memos (path pathfx fuel this).
Proof.
  revert this. induction fuel as [|fuel IH]; intros this; [apply preserves_diverge|].
  simpl. repeat preserves_step; by apply update_memo_only.
Qed.

Lemma same_but_memos_lookup s s' n e :
  same_but_memos s s' → heap s !! n = Some e →
  ∃ e', heap s' !! n = Some e' ∧ uncache e' = uncache e.
Proof.
  intros [Hh _] He. apply (f_equal (.!! n)) in Hh. rewrite !lookup_fmap, He in Hh.
  destruct (heap s' !! n) as [e'|]; [|done]. simpl in Hh.
  exists e'. split; [done|]. congruence.
Qed.

(** X6: the memo of [path].  After [path] has answered a non-empty path
    for a node other than the root, asking again gives the same answer
    without walking up the parents (one unit of fuel is enough) and
    without writing anything. *)
Theorem path_memo pathfx fuel this s p s' e :
  heap s !! this = Some e → cls e ≠ CRoot →
  path pathfx fuel this s = Ok p s' → p ≠ "" →
  path pathfx 1 this s' = Ok p s'.
Proof.
  intros He Hcls Hp Hne. destruct fuel as [|fuel]; [done|]. simpl in Hp.
  rewrite (bind_obj _ _ _ _ He) in Hp.
  assert (∃ e', heap s' !! this = Some e' ∧ uncache e' = uncache e
                ∧ resolvedPathCache e' = Some p) as (e' & He' & Hun & Hcache).
  { assert (∀ par,
      _parent e = Some par →
      match resolvedPathCache e with
      | Some (String c r) => ret (String c r)
      | _ =>
          let! v := match _fileName e with
                    | Some f =>
                        if isRelative pathfx f
                        then let! pp := path pathfx fuel par in ret (join pathfx pp f)
                        else ret f
                    | None => throw (TypeError "path-fx: path must be a string")
                    end in
          update this (with_resolvedPathCache (Some v)) ;; ret v
      end s = Ok p s' →
      ∃ e', heap s' !! this = Some e' ∧ uncache e' = uncache e
            ∧ resolvedPathCache e' = Some p) as Hbody.
    { intros par Hpar Hrun.
      assert (∀ v s1 s2,
                same_but_memos s s1 →
                (update this (with_resolvedPathCache (Some v)) ;; ret v) s1 = Ok p s2 →
                ∃ e', heap s2 !! this = Some e' ∧ uncache e' = uncache e
                      ∧ resolvedPathCache e' = Some p) as Hupd.
      { intros v s1 s2 Hsame Hu. destruct (same_but_memos_lookup _ _ _ _ Hsame He)
          as (e1 & He1 & Hun1).
        rewrite (bind_update _ _ _ _ _ He1) in Hu. injection Hu as <- <-.
        eexists. simpl. rewrite lookup_insert_eq. split; [done|]. by split. }
      assert (preserves same_but_memos
                (match _fileName e with
                 | Some f =>
                     if isRelative pathfx f
                     then let! pp := path pathfx fuel par in ret (join pathfx pp f)
                     else ret f
                 | None => throw (TypeError "path-fx: path must be a string")
                 end)) as Hpres.
      { repeat preserves_step. apply path_frame. }
      destruct (resolvedPathCache e) as [[|c r]|] eqn:Hca.
      - apply bind_Ok in Hrun as (v & s1 & Hv & Hu).
        apply (Hupd v s1 s'); [|done]. apply Hpres. by rewrite Hv.
      - injection Hrun as <- <-. exists e. by rewrite Hca.
      - apply bind_Ok in Hrun as (v & s1 & Hv & Hu).
        apply (Hupd v s1 s'); [|done]. apply Hpres. by rewrite Hv. }
    destruct (cls e); [| |done]; (destruct (_parent e) as [par|]; [|done]);
      by apply (Hbody par). }
  assert (cls e' = cls e) as Hc by (by apply (f_equal cls) in Hun).
  assert (_parent e' = _parent e) as Hpa by (by apply (f_equal _parent) in Hun).
  assert (∃ par, _parent e = Some par) as [par Hpar].
  { destruct (cls e); [| |done]; (destruct (_parent e); [eauto|done]). }
  simpl. rewrite (bind_obj _ _ _ _ He'), Hc, Hpa, Hpar, Hcache.
  destruct p; [done|]. by destruct (cls e).
Qed.

Lemma path_memo_witness :
  path unix 8 3 abc_expanded_state
  = Ok "/root/a/c.txt" (default fresh (state_of (path unix 8 3 abc_expanded_state)))
  ∧ path unix 1 3 (default fresh (state_of (path unix 8 3 abc_expanded_state)))
    = Ok "/root/a/c.txt" (default fresh (state_of (path unix 8 3 abc_expanded_state))).
Proof.
  split; [vm_compute; reflexivity|].
  eapply (path_memo unix 8 3 abc_expanded_state);
    [reflexivity|discriminate|vm_compute; reflexivity|discriminate].
Defined.

(** X7: a node that is not the root and has no parent has no path:
    [path] throws, memo or not, and writes nothing. *)
Theorem path_detached pathfx fuel this s e :
  heap s !! this = Some e → cls e ≠ CRoot → _parent e = None →
  path pathfx (S fuel) this s
  = Throw (Error "orphaned/detached FileEntries don't have path (except Root)") s.
Proof.
  intros He Hcls Hpar. simpl. rewrite (bind_obj _ _ _ _ He), Hpar.
  by destruct (cls e).
Qed.

Lemma path_detached_witness :
  path unix 8 1 abc_removed_state
  = Throw (Error "orphaned/detached FileEntries don't have path (except Root)")
          abc_removed_state.
Proof.
  eapply (path_detached unix 7 1 abc_removed_state);
    [vm_compute; reflexivity|discriminate|reflexivity].
Defined.

(** ** [dispose] *)

Lemma shape_disposed e b : shape (with_disposed b e) = shape e.
Proof. by destruct e. Qed.

Lemma shape_fields e e' :
  shape e' = shape e →
  cls e' = cls e ∧ _children e' = _children e ∧ _parent e' = _parent e
  ∧ flattenedBranch e' = flattenedBranch e ∧ _branchSize e' = _branchSize e
  ∧ isExpanded e' = isExpanded e ∧ watchTerminator e' = watchTerminator e.
Proof. destruct e, e'. unfold shape, uncache. simpl. intros [=]. by subst. Qed.

Lemma same_tree_lookup s s' n e :
  same_tree s s' → heap s !! n = Some e →
  ∃ e', heap s' !! n = Some e' ∧ shape e' = shape e.
Proof.
  intros [Hh _] He. apply (f_equal (.!! n)) in Hh. rewrite !lookup_fmap, He in Hh.
  destruct (heap s' !! n) as [e'|]; [|done]. simpl in Hh.
  exists e'. split; [done|]. congruence.
Qed.

Lemma same_tree_sym s s' : same_tree s s' → same_tree s' s.
Proof. unfold same_tree. naive_solver. Qed.

Lemma below_same_tree s s' a n :
  same_tree s s' → below (heap s) a n → below (heap s') a n.
Proof.
  intros Hsame Hb. induction Hb as [|p e cs c n He Hcls Hcs Hc Hb IH]; [constructor|].
  destruct (same_tree_lookup _ _ _ _ Hsame He) as (e' & He' & Hsh).
  apply shape_fields in Hsh as (Hc1 & Hc2 & _).
  apply (below_child _ p e' cs c n); [done|congruence|congruence|done|done].
Qed.

Global Instance disposal_refl : Reflexive disposal.
Proof. intros s. by repeat split. Qed.

Global Instance disposal_trans : Transitive disposal.
Proof.
  intros s1 s2 s3 (Ha & Hb & Hc & Hd) (Ha' & Hb' & Hc' & Hd').
  split; [by etrans|]. split; [naive_solver|]. split; [set_solver|].
  intros n Hn Hreg. apply Hd; [by apply Hd'|]. apply Hc', Hreg.
Qed.

Lemma disposal_same_tree s s' : disposal s s' → same_tree s s'.
Proof. by intros [? _]. Qed.

Lemma same_but_memos_disposal s s' : same_but_memos s s' → disposal s s'.
Proof.
  intros Hm. split; [by apply same_but_memos_tree|].
  assert (∀ a b n, same_but_memos a b → disposed_in a n → disposed_in b n) as Hmono.
  { intros a b n Hab (e & He & Hd).
    destruct (same_but_memos_lookup _ _ _ _ Hab He) as (e' & He' & Hu).
    exists e'. split; [done|]. apply (f_equal _disposed) in Hu. by rewrite <- Hd. }
  assert (same_but_memos s' s) as Hback.
  { destruct Hm as [Hh Hs]. split; [done|]. rewrite Hs. by destruct s. }
  pose proof Hm as [Hh Hs]. split; [intros n; by apply Hmono|].
  split; [rewrite Hs; by destruct s|]. intros n Hn _. by apply (Hmono s' s).
Qed.

Lemma disposed_in_events s n l :
  disposed_in (set_events l s) n ↔ disposed_in s n.
Proof. by destruct s. Qed.

Lemma preserves_weaken {A} (R R' : State → State → Prop) (m : M A) :
  (∀ s s', R s s' → R' s s') → preserves R m → preserves R' m.
Proof. intros HR Hm s s' Hs. by apply HR, Hm. Qed.

Lemma dispatch_disposal n : preserves disposal (dispatch n).
Proof.
  apply preserves_modify. intros s. split; [by destruct s|]. by destruct s.
Qed.

Lemma FileEntry_dispose_disposal this : preserves disposal (FileEntry_dispose this).
Proof.
  intros s s' Hrun. unfold FileEntry_dispose in Hrun.
  destruct (heap s !! this) as [e|] eqn:He.
  2:{ unfold bind, obj in Hrun. rewrite He in Hrun. by injection Hrun as <-. }
  rewrite (bind_obj _ _ _ _ He) in Hrun.
  destruct (_disposed e) eqn:Hd; [by injection Hrun as <-|].
  unfold dispatch, modify, bind, update in Hrun. simpl in Hrun. rewrite He in Hrun.
  simpl in Hrun. injection Hrun as <-.
  split; [|split; [|split]]; simpl.
  - split; [|done]. simpl.
    apply (fmap_insert_same shape _ _ _ e); [done|apply shape_disposed].
  - intros n (e0 & He0 & Hd0). unfold disposed_in. simpl.
    destruct (decide (n = this)) as [->|Hne].
    + rewrite lookup_insert_eq. eauto.
    + rewrite lookup_insert_ne by done. eauto.
  - set_solver.
  - intros n (e0 & He0 & Hd0) Hreg. simpl in *.
    destruct (decide (n = this)) as [->|Hne]; [set_solver|].
    rewrite lookup_insert_ne in He0 by done. by exists e0.
Qed.

Lemma FileEntry_dispose_disposes this s s' :
  FileEntry_dispose this s = Ok tt s' → disposed_in s' this.
Proof.
  intros Hrun. unfold FileEntry_dispose in Hrun.
  destruct (heap s !! this) as [e|] eqn:He.
  2:{ unfold bind, obj in Hrun. by rewrite He in Hrun. }
  rewrite (bind_obj _ _ _ _ He) in Hrun.
  destruct (_disposed e) eqn:Hd; [injection Hrun as <-; by exists e|].
  unfold dispatch, modify, bind, update in Hrun. simpl in Hrun. rewrite He in Hrun.
  simpl in Hrun. injection Hrun as <-.
  eexists. simpl. by rewrite lookup_insert_eq.
Qed.

Lemma call_watchTerminator_disposal pathfx this w p :
  preserves disposal (call_watchTerminator pathfx this w p).
Proof.
  unfold call_watchTerminator. repeat preserves_step.
  all: apply preserves_modify; intros s0; split; by destruct s0.
Qed.

Lemma dispose_S pathfx fuel this :
  dispose pathfx (S fuel) this
  = (let! e := obj this in
     match cls e with
     | CFileEntry => FileEntry_dispose this
     | _ =>
         match watchTerminator e with
         | Some w => let! p := path pathfx (S fuel) this in
                     call_watchTerminator pathfx this w p
         | None => ret tt
         end ;;
         match _children e with
         | Some cs => forEach cs (dispose pathfx fuel)
         | None => ret tt
         end ;;
         FileEntry_dispose this
     end).
Proof. reflexivity. Qed.

Lemma dispose_disposal pathfx fuel this : preserves disposal (dispose pathfx fuel this).
Proof.
  revert this. induction fuel as [|fuel IH]; intros this; [apply preserves_diverge|].
  rewrite dispose_S. repeat preserves_step.
  all: try apply FileEntry_dispose_disposal.
  all: try apply call_watchTerminator_disposal.
  all: try (apply preserves_forEach; [apply _|apply _|]; intros c _; apply IH).
  all: try (eapply preserves_weaken; [apply same_but_memos_disposal|];
            apply (path_frame pathfx (S fuel))).
Qed.

Lemma forEach_elem {A} (R : State → State → Prop) `{!Reflexive R} `{!Transitive R}
    (l : list A) (body : A → M unit) s s' c :
  (∀ x, preserves R (body x)) → forEach l body s = Ok tt s' → c ∈ l →
  ∃ sa sb, R s sa ∧ body c sa = Ok tt sb ∧ R sb s'.
Proof.
  intros Hbody. revert s. induction l as [|x l IH]; intros s Hrun Hc.
  { by apply elem_of_nil in Hc. }
  simpl in Hrun. apply bind_Ok in Hrun as ([] & s1 & Hx & Hrest).
  apply elem_of_cons in Hc as [->|Hc].
  - exists s, s1. split; [done|]. split; [done|].
    apply (preserves_forEach R l body); [by intros|]. by rewrite Hrest.
  - destruct (IH s1 Hrest Hc) as (sa & sb & Ha & Hb & Hc').
    exists sa, sb. split; [|done]. etrans; [|done]. apply (Hbody x). by rewrite Hx.
Qed.

Lemma same_tree_fields s s' n :
  same_tree s s' →
  children_of s' n = children_of s n ∧ flat_of s' n = flat_of s n
  ∧ size_of s' n = size_of s n
  ∧ isExpanded <$> heap s' !! n = isExpanded <$> heap s !! n
  ∧ _parent <$> heap s' !! n = _parent <$> heap s !! n.
Proof.
  intros [Hh _]. apply (f_equal (.!! n)) in Hh. rewrite !lookup_fmap in Hh.
  unfold children_of, flat_of, size_of.
  destruct (heap s' !! n) as [e'|], (heap s !! n) as [e|]; try done.
  simpl in Hh. assert (shape e' = shape e) as Hsh by congruence.
  apply shape_fields in Hsh as (? & ? & ? & ? & ? & ? & ?). simpl.
  repeat split; congruence.
Qed.

(** X8: [dispose] only stops watchers and clears bookkeeping records.
    However it ends, by returning or by an exception, on whatever object
    and in whatever state it was called, no directory's children,
    flattened array, branch size, expansion flag or parent link has
    changed. *)
Theorem dispose_keeps_tree pathfx fuel this s s' :
  state_of (dispose pathfx fuel this s) = Some s' →
  ∀ n, children_of s' n = children_of s n ∧ flat_of s' n = flat_of s n
       ∧ size_of s' n = size_of s n
       ∧ isExpanded <$> heap s' !! n = isExpanded <$> heap s !! n
       ∧ _parent <$> heap s' !! n = _parent <$> heap s !! n.
Proof.
  intros Hrun n. apply same_tree_fields, disposal_same_tree.
  by apply (dispose_disposal pathfx fuel this).
Qed.

Lemma dispose_keeps_tree_witness :
  flat_of abc_disposed_state 0 = flat_of abc_expanded_state 0
  ∧ size_of abc_disposed_state 0 = size_of abc_expanded_state 0.
Proof.
  assert (state_of (dispose unix 8 2 abc_expanded_state) = Some abc_disposed_state) as H
    by (vm_compute; reflexivity).
  destruct (dispose_keeps_tree unix 8 2 abc_expanded_state abc_disposed_state H 0)
    as (_ & Hf & Hs & _).
  exact (conj Hf Hs).
Defined.

Lemma dispose_cascade pathfx fuel this s s' n :
  dispose pathfx fuel this s = Ok tt s' → below (heap s) this n → disposed_in s' n.
Proof.
  revert this s s'. induction fuel as [|fuel IH]; intros this s s' Hrun Hb; [done|].
  rewrite dispose_S in Hrun.
  apply bind_Ok in Hrun as (e & s0 & [He ->]%obj_inv & Hrun).
  assert (cls e = CFileEntry ∧ FileEntry_dispose this s = Ok tt s' ∨
          cls e ≠ CFileEntry ∧
          ∃ s1 s2, disposal s s1
            ∧ match _children e with
              | Some cs => forEach cs (dispose pathfx fuel)
              | None => ret tt
              end s1 = Ok tt s2
            ∧ FileEntry_dispose this s2 = Ok tt s') as [[Hcls Hfile]|(Hcls & s1 & s2 & H1 & H2 & H3)].
  { destruct (cls e) eqn:Hc; [by left| |]; right; (split; [done|]);
      apply bind_Ok in Hrun as ([] & s1 & Hw & Hrun);
      apply bind_Ok in Hrun as ([] & s2 & Hcs & Hrun);
      exists s1, s2; (split; [|done]).
    all: destruct (watchTerminator e) as [w|]; [|by injection Hw as <-].
    all: assert (preserves disposal
                  (let! p := path pathfx (S fuel) this in
                   call_watchTerminator pathfx this w p)) as Hp
           by (preserves_step;
               [eapply preserves_weaken; [apply same_but_memos_disposal|];
                apply (path_frame pathfx (S fuel))
               |apply call_watchTerminator_disposal]).
    all: apply Hp; by rewrite Hw. }
  - inversion Hb as [|p e0 cs c n0 He0 Hcls0 Hcs Hc Hb']; subst.
    + by eapply FileEntry_dispose_disposes.
    + (* a [FileEntry] is a leaf *)
      assert (e0 = e) as -> by congruence. done.
  - inversion Hb as [|p e0 cs c n0 He0 Hcls0 Hcs Hc Hb']; subst.
    + by eapply FileEntry_dispose_disposes.
    + assert (e0 = e) as -> by congruence. rewrite Hcs in H2.
      destruct (forEach_elem disposal cs (dispose pathfx fuel) s1 s2 c
                  (dispose_disposal pathfx fuel) H2 Hc) as (sa & sb & Ha & Hrunc & Hb2).
      assert (disposed_in sb n) as Hn.
      { apply (IH c sa sb Hrunc). apply (below_same_tree s); [|done].
        apply disposal_same_tree. by etrans. }
      assert (disposal sb s') as (_ & Hmono & _).
      { etrans; [done|]. apply (FileEntry_dispose_disposal this). by rewrite H3. }
      by apply Hmono.
Qed.

(** X9: disposing of a directory disposes of everything loaded below it.
    When [dispose] returns, every object reachable from the receiver
    through the children of directories is marked disposed, and, unless
    it had been disposed of before, is gone from the id registry:
    [FileEntry.getFileEntryById] answers [undefined] for its id. *)
Theorem dispose_cascades pathfx fuel this s s' n :
  dispose pathfx fuel this s = Ok tt s' → below (heap s) this n →
  disposed_in s' n
  ∧ (¬ disposed_in s n → getFileEntryById (Some n) s' = Ok None s').
Proof.
  intros Hrun Hb. pose proof (dispose_cascade _ _ _ _ _ _ Hrun Hb) as Hd.
  split; [done|]. intros Hnot. unfold getFileEntryById, bind, gets, ret.
  destruct (decide (n ∈ idToFileEntry s')) as [Hin|]; [|done].
  destruct (dispose_disposal pathfx fuel this s s') as (_ & _ & _ & Hnew).
  { by rewrite Hrun. }
  destruct Hnot. by apply Hnew.
Qed.

Lemma dispose_cascades_witness :
  disposed_in abc_disposed_state 3
  ∧ getFileEntryById (Some 3%N) abc_disposed_state = Ok None abc_disposed_state.
Proof.
  assert (dispose unix 8 2 abc_expanded_state = Ok tt abc_disposed_state) as H
    by (vm_compute; reflexivity).
  assert (below (heap abc_expanded_state) 2 3) as Hb.
  { eapply (below_child _ 2%N _ [3%N] 3%N);
      [vm_compute; reflexivity|discriminate|reflexivity| |constructor].
    apply elem_of_cons. by left. }
  destruct (dispose_cascades unix 8 2 abc_expanded_state abc_disposed_state 3 H Hb)
    as [Hd Hreg].
  split; [exact Hd|]. apply Hreg. intros (e & He & Hdis).
  vm_compute in He. injection He as <-. discriminate Hdis.
Defined.

(** X10: the fallback terminator [Root.terminateWatch] is handed out as
    a bare function and later called as a method of the directory that
    holds it, where [this.fswatchers] does not exist.  So on a host
    without [watch], disposing of any loaded directory other than the
    root throws a [TypeError] right after the path is computed: neither
    the directory nor anything below it is disposed of. *)
Theorem dispose_unbound_terminateWatch pathfx fuel this s e p s1 :
  heap s !! this = Some e → cls e = CDirectory →
  watchTerminator e = Some TerminateWatch →
  path pathfx (S fuel) this s = Ok p s1 →
  dispose pathfx (S fuel) this s
  = Throw (TypeError "Cannot read property 'delete' of undefined") s1
  ∧ ∀ n, disposed_in s1 n → disposed_in s n.
Proof.
  intros He Hcls Hw Hp. split.
  - rewrite dispose_S, (bind_obj _ _ _ _ He), Hcls, Hw.
    unfold bind at 1. unfold bind at 1. rewrite Hp.
    assert (same_but_memos s s1) as Hm by (apply (path_frame pathfx (S fuel) this); by rewrite Hp).
    destruct (same_but_memos_lookup _ _ _ _ Hm He) as (e1 & He1 & Hu).
    unfold call_watchTerminator. rewrite (bind_obj _ _ _ _ He1).
    apply (f_equal cls) in Hu. simpl in Hu. by rewrite Hu, Hcls.
  - intros n (e1 & He1 & Hd).
    assert (same_but_memos s s1) as [Hh _]
      by (apply (path_frame pathfx (S fuel) this); by rewrite Hp).
    apply (f_equal (.!! n)) in Hh. rewrite !lookup_fmap, He1 in Hh.
    destruct (heap s !! n) as [e0|] eqn:He0; [|done]. exists e0. split; [done|].
    simpl in Hh. assert (uncache e1 = uncache e0) as Hu by congruence.
    apply (f_equal _disposed) in Hu. simpl in Hu. congruence.
Qed.

Lemma dispose_unbound_terminateWatch_witness :
  is_Throw (dispose unix 8 1 nowatch_loaded_state) = true.
Proof.
  destruct (dispose_unbound_terminateWatch unix 7 1 nowatch_loaded_state
              (default (mkEntry CFileEntry 0 None None 0 false None 0 None false None false None)
                       (heap nowatch_loaded_state !! 1%N))
              "/root/a"
              (default fresh (state_of (path unix 8 1 nowatch_loaded_state))))
    as [H _];
    [vm_compute; reflexivity|vm_compute; reflexivity|vm_compute; reflexivity
    |vm_compute; reflexivity|].
  rewrite H. reflexivity.
Defined.

(** ** Rows and ids *)

Lemma indexOf_lookup l x :
  indexOf l x > -1 → l !! Z.to_nat (indexOf l x) = Some x.
Proof.
  induction l as [|y l IH]; simpl; [lia|].
  destruct (decide (y = x)) as [->|Hne]; [done|].
  pose proof (indexOf_ge l x). case_decide; [lia|]. intros _.
  replace (Z.to_nat (indexOf l x + 1)) with (S (Z.to_nat (indexOf l x))) by lia.
  simpl. apply IH. lia.
Qed.

Lemma lookup_indexOf l x i :
  NoDup l → l !! i = Some x → indexOf l x = Z.of_nat i.
Proof.
  intros Hnd. revert i. induction Hnd as [|y l Hy Hnd IH]; intros i Hi; [done|].
  simpl. destruct i as [|i]; simpl in Hi.
  - injection Hi as ->. by rewrite decide_True.
  - assert (y ≠ x) as Hne.
    { intros ->. apply Hy. by eapply list_elem_of_lookup_2. }
    rewrite decide_False by done. rewrite (IH i Hi).
    case_decide; lia.
Qed.

(** X11: [getFileEntryAtIndex] and [getIndexAtFileEntryID] are inverse
    to each other on the rows of a root whose flat array holds no id
    twice: row [i] shows the object [id] exactly when [id] is still
    registered and [i] is the index reported for it. *)
Theorem getFileEntryAtIndex_getIndexAtFileEntryID s re fb (i : Z) (id : N) :
  heap s !! rootId s = Some re → flattenedBranch re = Some fb → NoDup fb →
  getFileEntryAtIndex i s = Ok (Some id) s
  ↔ getIndexAtFileEntryID id s = Ok i s ∧ i > -1 ∧ id ∈ idToFileEntry s.
Proof.
  intros Hr Hfb Hnd. unfold getFileEntryAtIndex, getIndexAtFileEntryID.
  unfold bind at 1 3, gets. rewrite !(bind_obj _ _ _ _ Hr), Hfb.
  unfold arr_get, getFileEntryById, ret, bind, gets. split.
  - case_decide as Hi; [done|].
    destruct (fb !! Z.to_nat i) as [j|] eqn:Hj; [|done].
    case_decide as Hreg; [|done]. intros [= ->].
    rewrite (lookup_indexOf _ _ _ Hnd Hj). split; [f_equal; lia|]. split; [lia|done].
  - intros ([= Hidx] & Hi & Hreg). rewrite decide_False by lia.
    rewrite <- Hidx, indexOf_lookup by lia. by rewrite decide_True.
Qed.

Lemma getFileEntryAtIndex_getIndexAtFileEntryID_witness :
  getFileEntryAtIndex 1 abc_expanded_state = Ok (Some 3%N) abc_expanded_state.
Proof.
  eapply (getFileEntryAtIndex_getIndexAtFileEntryID abc_expanded_state);
    [reflexivity|reflexivity| |].
  - apply (bool_decide_unpack _). vm_compute. reflexivity.
  - split; [vm_compute; reflexivity|]. split; [lia|].
    apply (bool_decide_unpack _). vm_compute. reflexivity.
Defined.

(** ** Watch events that fail validation *)

Lemma checkRawFile_throws file s :
  well_formed file = false → ∃ msg, checkRawFile file s = Throw (TypeError msg) s.
Proof.
  destruct file as [| | |type name]; try (intros _; eexists; reflexivity).
  unfold well_formed, checkRawFile. intros H.
  destruct (bool_decide (type = JNum (FileType_code Directory))) eqn:Hd,
           (bool_decide (type = JNum (FileType_code File))) eqn:Hf; simpl in *;
    try done; try (eexists; reflexivity);
    destruct (is_string name); try done; eexists; reflexivity.
Qed.

(** X12: an [Added] event is always validated, whatever the environment
    (unlike the items a host lists): for a malformed [file] the handler
    throws a [TypeError] after announcing the event, and nothing but the
    event log has changed; no object is constructed. *)
Theorem handleWatchEvent_Added_malformed pathfx host fuel this d file s :
  well_formed file = false →
  ∃ msg, handleWatchEvent pathfx host fuel this (Added d file) s
         = Throw (TypeError msg)
                 (set_events (events s ++ [WillProcessWatchEvent this (Added d file)]) s).
Proof.
  intros Hbad. unfold handleWatchEvent.
  destruct (checkRawFile_throws file
              (set_events (events s ++ [WillProcessWatchEvent this (Added d file)]) s) Hbad)
    as [msg Hmsg].
  exists msg. unfold bind, dispatch, modify. by rewrite Hmsg.
Qed.

Lemma handleWatchEvent_Added_malformed_witness :
  is_Throw (handleWatchEvent unix host_abc 8 0 (Added "/root" (RawObj (JNum 7) (JStr "x")))
              abc_expanded_state) = true.
Proof.
  destruct (handleWatchEvent_Added_malformed unix host_abc 8 0 "/root"
              (RawObj (JNum 7) (JStr "x")) abc_expanded_state) as [msg ->];
    reflexivity.
Defined.

(** X13: a [Moved] event whose paths are not both absolute strings is
    refused with a [TypeError] before anything is looked up: only the
    announcement of the event has been dispatched. *)
Theorem handleWatchEvent_Moved_invalid pathfx host fuel this oldPath newPath s :
  (∀ o n, oldPath = JStr o → newPath = JStr n →
          isRelative pathfx o = true ∨ isRelative pathfx n = true) →
  ∃ msg, handleWatchEvent pathfx host fuel this (Moved oldPath newPath) s
         = Throw (TypeError msg)
                 (set_events (events s ++ [WillProcessWatchEvent this (Moved oldPath newPath)]) s).
Proof.
  intros Hbad. unfold handleWatchEvent, bind, dispatch, modify.
  destruct oldPath as [| | | |o|]; try (eexists; reflexivity);
    destruct newPath as [| | | |n|]; try (eexists; reflexivity).
  destruct (Hbad o n eq_refl eq_refl) as [H|H].
  - rewrite H. eexists; reflexivity.
  - rewrite H. destruct (isRelative pathfx o); eexists; reflexivity.
Qed.

Lemma handleWatchEvent_Moved_invalid_witness :
  is_Throw (handleWatchEvent unix host_abc 8 0 (Moved (JStr "b.txt") (JStr "/root/a/b.txt"))
              abc_expanded_state) = true.
Proof.
  destruct (handleWatchEvent_Moved_invalid unix host_abc 8 0
              (JStr "b.txt") (JStr "/root/a/b.txt") abc_expanded_state) as [msg ->].
  - intros o n [= <-] [= <-]. left. reflexivity.
  - reflexivity.
Defined.

(** X14: [Root.inotify] never reports a failed [Added] event.  The
    watcher's callback is called and its promise dropped, so for a
    malformed [file] the call returns normally; the tree is untouched,
    and the event log shows the announcement when the directory is
    watched and nothing otherwise. *)
Theorem inotify_Added_malformed_dropped pathfx host fuel d file s :
  well_formed file = false →
  inotify pathfx host fuel (Added d file) s
  = Ok tt match fswatchers s !! normalize pathfx d with
          | Some owner =>
              set_events (events s ++ [WillProcessWatchEvent owner (Added d file)]) s
          | None => s
          end.
Proof.
  intros Hbad. unfold inotify, dispatchWatchEvent, bind, gets.
  destruct (fswatchers s !! normalize pathfx d) as [owner|]; [|done].
  unfold unawaited, handleWatchEvent, bind, dispatch, modify.
  destruct (checkRawFile_throws file
              (set_events (events s ++ [WillProcessWatchEvent owner (Added d file)]) s) Hbad)
    as [msg ->]. done.
Qed.

Lemma inotify_Added_malformed_dropped_witness :
  (events <$> state_of (inotify unix host_abc 8 (Added "/root/a" RawNull) abc_expanded_state))
  = Some (events abc_expanded_state ++ [WillProcessWatchEvent 2 (Added "/root/a" RawNull)]).
Proof.
  rewrite (inotify_Added_malformed_dropped unix host_abc 8 "/root/a" RawNull
             abc_expanded_state); reflexivity.
Defined.

(** ** Collapsing *)

Global Instance same_nodes_refl : Reflexive same_nodes.
Proof. intros s. split; [done|]. by destruct s. Qed.

Global Instance same_nodes_trans : Transitive same_nodes.
Proof.
  intros s1 s2 s3 [Ha Hb] [Ha' Hb']. split; [congruence|].
  rewrite Hb'. rewrite Hb. by destruct s1.
Qed.

Lemma update_skeleton_only id f :
  (∀ e, skeleton (f e) = skeleton e) → preserves same_nodes (update id f).
Proof.
  intros Hf. apply preserves_update; [apply _|]. intros s e He. split.
  - simpl. by apply (fmap_insert_same skeleton _ _ _ e).
  - by destruct s.
Qed.

Lemma dispatch_same_nodes n : preserves same_nodes (dispatch n).
Proof. apply preserves_modify. intros s. split; by destruct s. Qed.

Lemma setFlattenedBranch_same_nodes this leaves :
  preserves same_nodes (setFlattenedBranch this leaves).
Proof.
  unfold setFlattenedBranch. repeat preserves_step.
  all: try apply dispatch_same_nodes.
  all: apply update_skeleton_only; by intros [].
Qed.

Lemma shrinkBranch_same_nodes fuel this branch :
  preserves same_nodes (shrinkBranch fuel this branch).
Proof.
  revert this. induction fuel as [|fuel IH]; intros this; simpl; [apply preserves_diverge|].
  repeat preserves_step.
  all: try apply setFlattenedBranch_same_nodes.
  all: try apply IH.
  all: apply update_skeleton_only; by intros [].
Qed.

Lemma expandBranch_same_nodes fuel this branch :
  preserves same_nodes (expandBranch fuel this branch).
Proof.
  revert this. induction fuel as [|fuel IH]; intros this; simpl; [apply preserves_diverge|].
  repeat preserves_step.
  all: try apply setFlattenedBranch_same_nodes.
  all: try apply IH.
  all: apply update_skeleton_only; by intros [].
Qed.

Lemma isItemVisibleAtSurface_same_nodes item :
  preserves same_nodes (isItemVisibleAtSurface item).
Proof. unfold isItemVisibleAtSurface. repeat preserves_step. Qed.

Lemma notifyDidChangeExpansionState_same_nodes t b :
  preserves same_nodes (notifyDidChangeExpansionState t b).
Proof.
  unfold notifyDidChangeExpansionState. repeat preserves_step.
  - apply isItemVisibleAtSurface_same_nodes.
  - apply dispatch_same_nodes.
Qed.

Lemma setCollapsed_same_nodes fuel this : preserves same_nodes (setCollapsed fuel this).
Proof.
  unfold setCollapsed, Directory_setCollapsed, notifyWillChangeExpansionState.
  repeat preserves_step.
  all: try apply dispatch_same_nodes.
  all: try apply shrinkBranch_same_nodes.
  all: try apply notifyDidChangeExpansionState_same_nodes.
  all: apply update_skeleton_only; by intros [].
Qed.

Lemma skeleton_fields e e' :
  skeleton e' = skeleton e →
  cls e' = cls e ∧ _children e' = _children e ∧ _parent e' = _parent e
  ∧ _fileName e' = _fileName e ∧ _disposed e' = _disposed e
  ∧ watchTerminator e' = watchTerminator e ∧ hardReloadPromise e' = hardReloadPromise e.
Proof. destruct e, e'. unfold skeleton, uncache. simpl. intros [=]. by subst. Qed.

Lemma same_nodes_lookup s s' n e :
  same_nodes s s' → heap s !! n = Some e →
  ∃ e', heap s' !! n = Some e' ∧ skeleton e' = skeleton e.
Proof.
  intros [Hh _] He. apply (f_equal (.!! n)) in Hh. rewrite !lookup_fmap, He in Hh.
  destruct (heap s' !! n) as [e'|]; [|done]. simpl in Hh.
  exists e'. split; [done|]. congruence.
Qed.

(** X15: collapsing is bookkeeping only.  However [collapseDirectory]
    ends, the set of objects, every directory's children, all parent
    links and names, the id registry, the watchers, the queue of change
    events and the list of host calls are as before: nothing is loaded,
    constructed, disposed of or unwatched. *)
Theorem collapseDirectory_frame fuel directory s s' :
  state_of (collapseDirectory fuel directory s) = Some s' →
  (∀ n, children_of s' n = children_of s n ∧ name_of s' n = name_of s n
        ∧ _parent <$> heap s' !! n = _parent <$> heap s !! n
        ∧ _disposed <$> heap s' !! n = _disposed <$> heap s !! n)
  ∧ idToFileEntry s' = idToFileEntry s ∧ nextId s' = nextId s
  ∧ fswatchers s' = fswatchers s ∧ hostCalls s' = hostCalls s
  ∧ changeEventDispatchQueue s' = changeEventDispatchQueue s.
Proof.
  intros Hrun. apply (setCollapsed_same_nodes fuel directory) in Hrun as [Hh Hs].
  split.
  - intros n. apply (f_equal (.!! n)) in Hh. rewrite !lookup_fmap in Hh.
    unfold children_of, name_of.
    destruct (heap s' !! n) as [e'|], (heap s !! n) as [e|]; try done.
    simpl in Hh. assert (skeleton e' = skeleton e) as Hsk by congruence.
    apply skeleton_fields in Hsk as (? & ? & ? & ? & ? & ? & ?). simpl.
    repeat split; congruence.
  - rewrite Hs. by destruct s.
Qed.

Lemma collapseDirectory_frame_witness :
  children_of (default fresh (state_of abc_collapsed)) 0 = children_of abc_expanded_state 0.
Proof.
  assert (state_of (collapseDirectory 8 2 abc_expanded_state)
          = Some (default fresh (state_of abc_collapsed))) as H
    by (vm_compute; reflexivity).
  destruct (collapseDirectory_frame 8 2 abc_expanded_state _ H) as [Hn _].
  exact (proj1 (Hn 0%N)).
Defined.

(** X16: collapsing twice is collapsing once.  After [collapseDirectory]
    has returned, a second call on the same directory returns at once:
    it changes nothing and dispatches no event. *)
Theorem collapseDirectory_idempotent fuel directory s s' :
  collapseDirectory fuel directory s = Ok tt s' →
  collapseDirectory fuel directory s' = Ok tt s'.
Proof.
  unfold collapseDirectory, setCollapsed. intros Hrun.
  apply bind_Ok in Hrun as (e & s0 & [He ->]%obj_inv & Hrun).
  destruct (cls e) eqn:Hcls; [done| |].
  2:{ injection Hrun as <-. by rewrite (bind_obj _ _ _ _ He), Hcls. }
  unfold Directory_setCollapsed in Hrun. rewrite (bind_obj _ _ _ _ He) in Hrun.
  destruct (isExpanded e) eqn:Hexp; simpl in Hrun.
  2:{ injection Hrun as <-.
      rewrite (bind_obj _ _ _ _ He), Hcls. unfold Directory_setCollapsed.
      by rewrite (bind_obj _ _ _ _ He), Hexp. }
  apply bind_Ok in Hrun as ([] & s1 & Hshrink & Hrun).
  apply bind_Ok in Hrun as ([] & s2 & Hupd & Hnotify).
  assert (same_nodes s s1) as Hs1.
  { assert (preserves same_nodes
              (match _children e, _parent e with
               | Some _, Some _ =>
                   notifyWillChangeExpansionState directory false ;;
                   shrinkBranch fuel directory directory
               | _, _ => ret tt
               end)) as Hp.
    { unfold notifyWillChangeExpansionState. repeat preserves_step.
      - apply dispatch_same_nodes.
      - apply shrinkBranch_same_nodes. }
    apply Hp. by rewrite Hshrink. }
  destruct (same_nodes_lookup _ _ _ _ Hs1 He) as (e1 & He1 & Hsk1).
  unfold update in Hupd. rewrite He1 in Hupd. injection Hupd as <-.
  unfold notifyDidChangeExpansionState in Hnotify.
  apply bind_Ok in Hnotify as (vis & s3 & Hvis & Hd).
  assert (s3 = set_heap (<[directory:=with_isExpanded false e1]> (heap s1)) s1) as ->.
  { revert Hvis. unfold isItemVisibleAtSurface, bind, gets. simpl.
    case_decide; [by intros [= _ <-]|]. unfold obj. simpl.
    destruct (<[directory:=with_isExpanded false e1]> (heap s1) !! rootId s1) as [re|];
      [|done]. destruct (flattenedBranch re); [|done]. by intros [= _ <-]. }
  injection Hd as <-.
  apply skeleton_fields in Hsk1 as (Hc1 & _).
  assert (∀ k : Entry → M unit,
            bind (obj directory) k
              (set_events
                 (events (set_heap (<[directory:=with_isExpanded false e1]> (heap s1)) s1) ++
                  [DidChangeExpansionState directory false vis])
                 (set_heap (<[directory:=with_isExpanded false e1]> (heap s1)) s1))
            = k (with_isExpanded false e1)
                (set_events
                 (events (set_heap (<[directory:=with_isExpanded false e1]> (heap s1)) s1) ++
                  [DidChangeExpansionState directory false vis])
                 (set_heap (<[directory:=with_isExpanded false e1]> (heap s1)) s1))) as Hobj.
  { intros k. apply bind_obj. simpl. by rewrite lookup_insert_eq. }
  rewrite Hobj. simpl. rewrite Hc1, Hcls. unfold Directory_setCollapsed.
  rewrite Hobj. done.
Qed.

Lemma collapseDirectory_idempotent_witness :
  collapseDirectory 8 2 (default fresh (state_of abc_collapsed))
  = Ok tt (default fresh (state_of abc_collapsed)).
Proof.
  apply (collapseDirectory_idempotent 8 2 abc_expanded_state).
  vm_compute. reflexivity.
Defined.

(** ** The root's constructor *)

(** X17: what [new Root(host, root)] leaves behind for an absolute
    [root].  The root takes the next id and is registered; it counts as
    expanded but is not loaded: no children, no flat array, size 0, its
    reload pending after exactly one [getItems(root)] request.  The
    change queue and the watcher table start empty, no flush timer is
    armed; nothing is dispatched. *)
Theorem Root_constructor_unloaded pathfx root s :
  isRelative pathfx root = false →
  Root_constructor pathfx root s
  = Ok (nextId s)
       (mkState (<[nextId s := mkEntry CRoot (nextId s) None None 0 false None 0 None
                                       true None true None]> (heap s))
                (nextId s + 1)%N ({[nextId s]} ∪ idToFileEntry s) (nextId s) root ∅ []
                (events s) (hostCalls s ++ [root]) false).
Proof.
  intros Habs. unfold Root_constructor. rewrite Habs.
  unfold construct, unawaited, hardReloadChildren_begin, bind, gets, modify, update, obj, ret.
  simpl.
  repeat first [ rewrite lookup_insert_eq | rewrite insert_insert_eq
               | progress simpl | progress unfold bind, obj, gets, modify, ret ].
  reflexivity.
Qed.

Lemma Root_constructor_unloaded_witness :
  is_Ok (Root_constructor unix "/root" fresh) = true.
Proof.
  rewrite (Root_constructor_unloaded unix "/root" fresh); reflexivity.
Defined.

(** ** Queued change events *)

Lemma set_queue_same s : set_queue (changeEventDispatchQueue s) s = s.
Proof. by destruct s. Qed.

Lemma set_queue_twice q q' s : set_queue q' (set_queue q s) = set_queue q' s.
Proof. by destruct s. Qed.




Lemma forEach_fixed {A} (l : list A) (body : A → M unit) s :
  (∀ x, x ∈ l → body x s = Ok tt s) → forEach l body s = Ok tt s.
Proof.
  induction l as [|x l IH]; intros Hb; [done|]. simpl. unfold bind.
  rewrite Hb by (apply elem_of_cons; by left).
  apply IH. intros y Hy. apply Hb, elem_of_cons. by right.
Qed.

(** X19: a flush only reaches directories that are being watched under
    the very path that was queued (the lookup at flush time does not
    normalize it).  When no queued path is a key of the watcher table,
    [flushEventQueue] empties the queue and does nothing else. *)
Theorem flushEventQueue_unwatched pathfx host fuel s :
  (∀ p, p ∈ changeEventDispatchQueue s → fswatchers s !! p = None) →
  flushEventQueue pathfx host fuel s = Ok tt (set_queue [] s).
Proof.
  intros Hnone. unfold flushEventQueue, bind at 1, gets.
  destruct (changeEventDispatchQueue s) as [|p q] eqn:Hq.
  { rewrite <- Hq. by rewrite set_queue_same. }
  unfold bind, modify. apply forEach_fixed. intros x Hx.
  assert (x ∈ p :: q) as Hx'.
  { by rewrite <- (proj1 (flush_order_sorted pathfx (p :: q))). }
  unfold gets. assert (fswatchers (set_queue [] s) = fswatchers s) as -> by by destruct s.
  by rewrite (Hnone x Hx').
Qed.

Lemma flushEventQueue_unwatched_witness :
  flushEventQueue unix host_ax 8 (set_queue ["/root/a/"] ax_loaded_state)
  = Ok tt (set_queue [] (set_queue ["/root/a/"] ax_loaded_state)).
Proof.
  apply (flushEventQueue_unwatched unix host_ax 8 (set_queue ["/root/a/"] ax_loaded_state)).
  intros p Hp. simpl in Hp. apply list_elem_of_singleton in Hp as ->.
  vm_compute. reflexivity.
Defined.

(** ** [Root.walkPathTillRelative] *)

Lemma strip_prefix_spec p l frags s :
  Forall (λ f, f ≠ "") l →
  (l `prefix_of` frags → strip_prefix p l frags s = Ok (drop (length l) frags) s)
  ∧ (¬ l `prefix_of` frags → ∃ msg, strip_prefix p l frags s = Throw (Error msg) s).
Proof.
  intros Hl. revert frags. induction Hl as [|f l Hf Hl IH]; intros frags.
  { split; [done|]. intros []. apply prefix_nil. }
  simpl. rewrite bool_decide_eq_false_2 by done.
  destruct frags as [|g frags].
  { split; [by intros ?%prefix_nil_not|]. intros _. eexists. reflexivity. }
  destruct (decide (f = g)) as [->|Hne].
  - rewrite bool_decide_eq_true_2 by done. destruct (IH frags) as [IH1 IH2]. split.
    + intros Hp%prefix_cons_inv_2. by apply IH1.
    + intros Hp. apply IH2. intros Hp'. apply Hp. by apply prefix_cons.
  - rewrite bool_decide_eq_false_2 by done. split.
    + by intros ?%prefix_cons_inv_1.
    + intros _. eexists. reflexivity.
Qed.

(** X20: [walkPathTillRelative] strips the root's own fragments off a
    path.  With no empty fragment in the root's path, a path that starts
    with all of the root's fragments yields the fragments after them, and
    any other path is refused with an [Error]; the state is not touched. *)
Theorem walkPathTillRelative_spec pathfx p s :
  Forall (λ f, f ≠ "") (splitPath pathfx (rootPath s)) →
  (splitPath pathfx (rootPath s) `prefix_of` splitPath pathfx p →
   walkPathTillRelative pathfx p s
   = Ok (drop (length (splitPath pathfx (rootPath s))) (splitPath pathfx p)) s)
  ∧ (¬ splitPath pathfx (rootPath s) `prefix_of` splitPath pathfx p →
     ∃ msg, walkPathTillRelative pathfx p s = Throw (Error msg) s).
Proof.
  intros Hl. unfold walkPathTillRelative, bind, gets.
  apply (strip_prefix_spec p _ _ s Hl).
Qed.

Lemma walkPathTillRelative_spec_witness :
  walkPathTillRelative unix "/root/a/x.txt" ax_loaded_state = Ok ["a"; "x.txt"] ax_loaded_state.
Proof.
  destruct (walkPathTillRelative_spec unix "/root/a/x.txt" ax_loaded_state) as [H _].
  - repeat constructor; discriminate.
  - rewrite H; [reflexivity|]. exists ["a"; "x.txt"]. reflexivity.
Defined.

(** ** The walks of [shrinkBranch] and [expandBranch] *)

Lemma owner_path_det h a l o l' o' :
  owner_path h a l o → owner_path h a l' o' → l = l' ∧ o = o'.
Proof.
  intros H. revert l' o'. induction H as [a e fb Ha Hfb|a e p l o Ha Hfb Hp Hpath IH];
    intros l' o' H'; inversion H'; simplify_eq; [done|].
  by destruct (IH _ _ ltac:(eassumption)) as [-> ->].
Qed.

Lemma owner_path_from h a l o x :
  owner_path h a l o → x ∈ l →
  ∃ l2, owner_path h x l2 o ∧ (length l2 <= length l)%nat ∧ l2 ≠ [].
Proof.
  induction 1 as [a e fb Ha Hfb|a e p l o Ha Hfb Hp Hpath IH]; [by intros ?%elem_of_nil|].
  intros [->|Hx]%elem_of_cons.
  - exists (a :: l). split; [by econstructor|]. split; [done|]. done.
  - destruct (IH Hx) as (l2 & H2 & Hlen & Hne). exists l2. split; [done|].
    split; [simpl; lia|done].
Qed.

Lemma owner_path_end_flat h a l o :
  owner_path h a l o → owner_path h o [] o.
Proof. induction 1; [by econstructor|done]. Qed.

Lemma owner_path_nodup h a l o : owner_path h a l o → NoDup (l ++ [o]).
Proof.
  induction 1 as [a e fb Ha Hfb|a e p l o Ha Hfb Hp Hpath IH]; simpl.
  { apply NoDup_singleton. }
  apply NoDup_cons. split; [|done]. intros [Hin|Hin%list_elem_of_singleton]%elem_of_app.
  - destruct (owner_path_from _ _ _ _ _ Hpath Hin) as (l2 & H2 & Hlen & _).
    assert (owner_path h a (a :: l) o) as H1 by by econstructor.
    destruct (owner_path_det _ _ _ _ _ _ H1 H2) as [<- _]. simpl in Hlen. lia.
  - subst a. pose proof (owner_path_end_flat _ _ _ _ Hpath) as H0.
    inversion H0; simplify_eq.
Qed.

Lemma owner_path_from_or_end h a l o n :
  owner_path h a l o → n ∈ l ++ [o] → ∃ e, h !! n = Some e.
Proof.
  induction 1 as [a e fb Ha Hfb|a e p l o Ha Hfb Hp Hpath IH]; simpl.
  - intros ->%list_elem_of_singleton. eauto.
  - intros [->|Hn]%elem_of_cons; [eauto|by apply IH].
Qed.

(** A walk sees only parents and the presence of flat arrays. *)
Lemma owner_path_ext h h' a l o :
  (∀ n, n ∈ l ++ [o] →
        ∃ e e', h !! n = Some e ∧ h' !! n = Some e'
                ∧ _parent e' = _parent e
                ∧ (flattenedBranch e = None ↔ flattenedBranch e' = None)) →
  owner_path h a l o → owner_path h' a l o.
Proof.
  intros Hext Hpath. induction Hpath as [a e fb Ha Hfb|a e p l o Ha Hfb Hp Hpath IH].
  - destruct (Hext a) as (e0 & e' & He0 & He' & _ & Hf); [set_solver|].
    assert (e0 = e) as -> by congruence.
    destruct (flattenedBranch e') as [fb'|] eqn:Hfb'; [by econstructor|].
    destruct Hf as [_ Hf]. rewrite Hf in Hfb; done.
  - destruct (Hext a) as (e0 & e' & He0 & He' & Hpar & Hf); [set_solver|].
    assert (e0 = e) as -> by congruence.
    apply (owner_up _ a e' p l o); [done|by apply Hf|by rewrite Hpar|].
    apply IH. intros n Hn. apply Hext. set_solver.
Qed.

Lemma setFlattenedBranch_run n leaves s e :
  heap s !! n = Some e →
  setFlattenedBranch n leaves s
  = Ok tt (set_events (events s ++ update_events (cls e))
             (set_heap (<[n := with_flattenedBranch leaves e]> (heap s)) s)).
Proof.
  intros He. unfold setFlattenedBranch. rewrite (bind_obj _ _ _ _ He).
  rewrite (bind_update _ _ _ _ _ He).
  destruct (cls e); simpl; unfold ret, dispatch, modify; simpl;
    rewrite ?app_nil_r; by destruct s.
Qed.

Lemma slice_at (fb : list N) (i : nat) (z : Z) :
  (i <= length fb)%nat →
  (i + length (ta_slice fb (Z.of_nat i) z) <= length fb)%nat.
Proof.
  intros Hi. unfold ta_slice. rewrite length_take, length_drop.
  rewrite (rel_index_mid _ (Z.of_nat i)) by lia. lia.
Qed.

Lemma indexOf_lt l x : indexOf l x < Z.of_nat (length l).
Proof.
  induction l as [|y l IH]; simpl; [lia|].
  repeat case_decide; lia.
Qed.

(** Where a branch's rows start in an array: right after the branch. *)
Lemma start_index fb D :
  ∃ i : nat, indexOf fb D + 1 = Z.of_nat i ∧ (i <= length fb)%nat.
Proof.
  pose proof (indexOf_ge fb D). pose proof (indexOf_lt fb D).
  exists (Z.to_nat (indexOf fb D + 1)). lia.
Qed.

Lemma resized_cons_ne a l delta n e :
  n ≠ a → resized (a :: l) delta n e = resized l delta n e.
Proof.
  intros Hne. unfold resized.
  destruct (decide (n ∈ l)) as [Hin|Hn].
  - rewrite !bool_decide_eq_true_2; [done..|]. apply elem_of_cons. by right.
  - rewrite !bool_decide_eq_false_2; [done..|]. by intros [?|?]%elem_of_cons.
Qed.

Lemma rewalked_cons_ne branch o a l delta fo fbr n e :
  n ≠ a → rewalked branch o (a :: l) delta fo fbr n e = rewalked branch o l delta fo fbr n e.
Proof.
  intros Hne. unfold rewalked. simpl. by rewrite resized_cons_ne.
Qed.

Lemma rewalked_head branch o a l delta fo fbr e :
  a ≠ o → a ≠ branch → a ∉ l →
  rewalked branch o l delta fo fbr a (with_branchSize (_branchSize e + delta) e)
  = rewalked branch o (a :: l) delta fo fbr a e.
Proof.
  intros Ho Hb Hl. unfold rewalked, resized.
  rewrite (bool_decide_eq_false_2 (a ∈ l ++ [o])) by set_solver.
  rewrite (bool_decide_eq_true_2 (a ∈ (a :: l) ++ [o])) by set_solver.
  by rewrite !bool_decide_eq_false_2 by done.
Qed.

(** The walk of [shrinkBranch] from [p] on behalf of [D]: it passes the
    directories [l] without a flat array and ends at the owner [o]. *)
Lemma shrink_from D eD l :
  ∀ fuel p o s eo fb,
    owner_path (heap s) p l o → heap s !! D = Some eD → D ∉ l ++ [o] →
    heap s !! o = Some eo → flattenedBranch eo = Some fb → (length l < fuel)%nat →
    let start := indexOf fb D + 1 in
    let returned := ta_slice fb start (start + _branchSize eD) in
    ∃ s', shrinkBranch fuel p D s = Ok tt s'
      ∧ (∀ n, heap s' !! n
              = rewalked D o l (- _branchSize eD)
                  (Some (take (Z.to_nat start) fb
                         ++ drop (Z.to_nat start + length returned) fb))
                  (Some returned) n <$> heap s !! n)
      ∧ s' = set_events (events s ++ update_events (cls eD) ++ update_events (cls eo))
               (set_heap (heap s') s).
Proof.
  induction l as [|a l IH]; intros fuel p o s eo fb Hpath HD HDl Ho Hfb Hfuel start returned.
  - inversion Hpath as [a e fb' Ha Hfb'|]; subst. assert (e = eo) as -> by congruence.
    assert (fb' = fb) as -> by congruence.
    destruct fuel as [|fuel]; [simpl in Hfuel; lia|].
    assert (o ≠ D) as Hne by set_solver.
    cbn [shrinkBranch]. rewrite (bind_obj _ _ _ _ HD).
    rewrite (bool_decide_eq_false_2 (o = D)) by done. cbn [negb when].
    rewrite (bind_update _ _ _ _ _ Ho).
    set (eo1 := with_branchSize (_branchSize eo - _branchSize eD) eo).
    set (s1 := set_heap (<[o:=eo1]> (heap s)) s).
    assert (heap s1 !! o = Some eo1) as Ho1 by (simpl; by rewrite lookup_insert_eq).
    rewrite (bind_obj _ _ _ _ Ho1).
    assert (flattenedBranch eo1 = Some fb) as -> by done.
    assert (heap s1 !! D = Some eD) as HD1 by (simpl; by rewrite lookup_insert_ne).
    unfold bind at 1. rewrite (setFlattenedBranch_run _ _ _ _ HD1).
    fold start. fold returned.
    destruct (start_index fb D) as (i & Hi & Hile). fold start in Hi.
    pose proof (slice_at fb i (start + _branchSize eD) Hile) as Hfit.
    rewrite <- Hi in Hfit. fold returned in Hfit.
    rewrite Hi, (splice_delete fb i (length returned)) by done.
    cbn [lift_range]. unfold bind at 1, ret at 1.
    set (s2 := set_events _ _).
    assert (heap s2 !! o = Some eo1) as Ho2.
    { unfold s2. simpl. rewrite lookup_insert_ne by done. by rewrite lookup_insert_eq. }
    rewrite (setFlattenedBranch_run _ _ _ _ Ho2). eexists. split; [done|]. split.
    + intros n. unfold s2. simpl. rewrite Nat2Z.id.
      destruct (decide (n = o)) as [->|Hno].
      { rewrite lookup_insert_eq, Ho. simpl. unfold rewalked, resized.
        rewrite (bool_decide_eq_true_2 (o ∈ [] ++ [o])) by set_solver.
        by rewrite (bool_decide_eq_true_2 (o = o)) by done. }
      rewrite lookup_insert_ne by done.
      destruct (decide (n = D)) as [->|HnD].
      { rewrite lookup_insert_eq, HD. simpl. unfold rewalked, resized.
        rewrite (bool_decide_eq_false_2 (D ∈ [] ++ [o])) by set_solver.
        rewrite (bool_decide_eq_false_2 (D = o)) by done.
        by rewrite (bool_decide_eq_true_2 (D = D)) by done. }
      rewrite !lookup_insert_ne by done.
      destruct (heap s !! n) as [e|]; [|done]. simpl. unfold rewalked, resized.
      rewrite (bool_decide_eq_false_2 (n ∈ [] ++ [o])) by set_solver.
      rewrite (bool_decide_eq_false_2 (n = o)) by done.
      by rewrite (bool_decide_eq_false_2 (n = D)) by done.
    + unfold s2, s1. destruct s; simpl. by rewrite app_assoc.
  - inversion Hpath as [|a' e p' l' o' Ha Hfba Hpa Hpath']; subst.
    destruct fuel as [|fuel]; [simpl in Hfuel; lia|].
    pose proof (owner_path_nodup _ _ _ _ Hpath) as Hnd. simpl in Hnd.
    apply NoDup_cons in Hnd as [Hal Hnd].
    assert (a ≠ D) as Hne by set_solver.
    assert (a ≠ o) as Hao by set_solver.
    cbn [shrinkBranch]. rewrite (bind_obj _ _ _ _ HD).
    rewrite (bool_decide_eq_false_2 (a = D)) by done. cbn [negb when].
    rewrite (bind_update _ _ _ _ _ Ha).
    set (e1 := with_branchSize (_branchSize e - _branchSize eD) e).
    set (s1 := set_heap (<[a:=e1]> (heap s)) s).
    assert (heap s1 !! a = Some e1) as Ha1 by (simpl; by rewrite lookup_insert_eq).
    rewrite (bind_obj _ _ _ _ Ha1).
    assert (flattenedBranch e1 = None) as -> by done.
    assert (_parent e1 = Some p') as -> by done.
    destruct (IH fuel p' o s1 eo fb) as (s' & Hrun & Hheap & Hs').
    + apply (owner_path_ext (heap s)); [|done]. intros n Hn.
      assert (n ≠ a) by (intros ->; done).
      destruct (owner_path_from_or_end (heap s) p' l o n Hpath' Hn) as [en Hen].
      exists en, en. simpl. by rewrite lookup_insert_ne.
    + simpl. by rewrite lookup_insert_ne.
    + set_solver.
    + simpl. by rewrite lookup_insert_ne.
    + done.
    + simpl in Hfuel. lia.
    + exists s'. split; [done|]. split.
      * intros n. rewrite Hheap. simpl. destruct (decide (n = a)) as [->|Hna].
        { rewrite lookup_insert_eq, Ha. simpl. f_equal.
          apply (rewalked_head D o a l (- _branchSize eD)); [done|done|set_solver]. }
        rewrite lookup_insert_ne by done. destruct (heap s !! n); [|done]. simpl.
        by rewrite rewalked_cons_ne.
      * rewrite Hs'. by destruct s.
Qed.

(** The walk of [expandBranch] from [p] on behalf of [D]. *)
Lemma expand_from D eD l :
  ∀ fuel p o s eo fb,
    owner_path (heap s) p l o → heap s !! D = Some eD → D ∉ l ++ [o] →
    heap s !! o = Some eo → flattenedBranch eo = Some fb → (length l < fuel)%nat →
    let start := indexOf fb D + 1 in
    ∃ s', expandBranch fuel p D s = Ok tt s'
      ∧ (∀ n, heap s' !! n
              = rewalked D o l (_branchSize eD)
                  (Some (take (Z.to_nat start) fb ++ default [] (flattenedBranch eD)
                         ++ drop (Z.to_nat start) fb))
                  None n <$> heap s !! n)
      ∧ s' = set_events (events s ++ update_events (cls eo) ++ update_events (cls eD))
               (set_heap (heap s') s).
Proof.
  induction l as [|a l IH]; intros fuel p o s eo fb Hpath HD HDl Ho Hfb Hfuel start.
  - inversion Hpath as [a e fb' Ha Hfb'|]; subst. assert (e = eo) as -> by congruence.
    assert (fb' = fb) as -> by congruence.
    destruct fuel as [|fuel]; [simpl in Hfuel; lia|].
    assert (o ≠ D) as Hne by set_solver.
    cbn [expandBranch]. rewrite (bind_obj _ _ _ _ HD).
    rewrite (bool_decide_eq_false_2 (o = D)) by done. cbn [negb when].
    rewrite (bind_update _ _ _ _ _ Ho).
    set (eo1 := with_branchSize (_branchSize eo + _branchSize eD) eo).
    set (s1 := set_heap (<[o:=eo1]> (heap s)) s).
    assert (heap s1 !! o = Some eo1) as Ho1 by (simpl; by rewrite lookup_insert_eq).
    rewrite (bind_obj _ _ _ _ Ho1).
    assert (flattenedBranch eo1 = Some fb) as -> by done.
    assert (heap s1 !! D = Some eD) as HD1 by (simpl; by rewrite lookup_insert_ne).
    rewrite (bind_obj _ _ _ _ HD1). fold start.
    destruct (start_index fb D) as (i & Hi & Hile). fold start in Hi.
    rewrite Hi. change 0 with (Z.of_nat 0).
    rewrite (splice_spec fb i 0 (flattenedBranch eD)) by lia.
    cbn [lift_range]. unfold bind at 1, ret at 1.
    unfold bind at 1. rewrite (setFlattenedBranch_run _ _ _ _ Ho1).
    set (s2 := set_events _ _).
    assert (heap s2 !! D = Some eD) as HD2.
    { unfold s2. simpl. by rewrite lookup_insert_ne, lookup_insert_ne. }
    rewrite (setFlattenedBranch_run _ _ _ _ HD2). eexists. split; [done|]. split.
    + intros n. unfold s2. simpl. rewrite Nat2Z.id, Nat.add_0_r.
      destruct (decide (n = D)) as [->|HnD].
      { rewrite lookup_insert_eq, HD. simpl. unfold rewalked, resized.
        rewrite (bool_decide_eq_false_2 (D ∈ [] ++ [o])) by set_solver.
        rewrite (bool_decide_eq_false_2 (D = o)) by done.
        by rewrite (bool_decide_eq_true_2 (D = D)) by done. }
      rewrite lookup_insert_ne by done.
      destruct (decide (n = o)) as [->|Hno].
      { rewrite lookup_insert_eq, Ho. simpl. unfold rewalked, resized.
        rewrite (bool_decide_eq_true_2 (o ∈ [] ++ [o])) by set_solver.
        by rewrite (bool_decide_eq_true_2 (o = o)) by done. }
      rewrite !lookup_insert_ne by done.
      destruct (heap s !! n) as [e|]; [|done]. simpl. unfold rewalked, resized.
      rewrite (bool_decide_eq_false_2 (n ∈ [] ++ [o])) by set_solver.
      rewrite (bool_decide_eq_false_2 (n = o)) by done.
      by rewrite (bool_decide_eq_false_2 (n = D)) by done.
    + unfold s2, s1. destruct s; unfold set_events, set_heap; simpl. f_equal.
      symmetry. apply app_assoc.
  - inversion Hpath as [|a' e p' l' o' Ha Hfba Hpa Hpath']; subst.
    destruct fuel as [|fuel]; [simpl in Hfuel; lia|].
    pose proof (owner_path_nodup _ _ _ _ Hpath) as Hnd. simpl in Hnd.
    apply NoDup_cons in Hnd as [Hal Hnd].
    assert (a ≠ D) as Hne by set_solver.
    assert (a ≠ o) as Hao by set_solver.
    cbn [expandBranch]. rewrite (bind_obj _ _ _ _ HD).
    rewrite (bool_decide_eq_false_2 (a = D)) by done. cbn [negb when].
    rewrite (bind_update _ _ _ _ _ Ha).
    set (e1 := with_branchSize (_branchSize e + _branchSize eD) e).
    set (s1 := set_heap (<[a:=e1]> (heap s)) s).
    assert (heap s1 !! a = Some e1) as Ha1 by (simpl; by rewrite lookup_insert_eq).
    rewrite (bind_obj _ _ _ _ Ha1).
    assert (flattenedBranch e1 = None) as -> by done.
    assert (_parent e1 = Some p') as -> by done.
    destruct (IH fuel p' o s1 eo fb) as (s' & Hrun & Hheap & Hs').
    + apply (owner_path_ext (heap s)); [|done]. intros n Hn.
      assert (n ≠ a) by (intros ->; done).
      destruct (owner_path_from_or_end (heap s) p' l o n Hpath' Hn) as [en Hen].
      exists en, en. simpl. by rewrite lookup_insert_ne.
    + simpl. by rewrite lookup_insert_ne.
    + set_solver.
    + simpl. by rewrite lookup_insert_ne.
    + done.
    + simpl in Hfuel. lia.
    + exists s'. split; [done|]. split.
      * intros n. rewrite Hheap. simpl. destruct (decide (n = a)) as [->|Hna].
        { rewrite lookup_insert_eq, Ha. simpl. f_equal.
          apply (rewalked_head D o a l (_branchSize eD)); [done|done|set_solver]. }
        rewrite lookup_insert_ne by done. destruct (heap s !! n); [|done]. simpl.
        by rewrite rewalked_cons_ne.
      * rewrite Hs'. by destruct s.
Qed.

(** ** Collapsing and expanding a loaded directory, step by step *)

Lemma shrinkBranch_self fuel D eD p s :
  heap s !! D = Some eD → _parent eD = Some p →
  shrinkBranch (S fuel) D D s = shrinkBranch fuel p D s.
Proof.
  intros HD Hp. cbn [shrinkBranch]. rewrite (bind_obj _ _ _ _ HD).
  rewrite (bool_decide_eq_true_2 (D = D)) by done. cbn [negb when].
  unfold bind at 1, ret at 1. rewrite (bind_obj _ _ _ _ HD). by rewrite Hp.
Qed.

Lemma expandBranch_self fuel D eD p s :
  heap s !! D = Some eD → _parent eD = Some p →
  expandBranch (S fuel) D D s = expandBranch fuel p D s.
Proof.
  intros HD Hp. cbn [expandBranch]. rewrite (bind_obj _ _ _ _ HD).
  rewrite (bool_decide_eq_true_2 (D = D)) by done. cbn [negb when].
  unfold bind at 1, ret at 1. rewrite (bind_obj _ _ _ _ HD). by rewrite Hp.
Qed.

Lemma notifyDidChangeExpansionState_run t b s :
  root_answers s t →
  ∃ vis, notifyDidChangeExpansionState t b s
         = Ok tt (set_events (events s ++ [DidChangeExpansionState t b vis]) s).
Proof.
  intros Hr. unfold notifyDidChangeExpansionState, isItemVisibleAtSurface.
  unfold bind at 1. unfold bind at 1, gets at 1.
  destruct (decide (t = rootId s)) as [Heq|Hne].
  { eexists. unfold ret, dispatch, modify. reflexivity. }
  destruct Hr as [?|(re & fb & Hre & Hfb)]; [done|].
  rewrite (bind_obj _ _ _ _ Hre), Hfb. eexists. reflexivity.
Qed.

Lemma rewalked_flat D o l delta x fbr n e fb :
  n ≠ D → flattenedBranch e = Some fb →
  ∃ fb', flattenedBranch (rewalked D o l delta (Some x) fbr n e) = Some fb'.
Proof.
  intros Hne Hfb. unfold rewalked, resized.
  rewrite (bool_decide_eq_false_2 (n = D)) by done.
  repeat case_bool_decide; simpl; eauto.
Qed.

Lemma rewalked_fields D o l delta fo fbr n e :
  let e' := rewalked D o l delta fo fbr n e in
  cls e' = cls e ∧ _parent e' = _parent e ∧ _children e' = _children e
  ∧ isExpanded e' = isExpanded e ∧ _uid e' = _uid e ∧ _depth e' = _depth e
  ∧ _fileName e' = _fileName e.
Proof. unfold rewalked, resized. repeat case_bool_decide; by destruct e. Qed.

(** [setCollapsed] on an expanded, loaded directory [D] with a parent:
    the walk goes from the parent [p] through [l] to the owner [o]. *)
Lemma collapse_run fuel D eD cs p l o eo fb s :
  heap s !! D = Some eD → cls eD = CDirectory → isExpanded eD = true →
  _children eD = Some cs → _parent eD = Some p →
  owner_path (heap s) p l o → D ∉ l ++ [o] →
  heap s !! o = Some eo → flattenedBranch eo = Some fb →
  root_answers s D → (length l + 1 < fuel)%nat →
  ∃ s' vis,
    setCollapsed fuel D s = Ok tt s'
    ∧ (∀ n, heap s' !! n = collapsed_entry D o l (_branchSize eD) fb n <$> heap s !! n)
    ∧ s' = set_events (events s ++ [WillChangeExpansionState D false]
                       ++ update_events (cls eo)
                       ++ [DidChangeExpansionState D false vis])
             (set_heap (heap s') s).
Proof.
  intros HD Hcls Hexp Hcs Hp Hpath HDl Ho Hfb Hroot Hfuel.
  destruct fuel as [|fuel]; [lia|].
  unfold setCollapsed. rewrite (bind_obj _ _ _ _ HD), Hcls.
  unfold Directory_setCollapsed. rewrite (bind_obj _ _ _ _ HD), Hexp, Hcs, Hp.
  cbn [negb]. unfold notifyWillChangeExpansionState.
  unfold bind at 1. unfold bind at 1. unfold dispatch at 1, modify at 1.
  set (s0 := set_events (events s ++ [WillChangeExpansionState D false]) s).
  assert (heap s0 = heap s) as Hh0 by by destruct s.
  assert (heap s0 !! D = Some eD) as HD0 by by rewrite Hh0.
  rewrite (shrinkBranch_self _ _ _ _ _ HD0 Hp).
  destruct (shrink_from D eD l fuel p o s0 eo fb) as (s1 & Hrun & Hheap & Hs1);
    [by rewrite Hh0|done|done|by rewrite Hh0|done|lia|].
  rewrite Hrun.
  assert (heap s1 !! D = Some (rewalked D o l (- _branchSize eD)
                                 (Some (rows_without fb D (_branchSize eD)))
                                 (Some (returned_rows fb D (_branchSize eD))) D eD)) as HD1.
  { rewrite Hheap, Hh0, HD. done. }
  rewrite (bind_update _ _ _ _ _ HD1).
  set (s2 := set_heap _ s1).
  destruct (notifyDidChangeExpansionState_run D false s2) as [vis Hvis].
  { assert (rootId s2 = rootId s) as Hrid.
    { unfold s2. transitivity (rootId s1); [done|]. rewrite Hs1. by destruct s. }
    destruct Hroot as [Hr|(re & rfb & Hre & Hrfb)].
    - left. by rewrite Hrid.
    - destruct (decide (D = rootId s)) as [Heq|Hne].
      { left. by rewrite Hrid. }
      right. rewrite Hrid.
      destruct (rewalked_flat D o l (- _branchSize eD) (rows_without fb D (_branchSize eD))
                  (Some (returned_rows fb D (_branchSize eD))) (rootId s) re rfb)
        as [fb' Hfb']; [done|done|].
      eexists _, fb'. split; [|exact Hfb']. unfold s2. simpl.
      rewrite lookup_insert_ne by done. rewrite Hheap, Hh0, Hre. done. }
  rewrite Hvis. exists (set_events (events s2 ++ [DidChangeExpansionState D false vis]) s2), vis.
  split; [done|]. split.
  - intros n. unfold s2. simpl. unfold collapsed_entry.
    destruct (decide (n = D)) as [->|Hne].
    + rewrite lookup_insert_eq, HD. simpl.
      by rewrite (bool_decide_eq_true_2 (D = D)) by done.
    + rewrite lookup_insert_ne by done. rewrite Hheap, Hh0.
      destruct (heap s !! n); [|done]. simpl.
      by rewrite (bool_decide_eq_false_2 (n = D)) by done.
  - unfold s2. rewrite Hs1. rewrite Hcls. unfold s0. destruct s; unfold set_events, set_heap; simpl.
    f_equal. by rewrite <- !app_assoc.
Qed.

(** [setExpanded] on a collapsed, loaded directory [D] whose parent
    needs no expansion. *)
Lemma expand_run pathfx host env fuel D eD cs p l o eo fb ev s :
  heap s !! D = Some eD → cls eD = CDirectory → isExpanded eD = false →
  _children eD = Some cs → _parent eD = Some p →
  owner_path (heap s) p l o → D ∉ l ++ [o] →
  heap s !! o = Some eo → flattenedBranch eo = Some fb →
  root_answers s D → parent_shown s ev p → (length l + 1 < fuel)%nat →
  ∃ s' vis,
    setExpanded pathfx host env fuel D ev s = Ok tt s'
    ∧ (∀ n, heap s' !! n
            = expanded_entry D o l (_branchSize eD) fb (flattenedBranch eD) n <$> heap s !! n)
    ∧ s' = set_events (events s ++ [WillChangeExpansionState D true]
                       ++ update_events (cls eo)
                       ++ [DidChangeExpansionState D true vis])
             (set_heap (heap s') s).
Proof.
  intros HD Hcls Hexp Hcs Hp Hpath HDl Ho Hfb Hroot Hshown Hfuel.
  destruct fuel as [|fuel]; [lia|].
  assert (p ≠ D) as HpD.
  { intros ->. apply HDl. inversion Hpath; set_solver. }
  unfold setExpanded. rewrite (bind_obj _ _ _ _ HD), Hcls.
  cbn [Directory_setExpanded]. rewrite (bind_obj _ _ _ _ HD), Hexp.
  rewrite (bind_update _ _ _ _ _ HD), Hcs.
  set (eD0 := with_isExpanded true eD).
  set (s0 := set_heap (<[D:=eD0]> (heap s)) s).
  unfold bind at 1, ret at 1. unfold setExpanded_loaded.
  assert (heap s0 !! D = Some eD0) as HD0 by (simpl; by rewrite lookup_insert_eq).
  rewrite (bind_obj _ _ _ _ HD0). unfold bind at 1, gets at 1.
  assert (_parent eD0 = Some p) as -> by done.
  assert (when (ev && negb (bool_decide (p = rootId s0)))
            (let! pe := obj p in
             match cls pe with
             | CFileEntry => not_a_function
             | CDirectory => Directory_setExpanded pathfx host env fuel p true
             | CRoot => ret tt
             end) s0 = Ok tt s0) as Hparent.
  { destruct Hshown as [->|[->|(ep & Hep & Hc & He)]]; [done| |].
    - assert (rootId s0 = rootId s) as -> by by destruct s.
      rewrite (bool_decide_eq_true_2 (rootId s = rootId s)) by done.
      by rewrite andb_false_r.
    - destruct (ev && negb (bool_decide (p = rootId s0))); [|done]. cbn [when].
      assert (heap s0 !! p = Some ep) as Hep0 by (simpl; by rewrite lookup_insert_ne).
      rewrite (bind_obj _ _ _ _ Hep0). unfold expanded in He.
      destruct (cls ep) eqn:Hcp; [done| |done].
      destruct fuel as [|fuel]; [lia|]. cbn [Directory_setExpanded].
      by rewrite (bind_obj _ _ _ _ Hep0), He. }
  unfold bind at 1. rewrite Hparent.
  rewrite (bind_obj _ _ _ _ HD0).
  assert (isExpanded eD0 = true) as -> by done. cbn [when].
  unfold notifyWillChangeExpansionState.
  unfold bind at 1. unfold dispatch at 1, modify at 1.
  set (s1 := set_events (events s0 ++ [WillChangeExpansionState D true]) s0).
  assert (heap s1 = <[D:=eD0]> (heap s)) as Hh1 by by destruct s.
  assert (heap s1 !! D = Some eD0) as HD1 by (rewrite Hh1; by rewrite lookup_insert_eq).
  unfold bind at 1.
  rewrite (expandBranch_self _ _ _ _ _ HD1 Hp).
  destruct (expand_from D eD0 l fuel p o s1 eo fb) as (s2 & Hrun & Hheap & Hs2).
  { apply (owner_path_ext (heap s)); [|done]. intros n Hn.
    assert (n ≠ D) by (intros ->; done).
    destruct (owner_path_from_or_end (heap s) p l o n Hpath Hn) as [en Hen].
    exists en, en. rewrite Hh1. by rewrite lookup_insert_ne. }
  { done. }
  { done. }
  { rewrite Hh1. rewrite lookup_insert_ne; [done|]. intros ->. set_solver. }
  { done. }
  { lia. }
  rewrite Hrun.
  assert (rootId s2 = rootId s) as Hrid.
  { rewrite Hs2. by destruct s. }
  destruct (notifyDidChangeExpansionState_run D true s2) as [vis Hvis].
  { destruct Hroot as [Hr|(re & rfb & Hre & Hrfb)]; [left; by rewrite Hrid|].
    destruct (decide (D = rootId s)) as [Heq|Hne]; [left; by rewrite Hrid|].
    right. rewrite Hrid.
    destruct (rewalked_flat D o l (_branchSize eD0)
                (take (Z.to_nat (indexOf fb D + 1)) fb ++ default [] (flattenedBranch eD0)
                 ++ drop (Z.to_nat (indexOf fb D + 1)) fb)
                None (rootId s) re rfb) as [fb' Hfb']; [done|done|].
    eexists _, fb'. split; [|exact Hfb']. rewrite Hheap, Hh1.
    rewrite lookup_insert_ne by done. by rewrite Hre. }
  rewrite Hvis. exists (set_events (events s2 ++ [DidChangeExpansionState D true vis]) s2), vis.
  split; [done|]. split.
  - intros n. simpl. rewrite Hheap, Hh1. unfold expanded_entry.
    destruct (decide (n = D)) as [->|Hne].
    + rewrite lookup_insert_eq, HD. simpl.
      by rewrite (bool_decide_eq_true_2 (D = D)) by done.
    + rewrite lookup_insert_ne by done.
      destruct (heap s !! n); [|done]. simpl.
      by rewrite (bool_decide_eq_false_2 (n = D)) by done.
  - rewrite Hs2. assert (cls eD0 = CDirectory) as -> by done.
    unfold s1, s0. destruct s; unfold set_events, set_heap; simpl.
    f_equal. by rewrite <- !app_assoc.
Qed.

(** ** What a collapse does, and that it undoes an expansion *)

Lemma rewalked_on_path D o l delta fo fbr n e :
  n ∈ l ++ [o] →
  _branchSize (rewalked D o l delta fo fbr n e) = _branchSize e + delta.
Proof.
  intros Hn. unfold rewalked, resized. rewrite (bool_decide_eq_true_2 _ Hn).
  by repeat case_bool_decide.
Qed.

Lemma rewalked_off_path D o l delta fo fbr n e :
  n ∉ D :: l ++ [o] → rewalked D o l delta fo fbr n e = e.
Proof.
  intros Hn. unfold rewalked, resized.
  rewrite (bool_decide_eq_false_2 (n ∈ l ++ [o])) by set_solver.
  rewrite (bool_decide_eq_false_2 (n = o)) by set_solver.
  by rewrite (bool_decide_eq_false_2 (n = D)) by set_solver.
Qed.

Lemma rewalked_branch D o l delta fo fbr e :
  D ∉ l ++ [o] → rewalked D o l delta fo fbr D e = with_flattenedBranch fbr e.
Proof.
  intros Hn. unfold rewalked, resized.
  rewrite (bool_decide_eq_false_2 (D ∈ l ++ [o])) by done.
  rewrite (bool_decide_eq_false_2 (D = o)) by set_solver.
  by rewrite (bool_decide_eq_true_2 (D = D)) by done.
Qed.

Lemma rewalked_owner D o l delta fo fbr e :
  rewalked D o l delta fo fbr o e
  = with_flattenedBranch fo (with_branchSize (_branchSize e + delta) e).
Proof.
  unfold rewalked, resized.
  rewrite (bool_decide_eq_true_2 (o ∈ l ++ [o])) by set_solver.
  by rewrite (bool_decide_eq_true_2 (o = o)) by done.
Qed.

Lemma rewalked_between D o l delta fo fbr n e :
  n ∈ l → n ≠ o → n ≠ D →
  rewalked D o l delta fo fbr n e = with_branchSize (_branchSize e + delta) e.
Proof.
  intros Hn Ho HD. unfold rewalked, resized.
  rewrite (bool_decide_eq_true_2 (n ∈ l ++ [o])) by set_solver.
  rewrite (bool_decide_eq_false_2 (n = o)) by done.
  by rewrite (bool_decide_eq_false_2 (n = D)) by done.
Qed.

(** X21: what [collapseDirectory] does to an expanded, loaded directory
    [D].  Its rows sit in the array of the owner [o], the first ancestor
    holding a flat array, reached from the parent through the
    directories [l].  The call returns; the branch size of every
    directory of [l] and of the owner itself has gone down by [D]'s
    size, [D]'s own size is unchanged; [D] holds the rows that followed
    it in the owner's array, the owner's array has lost them; [D] is
    collapsed; no other object has changed. *)
Theorem collapseDirectory_walk fuel D eD cs p l o eo fb s :
  heap s !! D = Some eD → cls eD = CDirectory → isExpanded eD = true →
  _children eD = Some cs → _parent eD = Some p →
  owner_path (heap s) p l o → D ∉ l ++ [o] →
  heap s !! o = Some eo → flattenedBranch eo = Some fb →
  root_answers s D → (length l + 1 < fuel)%nat →
  ∃ s', collapseDirectory fuel D s = Ok tt s'
    ∧ (∀ n, n ∈ l ++ [o] → size_of s' n = (λ z, z - _branchSize eD) <$> size_of s n)
    ∧ size_of s' D = Some (_branchSize eD)
    ∧ flat_of s' D = Some (returned_rows fb D (_branchSize eD))
    ∧ flat_of s' o = Some (rows_without fb D (_branchSize eD))
    ∧ isExpanded <$> heap s' !! D = Some false
    ∧ (∀ n, n ∉ D :: l ++ [o] → heap s' !! n = heap s !! n).
Proof.
  intros HD Hcls Hexp Hcs Hp Hpath HDl Ho Hfb Hroot Hfuel.
  destruct (collapse_run fuel D eD cs p l o eo fb s) as (s' & vis & Hrun & Hheap & _);
    [done..|].
  exists s'. split; [done|]. unfold size_of, flat_of.
  assert (D ≠ o) as HDo by set_solver.
  split; [|split; [|split; [|split; [|split]]]].
  - intros n Hn. rewrite Hheap. destruct (heap s !! n) as [e|]; [|done]. simpl. f_equal.
    unfold collapsed_entry. assert (n ≠ D) by (intros ->; done).
    rewrite (bool_decide_eq_false_2 (n = D)) by done.
    by rewrite rewalked_on_path.
  - rewrite Hheap, HD. simpl. unfold collapsed_entry.
    rewrite (bool_decide_eq_true_2 (D = D)) by done. by rewrite rewalked_branch.
  - rewrite Hheap, HD. simpl. unfold collapsed_entry.
    rewrite (bool_decide_eq_true_2 (D = D)) by done. by rewrite rewalked_branch.
  - rewrite Hheap, Ho. simpl. unfold collapsed_entry.
    rewrite (bool_decide_eq_false_2 (o = D)) by done. by rewrite rewalked_owner.
  - rewrite Hheap, HD. simpl. unfold collapsed_entry.
    by rewrite (bool_decide_eq_true_2 (D = D)) by done.
  - intros n Hn. rewrite Hheap. destruct (heap s !! n) as [e|]; [|done]. simpl. f_equal.
    unfold collapsed_entry. rewrite (bool_decide_eq_false_2 (n = D)) by set_solver.
    by apply rewalked_off_path.
Qed.

Lemma collapseDirectory_walk_witness :
  ∃ s', collapseDirectory 8 2 pdx_expanded_state = Ok tt s'
        ∧ size_of s' 1 = Some 1 ∧ size_of s' 0 = Some 2 ∧ flat_of s' 2 = Some [3%N]
        ∧ flat_of s' 0 = Some [1%N; 2%N].
Proof.
  destruct (collapseDirectory_walk 8 2
              (default (mkEntry CFileEntry 0 None None 0 false None 0 None false None false None)
                       (heap pdx_expanded_state !! 2%N))
              [3%N] 1 [1%N] 0
              (default (mkEntry CFileEntry 0 None None 0 false None 0 None false None false None)
                       (heap pdx_expanded_state !! 0%N))
              [1%N; 2%N; 3%N] pdx_expanded_state)
    as (s' & Hrun & Hsz & _ & HfD & Hfo & _).
  - vm_compute. reflexivity.
  - reflexivity.
  - reflexivity.
  - reflexivity.
  - reflexivity.
  - eapply (owner_up _ 1%N); [vm_compute; reflexivity|reflexivity|reflexivity|].
    eapply (owner_here _ 0%N); [vm_compute; reflexivity|reflexivity].
  - intros H. apply elem_of_cons in H as [H|H]; [discriminate H|].
    apply list_elem_of_singleton in H. discriminate H.
  - vm_compute. reflexivity.
  - reflexivity.
  - right. eexists _, _. split; [vm_compute; reflexivity|reflexivity].
  - simpl. lia.
  - exists s'. split; [exact Hrun|].
    pose proof (Hsz 1%N ltac:(apply elem_of_cons; by left)) as H1.
    pose proof (Hsz 0%N ltac:(apply elem_of_cons; right; apply elem_of_cons; by left)) as H0.
    split; [exact H1|]. split; [exact H0|]. split; [exact HfD|exact Hfo].
Defined.

(** Rows put in right after [D] are the rows handed back, and taking
    them out again leaves the array as it was. *)
Lemma rows_with_back fb D dfb :
  D ∈ fb →
  returned_rows (rows_with fb D (Some dfb)) D (Z.of_nat (length dfb)) = dfb
  ∧ rows_without (rows_with fb D (Some dfb)) D (Z.of_nat (length dfb)) = fb.
Proof.
  intros Hin. destruct (elem_of_split_first _ _ Hin) as (X & R & -> & HX).
  assert (rows_with (X ++ D :: R) D (Some dfb) = X ++ D :: (dfb ++ R)) as Hw.
  { unfold rows_with. rewrite indexOf_app_l by done.
    replace (Z.to_nat (Z.of_nat (length X) + 1)) with (length (X ++ [D]))
      by (rewrite length_app; simpl; lia).
    change (X ++ D :: R) with (X ++ [D] ++ R). rewrite (app_assoc X [D] R).
    rewrite take_app_length, drop_app_length. simpl. by rewrite <- app_assoc. }
  assert (returned_rows (X ++ D :: dfb ++ R) D (Z.of_nat (length dfb)) = dfb) as Hr.
  { unfold returned_rows. rewrite indexOf_app_l by done.
    replace (Z.of_nat (length X) + 1) with (Z.of_nat (length (X ++ [D])))
      by (rewrite length_app; simpl; lia).
    rewrite <- Nat2Z.inj_add. rewrite ta_slice_mid.
    - change (X ++ D :: dfb ++ R) with (X ++ [D] ++ dfb ++ R).
      rewrite (app_assoc X [D] _), drop_app_length.
      replace (length (X ++ [D]) + length dfb - length (X ++ [D]))%nat
        with (length dfb) by lia.
      by rewrite take_app_length.
    - lia.
    - rewrite !length_app. simpl. rewrite length_app. lia. }
  rewrite Hw. split; [done|]. unfold rows_without. rewrite Hr.
  rewrite indexOf_app_l by done.
  replace (Z.to_nat (Z.of_nat (length X) + 1)) with (length (X ++ [D]))
    by (rewrite length_app; simpl; lia).
  change (X ++ D :: dfb ++ R) with (X ++ [D] ++ dfb ++ R).
  rewrite (app_assoc X [D] _). rewrite take_app_length.
  rewrite <- drop_drop, drop_app_length, drop_app_length.
  by rewrite <- app_assoc.
Qed.

Lemma with_size_back e z :
  with_branchSize (_branchSize e + z + - z) e = e.
Proof. destruct e. unfold with_branchSize. simpl. f_equal. lia. Qed.

(** [setExpanded] then [setCollapsed] on a collapsed, loaded directory
    that no ancestor has to be expanded for: the store in between, and
    the store at the end. *)
Lemma round_trip_run pathfx host env fuel D eD cs p l o eo fb dfb ev s :
  heap s !! D = Some eD → cls eD = CDirectory → isExpanded eD = false →
  _children eD = Some cs → _parent eD = Some p →
  flattenedBranch eD = Some dfb → _branchSize eD = Z.of_nat (length dfb) →
  owner_path (heap s) p l o → D ∉ l ++ [o] →
  heap s !! o = Some eo → flattenedBranch eo = Some fb → D ∈ fb →
  root_answers s D → parent_shown s ev p → (length l + 1 < fuel)%nat →
  ∃ s1 s2,
    setExpanded pathfx host env fuel D ev s = Ok tt s1
    ∧ (∀ n, heap s1 !! n
            = expanded_entry D o l (_branchSize eD) fb (Some dfb) n <$> heap s !! n)
    ∧ setCollapsed fuel D s1 = Ok tt s2
    ∧ heap s2 = heap s
    ∧ s2 = set_events (events s2) s.
Proof.
  intros HD Hcls Hexp Hcs Hp Hdfb Hsz Hpath HDl Ho Hfb HDfb Hroot Hshown Hfuel.
  destruct (expand_run pathfx host env fuel D eD cs p l o eo fb ev s)
    as (s1 & vis1 & Hrun1 & Hheap1 & Hs1); [done..|].
  assert (D ≠ o) as HDo by set_solver.
  set (fb1 := rows_with fb D (flattenedBranch eD)) in *.
  set (eD1 := expanded_entry D o l (_branchSize eD) fb (flattenedBranch eD) D eD).
  set (eo1 := expanded_entry D o l (_branchSize eD) fb (flattenedBranch eD) o eo).
  assert (heap s1 !! D = Some eD1) as HD1 by (by rewrite Hheap1, HD).
  assert (heap s1 !! o = Some eo1) as Ho1 by (by rewrite Hheap1, Ho).
  assert (eD1 = with_flattenedBranch None (with_isExpanded true eD)) as HeD1.
  { unfold eD1, expanded_entry. rewrite (bool_decide_eq_true_2 (D = D)) by done.
    by rewrite rewalked_branch. }
  assert (eo1 = with_flattenedBranch (Some fb1)
                  (with_branchSize (_branchSize eo + _branchSize eD) eo)) as Heo1.
  { unfold eo1, expanded_entry. rewrite (bool_decide_eq_false_2 (o = D)) by done.
    by rewrite rewalked_owner. }
  assert (rootId s1 = rootId s) as Hrid by (rewrite Hs1; by destruct s).
  destruct (collapse_run fuel D eD1 cs p l o eo1 fb1 s1)
    as (s2 & vis2 & Hrun2 & Hheap2 & Hs2).
  { done. }
  { by rewrite HeD1. }
  { by rewrite HeD1. }
  { by rewrite HeD1. }
  { by rewrite HeD1. }
  { apply (owner_path_ext (heap s)); [|done]. intros n Hn.
    destruct (owner_path_from_or_end (heap s) p l o n Hpath Hn) as [en Hen].
    exists en, (expanded_entry D o l (_branchSize eD) fb (flattenedBranch eD) n en).
    split; [done|]. split; [by rewrite Hheap1, Hen|].
    assert (n ≠ D) by (intros ->; done).
    unfold expanded_entry. rewrite (bool_decide_eq_false_2 (n = D)) by done.
    split; [apply rewalked_fields|].
    destruct (decide (n = o)) as [->|Hno].
    - rewrite rewalked_owner. simpl. assert (en = eo) as -> by congruence.
      rewrite Hfb. done.
    - rewrite rewalked_between; [done| |done|done].
      apply elem_of_app in Hn as [?|?%list_elem_of_singleton]; done. }
  { done. }
  { done. }
  { by rewrite Heo1. }
  { destruct Hroot as [Hr|(re & rfb & Hre & Hrfb)]; [left; by rewrite Hrid|].
    destruct (decide (D = rootId s)) as [Heq|Hne]; [left; by rewrite Hrid|].
    right. rewrite Hrid.
    destruct (rewalked_flat D o l (_branchSize eD) fb1 None (rootId s) re rfb)
      as [fb' Hfb']; [done|done|].
    exists (expanded_entry D o l (_branchSize eD) fb (flattenedBranch eD) (rootId s) re), fb'.
    split; [by rewrite Hheap1, Hre|]. unfold expanded_entry.
    by rewrite (bool_decide_eq_false_2 (rootId s = D)) by done. }
  { done. }
  exists s1, s2. split; [done|]. split; [by rewrite <- Hdfb|]. split; [done|].
  assert (heap s2 = heap s) as Hh2.
  { apply map_eq. intros n. rewrite Hheap2, Hheap1.
    destruct (heap s !! n) as [e|] eqn:He; [|done]. simpl. f_equal.
    assert (_branchSize eD1 = Z.of_nat (length dfb)) as Hsz1 by (by rewrite HeD1).
    rewrite Hsz1. unfold fb1. rewrite Hdfb, Hsz.
    destruct (rows_with_back fb D dfb HDfb) as [Hback1 Hback2].
    unfold collapsed_entry, expanded_entry. rewrite Hback1, Hback2.
    destruct (decide (n = D)) as [->|HnD].
    - assert (e = eD) as -> by congruence.
      rewrite !(bool_decide_eq_true_2 (D = D)) by done.
      rewrite !rewalked_branch by done.
      destruct eD. simpl in *. by subst.
    - rewrite !(bool_decide_eq_false_2 (n = D)) by done.
      destruct (decide (n = o)) as [->|Hno].
      + assert (e = eo) as -> by congruence. rewrite !rewalked_owner.
        destruct eo. simpl in *. subst. unfold with_flattenedBranch, with_branchSize.
        simpl. f_equal. lia.
      + destruct (decide (n ∈ l)) as [Hnl|Hnl].
        * rewrite !rewalked_between by done.
          destruct e. unfold with_branchSize. simpl. f_equal. lia.
        * rewrite !rewalked_off_path; [done|set_solver|set_solver]. }
  split; [done|]. rewrite Hs2, Hs1, Hh2. by destruct s.
Qed.

(** X22: expanding a collapsed, loaded directory and collapsing it again
    changes nothing.  Let [D] hold its own rows, as many as its branch
    size says, and be a row of its owner's array; let no ancestor need
    expanding ([ensureVisible] is false, or the parent is the root or
    expanded already).  Then [setExpanded] followed by [setCollapsed]
    both return, and every object, with its size, its flat array and its
    flags, is exactly as before: only the event log has grown. *)
Theorem expand_collapse_round_trip pathfx host env fuel D eD cs p l o eo fb dfb ev s :
  heap s !! D = Some eD → cls eD = CDirectory → isExpanded eD = false →
  _children eD = Some cs → _parent eD = Some p →
  flattenedBranch eD = Some dfb → _branchSize eD = Z.of_nat (length dfb) →
  owner_path (heap s) p l o → D ∉ l ++ [o] →
  heap s !! o = Some eo → flattenedBranch eo = Some fb → D ∈ fb →
  root_answers s D → parent_shown s ev p → (length l + 1 < fuel)%nat →
  ∃ s1 s2,
    setExpanded pathfx host env fuel D ev s = Ok tt s1
    ∧ setCollapsed fuel D s1 = Ok tt s2
    ∧ heap s2 = heap s
    ∧ s2 = set_events (events s2) s.
Proof.
  intros HD Hcls Hexp Hcs Hp Hdfb Hsz Hpath HDl Ho Hfb HDfb Hroot Hshown Hfuel.
  destruct (round_trip_run pathfx host env fuel D eD cs p l o eo fb dfb ev s)
    as (s1 & s2 & Hrun1 & _ & Hrun2 & Hheap & Hs2); [done..|].
  by exists s1, s2.
Qed.

Lemma expand_collapse_round_trip_witness :
  ∃ s1 s2,
    setExpanded unix host_pdx dev 8 2 false pdx_loaded_state = Ok tt s1
    ∧ setCollapsed 8 2 s1 = Ok tt s2
    ∧ heap s2 = heap pdx_loaded_state.
Proof.
  destruct (expand_collapse_round_trip unix host_pdx dev 8 2
              (default (mkEntry CFileEntry 0 None None 0 false None 0 None false None false None)
                       (heap pdx_loaded_state !! 2%N))
              [3%N] 1 [] 1
              (default (mkEntry CFileEntry 0 None None 0 false None 0 None false None false None)
                       (heap pdx_loaded_state !! 1%N))
              [2%N] [3%N] false pdx_loaded_state)
    as (s1 & s2 & H1 & H2 & H3 & _).
  - vm_compute. reflexivity.
  - reflexivity.
  - reflexivity.
  - reflexivity.
  - reflexivity.
  - reflexivity.
  - reflexivity.
  - eapply (owner_here _ 1%N); [vm_compute; reflexivity|reflexivity].
  - intros H. apply list_elem_of_singleton in H. discriminate H.
  - vm_compute. reflexivity.
  - reflexivity.
  - apply elem_of_cons. by left.
  - right. eexists _, _. split; [vm_compute; reflexivity|reflexivity].
  - by left.
  - simpl. lia.
  - exists s1, s2. split; [exact H1|]. split; [exact H2|exact H3].
Defined.

(** ** Collapsing keeps the invariant *)

Lemma returned_rows_block X D B Y :
  D ∉ X → returned_rows (X ++ D :: B ++ Y) D (Z.of_nat (length B)) = B.
Proof.
  intros HX. unfold returned_rows. rewrite indexOf_app_l by done.
  replace (Z.of_nat (length X) + 1) with (Z.of_nat (length (X ++ [D])))
    by (rewrite length_app; simpl; lia).
  rewrite <- Nat2Z.inj_add. rewrite ta_slice_mid.
  - change (X ++ D :: B ++ Y) with (X ++ [D] ++ B ++ Y).
    rewrite (app_assoc X [D] _), drop_app_length.
    replace (length (X ++ [D]) + length B - length (X ++ [D]))%nat
      with (length B) by lia.
    by rewrite take_app_length.
  - lia.
  - rewrite !length_app. simpl. rewrite length_app. lia.
Qed.

Lemma rows_without_block X D B Y :
  D ∉ X →
  rows_without (X ++ D :: B ++ Y) D (Z.of_nat (length B))
  = resplice D 1 (length B) [] (X ++ D :: B ++ Y).
Proof.
  intros HX. unfold rows_without. rewrite returned_rows_block by done.
  unfold resplice. rewrite decide_True by set_solver.
  rewrite indexOf_app_l by done. rewrite Nat2Z.id.
  replace (Z.to_nat (Z.of_nat (length X) + 1)) with (length X + 1)%nat by lia.
  done.
Qed.

Section CollapseGhost.
Context (s s' : State) (g : N → list N) (Hok : ghost_ok ∅ s g).
Context (D : N) (eD : Entry) (cs : list N) (p : N) (l : list N) (o : N) (eo : Entry)
        (fb : list N).
Context (HD : heap s !! D = Some eD) (Hcls : cls eD = CDirectory)
        (Hexp : isExpanded eD = true) (Hcs : _children eD = Some cs)
        (Hp : _parent eD = Some p) (Hpath : owner_path (heap s) p l o)
        (Ho : heap s !! o = Some eo) (Hfb : flattenedBranch eo = Some fb).
Context (Hheap : ∀ n, heap s' !! n
                      = collapsed_entry D o l (_branchSize eD) fb n <$> heap s !! n)
        (Hnext : nextId s' = nextId s).

Local Abbreviation T := (resplice D 1 (length (g D)) []).
Local Abbreviation g' := (λ n, resplice D 1 (length (g D)) [] (g n)).

Lemma cg_shown : shown ∅ D eD = true.
Proof.
  unfold shown, expanded. rewrite Hcls, Hexp. simpl.
  apply bool_decide_eq_true_2. set_solver.
Qed.

Lemma cg_shown_in : shown_in ∅ (heap s) D = true.
Proof. unfold shown_in. rewrite HD. apply cg_shown. Qed.

Lemma cg_members n : D ∈ g n ↔ n ∈ l ++ [o].
Proof. apply (owner_path_members ∅ s g Hok p l o D eD Hpath HD Hp). Qed.

Lemma cg_notin : D ∉ l ++ [o].
Proof. rewrite <- cg_members. apply (g_irrefl ∅ s g Hok). Qed.

Lemma cg_fb : fb = g o.
Proof. by destruct (flat_owns ∅ s g Hok o eo fb Ho Hfb) as (_ & ? & _). Qed.

Lemma cg_size : _branchSize eD = Z.of_nat (length (g D)).
Proof. apply (loaded_size ∅ s g Hok D eD cs HD Hcs). Qed.

Lemma cg_fit : (1 + length (g D) <= length (block ∅ (heap s) g D))%nat.
Proof. rewrite (block_shown ∅ s g D cg_shown_in). simpl. lia. Qed.

Lemma cg_self : T (g D) = g D.
Proof. apply resplice_notin, (g_irrefl ∅ s g Hok). Qed.

Lemma cg_entry n e :
  heap s !! n = Some e →
  ∃ e', heap s' !! n = Some e' ∧ e' = collapsed_entry D o l (_branchSize eD) fb n e
        ∧ cls e' = cls e ∧ _parent e' = _parent e ∧ _children e' = _children e
        ∧ _uid e' = _uid e ∧ _depth e' = _depth e
        ∧ isExpanded e' = (if bool_decide (n = D) then false else isExpanded e).
Proof.
  intros He. eexists. split; [by rewrite Hheap, He|]. split; [done|].
  unfold collapsed_entry.
  pose proof (rewalked_fields D o l (- _branchSize eD)
                (Some (rows_without fb D (_branchSize eD)))
                (Some (returned_rows fb D (_branchSize eD))) n e) as H.
  simpl in H. destruct H as (? & ? & ? & ? & ? & ? & ?).
  case_bool_decide; simpl; repeat split; try done.
Qed.

Lemma cg_entry_inv n e' :
  heap s' !! n = Some e' →
  ∃ e, heap s !! n = Some e ∧ e' = collapsed_entry D o l (_branchSize eD) fb n e.
Proof.
  rewrite Hheap. destruct (heap s !! n) as [e|]; [|done]. intros [= <-]. eauto.
Qed.

Lemma cg_shown_ne n e :
  n ≠ D → heap s !! n = Some e →
  shown ∅ n (collapsed_entry D o l (_branchSize eD) fb n e) = shown ∅ n e.
Proof.
  intros Hne He. destruct (cg_entry n e He) as (e' & _ & <- & Hc & _ & _ & _ & _ & Hx).
  rewrite (bool_decide_eq_false_2 (n = D)) in Hx by done.
  unfold shown, expanded. by rewrite Hc, Hx.
Qed.

Lemma cg_shown_in_ne c : c ≠ D → shown_in ∅ (heap s') c = shown_in ∅ (heap s) c.
Proof.
  intros Hne. unfold shown_in. rewrite Hheap.
  destruct (heap s !! c) as [e|] eqn:He; [|done]. simpl. by apply cg_shown_ne.
Qed.

Lemma cg_shown_in_D : shown_in ∅ (heap s') D = false.
Proof.
  unfold shown_in. destruct (cg_entry D eD HD) as (e' & -> & _ & Hc & _ & _ & _ & _ & Hx).
  rewrite (bool_decide_eq_true_2 (D = D)) in Hx by done.
  unfold shown, expanded. rewrite Hc, Hcls, Hx. done.
Qed.

Lemma cg_block c : block ∅ (heap s') g' c = T (block ∅ (heap s) g c).
Proof.
  destruct (decide (c = D)) as [->|Hne].
  - unfold block at 1. rewrite cg_shown_in_D.
    rewrite (block_shown ∅ s g D cg_shown_in).
    rewrite resplice_head. simpl. by rewrite drop_all.
  - unfold block at 1.
    apply (resplice_block ∅ s g D 1 (length (g D)) [] c); [done| |done].
    by apply cg_shown_in_ne.
Qed.

Lemma cg_owns_ne n e :
  n ≠ D → heap s !! n = Some e →
  owns ∅ n (collapsed_entry D o l (_branchSize eD) fb n e) = owns ∅ n e.
Proof.
  intros Hne He. unfold owns. rewrite cg_shown_ne by done.
  destruct (cg_entry n e He) as (e' & _ & <- & _ & -> & _). done.
Qed.

Lemma cg_ghost : ghost_ok ∅ s' g'.
Proof.
  pose proof cg_notin as HDl. pose proof cg_fb as Hfbg.
  assert (D ≠ o) as HDo by set_solver.
  split.
  2:{ intros n Hn. rewrite Hheap in Hn.
      destruct (heap s !! n) as [e|] eqn:He; [done|].
      destruct Hok as [_ Hnone]. rewrite (Hnone n He). done. }
  intros n e' He'. destruct (cg_entry_inv n e' He') as (e & He & ->).
  destruct (cg_entry n e He) as (e' & _ & -> & Hc & Hpar & Hch & Hu & Hd & Hx).
  pose proof (ghost_node ∅ s g Hok n e He) as [Huid Hfresh Hparent Hroot Hfile Hunl Hload].
  split.
  - by rewrite Hu.
  - by rewrite Hnext.
  - intros q Hq. rewrite Hpar in Hq.
    destruct (Hparent q Hq) as (ep & cs' & Hep & Hcs' & Hin & Hdep).
    destruct (cg_entry q ep Hep) as (ep' & Hep' & _ & _ & _ & Hch' & _ & Hd' & _).
    exists ep', cs'. split; [done|]. split; [by rewrite Hch'|]. split; [done|].
    by rewrite Hd, Hd'.
  - rewrite Hc, Hpar. done.
  - rewrite Hc, Hch. done.
  - rewrite Hch. intros Hnone. destruct (Hunl Hnone) as (Hf & Hsh & Hg).
    assert (n ≠ D) as HnD by (intros ->; congruence).
    assert (n ∉ l ++ [o]) as Hnl by (rewrite <- cg_members, Hg; set_solver).
    assert (collapsed_entry D o l (_branchSize eD) fb n e = e) as ->.
    { unfold collapsed_entry. rewrite (bool_decide_eq_false_2 (n = D)) by done.
      apply rewalked_off_path. set_solver. }
    rewrite Hg. done.
  - rewrite Hch. intros cs0 Hcs0.
    destruct (Hload cs0 Hcs0) as (Hnd & Hkids & (o' & Hperm & Hgn) & Hsize & Hflat).
    split; [done|]. split.
    { intros c Hcin. destruct (Hkids c Hcin) as (ec & Hec & Hecp).
      destruct (cg_entry c ec Hec) as (ec' & Hec' & _ & _ & Hpar' & _).
      exists ec'. split; [done|]. by rewrite Hpar'. }
    split.
    { exists o'. split; [done|]. rewrite Hgn.
      apply (resplice_bind ∅ s g Hok D 1 (length (g D)) [] cg_fit).
      - rewrite <- Hgn. apply (g_NoDup ∅ s g Hok).
      - intros c _. apply cg_block. }
    destruct (decide (n = D)) as [->|HnD].
    { assert (e = eD) as -> by congruence.
      unfold collapsed_entry. rewrite (bool_decide_eq_true_2 (D = D)) by done.
      rewrite rewalked_branch by done. rewrite cg_self. split; [done|].
      simpl. unfold owns, shown, expanded. simpl. rewrite Hcls. simpl.
      rewrite orb_true_r. rewrite cg_size, Hfbg.
      pose proof (g_anchor_inside ∅ s g Hok D o) as Hins.
      destruct Hins as (X & Y & HXY & HX); [apply cg_members; set_solver|].
      rewrite (block_shown ∅ s g D cg_shown_in) in HXY.
      rewrite HXY. simpl. f_equal. apply returned_rows_block. done. }
    rewrite cg_owns_ne by done.
    unfold collapsed_entry. rewrite (bool_decide_eq_false_2 (n = D)) by done.
    destruct (decide (n ∈ l ++ [o])) as [Hin|Hnin].
    + assert (D ∈ g n) as HDn by by apply cg_members.
      rewrite rewalked_on_path by done. split.
      { rewrite (resplice_g_length ∅ s g Hok D 1 (length (g D)) [] cg_fit n HDn).
        pose proof (resplice_g_length_le ∅ s g Hok D 1 (length (g D)) cg_fit n HDn).
        rewrite Hsize, cg_size. simpl. lia. }
      destruct (decide (n = o)) as [->|Hno].
      * assert (e = eo) as -> by congruence. rewrite rewalked_owner. simpl.
        rewrite Hfb in Hflat. destruct (owns ∅ o eo); [|done].
        f_equal. rewrite cg_size, Hfbg.
        destruct (g_anchor_inside ∅ s g Hok D o HDn) as (X & Y & HXY & HX).
        rewrite (block_shown ∅ s g D cg_shown_in) in HXY.
        rewrite HXY. simpl. by apply rows_without_block.
      * assert (n ∈ l) as Hnl.
        { apply elem_of_app in Hin as [?|?%list_elem_of_singleton]; done. }
        rewrite rewalked_between by done. simpl.
        assert (flattenedBranch e = None) as Hnone.
        { destruct (owner_path_from _ _ _ _ _ Hpath Hnl) as (l2 & H2 & _ & Hne2).
          inversion H2; simplify_eq. done. }
        rewrite Hnone in Hflat. rewrite Hnone. by destruct (owns ∅ n e).
    + rewrite rewalked_off_path by set_solver.
      assert (D ∉ g n) as HDn by (by rewrite cg_members).
      rewrite (resplice_notin _ _ _ _ (g n)) by done. done.
Qed.

End CollapseGhost.

Lemma Inv_events s l : Inv s → Inv (set_events l s).
Proof.
  intros [Hn [g [Hnodes Hnone]]]. split; [by destruct s|]. exists g. split; [|by destruct s].
  intros n e He. assert (heap s !! n = Some e) as He0 by (by destruct s).
  destruct (Hnodes n e He0) as [H1 H2 H3 H4 H5 H6 H7].
  split; try done; by destruct s.
Qed.

(** X23: collapsing keeps the invariant.  In a state where every flat
    array and branch size is as the invariant says, [collapseDirectory]
    on any directory that has a parent returns, leaves the directory
    collapsed, and the invariant holds again. *)
Theorem collapseDirectory_keeps_Inv fuel D eD p s :
  Inv s → heap s !! D = Some eD → cls eD = CDirectory → _parent eD = Some p →
  root_answers s D → (_depth eD < fuel)%nat →
  ∃ s', collapseDirectory fuel D s = Ok tt s' ∧ Inv s'
        ∧ isExpanded <$> heap s' !! D = Some false.
Proof.
  intros HInv HD Hcls Hp Hroot Hfuel.
  destruct (isExpanded eD) eqn:Hexp.
  2:{ exists s. split; [|split; [done|by rewrite HD; simpl; rewrite Hexp]].
      unfold collapseDirectory, setCollapsed. rewrite (bind_obj _ _ _ _ HD), Hcls.
      unfold Directory_setCollapsed. by rewrite (bind_obj _ _ _ _ HD), Hexp. }
  destruct HInv as [Hnext [g Hok]].
  assert (shown ∅ D eD = true) as Hsh.
  { unfold shown, expanded. rewrite Hcls, Hexp. simpl.
    apply bool_decide_eq_true_2. set_solver. }
  destruct (_children eD) as [cs|] eqn:Hcs.
  2:{ destruct (ok_unloaded _ _ _ _ _ (ghost_node ∅ s g Hok D eD HD) Hcs) as (_ & Hn & _).
      congruence. }
  destruct (parent_entry ∅ s g Hok D eD p HD Hp) as (ep & pcs & Hep & Hpcs & HDin & Hdep).
  destruct (owner_path_exists ∅ s g Hok p ep pcs Hep Hpcs) as (l & o & Hpath & Hlen).
  destruct (owner_path_end s p l o Hpath) as (eo & fb & Ho & Hfb).
  assert (D ∉ l ++ [o]) as HDl.
  { rewrite <- (owner_path_members ∅ s g Hok p l o D eD Hpath HD Hp).
    apply (g_irrefl ∅ s g Hok). }
  destruct (collapse_run fuel D eD cs p l o eo fb s) as (s' & vis & Hrun & Hheap & Hs');
    [done..|lia|].
  exists s'. split; [done|]. split.
  - rewrite Hs'. apply Inv_events. split; [by destruct s|].
    exists (λ n, resplice D 1 (length (g D)) [] (g n)).
    apply (cg_ghost s (set_heap (heap s') s) g Hok D eD cs p l o eo fb); done.
  - rewrite Hheap, HD. simpl. unfold collapsed_entry.
    rewrite (bool_decide_eq_true_2 (D = D)) by done. simpl.
    pose proof (rewalked_fields D o l (- _branchSize eD)
                  (Some (rows_without fb D (_branchSize eD)))
                  (Some (returned_rows fb D (_branchSize eD))) D eD) as H.
    simpl in H. done.
Qed.

(** ** Expanding a loaded directory keeps the invariant *)

Lemma rows_with_block X D Y ins :
  D ∉ X →
  rows_with (X ++ D :: Y) D (Some ins) = resplice D 1 0 ins (X ++ D :: Y).
Proof.
  intros HX. unfold rows_with, resplice. rewrite decide_True by set_solver.
  rewrite indexOf_app_l by done. rewrite Nat2Z.id.
  replace (Z.to_nat (Z.of_nat (length X) + 1)) with (length X + 1)%nat by lia.
  by rewrite Nat.add_0_r.
Qed.

Section ExpandGhost.
Context (P : gset N) (s s' : State) (g : N → list N) (Hok : ghost_ok P s g).
Context (D : N) (eD : Entry) (cs : list N) (p : N) (l : list N) (o : N) (eo : Entry)
        (fb : list N).
Context (HD : heap s !! D = Some eD) (Hcls : cls eD = CDirectory)
        (Hns : shown P D eD = false) (Hcs : _children eD = Some cs)
        (Hp : _parent eD = Some p) (Hpath : owner_path (heap s) p l o)
        (Ho : heap s !! o = Some eo) (Hfb : flattenedBranch eo = Some fb).
Context (Hheap : ∀ n, heap s' !! n
                      = expanded_entry D o l (_branchSize eD) fb (flattenedBranch eD) n
                          <$> heap s !! n)
        (Hnext : nextId s' = nextId s).

Local Abbreviation T := (resplice D 1 0 (g D)).
Local Abbreviation g' := (λ n, resplice D 1 0 (g D) (g n)).
Local Abbreviation P' := (P ∖ {[D]}).

Lemma eg_shown_in : shown_in P (heap s) D = false.
Proof. unfold shown_in. by rewrite HD. Qed.

Lemma eg_members n : D ∈ g n ↔ n ∈ l ++ [o].
Proof. apply (owner_path_members P s g Hok p l o D eD Hpath HD Hp). Qed.

Lemma eg_notin : D ∉ l ++ [o].
Proof. rewrite <- eg_members. apply (g_irrefl P s g Hok). Qed.

Lemma eg_fb : fb = g o.
Proof. by destruct (flat_owns P s g Hok o eo fb Ho Hfb) as (_ & ? & _). Qed.

Lemma eg_size : _branchSize eD = Z.of_nat (length (g D)).
Proof. apply (loaded_size P s g Hok D eD cs HD Hcs). Qed.

Lemma eg_own_rows : flattenedBranch eD = Some (g D).
Proof.
  rewrite (loaded_flat P s g Hok D eD cs HD Hcs). unfold owns.
  by rewrite Hns, orb_true_r.
Qed.

Lemma eg_fit : (1 + 0 <= length (block P (heap s) g D))%nat.
Proof. rewrite (block_not_shown P s g D eg_shown_in). simpl. lia. Qed.

Lemma eg_self : T (g D) = g D.
Proof. apply resplice_notin, (g_irrefl P s g Hok). Qed.

Lemma eg_shown_same n e : n ≠ D → shown P' n e = shown P n e.
Proof. intros Hne. unfold shown. f_equal. apply bool_decide_ext. set_solver. Qed.

Lemma eg_entry n e :
  heap s !! n = Some e →
  ∃ e', heap s' !! n = Some e'
        ∧ e' = expanded_entry D o l (_branchSize eD) fb (flattenedBranch eD) n e
        ∧ cls e' = cls e ∧ _parent e' = _parent e ∧ _children e' = _children e
        ∧ _uid e' = _uid e ∧ _depth e' = _depth e
        ∧ isExpanded e' = (if bool_decide (n = D) then true else isExpanded e).
Proof.
  intros He. eexists. split; [by rewrite Hheap, He|]. split; [done|].
  unfold expanded_entry.
  pose proof (rewalked_fields D o l (_branchSize eD)
                (Some (rows_with fb D (flattenedBranch eD))) None n
                (if bool_decide (n = D) then with_isExpanded true e else e)) as H.
  simpl in H. destruct H as (-> & -> & -> & -> & -> & -> & _).
  by case_bool_decide.
Qed.

Lemma eg_entry_inv n e' :
  heap s' !! n = Some e' →
  ∃ e, heap s !! n = Some e
       ∧ e' = expanded_entry D o l (_branchSize eD) fb (flattenedBranch eD) n e.
Proof.
  rewrite Hheap. destruct (heap s !! n) as [e|]; [|done]. intros [= <-]. eauto.
Qed.

Lemma eg_shown_ne n e :
  n ≠ D → heap s !! n = Some e →
  shown P' n (expanded_entry D o l (_branchSize eD) fb (flattenedBranch eD) n e)
  = shown P n e.
Proof.
  intros Hne He. destruct (eg_entry n e He) as (e' & _ & <- & Hc & _ & _ & _ & _ & Hx).
  rewrite (bool_decide_eq_false_2 (n = D)) in Hx by done.
  unfold shown, expanded. rewrite Hc, Hx. f_equal.
  apply bool_decide_ext. set_solver.
Qed.

Lemma eg_shown_in_ne c : c ≠ D → shown_in P' (heap s') c = shown_in P (heap s) c.
Proof.
  intros Hne. unfold shown_in. rewrite Hheap.
  destruct (heap s !! c) as [e|] eqn:He; [|done]. simpl. by apply eg_shown_ne.
Qed.

Lemma eg_shown_in_D : shown_in P' (heap s') D = true.
Proof.
  unfold shown_in. destruct (eg_entry D eD HD) as (e' & -> & _ & Hc & _ & _ & _ & _ & Hx).
  rewrite (bool_decide_eq_true_2 (D = D)) in Hx by done.
  unfold shown, expanded. rewrite Hc, Hcls, Hx. simpl.
  apply bool_decide_eq_true_2. set_solver.
Qed.

Lemma eg_block c : block P' (heap s') g' c = T (block P (heap s) g c).
Proof.
  destruct (decide (c = D)) as [->|Hne].
  - unfold block at 1. rewrite eg_shown_in_D.
    rewrite (block_not_shown P s g D eg_shown_in).
    rewrite resplice_head. simpl. by rewrite eg_self, app_nil_r.
  - unfold block at 1.
    apply (resplice_block P s g D 1 0 (g D) c); [done| |done].
    by apply eg_shown_in_ne.
Qed.

Lemma eg_owns_ne n e :
  n ≠ D → heap s !! n = Some e →
  owns P' n (expanded_entry D o l (_branchSize eD) fb (flattenedBranch eD) n e)
  = owns P n e.
Proof.
  intros Hne He. unfold owns. rewrite eg_shown_ne by done.
  destruct (eg_entry n e He) as (e' & _ & <- & _ & -> & _). done.
Qed.

Lemma eg_ghost : ghost_ok P' s' g'.
Proof.
  pose proof eg_notin as HDl. pose proof eg_fb as Hfbg.
  assert (D ≠ o) as HDo by set_solver.
  split.
  2:{ intros n Hn. rewrite Hheap in Hn.
      destruct (heap s !! n) as [e|] eqn:He; [done|].
      destruct Hok as [_ Hnone]. rewrite (Hnone n He). done. }
  intros n e' He'. destruct (eg_entry_inv n e' He') as (e & He & ->).
  destruct (eg_entry n e He) as (e' & _ & -> & Hc & Hpar & Hch & Hu & Hd & Hx).
  pose proof (ghost_node P s g Hok n e He) as [Huid Hfresh Hparent Hroot Hfile Hunl Hload].
  split.
  - by rewrite Hu.
  - by rewrite Hnext.
  - intros q Hq. rewrite Hpar in Hq.
    destruct (Hparent q Hq) as (ep & cs' & Hep & Hcs' & Hin & Hdep).
    destruct (eg_entry q ep Hep) as (ep' & Hep' & _ & _ & _ & Hch' & _ & Hd' & _).
    exists ep', cs'. split; [done|]. split; [by rewrite Hch'|]. split; [done|].
    by rewrite Hd, Hd'.
  - rewrite Hc, Hpar. done.
  - rewrite Hc, Hch. done.
  - rewrite Hch. intros Hnone. destruct (Hunl Hnone) as (Hf & Hsh & Hg).
    assert (n ≠ D) as HnD by (intros ->; congruence).
    assert (n ∉ l ++ [o]) as Hnl by (rewrite <- eg_members, Hg; set_solver).
    assert (expanded_entry D o l (_branchSize eD) fb (flattenedBranch eD) n e = e) as ->.
    { unfold expanded_entry. rewrite (bool_decide_eq_false_2 (n = D)) by done.
      apply rewalked_off_path. set_solver. }
    rewrite Hg. split; [done|]. split; [by rewrite eg_shown_same|done].
  - rewrite Hch. intros cs0 Hcs0.
    destruct (Hload cs0 Hcs0) as (Hnd & Hkids & (o' & Hperm & Hgn) & Hsize & Hflat).
    split; [done|]. split.
    { intros c Hcin. destruct (Hkids c Hcin) as (ec & Hec & Hecp).
      destruct (eg_entry c ec Hec) as (ec' & Hec' & _ & _ & Hpar' & _).
      exists ec'. split; [done|]. by rewrite Hpar'. }
    split.
    { exists o'. split; [done|]. rewrite Hgn.
      apply (resplice_bind P s g Hok D 1 0 (g D) eg_fit).
      - rewrite <- Hgn. apply (g_NoDup P s g Hok).
      - intros c _. apply eg_block. }
    destruct (decide (n = D)) as [->|HnD].
    { assert (e = eD) as -> by congruence.
      unfold expanded_entry. rewrite (bool_decide_eq_true_2 (D = D)) by done.
      rewrite rewalked_branch by done. rewrite eg_self. split; [by rewrite <- eg_size|].
      simpl. unfold owns, shown, expanded. simpl. rewrite Hcls, Hp. simpl.
      rewrite bool_decide_eq_true_2 by set_solver. done. }
    rewrite eg_owns_ne by done.
    unfold expanded_entry. rewrite (bool_decide_eq_false_2 (n = D)) by done.
    destruct (decide (n ∈ l ++ [o])) as [Hin|Hnin].
    + assert (D ∈ g n) as HDn by by apply eg_members.
      rewrite rewalked_on_path by done. split.
      { rewrite (resplice_g_length P s g Hok D 1 0 (g D) eg_fit n HDn).
        rewrite Hsize, eg_size. lia. }
      destruct (decide (n = o)) as [->|Hno].
      * assert (e = eo) as -> by congruence. rewrite rewalked_owner. simpl.
        rewrite Hfb in Hflat. destruct (owns P o eo); [|done].
        f_equal. rewrite eg_own_rows, Hfbg.
        destruct (elem_of_split_first _ _ HDn) as (X & Y & HXY & HX).
        rewrite HXY. by apply rows_with_block.
      * assert (n ∈ l) as Hnl.
        { apply elem_of_app in Hin as [?|?%list_elem_of_singleton]; done. }
        rewrite rewalked_between by done. simpl.
        assert (flattenedBranch e = None) as Hnone.
        { destruct (owner_path_from _ _ _ _ _ Hpath Hnl) as (l2 & H2 & _ & Hne2).
          inversion H2; simplify_eq. done. }
        rewrite Hnone in Hflat. rewrite Hnone. by destruct (owns P n e).
    + rewrite rewalked_off_path by set_solver.
      assert (D ∉ g n) as HDn by (by rewrite eg_members).
      rewrite (resplice_notin _ _ _ _ (g n)) by done. done.
Qed.

End ExpandGhost.

(** ** Checking the invariant on a given store *)

Lemma visible_absent fuel h n : h !! n = None → visible fuel h n = [].
Proof. intros H. destruct fuel; [done|]. simpl. by rewrite H. Qed.

Lemma node_okb_sound s g n e : node_okb s g n e = true → node_ok ∅ s g n e.
Proof.
  unfold node_okb. rewrite !andb_true_iff.
  intros [[[[[Hu Hf] Hp] Hr] Hfile] Hc].
  apply bool_decide_eq_true_1 in Hu, Hf.
  split; [done|done|..].
  - intros p Hpe. rewrite Hpe in Hp.
    destruct (heap s !! p) as [ep|]; [|done].
    destruct (_children ep) as [cs|] eqn:Hcs; [|done].
    apply andb_true_iff in Hp as [?%bool_decide_eq_true_1 ?%bool_decide_eq_true_1].
    by exists ep, cs.
  - intros Hcls. rewrite bool_decide_eq_true_2 in Hr by done.
    by apply bool_decide_eq_true_1 in Hr.
  - intros Hcls. rewrite bool_decide_eq_true_2 in Hfile by done.
    by apply bool_decide_eq_true_1 in Hfile.
  - intros Hnone. rewrite Hnone in Hc. rewrite !andb_true_iff in Hc.
    destruct Hc as [[?%bool_decide_eq_true_1 ?%negb_true_iff] ?%bool_decide_eq_true_1].
    done.
  - intros cs Hcs. rewrite Hcs in Hc. rewrite !andb_true_iff in Hc.
    destruct Hc as [[[[Hnd Hkids] Hg] Hsz] Hfl].
    apply bool_decide_eq_true_1 in Hnd, Hg, Hsz, Hfl.
    split; [done|]. split.
    { intros c Hin. rewrite forallb_forall in Hkids.
      apply list_elem_of_In, Hkids, bool_decide_eq_true_1 in Hin.
      destruct (heap s !! c) as [ec|]; [|done]. eauto. }
    split; [by exists cs|done].
Qed.

Lemma Inv_check_sound fuel s : Inv_check fuel s = true → Inv s.
Proof.
  unfold Inv_check. rewrite andb_true_iff. intros [Hn%bool_decide_eq_true_1 Hall].
  split; [done|]. exists (visible fuel (heap s)). split.
  - intros n e He. apply node_okb_sound.
    rewrite forallb_forall in Hall.
    apply (Hall (n, e)), list_elem_of_In, elem_of_map_to_list. done.
  - intros n Hnone. by apply visible_absent.
Qed.

Lemma Inv_pdx_loaded : Inv pdx_loaded_state.
Proof. apply (Inv_check_sound 8). vm_compute. reflexivity. Qed.

Lemma Inv_pdx_expanded : Inv pdx_expanded_state.
Proof. apply (Inv_check_sound 8). vm_compute. reflexivity. Qed.

Lemma Inv_abc_expanded : Inv abc_expanded_state.
Proof. apply (Inv_check_sound 8). vm_compute. reflexivity. Qed.

Lemma collapseDirectory_keeps_Inv_witness :
  ∃ s', collapseDirectory 8 2 pdx_expanded_state = Ok tt s' ∧ Inv s'.
Proof.
  destruct (collapseDirectory_keeps_Inv 8 2
              (default (mkEntry CFileEntry 0 None None 0 false None 0 None false None false None)
                       (heap pdx_expanded_state !! 2%N))
              1 pdx_expanded_state) as (s' & H1 & H2 & _).
  - exact Inv_pdx_expanded.
  - vm_compute. reflexivity.
  - reflexivity.
  - reflexivity.
  - right. eexists _, _. split; [vm_compute; reflexivity|reflexivity].
  - simpl. lia.
  - exists s'. exact (conj H1 H2).
Defined.

(** ** What the invariant says, in terms of the arrays alone *)

(** X25: under the invariant a flat array is a faithful list of rows.
    It holds no id twice; its length is the branch size of the directory
    holding it; and each of its rows is an object whose parent is that
    directory or an expanded directory that is itself one of the rows. *)
Theorem Inv_flat_rows s n e fb :
  Inv s → heap s !! n = Some e → flattenedBranch e = Some fb →
  NoDup fb
  ∧ _branchSize e = Z.of_nat (length fb)
  ∧ ∀ x, x ∈ fb →
      ∃ ex px, heap s !! x = Some ex ∧ _parent ex = Some px
               ∧ (px = n ∨ (px ∈ fb ∧ shown_in ∅ (heap s) px = true)).
Proof.
  intros [_ [g Hok]] He Hfb.
  destruct (flat_owns ∅ s g Hok n e fb He Hfb) as (_ & -> & cs & Hcs).
  split; [apply (g_NoDup ∅ s g Hok)|]. split; [by apply (loaded_size ∅ s g Hok n e cs)|].
  intros x Hx. apply (g_elem_parent ∅ s g Hok n x Hx).
Qed.

Lemma Inv_flat_rows_witness :
  NoDup [1%N; 2%N; 3%N] ∧ size_of pdx_expanded_state 0 = Some 3.
Proof.
  destruct (Inv_flat_rows pdx_expanded_state 0
              (default (mkEntry CFileEntry 0 None None 0 false None 0 None false None false None)
                       (heap pdx_expanded_state !! 0%N))
              [1%N; 2%N; 3%N]) as (H1 & H2 & _).
  - exact Inv_pdx_expanded.
  - vm_compute. reflexivity.
  - reflexivity.
  - split; [exact H1|]. reflexivity.
Defined.

(** X26: under the invariant every attached object is a row of exactly
    one flat array.  Walking up from its parent, the first directory
    that holds a flat array has the object among its rows, and no other
    flat array in the store has it. *)
Theorem Inv_one_owner s x ex p :
  Inv s → heap s !! x = Some ex → _parent ex = Some p →
  ∃ l o eo fb,
    owner_path (heap s) p l o ∧ heap s !! o = Some eo
    ∧ flattenedBranch eo = Some fb ∧ x ∈ fb
    ∧ ∀ n e' fb', heap s !! n = Some e' → flattenedBranch e' = Some fb' → x ∈ fb' → n = o.
Proof.
  intros [_ [g Hok]] Hx Hp.
  destruct (parent_entry ∅ s g Hok x ex p Hx Hp) as (ep & pcs & Hep & Hpcs & Hin & _).
  destruct (owner_path_exists ∅ s g Hok p ep pcs Hep Hpcs) as (l & o & Hpath & _).
  destruct (owner_path_end s p l o Hpath) as (eo & fb & Ho & Hfb).
  pose proof (owner_path_members ∅ s g Hok p l o x ex Hpath Hx Hp) as Hmem.
  destruct (flat_owns ∅ s g Hok o eo fb Ho Hfb) as (Hown & -> & _).
  exists l, o, eo, (g o). split; [done|]. split; [done|]. split; [done|].
  split; [apply Hmem; set_solver|].
  intros n e' fb' Hn Hfb' Hxin.
  destruct (flat_owns ∅ s g Hok n e' fb' Hn Hfb') as (Hown' & -> & _).
  apply (owner_unique ∅ s g Hok n o e' eo x); try done. apply Hmem. set_solver.
Qed.

Lemma Inv_one_owner_witness :
  ∃ l o, owner_path (heap pdx_expanded_state) 2 l o ∧ o = 0%N.
Proof.
  destruct (Inv_one_owner pdx_expanded_state 3
              (default (mkEntry CFileEntry 0 None None 0 false None 0 None false None false None)
                       (heap pdx_expanded_state !! 3%N)) 2)
    as (l & o & eo & fb & Hpath & Ho & Hfb & Hin & Huniq).
  - exact Inv_pdx_expanded.
  - vm_compute. reflexivity.
  - reflexivity.
  - exists l, o. split; [exact Hpath|]. symmetry.
    eapply (Huniq 0%N); [vm_compute; reflexivity|reflexivity|].
    apply elem_of_cons; right. apply elem_of_cons; right. apply elem_of_cons; by left.
Defined.

Lemma length_bind_block s g (Hok : ghost_ok ∅ s g) o :
  Z.of_nat (length (o ≫= block ∅ (heap s) g))
  = Z.of_nat (length o) + foldr (λ c z, expanded_rows s c + z) 0 o.
Proof.
  induction o as [|c o IH]; [done|]. rewrite bind_cons, length_app. simpl foldr.
  rewrite Nat2Z.inj_add, IH. rewrite length_cons, Nat2Z.inj_succ.
  assert (Z.of_nat (length (block ∅ (heap s) g c)) = 1 + expanded_rows s c) as ->; [|lia].
  unfold expanded_rows. destruct (shown_in ∅ (heap s) c) eqn:Hsh.
  - rewrite (block_shown ∅ s g c Hsh). simpl length.
    unfold shown_in in Hsh. destruct (heap s !! c) as [ec|] eqn:Hc; [|done].
    destruct (_children ec) as [cs|] eqn:Hcs.
    + unfold size_of. rewrite Hc. simpl.
      rewrite (loaded_size ∅ s g Hok c ec cs Hc Hcs). lia.
    + destruct (ok_unloaded _ _ _ _ _ (ghost_node ∅ s g Hok c ec Hc) Hcs) as (_ & ? & _).
      congruence.
  - rewrite (block_not_shown ∅ s g c Hsh). simpl. lia.
Qed.

(** X27: the size equation.  Under the invariant the branch size of a
    loaded directory is the number of its children plus the branch sizes
    of those children that are expanded directories. *)
Theorem Inv_size_equation s n e cs :
  Inv s → heap s !! n = Some e → _children e = Some cs →
  _branchSize e = Z.of_nat (length cs) + foldr (λ c z, expanded_rows s c + z) 0 cs.
Proof.
  intros [_ [g Hok]] He Hcs.
  rewrite (loaded_size ∅ s g Hok n e cs He Hcs).
  destruct (g_children ∅ s g Hok n e cs He Hcs) as (o & Hperm & ->).
  rewrite (length_bind_block s g Hok). rewrite (Permutation_length Hperm). f_equal.
  apply (foldr_permutation (=) (λ c z, expanded_rows s c + z) 0); [|done].
  intros; lia.
Qed.

Lemma Inv_size_equation_witness :
  default 0 (size_of pdx_expanded_state 1)
  = 1 + (expanded_rows pdx_expanded_state 2 + 0).
Proof.
  assert (heap pdx_expanded_state !! 1%N
          = Some (default (mkEntry CFileEntry 0 None None 0 false None 0 None false None
                             false None)
                          (heap pdx_expanded_state !! 1%N))) as H1
    by (vm_compute; reflexivity).
  exact (Inv_size_equation pdx_expanded_state 1 _ [2%N] Inv_pdx_expanded H1 eq_refl).
Defined.

(** ** Changes the invariant does not see *)

Lemma ghost_ok_transfer P P' s s' g :
  ghost_ok P s g → (nextId s ≤ nextId s')%N →
  (∀ n, match heap s !! n, heap s' !! n with
        | Some e, Some e' => ghost_same P P' n e e'
        | None, None => True
        | _, _ => False
        end) →
  ghost_ok P' s' g.
Proof.
  intros Hok Hnext Hsame.
  assert (∀ n e', heap s' !! n = Some e' →
                  ∃ e, heap s !! n = Some e ∧ ghost_same P P' n e e') as Hback.
  { intros n e' He'. specialize (Hsame n). rewrite He' in Hsame.
    destruct (heap s !! n) as [e|]; [eauto|done]. }
  assert (∀ n e, heap s !! n = Some e →
                 ∃ e', heap s' !! n = Some e' ∧ ghost_same P P' n e e') as Hforth.
  { intros n e He. specialize (Hsame n). rewrite He in Hsame.
    destruct (heap s' !! n) as [e'|]; [eauto|done]. }
  split.
  2:{ intros n Hn. specialize (Hsame n). rewrite Hn in Hsame.
      destruct (heap s !! n) as [e|] eqn:He; [done|].
      destruct Hok as [_ Hnone]. by apply Hnone. }
  intros n e' He'. destruct (Hback n e' He') as (e & He & Hu & Hc & Hp & Hch & Hd & Hsz & Hfl & Hown & Hsh).
  pose proof (ghost_node P s g Hok n e He) as [Huid Hfresh Hparent Hroot Hfile Hunl Hload].
  split.
  - by rewrite Hu.
  - lia.
  - intros q Hq. rewrite Hp in Hq.
    destruct (Hparent q Hq) as (ep & cs' & Hep & Hcs' & Hin & Hdep).
    destruct (Hforth q ep Hep) as (ep' & Hep' & _ & _ & _ & Hch' & Hd' & _).
    exists ep', cs'. split; [done|]. split; [by rewrite Hch'|]. split; [done|].
    by rewrite Hd, Hd'.
  - rewrite Hc, Hp. done.
  - rewrite Hc, Hch. done.
  - rewrite Hch. intros Hnone. destruct (Hunl Hnone) as (Hf & Hs & Hg).
    split; [by rewrite Hfl|]. split; [|done]. rewrite Hsh; [done|by right].
  - rewrite Hch. intros cs0 Hcs0.
    destruct (Hload cs0 Hcs0) as (Hnd & Hkids & (o' & Hperm & Hgn) & Hsize & Hflat).
    split; [done|]. split.
    { intros c Hcin. destruct (Hkids c Hcin) as (ec & Hec & Hecp).
      destruct (Hforth c ec Hec) as (ec' & Hec' & _ & _ & Hp' & _).
      exists ec'. split; [done|]. by rewrite Hp'. }
    split.
    { exists o'. split; [done|]. rewrite Hgn. apply bind_ext_in. intros c Hc'.
      assert (c ∈ cs0) as Hcin by (by rewrite <- Hperm).
      destruct (Hkids c Hcin) as (ec & Hec & Hecp).
      destruct (Hforth c ec Hec) as (ec' & Hec' & _ & _ & _ & _ & _ & _ & _ & _ & Hsh').
      unfold block, shown_in. rewrite Hec, Hec'. rewrite Hsh'; [done|].
      left. by rewrite Hecp. }
    split; [by rewrite Hsz|]. by rewrite Hfl, Hown.
Qed.

Lemma ghost_same_refl P n e : ghost_same P P n e e.
Proof. by repeat split. Qed.

(** ** The last step of an expansion: donating the rows *)

Lemma with_isExpanded_same e : isExpanded e = true → with_isExpanded true e = e.
Proof. destruct e. simpl. by intros ->. Qed.

Lemma skeleton_rewalked D o l delta fo fbr n e :
  skeleton (rewalked D o l delta fo fbr n e) = skeleton e.
Proof. unfold rewalked, resized. repeat case_bool_decide; by destruct e. Qed.

Lemma root_loaded_answers s t : root_loaded s → root_answers s t.
Proof. intros (re & fb & Hre & _ & Hfb). right. eauto. Qed.

Lemma same_nodes_fields s s' n e :
  same_nodes s s' → heap s !! n = Some e →
  ∃ e', heap s' !! n = Some e' ∧ cls e' = cls e ∧ _children e' = _children e
        ∧ _parent e' = _parent e ∧ _depth e' = _depth e.
Proof.
  intros Hsame He. destruct (same_nodes_lookup _ _ _ _ Hsame He) as (e' & He' & Hsk).
  exists e'. split; [done|].
  assert (_depth e' = _depth e) as Hd.
  { destruct e, e'. unfold skeleton, uncache in Hsk. simpl in *. by injection Hsk. }
  by destruct (skeleton_fields _ _ Hsk) as (? & ? & ? & _).
Qed.

Lemma same_nodes_ids s s' : same_nodes s s' → nextId s' = nextId s ∧ rootId s' = rootId s.
Proof. intros [_ ->]. by destruct s. Qed.

Section Donate.
Context (P : gset N) (s : State) (g : N → list N) (Hok : ghost_ok P s g).
Context (D : N) (eD : Entry) (cs : list N) (p : N).
Context (HD : heap s !! D = Some eD) (Hcls : cls eD = CDirectory)
        (Hexp : isExpanded eD = true) (HDP : D ∈ P)
        (Hcs : _children eD = Some cs) (Hp : _parent eD = Some p)
        (Hroot : root_loaded s).

(** The tail of [setExpanded]: the events around [expandBranch]. *)
Lemma donate_run fuel :
  (_depth eD <= fuel)%nat →
  ∃ s' g',
    (notifyWillChangeExpansionState D true ;;
     expandBranch (S fuel) D D ;;
     notifyDidChangeExpansionState D true) s = Ok tt s'
    ∧ ghost_ok (P ∖ {[D]}) s' g' ∧ same_nodes s s' ∧ flags_kept s s' ∧ root_loaded s'.
Proof.
  intros Hfuel.
  destruct (parent_entry P s g Hok D eD p HD Hp) as (ep & pcs & Hep & Hpcs & HDin & Hdep).
  destruct (owner_path_exists P s g Hok p ep pcs Hep Hpcs) as (l & o & Hpath & Hlen).
  destruct (owner_path_end s p l o Hpath) as (eo & fb & Ho & Hfb).
  assert (D ∉ l ++ [o]) as HDl.
  { rewrite <- (owner_path_members P s g Hok p l o D eD Hpath HD Hp).
    apply (g_irrefl P s g Hok). }
  unfold notifyWillChangeExpansionState.
  unfold bind at 1. unfold dispatch at 1, modify at 1.
  set (s0 := set_events (events s ++ [WillChangeExpansionState D true]) s).
  assert (heap s0 = heap s) as Hh0 by by destruct s.
  assert (heap s0 !! D = Some eD) as HD0 by by rewrite Hh0.
  unfold bind at 1. rewrite (expandBranch_self _ _ _ _ _ HD0 Hp).
  destruct (expand_from D eD l fuel p o s0 eo fb) as (s1 & Hrun & Hheap & Hs1);
    [by rewrite Hh0|done|done|by rewrite Hh0|done|lia|].
  rewrite Hrun.
  assert (rootId s1 = rootId s) as Hrid by (rewrite Hs1; by destruct s).
  destruct Hroot as (re & rfb & Hre & Hrc & Hrfb).
  assert (rootId s ≠ D) as HrD by (intros Heq; rewrite Heq in Hre; congruence).
  destruct (rewalked_flat D o l (_branchSize eD)
              (take (Z.to_nat (indexOf fb D + 1)) fb ++ default [] (flattenedBranch eD)
               ++ drop (Z.to_nat (indexOf fb D + 1)) fb)
              None (rootId s) re rfb) as [fb' Hfb']; [done|done|].
  assert (root_loaded s1) as Hroot1.
  { eexists _, fb'. rewrite Hrid, Hheap, Hh0, Hre. split; [done|]. split; [|exact Hfb'].
    by destruct (rewalked_fields D o l (_branchSize eD)
      (Some (take (Z.to_nat (indexOf fb D + 1)) fb ++ default [] (flattenedBranch eD)
             ++ drop (Z.to_nat (indexOf fb D + 1)) fb)) None (rootId s) re) as (-> & _). }
  destruct (notifyDidChangeExpansionState_run D true s1) as [vis Hvis];
    [by apply root_loaded_answers|].
  rewrite Hvis.
  set (s2 := set_events (events s1 ++ [DidChangeExpansionState D true vis]) s1).
  assert (heap s2 = heap s1) as Hh2 by (unfold s2; by destruct s1).
  exists s2, (λ n, resplice D 1 0 (g D) (g n)).
  split; [done|].
  assert (∀ n, heap s2 !! n
               = expanded_entry D o l (_branchSize eD) fb (flattenedBranch eD) n
                   <$> heap s !! n) as Hheap2.
  { intros n. rewrite Hh2, Hheap, Hh0. unfold expanded_entry.
    destruct (heap s !! n) as [e|] eqn:He; [|done]. simpl. f_equal.
    case_bool_decide as Hn; [|done]. subst n.
    assert (e = eD) as -> by congruence. by rewrite with_isExpanded_same. }
  assert (s2 = set_events (events s2) (set_heap (heap s2) s)) as Hs2.
  { unfold s2. rewrite Hs1. unfold s0. by destruct s. }
  split.
  { apply (eg_ghost P s s2 g Hok D eD cs p l o eo fb); try done.
    - unfold shown. rewrite (bool_decide_eq_false_2 (D ∉ P)) by (intros H; done).
      by rewrite andb_false_r.
    - rewrite Hs2. by destruct s. }
  split.
  { split; [|done]. apply map_eq. intros n. rewrite !lookup_fmap, Hheap2.
    destruct (heap s !! n) as [e|]; [|done]. simpl. f_equal.
    unfold expanded_entry. rewrite skeleton_rewalked. case_bool_decide; by destruct e. }
  split.
  { intros n e He Hflag. rewrite Hheap2, He. eexists. split; [done|].
    unfold expanded_entry.
    destruct (rewalked_fields D o l (_branchSize eD)
               (Some (rows_with fb D (flattenedBranch eD))) None n
               (if bool_decide (n = D) then with_isExpanded true e else e))
      as (_ & _ & _ & -> & _).
    by case_bool_decide. }
  destruct Hroot1 as (re1 & rfb1 & Hre1 & Hrc1 & Hrfb1).
  exists re1, rfb1. split; [|done]. rewrite Hh2.
  assert (rootId s2 = rootId s1) as -> by (unfold s2; by destruct s1). done.
Qed.

End Donate.

(** ** Setting the flag *)

Lemma flag_set_attached P s g D eD p :
  ghost_ok P s g → heap s !! D = Some eD → cls eD = CDirectory →
  isExpanded eD = false → _parent eD = Some p →
  ghost_ok (P ∪ {[D]}) (set_heap (<[D := with_isExpanded true eD]> (heap s)) s) g.
Proof.
  intros Hok HD Hcls Hexp Hp. apply (ghost_ok_transfer P _ s); [done|by destruct s|].
  intros n. assert (heap (set_heap (<[D:=with_isExpanded true eD]> (heap s)) s)
                    = <[D:=with_isExpanded true eD]> (heap s)) as -> by by destruct s.
  destruct (decide (n = D)) as [->|Hne].
  - rewrite lookup_insert_eq, HD. repeat split; try done.
    + unfold owns, shown, expanded. simpl. rewrite Hcls, Hexp, Hp. simpl.
      rewrite (bool_decide_eq_false_2 (D ∉ P ∪ {[D]})) by set_solver. done.
    + intros _. unfold shown, expanded. simpl. rewrite Hcls, Hexp. simpl.
      rewrite (bool_decide_eq_false_2 (D ∉ P ∪ {[D]})) by set_solver. done.
  - rewrite lookup_insert_ne by done. destruct (heap s !! n) as [e|]; [|done].
    assert (shown (P ∪ {[D]}) n e = shown P n e) as Hsh.
    { unfold shown. f_equal. apply bool_decide_ext. set_solver. }
    repeat split; try done. unfold owns. by rewrite Hsh.
Qed.

Lemma flag_set_detached P s g D eD cs :
  ghost_ok P s g → heap s !! D = Some eD → _parent eD = None → _children eD = Some cs →
  ghost_ok P (set_heap (<[D := with_isExpanded true eD]> (heap s)) s) g.
Proof.
  intros Hok HD Hp Hcs. apply (ghost_ok_transfer P _ s); [done|by destruct s|].
  intros n. assert (heap (set_heap (<[D:=with_isExpanded true eD]> (heap s)) s)
                    = <[D:=with_isExpanded true eD]> (heap s)) as -> by by destruct s.
  destruct (decide (n = D)) as [->|Hne].
  - rewrite lookup_insert_eq, HD. repeat split; try done.
    + unfold owns. simpl. by rewrite Hp.
    + rewrite Hp, Hcs. intros [[? ?]|?]; done.
  - rewrite lookup_insert_ne by done. destruct (heap s !! n) as [e|]; [|done].
    apply ghost_same_refl.
Qed.

Lemma ghost_ok_events P s g l : ghost_ok P s g → ghost_ok P (set_events l s) g.
Proof.
  intros Hok. apply (ghost_ok_transfer P _ s); [done|by destruct s|].
  intros n. assert (heap (set_events l s) = heap s) as -> by by destruct s.
  destruct (heap s !! n); [apply ghost_same_refl|done].
Qed.

Lemma flags_kept_refl s : flags_kept s s.
Proof. intros n e He Hf. eauto. Qed.

Lemma flags_kept_trans s1 s2 s3 : flags_kept s1 s2 → flags_kept s2 s3 → flags_kept s1 s3.
Proof.
  intros H12 H23 n e He Hf. destruct (H12 n e He Hf) as (e2 & He2 & Hf2).
  by apply (H23 n e2).
Qed.

(** ** [setExpanded] on a loaded directory, with its ancestors *)

(** From the point where the children are there: the ancestors' turn,
    then the donation.  [Hrec] is what the parent's [setExpanded] does. *)
Lemma setExpanded_tail pathfx host env fuel P D eD cs p ev s g :
  (∀ ep pcs, heap s !! p = Some ep → cls ep = CDirectory → _children ep = Some pcs →
     (_depth ep < fuel)%nat →
     ∃ s1 g1, Directory_setExpanded pathfx host env fuel p true s = Ok tt s1
       ∧ ghost_ok (P ∪ {[D]}) s1 g1 ∧ same_nodes s s1 ∧ flags_kept s s1 ∧ root_loaded s1
       ∧ isExpanded <$> heap s1 !! p = Some true) →
  ghost_ok (P ∪ {[D]}) s g → D ∉ P → root_loaded s →
  heap s !! D = Some eD → cls eD = CDirectory → isExpanded eD = true →
  _children eD = Some cs → _parent eD = Some p → (_depth eD <= fuel)%nat →
  ∃ s' g',
    setExpanded_loaded
      (λ p ev, let! pe := obj p in
               match cls pe with
               | CRoot => ret tt
               | CDirectory => Directory_setExpanded pathfx host env fuel p ev
               | CFileEntry => not_a_function
               end)
      (S fuel) D ev s = Ok tt s'
    ∧ ghost_ok P s' g' ∧ same_nodes s s' ∧ flags_kept s s' ∧ root_loaded s'
    ∧ isExpanded <$> heap s' !! D = Some true.
Proof.
  intros Hrec Hok HDP Hroot HD Hcls Hexp Hcs Hp Hfuel.
  unfold setExpanded_loaded.
  rewrite (bind_obj _ _ _ _ HD). unfold bind at 1, gets at 1. rewrite Hp.
  destruct (parent_entry _ s g Hok D eD p HD Hp) as (ep & pcs & Hep & Hpcs & HDin & Hdep).
  (* the parent's turn *)
  assert (∃ s1 g1,
            when (ev && negb (bool_decide (p = rootId s)))
              (let! pe := obj p in
               match cls pe with
               | CFileEntry => not_a_function
               | CDirectory => Directory_setExpanded pathfx host env fuel p true
               | CRoot => ret tt
               end) s = Ok tt s1
            ∧ ghost_ok (P ∪ {[D]}) s1 g1 ∧ same_nodes s s1 ∧ flags_kept s s1
            ∧ root_loaded s1) as (s1 & g1 & Hparent & Hok1 & Hsame1 & Hkept1 & Hroot1).
  { destruct (ev && negb (bool_decide (p = rootId s))).
    2:{ exists s, g. split; [done|]. split; [done|]. split; [reflexivity|].
        split; [apply flags_kept_refl|done]. }
    cbn [when]. rewrite (bind_obj _ _ _ _ Hep).
    destruct (cls ep) eqn:Hcp.
    - pose proof (ok_file _ _ _ _ _ (ghost_node _ s g Hok p ep Hep) Hcp). congruence.
    - destruct (Hrec ep pcs Hep Hcp Hpcs)
        as (s1 & g1 & Hrun & Hok1 & Hsame1 & Hkept1 & Hroot1 & _); [lia|].
      exists s1, g1. done.
    - exists s, g. split; [done|]. split; [done|]. split; [reflexivity|].
      split; [apply flags_kept_refl|done]. }
  unfold bind at 1. rewrite Hparent.
  destruct (same_nodes_fields s s1 D eD Hsame1 HD) as (eD1 & HD1 & Hc1 & Hch1 & Hp1 & Hd1).
  destruct (Hkept1 D eD HD Hexp) as (eD1' & HD1' & Hf1).
  assert (eD1' = eD1) as -> by congruence.
  rewrite (bind_obj _ _ _ _ HD1), Hf1. cbn [when].
  destruct (donate_run (P ∪ {[D]}) s1 g1 Hok1 D eD1 cs p HD1) with (fuel := fuel)
    as (s2 & g2 & Hrun2 & Hok2 & Hsame2 & Hkept2 & Hroot2).
  { by rewrite Hc1. }
  { done. }
  { set_solver. }
  { by rewrite Hch1. }
  { by rewrite Hp1. }
  { done. }
  { rewrite Hd1. lia. }
  rewrite Hrun2. exists s2, g2. split; [done|]. split.
  { assert ((P ∪ {[D]}) ∖ {[D]} = P) as HPeq by set_solver. by rewrite <- HPeq. }
  split; [by etrans|].
  split; [by eapply flags_kept_trans|].
  split; [done|].
  destruct (Hkept2 D eD1 HD1 Hf1) as (eD2 & -> & Hf2). simpl. by rewrite Hf2.
Qed.

Lemma setExpanded_rec pathfx host env :
  ∀ fuel P D eD cs ev s g,
    ghost_ok P s g → pending_flagged P s → root_loaded s →
    heap s !! D = Some eD → cls eD = CDirectory → _children eD = Some cs →
    (_depth eD < fuel)%nat →
    ∃ s' g', Directory_setExpanded pathfx host env fuel D ev s = Ok tt s'
      ∧ ghost_ok P s' g' ∧ same_nodes s s' ∧ flags_kept s s' ∧ root_loaded s'
      ∧ isExpanded <$> heap s' !! D = Some true.
Proof.
  induction fuel as [|fuel IH]; intros P D eD cs ev s g Hok Hpend Hroot HD Hcls Hcs Hfuel;
    [lia|].
  cbn [Directory_setExpanded]. rewrite (bind_obj _ _ _ _ HD).
  destruct (isExpanded eD) eqn:Hexp.
  { exists s, g. split; [done|]. split; [done|]. split; [reflexivity|].
    split; [apply flags_kept_refl|]. split; [done|]. by rewrite HD; simpl; rewrite Hexp. }
  assert (D ∉ P) as HDP.
  { intros Hin. destruct (Hpend D Hin) as (e & He & Hf). congruence. }
  rewrite (bind_update _ _ _ _ _ HD), Hcs.
  set (eD0 := with_isExpanded true eD).
  set (s0 := set_heap (<[D:=eD0]> (heap s)) s).
  unfold bind at 1, ret at 1.
  assert (heap s0 = <[D:=eD0]> (heap s)) as Hh0 by by destruct s.
  assert (heap s0 !! D = Some eD0) as HD0 by (rewrite Hh0; by rewrite lookup_insert_eq).
  assert (same_nodes s s0) as Hsame0.
  { split; [|by destruct s]. rewrite Hh0.
    apply (fmap_insert_same skeleton _ _ _ eD); [done|by destruct eD]. }
  assert (flags_kept s s0) as Hkept0.
  { intros n e He Hf. rewrite Hh0. destruct (decide (n = D)) as [->|Hne].
    - rewrite lookup_insert_eq. eauto.
    - rewrite lookup_insert_ne by done. eauto. }
  assert (root_loaded s0) as Hroot0.
  { destruct Hroot as (re & rfb & Hre & Hrc & Hrfb). exists re, rfb.
    change (rootId s0) with (rootId s).
    rewrite Hh0, lookup_insert_ne; [done|]. intros Heq. rewrite <- Heq in Hre. congruence. }
  destruct (_parent eD) as [p|] eqn:Hp.
  2:{ (* a detached directory: nothing to donate to *)
    unfold setExpanded_loaded.
    rewrite (bind_obj _ _ _ _ HD0). unfold bind at 1, gets at 1.
    assert (_parent eD0 = None) as -> by done.
    unfold bind at 1, ret at 1. rewrite (bind_obj _ _ _ _ HD0).
    assert (isExpanded eD0 = true) as -> by done. cbn [when].
    unfold notifyWillChangeExpansionState.
    unfold bind at 1. unfold dispatch at 1, modify at 1.
    set (s1 := set_events (events s0 ++ [WillChangeExpansionState D true]) s0).
    assert (heap s1 = heap s0) as Hh1 by (unfold s1; by destruct s0).
    assert (heap s1 !! D = Some eD0) as HD1 by by rewrite Hh1.
    unfold bind at 1. cbn [expandBranch]. rewrite (bind_obj _ _ _ _ HD1).
    rewrite (bool_decide_eq_true_2 (D = D)) by done. cbn [negb when].
    unfold bind at 1, ret at 1. rewrite (bind_obj _ _ _ _ HD1).
    assert (_parent eD0 = None) as -> by done. unfold ret at 1.
    assert (root_loaded s1) as Hroot1.
    { destruct Hroot0 as (re & rfb & Hre & Hrc & Hrfb). exists re, rfb.
      assert (rootId s1 = rootId s0) as -> by (unfold s1; by destruct s0).
      by rewrite Hh1. }
    destruct (notifyDidChangeExpansionState_run D true s1) as [vis Hvis];
      [by apply root_loaded_answers|].
    rewrite Hvis.
    set (s2 := set_events (events s1 ++ [DidChangeExpansionState D true vis]) s1).
    assert (heap s2 = heap s0) as Hh2 by (unfold s2, s1; by destruct s0).
    exists s2, g. split; [done|]. split.
    { unfold s2, s1. do 2 apply ghost_ok_events.
      by apply (flag_set_detached P s g D eD cs). }
    split.
    { etrans; [exact Hsame0|]. split; [by rewrite Hh2|]. unfold s2, s1. by destruct s0. }
    split.
    { intros n e He Hf. rewrite Hh2. by apply (Hkept0 n e). }
    split.
    { destruct Hroot1 as (re & rfb & Hre & Hrc & Hrfb). exists re, rfb.
      assert (rootId s2 = rootId s1) as -> by (unfold s2; by destruct s1).
      assert (heap s2 = heap s1) as -> by (unfold s2; by destruct s1). done. }
    rewrite Hh2, HD0. done. }
  pose proof (flag_set_attached P s g D eD p Hok HD Hcls Hexp Hp) as Hok0.
  fold eD0 in Hok0. fold s0 in Hok0.
  assert (pending_flagged (P ∪ {[D]}) s0) as Hpend0.
  { intros n [Hn|Hn%elem_of_singleton]%elem_of_union.
    - destruct (Hpend n Hn) as (e & He & Hf). by apply (Hkept0 n e).
    - subst n. eauto. }
  destruct (setExpanded_tail pathfx host env fuel P D eD0 cs p ev s0 g)
    as (s2 & g2 & Hrun2 & Hok2 & Hsame2 & Hkept2 & Hroot2 & Hexp2); try done.
  { intros ep pcs Hep0 Hcp Hpcs Hlt.
    by apply (IH (P ∪ {[D]}) p ep pcs true s0 g). }
  { simpl. lia. }
  rewrite Hrun2. exists s2, g2. split; [done|]. split; [done|].
  split; [by etrans|]. split; [by eapply flags_kept_trans|]. done.
Qed.

Lemma Inv_pending s : pending_flagged ∅ s.
Proof. intros n Hn. set_solver. Qed.

(** X24: expanding a loaded directory keeps the invariant, whatever
    [ensureVisible] says.  In a state satisfying the invariant, with the
    root loaded, [expandDirectory] on any directory whose children are
    loaded returns, after expanding as many ancestors as it is asked
    to; the directory is then expanded and the invariant holds again. *)
Theorem expandDirectory_keeps_Inv pathfx host env fuel D eD cs ev s :
  Inv s → root_loaded s → heap s !! D = Some eD → cls eD = CDirectory →
  _children eD = Some cs → (_depth eD < fuel)%nat →
  ∃ s', expandDirectory pathfx host env fuel D ev s = Ok tt s' ∧ Inv s'
        ∧ isExpanded <$> heap s' !! D = Some true.
Proof.
  intros [Hnext [g Hok]] Hroot HD Hcls Hcs Hfuel.
  destruct (setExpanded_rec pathfx host env fuel ∅ D eD cs ev s g Hok (Inv_pending s)
              Hroot HD Hcls Hcs Hfuel) as (s' & g' & Hrun & Hok' & Hsame & _ & _ & Hexp).
  exists s'. split.
  - unfold expandDirectory, setExpanded. by rewrite (bind_obj _ _ _ _ HD), Hcls.
  - split; [|done]. destruct (same_nodes_ids _ _ Hsame) as [Hn _].
    split; [by rewrite Hn|]. by exists g'.
Qed.

Lemma expandDirectory_keeps_Inv_witness :
  ∃ s', expandDirectory unix host_pdx dev 8 2 true pdx_loaded_state = Ok tt s' ∧ Inv s'.
Proof.
  destruct (expandDirectory_keeps_Inv unix host_pdx dev 8 2
              (default (mkEntry CFileEntry 0 None None 0 false None 0 None false None false None)
                       (heap pdx_loaded_state !! 2%N))
              [3%N] true pdx_loaded_state) as (s' & H1 & H2 & _).
  - exact Inv_pdx_loaded.
  - eexists _, _. split; [vm_compute; reflexivity|]. split; reflexivity.
  - vm_compute. reflexivity.
  - reflexivity.
  - reflexivity.
  - simpl. lia.
  - exists s'. exact (conj H1 H2).
Defined.

(** ** Loading the children of a directory *)

Lemma fresh_ids_S n0 k : fresh_ids n0 (S k) = n0 :: fresh_ids (n0 + 1) k.
Proof.
  unfold fresh_ids. simpl. rewrite N.add_0_r. f_equal.
  rewrite <- fmap_S_seq, <- list_fmap_compose. apply list_fmap_ext.
  intros _ i _. simpl. lia.
Qed.

Lemma elem_of_fresh_ids n0 k c :
  c ∈ fresh_ids n0 k ↔ (n0 ≤ c < n0 + N.of_nat k)%N.
Proof.
  unfold fresh_ids. rewrite list_elem_of_fmap. split.
  - intros (i & -> & Hi%elem_of_seq). lia.
  - intros Hc. exists (N.to_nat (c - n0)). split; [lia|]. apply elem_of_seq. lia.
Qed.

Lemma fresh_ids_NoDup n0 k : NoDup (fresh_ids n0 k).
Proof.
  revert n0. induction k as [|k IH]; intros n0; [constructor|].
  rewrite fresh_ids_S. constructor; [|apply IH].
  rewrite elem_of_fresh_ids. lia.
Qed.

Lemma length_fresh_ids n0 k : length (fresh_ids n0 k) = k.
Proof. unfold fresh_ids. by rewrite length_fmap, length_seq. Qed.

Lemma well_formed_inv file :
  well_formed file = true →
  ∃ type f, file = RawObj type (JStr f)
            ∧ (type = JNum (FileType_code File) ∨ type = JNum (FileType_code Directory)).
Proof.
  destruct file as [| | |type name]; try done. simpl.
  intros [Ht Hn]%andb_true_iff. destruct name; try done.
  exists type, s. split; [done|].
  apply orb_true_iff in Ht as [?%bool_decide_eq_true_1|?%bool_decide_eq_true_1]; eauto.
Qed.

(** One turn of the loop. *)
Lemma load_child_run env D file s eD acc :
  heap s !! D = Some eD → _children eD = Some acc → well_formed file = true →
  (D < nextId s)%N →
  ∃ ec, load_child env D file s
        = Ok tt (set_heap (<[D := with_children (Some (acc ++ [nextId s])) eD]>
                             (<[nextId s := ec]> (heap s)))
                   (set_idToFileEntry ({[nextId s]} ∪ idToFileEntry s)
                      (set_nextId (nextId s + 1) s)))
        ∧ fresh_child D (_depth eD) (nextId s) ec ∧ built_from file ec.
Proof.
  intros HD Hacc Hwf HDn. destruct (well_formed_inv file Hwf) as (type & f & -> & Htype).
  assert (checkRawFile (RawObj type (JStr f)) s = Ok tt s) as Hcheck.
  { unfold checkRawFile. destruct Htype as [-> | ->]; done. }
  assert (when (validation_enabled env) (checkRawFile (RawObj type (JStr f))) s = Ok tt s)
    as Hval by (destruct (validation_enabled env); done).
  unfold load_child. unfold bind at 1. rewrite Hval.
  unfold bind at 1, destructure at 1, ret at 1. cbn [fst snd].
  unfold construct_child, construct.
  set (c := if bool_decide (type = JNum (FileType_code Directory)) then CDirectory
            else CFileEntry).
  unfold bind at 1. unfold bind at 1, gets at 1. unfold bind at 1, modify at 1.
  unfold bind at 1.
  assert (heap (set_nextId (nextId s + 1) s) !! D = Some eD) as HD1 by by destruct s.
  unfold bind at 1. rewrite (obj_Ok _ _ _ HD1). unfold ret at 1.
  unfold bind at 1, modify at 1. unfold bind at 1, modify at 1. unfold ret at 1.
  set (ec := mkEntry c (nextId s) (Some f) (Some D) (S (_depth eD)) false None 0 None
               false None false None).
  exists ec. split.
  - unfold update. simpl. rewrite lookup_insert_ne by lia. rewrite HD. simpl.
    rewrite Hacc. by destruct s.
  - split; [|unfold built_from, ec; simpl; done].
    unfold fresh_child, ec. simpl. repeat split; try done.
    unfold c. by case_bool_decide.
Qed.

(** The whole loop: [length items] fresh objects, appended in order. *)
Lemma load_loop env D :
  ∀ items s eD acc,
    heap s !! D = Some eD → _children eD = Some acc →
    Forall (λ f, well_formed f = true) items → (D < nextId s)%N →
    ∃ s', forEach items (load_child env D) s = Ok tt s'
      ∧ nextId s' = (nextId s + N.of_nat (length items))%N
      ∧ s' = set_heap (heap s') (set_idToFileEntry (idToFileEntry s')
                                   (set_nextId (nextId s') s))
      ∧ heap s' !! D
        = Some (with_children (Some (acc ++ fresh_ids (nextId s) (length items))) eD)
      ∧ (∀ c, c ∈ fresh_ids (nextId s) (length items) →
              ∃ ec, heap s' !! c = Some ec ∧ fresh_child D (_depth eD) c ec)
      ∧ (∀ n, n ≠ D → n ∉ fresh_ids (nextId s) (length items) →
              heap s' !! n = heap s !! n)
      ∧ (∀ i file, items !! i = Some file →
              ∃ ec, heap s' !! (nextId s + N.of_nat i)%N = Some ec ∧ built_from file ec).
Proof.
  induction items as [|file items IH]; intros s eD acc HD Hacc Hwf HDn.
  { exists s. split; [done|]. split; [simpl; lia|]. split; [by destruct s|].
    split; [|split; [by intros c ?%elem_of_nil|done]].
    simpl. rewrite app_nil_r, HD. f_equal. destruct eD. simpl in *. by subst. }
  apply Forall_cons in Hwf as [Hwf1 Hwf].
  destruct (load_child_run env D file s eD acc HD Hacc Hwf1 HDn) as (ec & Hrun1 & Hec & Hbf).
  set (s1 := set_heap _ _) in Hrun1.
  assert (heap s1 = <[D:=with_children (Some (acc ++ [nextId s])) eD]>
                      (<[nextId s:=ec]> (heap s))) as Hh1 by (unfold s1; by destruct s).
  assert (nextId s1 = (nextId s + 1)%N) as Hn1 by (unfold s1; by destruct s).
  destruct (IH s1 (with_children (Some (acc ++ [nextId s])) eD) (acc ++ [nextId s]))
    as (s' & Hrun & Hn' & Hs' & HD' & Hnew & Hold & Hbuilt).
  { rewrite Hh1. by rewrite lookup_insert_eq. }
  { done. }
  { done. }
  { lia. }
  exists s'. simpl forEach. unfold bind at 1. rewrite Hrun1.
  split; [done|]. rewrite Hn1 in *. simpl length. rewrite fresh_ids_S.
  split; [lia|]. split.
  { rewrite Hs'. unfold s1. by destruct s. }
  split.
  { rewrite HD'. f_equal. simpl. by rewrite <- app_assoc. }
  split.
  { intros c [->|Hc]%elem_of_cons.
    - exists ec. split; [|done]. rewrite Hold.
      + rewrite Hh1. rewrite lookup_insert_ne by lia. by rewrite lookup_insert_eq.
      + lia.
      + rewrite elem_of_fresh_ids. lia.
    - destruct (Hnew c Hc) as (ec' & Hec' & Hfc). exists ec'. split; [done|].
      exact Hfc. }
  split.
  { intros n HnD Hn. apply not_elem_of_cons in Hn as [Hn0 Hn].
    rewrite (Hold n HnD Hn), Hh1. by rewrite !lookup_insert_ne by done. }
  intros [|i] file' Hi; simpl in Hi.
  - injection Hi as <-. exists ec. split; [|done]. rewrite N.add_0_r. rewrite Hold.
    + rewrite Hh1. rewrite lookup_insert_ne by lia. by rewrite lookup_insert_eq.
    + lia.
    + rewrite elem_of_fresh_ids. lia.
  - destruct (Hbuilt i file' Hi) as (ec' & Hec' & Hbf'). exists ec'. split; [|done].
    rewrite <- Hec'. f_equal. lia.
Qed.

Lemma u32_small (l : list N) : Forall (λ c, (c < 2 ^ 32)%N) l → u32 <$> l = l.
Proof.
  induction 1 as [|c l Hc Hl IH]; [done|]. rewrite fmap_cons, IH. f_equal.
  unfold u32. by apply N.mod_small.
Qed.

Lemma bind_singletons (l : list N) (f : N → list N) :
  (∀ c, c ∈ l → f c = [c]) → l ≫= f = l.
Proof.
  induction l as [|c l IH]; intros Hf; [done|]. rewrite bind_cons.
  rewrite Hf by (apply elem_of_cons; by left). simpl. f_equal.
  apply IH. intros c' Hc'. apply Hf, elem_of_cons. by right.
Qed.

Lemma fresh_child_not_shown P D d c ec : fresh_child D d c ec → shown P c ec = false.
Proof.
  intros (_ & Hc & _ & _ & _ & _ & Hx & _). unfold shown, expanded.
  destruct (cls ec); simpl; try done; by rewrite Hx.
Qed.

(** The invariant after a first load: [D] has the fresh objects [cs'] as
    its children and as its rows. *)
Lemma load_ghost P s s' g D eD eD' cs' k :
  ghost_ok P s g → heap s !! D = Some eD → _children eD = None → cls eD ≠ CFileEntry →
  nextId s' = (nextId s + N.of_nat k)%N → (nextId s' ≤ 2 ^ 32)%N →
  heap s' !! D = Some eD' → _uid eD' = _uid eD → cls eD' = cls eD →
  _parent eD' = _parent eD → _depth eD' = _depth eD → isExpanded eD' = isExpanded eD →
  _children eD' = Some cs' → cs' ≡ₚ fresh_ids (nextId s) k →
  _branchSize eD' = Z.of_nat k → flattenedBranch eD' = Some (u32 <$> cs') →
  (∀ c, c ∈ fresh_ids (nextId s) k →
        ∃ ec, heap s' !! c = Some ec ∧ fresh_child D (_depth eD) c ec) →
  (∀ n, n ≠ D → n ∉ fresh_ids (nextId s) k →
        match heap s !! n, heap s' !! n with
        | Some e, Some e' => ghost_same P P n e e'
        | None, None => True
        | _, _ => False
        end) →
  ghost_ok P s' (λ n, if decide (n = D) then cs' else g n).
Proof.
  intros Hok HD Hnone Hcls Hnext Hbound HD' Hu Hc Hp Hd Hx Hcs' Hperm Hsz Hfl Hnew Hold.
  pose proof (ghost_node P s g Hok D eD HD) as [HuD HfD HpD HrD HfileD HunlD _].
  destruct (HunlD Hnone) as (HflatD & HshD & HgD).
  assert (∀ c, c ∈ cs' ↔ (nextId s ≤ c < nextId s + N.of_nat k)%N) as Hin.
  { intros c. by rewrite Hperm, elem_of_fresh_ids. }
  assert (∀ n e, heap s !! n = Some e → (n < nextId s)%N) as Hlt.
  { intros n e He. apply (ok_fresh _ _ _ _ _ (ghost_node P s g Hok n e He)). }
  assert (∀ c, c ∈ cs' → g c = []) as Hgnew.
  { intros c Hcin. destruct Hok as [_ Hnone']. apply Hnone'.
    destruct (heap s !! c) as [e|] eqn:He; [|done].
    apply Hlt in He. apply Hin in Hcin. lia. }
  assert (D ∉ cs') as HDcs.
  { intros HDin. apply Hin in HDin. apply Hlt in HD. lia. }
  assert (shown P D eD' = false) as HshD'.
  { unfold shown, expanded in *. by rewrite Hc, Hx. }
  assert (∀ c, c ∈ cs' → ∃ ec, heap s' !! c = Some ec ∧ fresh_child D (_depth eD) c ec)
    as Hnew'.
  { intros c Hcin. apply Hnew. by rewrite <- Hperm. }
  assert (∀ c, c ∈ cs' → shown_in P (heap s') c = false) as Hshnew.
  { intros c Hcin. destruct (Hnew' c Hcin) as (ec & Hec & Hfc).
    unfold shown_in. rewrite Hec. by apply (fresh_child_not_shown P D (_depth eD)). }
  (* blocks of old children are what they were *)
  assert (∀ c ec n, heap s !! c = Some ec → _parent ec = Some n →
            block P (heap s') (λ n, if decide (n = D) then cs' else g n) c
            = block P (heap s) g c) as Hblock.
  { intros c ec n Hec Hpar. unfold block, shown_in.
    destruct (decide (c = D)) as [->|HcD].
    - rewrite HD, HD'. by rewrite HshD, HshD'.
    - assert (c ∉ fresh_ids (nextId s) k) as Hcf.
      { rewrite elem_of_fresh_ids. apply Hlt in Hec. lia. }
      specialize (Hold c HcD Hcf). rewrite Hec in Hold. rewrite Hec.
      destruct (heap s' !! c) as [ec'|]; [|done].
      destruct Hold as (_ & _ & _ & _ & _ & _ & _ & _ & Hsh).
      rewrite Hsh; [done|]. left. by rewrite Hpar. }
  split.
  2:{ intros n Hn. destruct (decide (n = D)) as [->|HnD]; [congruence|].
      destruct (decide (n ∈ fresh_ids (nextId s) k)) as [Hf|Hf].
      { destruct (Hnew n Hf) as (ec & Hec & _). congruence. }
      specialize (Hold n HnD Hf). rewrite Hn in Hold.
      destruct (heap s !! n) eqn:He; [done|]. destruct Hok as [_ Hnone']. by apply Hnone'. }
  intros n e' He'. destruct (decide (n = D)) as [->|HnD].
  { (* the loaded directory *)
    assert (e' = eD') as -> by congruence. split.
    - by rewrite Hu.
    - apply Hlt in HD. lia.
    - intros q Hq. rewrite Hp in Hq.
      destruct (HpD q Hq) as (ep & pcs & Hep & Hpcs & HDin & Hdep).
      assert (q ≠ D) as HqD.
      { intros ->. congruence. }
      assert (q ∉ fresh_ids (nextId s) k) as Hqf.
      { rewrite elem_of_fresh_ids. apply Hlt in Hep. lia. }
      specialize (Hold q HqD Hqf). rewrite Hep in Hold.
      destruct (heap s' !! q) as [ep'|]; [|done].
      destruct Hold as (_ & _ & _ & Hch' & Hd' & _).
      exists ep', pcs. split; [done|]. split; [by rewrite Hch'|]. split; [done|].
      by rewrite Hd, Hd'.
    - rewrite Hc, Hp. done.
    - rewrite Hc. done.
    - by rewrite Hcs'.
    - rewrite Hcs'. intros cs0 [= <-]. split.
      { rewrite Hperm. apply fresh_ids_NoDup. }
      split.
      { intros c Hcin. destruct (Hnew' c Hcin) as (ec & Hec & _ & _ & Hpc & _).
        eauto. }
      split.
      { exists cs'. split; [done|]. rewrite decide_True by done. symmetry.
        apply bind_singletons. intros c Hcin. unfold block.
        by rewrite (Hshnew c Hcin). }
      rewrite decide_True by done. split.
      { rewrite Hsz. f_equal. by rewrite Hperm, length_fresh_ids. }
      unfold owns. rewrite HshD', orb_true_r. rewrite Hfl. f_equal.
      apply u32_small. apply list.Forall_forall. intros c Hcin. apply Hin in Hcin.
      lia. }
  destruct (decide (n ∈ fresh_ids (nextId s) k)) as [Hf|Hf].
  { (* a fresh child *)
    destruct (Hnew n Hf) as (ec & Hec & Huc & Hcc & Hpc & Hdc & Hchc & Hflc & Hxc & Hnc).
    assert (e' = ec) as -> by congruence.
    assert (n ∈ cs') as Hncs by (by rewrite Hperm).
    split.
    - done.
    - apply Hin in Hncs. lia.
    - intros q Hq. rewrite Hpc in Hq. injection Hq as <-.
      exists eD', cs'. split; [done|]. split; [done|]. split; [done|]. by rewrite Hdc, Hd.
    - done.
    - done.
    - intros _. split; [done|]. split.
      + apply (fresh_child_not_shown P D (_depth eD)). by repeat split.
      + rewrite decide_False by done. by apply Hgnew.
    - rewrite Hchc. done. }
  (* an object that was there before *)
  specialize (Hold n HnD Hf) as Hold_n. rewrite He' in Hold_n.
  destruct (heap s !! n) as [e|] eqn:He; [|done].
  destruct Hold_n as (Hu' & Hc' & Hp' & Hch' & Hd' & Hsz' & Hfl' & Hown' & Hsh').
  pose proof (ghost_node P s g Hok n e He) as [Huid Hfresh Hparent Hroot Hfile Hunl Hload].
  split; cbv beta; rewrite ?(decide_False (P:=n = D)) by done.
  - by rewrite Hu'.
  - lia.
  - intros q Hq. rewrite Hp' in Hq.
    destruct (Hparent q Hq) as (ep & pcs & Hep & Hpcs & Hnin & Hdep).
    assert (q ≠ D) as HqD by (intros ->; congruence).
    assert (q ∉ fresh_ids (nextId s) k) as Hqf.
    { rewrite elem_of_fresh_ids. apply Hlt in Hep. lia. }
    specialize (Hold q HqD Hqf). rewrite Hep in Hold.
    destruct (heap s' !! q) as [ep'|]; [|done].
    destruct Hold as (_ & _ & _ & Hchq & Hdq & _).
    exists ep', pcs. split; [done|]. split; [by rewrite Hchq|]. split; [done|].
    by rewrite Hd', Hdq.
  - rewrite Hc', Hp'. done.
  - rewrite Hc', Hch'. done.
  - rewrite Hch'. intros Hnone'. destruct (Hunl Hnone') as (Hf' & Hs' & Hg').
    split; [by rewrite Hfl'|]. split; [|done]. rewrite Hsh'; [done|by right].
  - rewrite Hch'. intros cs0 Hcs0.
    destruct (Hload cs0 Hcs0) as (Hnd & Hkids & (o' & Hperm' & Hgn) & Hsize & Hflat).
    split; [done|]. split.
    { intros c Hcin. destruct (Hkids c Hcin) as (ec & Hec & Hecp).
      destruct (decide (c = D)) as [->|HcD].
      - exists eD'. split; [done|]. rewrite Hp. congruence.
      - assert (c ∉ fresh_ids (nextId s) k) as Hcf.
        { rewrite elem_of_fresh_ids. apply Hlt in Hec. lia. }
        specialize (Hold c HcD Hcf). rewrite Hec in Hold.
        destruct (heap s' !! c) as [ec'|]; [|done].
        destruct Hold as (_ & _ & Hpc & _). exists ec'. split; [done|]. by rewrite Hpc. }
    split.
    { exists o'. split; [done|]. rewrite Hgn. apply bind_ext_in. intros c Hc'0.
      assert (c ∈ cs0) as Hcin by (by rewrite <- Hperm').
      destruct (Hkids c Hcin) as (ec & Hec & Hecp). symmetry.
      by apply (Hblock c ec n). }
    split; [by rewrite Hsz'|]. by rewrite Hfl', Hown'.
Qed.

(** ** What a reload leaves of the objects it does not rebuild *)

Lemma core_fields e e' :
  core e' = core e →
  _uid e' = _uid e ∧ cls e' = cls e ∧ _parent e' = _parent e ∧ _children e' = _children e
  ∧ _depth e' = _depth e ∧ _branchSize e' = _branchSize e
  ∧ flattenedBranch e' = flattenedBranch e ∧ isExpanded e' = isExpanded e
  ∧ _fileName e' = _fileName e.
Proof. destruct e, e'. unfold core. simpl. intros [=]. by subst. Qed.

Lemma same_core_refl s : same_core s s.
Proof. by split. Qed.

Lemma same_core_trans s1 s2 s3 : same_core s1 s2 → same_core s2 s3 → same_core s1 s3.
Proof.
  intros (H1 & H2 & H3) (H4 & H5 & H6). split; [congruence|]. split; congruence.
Qed.

Lemma same_core_lookup s s' n :
  same_core s s' →
  match heap s !! n, heap s' !! n with
  | Some e, Some e' => core e' = core e
  | None, None => True
  | _, _ => False
  end.
Proof.
  intros [Hh _]. apply (f_equal (.!! n)) in Hh. rewrite !lookup_fmap in Hh.
  destruct (heap s !! n), (heap s' !! n); simpl in Hh; try done. congruence.
Qed.

Lemma same_core_lookup_Some s s' n e :
  same_core s s' → heap s !! n = Some e →
  ∃ e', heap s' !! n = Some e' ∧ core e' = core e.
Proof.
  intros Hs He. pose proof (same_core_lookup s s' n Hs) as H. rewrite He in H.
  destruct (heap s' !! n) as [e'|]; [eauto|done].
Qed.

Lemma same_but_memos_core s s' : same_but_memos s s' → same_core s s'.
Proof.
  intros [Hh Hs]. split.
  - assert (core <$> heap s' = core <$> (uncache <$> heap s')) as ->.
    { rewrite <- map_fmap_compose. apply map_fmap_ext. intros n e _. by destruct e. }
    assert (core <$> heap s = core <$> (uncache <$> heap s)) as ->.
    { rewrite <- map_fmap_compose. apply map_fmap_ext. intros n e _. by destruct e. }
    by rewrite Hh.
  - rewrite Hs. by destruct s.
Qed.

Lemma update_same_core D f s e :
  heap s !! D = Some e → core (f e) = core e →
  same_core s (set_heap (<[D := f e]> (heap s)) s).
Proof.
  intros He Hf. split; [|by destruct s].
  assert (heap (set_heap (<[D := f e]> (heap s)) s) = <[D := f e]> (heap s)) as ->
    by by destruct s.
  by apply (fmap_insert_same core _ _ _ e).
Qed.

Lemma core_ghost_same P n e e' : core e' = core e → ghost_same P P n e e'.
Proof.
  intros (Hu & Hc & Hp & Hch & Hd & Hsz & Hfl & Hx & _)%core_fields.
  assert (shown P n e' = shown P n e) as Hsh.
  { unfold shown, expanded. by rewrite Hc, Hx. }
  repeat split; try done. unfold owns. by rewrite Hp, Hsh.
Qed.

Lemma core_fresh_child D d c e e' :
  core e' = core e → fresh_child D d c e → fresh_child D d c e'.
Proof.
  intros (Hu & Hc & Hp & Hch & Hd & Hsz & Hfl & Hx & Hf)%core_fields.
  unfold fresh_child. by rewrite Hu, Hc, Hp, Hd, Hch, Hfl, Hx, Hf.
Qed.

(** ** The path of an object *)

Lemma has_path_det pathfx s n p q :
  has_path pathfx s n p → has_path pathfx s n q → p = q.
Proof.
  intros Hp. revert q.
  induction Hp as [n e He Hc|n e par p He Hc Hpar Hm|n e par f He Hc Hpar Hm Hf Hr
                   |n e par f pp He Hc Hpar Hm Hf Hr Hpp IH];
    intros q Hq; inversion Hq; simplify_eq; try done; try congruence.
  f_equal. by apply IH.
Qed.

(** One step of the getter, read backwards. *)
Lemma path_S_inv pathfx fuel n s p s' :
  path pathfx (S fuel) n s = Ok p s' →
  ∃ e, heap s !! n = Some e
    ∧ ((cls e = CRoot ∧ p = rootPath s ∧ s' = s)
       ∨ (cls e ≠ CRoot ∧ ∃ par, _parent e = Some par
          ∧ ((memo e = Some p ∧ s' = s)
             ∨ (memo e = None ∧ ∃ f, _fileName e = Some f
                ∧ ((isRelative pathfx f = false ∧ p = f
                    ∧ s' = set_heap (<[n := with_resolvedPathCache (Some p) e]> (heap s)) s)
                   ∨ (isRelative pathfx f = true
                      ∧ ∃ pp s1 e1, path pathfx fuel par s = Ok pp s1
                          ∧ p = join pathfx pp f ∧ heap s1 !! n = Some e1
                          ∧ s' = set_heap (<[n := with_resolvedPathCache (Some p) e1]>
                                             (heap s1)) s1)))))).
Proof.
  simpl. intros Hrun. destruct (heap s !! n) as [e|] eqn:He.
  2:{ unfold bind, obj in Hrun. by rewrite He in Hrun. }
  rewrite (bind_obj _ _ _ _ He) in Hrun. exists e. split; [done|].
  assert (cls e = CRoot ∨ cls e ≠ CRoot) as [Hc|Hc] by (destruct (cls e); naive_solver).
  { left. rewrite Hc in Hrun. by injection Hrun as <- <-. }
  right. split; [done|].
  assert (match _parent e with
          | Some p0 =>
              match resolvedPathCache e with
              | Some (String c r) => ret (String c r)
              | _ =>
                  let! v := match _fileName e with
                            | Some f =>
                                if isRelative pathfx f
                                then let! pp := path pathfx fuel p0 in ret (join pathfx pp f)
                                else ret f
                            | None => throw (TypeError "path-fx: path must be a string")
                            end in
                  update n (with_resolvedPathCache (Some v)) ;; ret v
              end
          | None => throw (Error "orphaned/detached FileEntries don't have path (except Root)")
          end s = Ok p s') as Hrun' by (destruct (cls e); done).
  clear Hrun. destruct (_parent e) as [par|]; [|done]. exists par. split; [done|].
  assert (memo e = None →
          (let! v := match _fileName e with
                     | Some f =>
                         if isRelative pathfx f
                         then let! pp := path pathfx fuel par in ret (join pathfx pp f)
                         else ret f
                     | None => throw (TypeError "path-fx: path must be a string")
                     end in
           update n (with_resolvedPathCache (Some v)) ;; ret v) s = Ok p s' →
          ∃ f, _fileName e = Some f
            ∧ ((isRelative pathfx f = false ∧ p = f
                ∧ s' = set_heap (<[n := with_resolvedPathCache (Some p) e]> (heap s)) s)
               ∨ (isRelative pathfx f = true
                  ∧ ∃ pp s1 e1, path pathfx fuel par s = Ok pp s1
                      ∧ p = join pathfx pp f ∧ heap s1 !! n = Some e1
                      ∧ s' = set_heap (<[n := with_resolvedPathCache (Some p) e1]>
                                         (heap s1)) s1))) as Hbody.
  { intros _ Hb. destruct (_fileName e) as [f|]; [|done]. exists f. split; [done|].
    destruct (isRelative pathfx f).
    - right. split; [done|]. apply bind_Ok in Hb as (v & s1 & Hv & Hu).
      apply bind_Ok in Hv as (pp & s2 & Hpp & Hret). injection Hret as <- <-.
      assert (same_but_memos s s2) as Hs2
        by (apply (path_frame pathfx fuel par); by rewrite Hpp).
      destruct (same_but_memos_lookup s s2 n e Hs2 He) as (e1 & He1 & _).
      rewrite (bind_update _ _ _ _ _ He1) in Hu. injection Hu as <- <-.
      by exists pp, s2, e1.
    - left. split; [done|]. unfold bind at 1, ret at 1 in Hb.
      rewrite (bind_update _ _ _ _ _ He) in Hb. by injection Hb as <- <-. }
  assert (memo e = match resolvedPathCache e with
                   | Some (String c r) => Some (String c r)
                   | _ => None
                   end) as Hmemo by done.
  destruct (resolvedPathCache e) as [[|c r]|].
  - right. split; [done|]. by apply Hbody.
  - left. rewrite Hmemo. by injection Hrun' as <- <-.
  - right. split; [done|]. by apply Hbody.
Qed.

Lemma path_has_path pathfx :
  ∀ fuel n s p s', path pathfx fuel n s = Ok p s' → has_path pathfx s n p.
Proof.
  induction fuel as [|fuel IH]; intros n s p s' Hrun; [done|].
  destruct (path_S_inv pathfx fuel n s p s' Hrun)
    as (e & He & [(Hc & -> & _)|(Hc & par & Hpar & [(Hm & _)|(Hm & f & Hf & Hcase)])]).
  - by apply (has_path_root pathfx s n e).
  - by apply (has_path_memo pathfx s n e par).
  - destruct Hcase as [(Hr & -> & _)|(Hr & pp & s1 & e1 & Hpp & -> & _)].
    + by apply (has_path_abs pathfx s n e par).
    + apply (has_path_rel pathfx s n e par); try done. by apply (IH par s pp s1).
Qed.

Lemma path_parent pathfx fuel n s p s' e :
  path pathfx fuel n s = Ok p s' → heap s !! n = Some e → cls e ≠ CRoot →
  is_Some (_parent e).
Proof.
  intros Hrun He Hc. destruct fuel as [|fuel]; [done|].
  destruct (path_S_inv pathfx fuel n s p s' Hrun)
    as (e' & He' & [(Hc' & _)|(_ & par & Hpar & _)]); simplify_eq; eauto.
Qed.

Lemma same_paths_refl s : same_paths s s.
Proof. split; [done|]. intros n e He. by exists e. Qed.

Lemma same_paths_memo_ext pathfx s s' : same_paths s s' → memo_ext pathfx s s'.
Proof.
  intros [Hr Hs]. split; [done|]. intros n e He.
  destruct (Hs n e He) as (e' & He' & Hc & Hp & Hf & Hm).
  exists e'. split; [done|]. do 3 (split; [done|]). left. unfold memo. by rewrite Hm.
Qed.

Lemma memo_ext_same pathfx s s1 s2 :
  memo_ext pathfx s s1 → same_paths s1 s2 → memo_ext pathfx s s2.
Proof.
  intros [Hr Hs] [Hr' Hs']. split; [congruence|]. intros n e He.
  destruct (Hs n e He) as (e1 & He1 & Hc & Hp & Hf & Hm).
  destruct (Hs' n e1 He1) as (e2 & He2 & Hc' & Hp' & Hf' & Hm').
  exists e2. split; [done|]. split; [congruence|]. split; [congruence|].
  split; [congruence|]. unfold memo in *. by rewrite Hm'.
Qed.

Lemma update_same_paths D f s e :
  heap s !! D = Some e → cls (f e) = cls e → _parent (f e) = _parent e →
  _fileName (f e) = _fileName e → resolvedPathCache (f e) = resolvedPathCache e →
  same_paths s (set_heap (<[D := f e]> (heap s)) s).
Proof.
  intros He Hc Hp Hf Hm. split; [by destruct s|]. intros n e0 He0.
  assert (heap (set_heap (<[D := f e]> (heap s)) s) = <[D := f e]> (heap s)) as ->
    by by destruct s.
  destruct (decide (n = D)) as [->|Hne].
  - rewrite lookup_insert_eq. assert (e0 = e) as -> by congruence. by exists (f e).
  - rewrite lookup_insert_ne by done. by exists e0.
Qed.

(** The getter only adds memos, each the path it has just computed. *)
Lemma path_memo_ext pathfx :
  ∀ fuel n s p s', path pathfx fuel n s = Ok p s' → memo_ext pathfx s s'.
Proof.
  induction fuel as [|fuel IH]; intros n s p s' Hrun; [done|].
  pose proof (path_has_path pathfx _ _ _ _ _ Hrun) as Hhas.
  destruct (path_S_inv pathfx fuel n s p s' Hrun)
    as (e & He & [(Hc & _ & ->)|(Hc & par & Hpar & [(Hm & ->)|(Hm & f & Hf & Hcase)])]).
  - apply same_paths_memo_ext, same_paths_refl.
  - apply same_paths_memo_ext, same_paths_refl.
  - assert (∀ s1 e1, memo_ext pathfx s s1 → heap s1 !! n = Some e1 →
              memo_ext pathfx s
                (set_heap (<[n := with_resolvedPathCache (Some p) e1]> (heap s1)) s1))
      as Hup.
    { intros s1 e1 [Hr Hs] He1. split; [by destruct s1|]. intros m em Hem.
      assert (heap (set_heap (<[n := with_resolvedPathCache (Some p) e1]> (heap s1)) s1)
              = <[n := with_resolvedPathCache (Some p) e1]> (heap s1)) as ->
        by by destruct s1.
      destruct (Hs m em Hem) as (em1 & Hem1 & Hcm & Hpm & Hfm & Hmm).
      destruct (decide (m = n)) as [->|Hne].
      - rewrite lookup_insert_eq. assert (em = e) as -> by congruence.
        assert (em1 = e1) as -> by congruence.
        eexists. split; [done|]. do 3 (split; [done|]).
        unfold memo at 1. simpl. destruct p as [|c r].
        + left. by rewrite Hm.
        + right. by exists (String c r).
      - rewrite lookup_insert_ne by done. exists em1. done. }
    destruct Hcase as [(Hr & _ & ->)|(Hr & pp & s1 & e1 & Hpp & _ & He1 & ->)].
    + apply Hup; [|done]. apply same_paths_memo_ext, same_paths_refl.
    + apply Hup; [|done]. by apply (IH par s pp s1).
Qed.

(** Asked again later, the getter gives the same answer. *)
Lemma path_again pathfx :
  ∀ fuel n s p s0 s', path pathfx fuel n s = Ok p s0 → memo_ext pathfx s s' →
    ∃ s1, path pathfx fuel n s' = Ok p s1.
Proof.
  induction fuel as [|fuel IH]; intros n s p s0 s' Hrun Hext; [done|].
  pose proof (path_has_path pathfx _ _ _ _ _ Hrun) as Hhas.
  destruct (path_S_inv pathfx fuel n s p s0 Hrun) as (e & He & Hcases).
  destruct Hext as [Hroot Hobj].
  destruct (Hobj n e He) as (e' & He' & Hc' & Hp' & Hf' & Hm').
  simpl. rewrite (bind_obj _ _ _ _ He').
  destruct Hcases as [(Hc & -> & _)|(Hc & par & Hpar & Hcases)].
  { rewrite Hc', Hc. unfold gets. rewrite Hroot. by eexists. }
  assert (∀ v, memo e' = Some v →
            match resolvedPathCache e' with
            | Some (String c r) => ret (String c r)
            | _ =>
                let! v := match _fileName e' with
                          | Some f =>
                              if isRelative pathfx f
                              then let! pp := path pathfx fuel par in ret (join pathfx pp f)
                              else ret f
                          | None => throw (TypeError "path-fx: path must be a string")
                          end in
                update n (with_resolvedPathCache (Some v)) ;; ret v
            end s' = Ok v s') as Hmemo.
  { intros v Hv. unfold memo in Hv. destruct (resolvedPathCache e') as [[|c r]|]; try done.
    by injection Hv as <-. }
  assert (∃ s1,
            match cls e' with
            | CRoot => gets rootPath
            | _ =>
                match _parent e' with
                | Some p0 =>
                    match resolvedPathCache e' with
                    | Some (String c r) => ret (String c r)
                    | _ =>
                        let! v := match _fileName e' with
                                  | Some f =>
                                      if isRelative pathfx f
                                      then let! pp := path pathfx fuel p0 in
                                           ret (join pathfx pp f)
                                      else ret f
                                  | None => throw (TypeError "path-fx: path must be a string")
                                  end in
                        update n (with_resolvedPathCache (Some v)) ;; ret v
                    end
                | None =>
                    throw (Error "orphaned/detached FileEntries don't have path (except Root)")
                end
            end s' = Ok p s1) as Hgoal; [|done].
  rewrite Hp', Hpar.
  assert (∃ s1,
            match resolvedPathCache e' with
            | Some (String c r) => ret (String c r)
            | _ =>
                let! v := match _fileName e' with
                          | Some f =>
                              if isRelative pathfx f
                              then let! pp := path pathfx fuel par in ret (join pathfx pp f)
                              else ret f
                          | None => throw (TypeError "path-fx: path must be a string")
                          end in
                update n (with_resolvedPathCache (Some v)) ;; ret v
            end s' = Ok p s1) as [s1 Hs1]; [|exists s1; by destruct (cls e')].
  destruct Hm' as [Hm'|(v & Hv & Hhv)].
  2:{ assert (v = p) as -> by by apply (has_path_det pathfx s n). exists s'. by apply Hmemo. }
  destruct Hcases as [(Hm & _)|(Hm & f & Hf & Hcase)].
  { exists s'. apply Hmemo. by rewrite Hm'. }
  rewrite Hm in Hm'.
  assert (match resolvedPathCache e' with
          | Some (String c r) => ret (String c r)
          | _ =>
              let! v := match _fileName e' with
                        | Some f =>
                            if isRelative pathfx f
                            then let! pp := path pathfx fuel par in ret (join pathfx pp f)
                            else ret f
                        | None => throw (TypeError "path-fx: path must be a string")
                        end in
              update n (with_resolvedPathCache (Some v)) ;; ret v
          end
          = (let! v := match _fileName e' with
                       | Some f =>
                           if isRelative pathfx f
                           then let! pp := path pathfx fuel par in ret (join pathfx pp f)
                           else ret f
                       | None => throw (TypeError "path-fx: path must be a string")
                       end in
             update n (with_resolvedPathCache (Some v)) ;; ret v)) as ->.
  { unfold memo in Hm'. by destruct (resolvedPathCache e') as [[|c r]|]. }
  rewrite Hf', Hf.
  destruct Hcase as [(Hr & -> & _)|(Hr & pp & s1 & e1 & Hpp & -> & _)]; rewrite Hr.
  - unfold bind at 1, ret at 1. rewrite (bind_update _ _ _ _ _ He'). by eexists.
  - destruct (IH par s pp s1 s' Hpp (conj Hroot Hobj)) as (s1' & Hpp').
    unfold bind at 1. unfold bind at 1. rewrite Hpp'. unfold ret at 1.
    assert (same_but_memos s' s1') as Hsm
      by (apply (path_frame pathfx fuel par); by rewrite Hpp').
    destruct (same_but_memos_lookup s' s1' n e' Hsm He') as (e1' & He1' & _).
    rewrite (bind_update _ _ _ _ _ He1'). by eexists.
Qed.

(** ** Sorting the children *)

Lemma sort_insert_perm {A} (cmp : A → A → Z) x l : sort_insert cmp x l ≡ₚ x :: l.
Proof.
  induction l as [|y l IH]; [done|]. simpl. destruct (decide (cmp x y <= 0)); [done|].
  rewrite IH. apply Permutation_swap.
Qed.

Lemma arr_sort_perm {A} (cmp : A → A → Z) l : arr_sort cmp l ≡ₚ l.
Proof.
  induction l as [|x l IH]; [done|]. unfold arr_sort in *. simpl.
  by rewrite sort_insert_perm, IH.
Qed.

Lemma sort_children_run host D s e cs :
  heap s !! D = Some e → _children e = Some cs →
  (∀ c, c ∈ cs → ∃ ec, heap s !! c = Some ec ∧ _uid ec = c) →
  ∃ cs', sort_children host D s
         = Ok tt (set_heap (<[D := with_children (Some cs') e]> (heap s)) s)
         ∧ cs' ≡ₚ cs.
Proof.
  intros He Hcs Hall. unfold sort_children. rewrite (bind_obj _ _ _ _ He), Hcs.
  unfold bind at 1, gets at 1.
  assert (∃ es, mapM (λ c, heap s !! c) cs = Some es ∧ _uid <$> es = cs) as (es & Hes & Hu).
  { clear Hcs He. induction cs as [|c cs IH]; [by exists []|].
    destruct (Hall c) as (ec & Hec & Huc); [by left|].
    destruct IH as (es & Hes & Hu); [intros c' Hc'; apply Hall; by right|].
    exists (ec :: es). split; [|by rewrite fmap_cons, Huc, Hu].
    simpl. rewrite Hec. simpl. by rewrite Hes. }
  rewrite Hes. rewrite (update_Ok _ _ _ _ He). eexists. split; [done|].
  subst cs. apply fmap_Permutation, arr_sort_perm.
Qed.

(** ** Building the children

    [hardReloadChildren] from the host's answer to the point where the
    directory holds its sorted children, its size and its own rows.  [s1]
    is the state after the directory, if it was loaded, has taken its
    rows back. *)
Lemma reload_build pathfx host env fuel D raw s eD s1 eD1 :
  heap s !! D = Some eD →
  (match _children eD with
   | Some _ => shrinkBranch fuel D D
   | None => ret tt
   end) s = Ok tt s1 →
  heap s1 !! D = Some eD1 →
  Forall (λ f, well_formed f = true) (default [] raw) → (D < nextId s1)%N →
  ∃ s9 e7 cs',
    hardReloadChildren_resume pathfx host env fuel D raw s
    = (let! p := path pathfx fuel D in
       match watchTerminator e7 with
       | Some w => call_watchTerminator pathfx D w p
       | None => ret tt
       end ;;
       let! w := supervisedWatch pathfx host p D in
       update D (with_watchTerminator (Some w)) ;;
       update D (with_hardReloadPromise false)) s9
    ∧ watchTerminator e7 = watchTerminator eD1
    ∧ nextId s9 = (nextId s1 + N.of_nat (length (default [] raw)))%N
    ∧ rootId s9 = rootId s1 ∧ rootPath s9 = rootPath s1
    ∧ cs' ≡ₚ fresh_ids (nextId s1) (length (default [] raw))
    ∧ heap s9 !! D
      = Some (with_flattenedBranch (Some (u32 <$> cs'))
                (with_branchSize (Z.of_nat (length cs')) (with_children (Some cs') eD1)))
    ∧ (∀ c, c ∈ fresh_ids (nextId s1) (length (default [] raw)) →
            ∃ ec, heap s9 !! c = Some ec ∧ fresh_child D (_depth eD1) c ec)
    ∧ (∀ n, n ≠ D → n ∉ fresh_ids (nextId s1) (length (default [] raw)) →
            heap s9 !! n = heap s1 !! n)
    ∧ (∀ i file, default [] raw !! i = Some file →
            ∃ ec, heap s9 !! (nextId s1 + N.of_nat i)%N = Some ec ∧ built_from file ec).
Proof.
  intros HD Hpre HD1 Hwf HDn. set (items := default [] raw) in *.
  unfold hardReloadChildren_resume. fold items.
  rewrite (bind_obj _ _ _ _ HD). unfold bind at 1. rewrite Hpre.
  rewrite (bind_update _ _ _ _ _ HD1).
  set (e5 := with_children (Some []) eD1).
  set (s5 := set_heap (<[D:=e5]> (heap s1)) s1).
  assert (heap s5 = <[D:=e5]> (heap s1)) as Hh5 by by destruct s1.
  assert (heap s5 !! D = Some e5) as HD5 by (rewrite Hh5; by rewrite lookup_insert_eq).
  assert (nextId s5 = nextId s1) as Hn5 by by destruct s1.
  destruct (load_loop env D items s5 e5 [] HD5 eq_refl Hwf)
    as (s6 & Hloop & Hn6 & Hs6 & HD6 & Hnew6 & Hold6 & Hbuilt6); [by rewrite Hn5|].
  pose proof (f_equal rootId Hs6) as Hr6. pose proof (f_equal rootPath Hs6) as Hrp6.
  simpl in Hr6, Hrp6. clear Hs6.
  rewrite Hn5 in *. simpl in HD6.
  unfold bind at 1. rewrite Hloop.
  set (e6 := with_children (Some (fresh_ids (nextId s1) (length items))) e5) in *.
  destruct (sort_children_run host D s6 e6 (fresh_ids (nextId s1) (length items)) HD6 eq_refl)
    as (cs' & Hsort & Hperm).
  { intros c Hc. destruct (Hnew6 c Hc) as (ec & Hec & Hu & _). eauto. }
  unfold bind at 1. rewrite Hsort.
  set (e7 := with_children (Some cs') e6).
  set (s7 := set_heap (<[D:=e7]> (heap s6)) s6).
  assert (heap s7 = <[D:=e7]> (heap s6)) as Hh7 by by destruct s6.
  assert (heap s7 !! D = Some e7) as HD7 by (rewrite Hh7; by rewrite lookup_insert_eq).
  rewrite (bind_obj _ _ _ _ HD7). rewrite (bind_update _ _ _ _ _ HD7).
  set (e8 := with_branchSize _ e7).
  set (s8 := set_heap (<[D:=e8]> (heap s7)) s7).
  assert (heap s8 = <[D:=e8]> (heap s7)) as Hh8 by by destruct s7.
  assert (heap s8 !! D = Some e8) as HD8 by (rewrite Hh8; by rewrite lookup_insert_eq).
  unfold bind at 1. rewrite (setFlattenedBranch_run _ _ _ _ HD8).
  set (s9 := set_events _ _).
  assert (heap s9 = <[D:=with_flattenedBranch (Some (u32 <$> cs')) e8]> (heap s8)) as Hh9
    by (unfold s9; by destruct s8).
  assert (D ∉ fresh_ids (nextId s1) (length items)) as HDf.
  { rewrite elem_of_fresh_ids. lia. }
  assert (∀ n, n ≠ D → heap s9 !! n = heap s6 !! n) as Hback.
  { intros n HnD. rewrite Hh9, lookup_insert_ne by done.
    rewrite Hh8, lookup_insert_ne by done. by rewrite Hh7, lookup_insert_ne by done. }
  exists s9, e7, cs'. split; [done|]. split; [done|].
  split; [unfold s9, s8, s7; rewrite <- Hn6; by destruct s6|].
  split.
  { transitivity (rootId s6); [unfold s9, s8, s7; by destruct s6|].
    rewrite Hr6. by destruct s1. }
  split.
  { transitivity (rootPath s6); [unfold s9, s8, s7; by destruct s6|].
    rewrite Hrp6. by destruct s1. }
  split; [done|]. split.
  { rewrite Hh9, lookup_insert_eq. unfold e8, e7, e6, e5. simpl.
    rewrite length_fmap. by destruct eD1. }
  split.
  { intros c Hc. destruct (Hnew6 c Hc) as (ec & Hec & Hfc). exists ec. split; [|done].
    assert (c ≠ D) as HcD by (intros ->; done). by rewrite Hback. }
  split.
  { intros n HnD Hnf. rewrite (Hback n HnD), (Hold6 n HnD Hnf).
    rewrite Hh5. by rewrite lookup_insert_ne. }
  intros i file Hi. destruct (Hbuilt6 i file Hi) as (ec & Hec & Hbf).
  exists ec. split; [|done]. rewrite Hback; [done|]. lia.
Qed.

(** The rest of the reload: the path, the watcher, the promise. *)
Lemma reload_tail pathfx host fuel D s e e7 p s1 :
  heap s !! D = Some e → watchTerminator e7 = None →
  path pathfx fuel D s = Ok p s1 →
  ∃ s', (let! p := path pathfx fuel D in
         match watchTerminator e7 with
         | Some w => call_watchTerminator pathfx D w p
         | None => ret tt
         end ;;
         let! w := supervisedWatch pathfx host p D in
         update D (with_watchTerminator (Some w)) ;;
         update D (with_hardReloadPromise false)) s = Ok tt s'
        ∧ same_core s s'.
Proof.
  intros HD Hw Hp.
  assert (same_but_memos s s1) as Hm by (apply (path_frame pathfx fuel D); by rewrite Hp).
  unfold bind at 1. rewrite Hp, Hw. unfold bind at 1, ret at 1.
  unfold supervisedWatch. unfold bind at 1. unfold bind at 1, modify at 1. unfold ret at 1.
  set (s2 := set_fswatchers _ s1).
  assert (same_core s s2) as H2.
  { apply (same_core_trans _ s1); [by apply same_but_memos_core|].
    unfold s2. split; [by destruct s1|]. by destruct s1. }
  destruct (same_core_lookup_Some s s2 D e H2 HD) as (e2 & He2 & _).
  rewrite (bind_update _ _ _ _ _ He2).
  set (e3 := with_watchTerminator _ e2). set (s3 := set_heap _ s2).
  assert (same_core s2 s3) as H3 by (apply update_same_core; [done|by destruct e2]).
  assert (heap s3 !! D = Some e3) as He3.
  { unfold s3. assert (∀ h, heap (set_heap h s2) = h) as -> by (intros; by destruct s2).
    by rewrite lookup_insert_eq. }
  rewrite (update_Ok _ _ _ _ He3). eexists. split; [done|].
  apply (same_core_trans _ s2); [done|]. apply (same_core_trans _ s3); [done|].
  apply update_same_core; [done|by destruct e3].
Qed.

(** The first half of [hardReloadChildren] asks the host for the path of
    the directory; the second half starts from the answer for that path. *)
Lemma reload_head pathfx host env fuel D s e p s0 :
  heap s !! D = Some e → hardReloadPromise e = false →
  path pathfx fuel D s = Ok p s0 →
  ∃ s4 e4 s5,
    hardReloadChildren pathfx host env fuel D s
    = hardReloadChildren_resume pathfx host env fuel D (getItems host p) s4
    ∧ same_core s s4 ∧ heap s4 !! D = Some e4 ∧ core e4 = core e
    ∧ watchTerminator e4 = watchTerminator e
    ∧ path pathfx fuel D s4 = Ok p s5
    ∧ hostCalls s4 = hostCalls s ++ [p].
Proof.
  intros HD Hpr Hpath. unfold hardReloadChildren, hardReloadChildren_begin.
  unfold bind at 1. rewrite (bind_obj _ _ _ _ HD), Hpr. rewrite (bind_update _ _ _ _ _ HD).
  set (e1 := with_hardReloadPromise true e). set (s1 := set_heap _ s).
  assert (same_core s s1) as H1 by (apply update_same_core; [done|by destruct e]).
  assert (heap s1 !! D = Some e1) as HD1.
  { unfold s1. assert (∀ h, heap (set_heap h s) = h) as -> by (intros; by destruct s).
    by rewrite lookup_insert_eq. }
  assert (same_paths s s1) as Hsp1 by (by apply update_same_paths).
  destruct (path_again pathfx fuel D s p s0 s1 Hpath (same_paths_memo_ext _ _ _ Hsp1))
    as (s2 & Hp).
  pose proof (path_memo_ext pathfx _ _ _ _ _ Hp) as Hme2.
  assert (same_but_memos s1 s2) as Hm2
    by (apply (path_frame pathfx fuel D); by rewrite Hp).
  unfold bind at 1. rewrite Hp. unfold bind at 1, modify at 1. unfold ret at 1.
  set (s3 := set_hostCalls _ s2).
  assert (same_core s2 s3) as H3 by (unfold s3; split; [by destruct s2|by destruct s2]).
  assert (same_paths s2 s3) as Hsp3.
  { split; [unfold s3; by destruct s2|]. intros n en Hen. exists en.
    split; [unfold s3; by destruct s2|done]. }
  destruct (path_again pathfx fuel D s1 p s2 s3 Hp (memo_ext_same _ _ _ _ Hme2 Hsp3))
    as (s4 & Hp').
  assert (same_but_memos s3 s4) as Hm4
    by (apply (path_frame pathfx fuel D); by rewrite Hp').
  destruct (path_again pathfx fuel D s3 p s4 s4 Hp' (path_memo_ext pathfx _ _ _ _ _ Hp'))
    as (s5 & Hp'').
  unfold bind at 1. rewrite Hp'.
  destruct (same_but_memos_lookup s1 s2 D e1 Hm2 HD1) as (e2 & He2 & Hu2).
  assert (heap s3 !! D = Some e2) as He3 by (unfold s3; by destruct s2).
  destruct (same_but_memos_lookup s3 s4 D e2 Hm4 He3) as (e4 & He4 & Hu4).
  exists s4, e4, s5. split; [done|]. split.
  { apply (same_core_trans _ s1); [done|]. apply (same_core_trans _ s3).
    - apply (same_core_trans _ s2); [by apply same_but_memos_core|done].
    - by apply same_but_memos_core. }
  split; [done|].
  assert (uncache e4 = uncache e1) as Hu by congruence.
  split; [|split; [|split; [done|]]].
  - unfold e1 in Hu. destruct e4, e. unfold uncache in Hu. simpl in Hu.
    injection Hu as -> -> -> -> -> -> -> -> -> -> -> ->. done.
  - unfold e1 in Hu. destruct e4, e. unfold uncache in Hu. simpl in Hu.
    injection Hu as -> -> -> -> -> -> -> -> -> -> -> ->. done.
  - destruct Hm4 as [_ ->]. destruct Hm2 as [_ Hs2]. unfold s3.
    assert (hostCalls s2 = hostCalls s) as Hhc by (rewrite Hs2; unfold s1; by destruct s).
    destruct s2. simpl in *. by rewrite Hhc.
Qed.

(** ** The first load of a directory keeps the invariant *)

Lemma resume_run pathfx host env fuel P D eD p s0 raw s g :
  ghost_ok P s g → heap s !! D = Some eD → cls eD ≠ CFileEntry →
  _children eD = None → watchTerminator eD = None →
  path pathfx fuel D s = Ok p s0 →
  Forall (λ f, well_formed f = true) (default [] raw) →
  (nextId s + N.of_nat (length (default [] raw)) ≤ 2 ^ 32)%N →
  ∃ s' cs' eD',
    hardReloadChildren_resume pathfx host env fuel D raw s = Ok tt s'
    ∧ ghost_ok P s' (λ n, if decide (n = D) then cs' else g n)
    ∧ nextId s' = (nextId s + N.of_nat (length (default [] raw)))%N
    ∧ rootId s' = rootId s
    ∧ heap s' !! D = Some eD' ∧ _children eD' = Some cs'
    ∧ length cs' = length (default [] raw)
    ∧ cls eD' = cls eD ∧ isExpanded eD' = isExpanded eD ∧ _parent eD' = _parent eD
    ∧ _depth eD' = _depth eD ∧ flattenedBranch eD' = Some cs'
    ∧ (∀ n e, n ≠ D → heap s !! n = Some e →
              ∃ e', heap s' !! n = Some e' ∧ core e' = core e)
    ∧ (∀ file, file ∈ default [] raw →
              ∃ c ec, c ∈ cs' ∧ heap s' !! c = Some ec ∧ built_from file ec
                      ∧ _parent ec = Some D).
Proof.
  intros Hok HD Hcls Hnone Hw Hpath Hwf Hbound.
  set (items := default [] raw) in *.
  assert (∀ n e, heap s !! n = Some e → (n < nextId s)%N) as Hlt.
  { intros n e He. apply (ok_fresh _ _ _ _ _ (ghost_node P s g Hok n e He)). }
  destruct (reload_build pathfx host env fuel D raw s eD s eD HD)
    as (s9 & e7 & cs' & Hrun & Hw7 & Hn9 & Hr9 & Hrp9 & Hperm & HD9 & Hnew9 & Hold9 & Hb9);
    [by rewrite Hnone|done|done|by apply (Hlt D eD)|].
  fold items in Hn9, Hperm, Hnew9, Hold9, Hb9.
  set (e9 := with_flattenedBranch (Some (u32 <$> cs'))
               (with_branchSize (Z.of_nat (length cs')) (with_children (Some cs') eD))) in *.
  assert (same_paths s s9) as Hsp9.
  { split; [done|]. intros m e He.
    destruct (decide (m = D)) as [->|HmD].
    - assert (e = eD) as -> by congruence. exists e9. split; [done|]. by destruct eD.
    - exists e. split; [|done]. rewrite Hold9; [done|done|].
      rewrite elem_of_fresh_ids. apply Hlt in He. lia. }
  destruct (path_again pathfx fuel D s p s0 s9 Hpath (same_paths_memo_ext _ _ _ Hsp9))
    as (s10 & Hpath9).
  rewrite Hw in Hw7.
  destruct (reload_tail pathfx host fuel D s9 e9 e7 p s10 HD9 Hw7 Hpath9)
    as (s' & Htail & Hcore).
  destruct (same_core_lookup_Some s9 s' D e9 Hcore HD9)
    as (eD' & HD' & HcD).
  pose proof (core_fields _ _ HcD) as (Hu' & Hc' & Hp' & Hch' & Hd' & Hsz' & Hfl' & Hx' & _).
  assert (u32 <$> cs' = cs') as Hu32.
  { apply u32_small, list.Forall_forall. intros c Hc.
    rewrite Hperm in Hc. apply elem_of_fresh_ids in Hc. lia. }
  assert (length cs' = length items) as Hlen by by rewrite Hperm, length_fresh_ids.
  exists s', cs', eD'. split; [by rewrite Hrun|].
  destruct Hcore as (Hcore & Hn' & Hr').
  assert (same_core s9 s') as Hcore' by done.
  split.
  { apply (load_ghost P s s' g D eD eD' cs' (length items)); try done.
    - by rewrite Hn', Hn9.
    - rewrite Hn', Hn9. done.
    - rewrite Hsz'. unfold e9. simpl. by rewrite Hlen.
    - intros c Hc. destruct (Hnew9 c Hc) as (ec & Hec & Hfc).
      destruct (same_core_lookup_Some s9 s' c ec Hcore' Hec) as (ec' & Hec' & Hcc).
      exists ec'. split; [done|]. by apply (core_fresh_child _ _ _ ec).
    - intros n HnD Hnf. pose proof (same_core_lookup s9 s' n Hcore') as Hl.
      rewrite (Hold9 n HnD Hnf) in Hl.
      destruct (heap s !! n) as [e|], (heap s' !! n) as [e'|]; try done.
      by apply core_ghost_same. }
  split; [by rewrite Hn', Hn9|]. split; [by rewrite Hr', Hr9|].
  split; [done|]. split; [done|]. split; [done|].
  split; [done|]. split; [done|]. split; [done|]. split; [done|].
  split; [by rewrite Hfl'; simpl; rewrite Hu32|].
  split.
  { intros n e HnD He.
    assert (n ∉ fresh_ids (nextId s) (length items)) as Hnf.
    { rewrite elem_of_fresh_ids. apply Hlt in He. lia. }
    apply (same_core_lookup_Some s9 s'); [done|]. by rewrite (Hold9 n HnD Hnf). }
  intros file [i Hi]%list_elem_of_lookup.
  destruct (Hb9 i file Hi) as (ec & Hec & Hbf).
  destruct (same_core_lookup_Some s9 s' _ ec Hcore' Hec)
    as (ec' & Hec' & (_ & Hcc & Hpc & _ & _ & _ & _ & _ & Hfc)%core_fields).
  assert ((nextId s + N.of_nat i)%N ∈ fresh_ids (nextId s) (length items)) as Hin.
  { rewrite elem_of_fresh_ids. apply lookup_lt_Some in Hi. lia. }
  exists (nextId s + N.of_nat i)%N, ec'. split; [by rewrite Hperm|].
  split; [done|]. split.
  - unfold built_from in *. destruct file as [| | |type [| | |f| |]]; try done.
    by rewrite Hcc, Hfc.
  - destruct (Hnew9 _ Hin) as (ec0 & Hec0 & _ & _ & Hpar & _).
    assert (ec0 = ec) as -> by congruence. by rewrite Hpc.
Qed.

Lemma ghost_ok_core P s s' g : ghost_ok P s g → same_core s s' → ghost_ok P s' g.
Proof.
  intros Hok Hc. apply (ghost_ok_transfer P P s s' g Hok).
  - destruct Hc as (_ & -> & _). lia.
  - intros n. pose proof (same_core_lookup s s' n Hc) as Hl.
    destruct (heap s !! n), (heap s' !! n); try done. by apply core_ghost_same.
Qed.

(** [hardReloadChildren] on a directory that was never loaded; [p] is
    its path. *)
Lemma reload_run pathfx host env fuel P D eD p sp s g :
  ghost_ok P s g → heap s !! D = Some eD → cls eD ≠ CFileEntry →
  _children eD = None → hardReloadPromise eD = false → watchTerminator eD = None →
  path pathfx fuel D s = Ok p sp →
  Forall (λ f, well_formed f = true) (default [] (getItems host p)) →
  (nextId s + N.of_nat (length (default [] (getItems host p))) ≤ 2 ^ 32)%N →
  ∃ s' cs' eD',
    hardReloadChildren pathfx host env fuel D s = Ok tt s'
    ∧ ghost_ok P s' (λ n, if decide (n = D) then cs' else g n)
    ∧ nextId s' = (nextId s + N.of_nat (length (default [] (getItems host p))))%N
    ∧ rootId s' = rootId s
    ∧ heap s' !! D = Some eD' ∧ _children eD' = Some cs'
    ∧ length cs' = length (default [] (getItems host p))
    ∧ cls eD' = cls eD ∧ isExpanded eD' = isExpanded eD ∧ _parent eD' = _parent eD
    ∧ _depth eD' = _depth eD ∧ flattenedBranch eD' = Some cs'
    ∧ (∀ n e, n ≠ D → heap s !! n = Some e →
              ∃ e', heap s' !! n = Some e' ∧ core e' = core e)
    ∧ (∀ file, file ∈ default [] (getItems host p) →
              ∃ c ec, c ∈ cs' ∧ heap s' !! c = Some ec ∧ built_from file ec
                      ∧ _parent ec = Some D).
Proof.
  intros Hok HD Hcls Hnone Hpr Hw Hpath Hwf Hbound.
  destruct (reload_head pathfx host env fuel D s eD p sp HD Hpr Hpath)
    as (s4 & e4 & s5 & Hrun & Hc4 & HD4 & Hce & Hw4 & Hpath4 & _).
  pose proof (core_fields _ _ Hce) as (Hu & Hc & Hp & Hch & Hd & Hsz & Hfl & Hx & Hf).
  pose proof (ghost_ok_core P s s4 g Hok Hc4) as Hok4.
  assert (nextId s4 = nextId s) as Hn4 by by destruct Hc4 as (_ & ? & _).
  assert (rootId s4 = rootId s) as Hr4 by by destruct Hc4 as (_ & _ & ?).
  destruct (resume_run pathfx host env fuel P D e4 p s5 (getItems host p) s4 g Hok4 HD4)
    as (s' & cs' & eD' & Hres & Hok' & Hn' & Hr' & HD' & Hch' & Hlen & Hc' & Hx' & Hp'
        & Hd' & Hfl' & Hfr & Hbf); try done; try congruence.
  exists s', cs', eD'. split; [by rewrite Hrun|]. split; [done|].
  split; [by rewrite Hn', Hn4|]. split; [by rewrite Hr', Hr4|].
  split; [done|]. split; [done|]. split; [done|].
  split; [congruence|]. split; [congruence|]. split; [congruence|]. split; [congruence|].
  split; [done|]. split; [|done].
  intros n e HnD He. destruct (same_core_lookup_Some s s4 n e Hc4 He) as (e1 & He1 & Hc1).
  destruct (Hfr n e1 HnD He1) as (e' & He' & Hc'').
  exists e'. split; [done|]. congruence.
Qed.

Lemma host_ax_well_formed : host_well_formed host_ax.
Proof.
  intros p. unfold host_ax. simpl. repeat case_decide; simpl; repeat constructor.
Qed.

Lemma host_abc_well_formed : host_well_formed host_abc.
Proof.
  intros p. unfold host_abc. simpl. repeat case_decide; simpl; repeat constructor.
Qed.

Lemma Inv_ax_loaded : Inv ax_loaded_state.
Proof. apply (Inv_check_sound 8). vm_compute. reflexivity. Qed.

Lemma Inv_abc_loaded : Inv abc_loaded_state.
Proof. apply (Inv_check_sound 8). vm_compute. reflexivity. Qed.

Lemma Inv_fresh : Inv fresh.
Proof. apply (Inv_check_sound 8). vm_compute. reflexivity. Qed.

(** X28: the first load of a directory keeps the invariant.  On a
    directory that was never loaded, whose [path] is [p], with no reload
    pending, when the host lists for [p] well-formed items only, few
    enough for the ids to stay below 2^32, [ensureLoaded] returns; the
    invariant holds again, the directory has as many children as the host
    listed items for [p], and every listed item has its child: an object
    below the directory, of the item's name and class. *)
Theorem ensureLoaded_keeps_Inv pathfx host env fuel D eD p sp s :
  Inv s → heap s !! D = Some eD → cls eD ≠ CFileEntry → _children eD = None →
  hardReloadPromise eD = false → watchTerminator eD = None →
  path pathfx fuel D s = Ok p sp →
  Forall (λ f, well_formed f = true) (default [] (getItems host p)) →
  (nextId s + N.of_nat (length (default [] (getItems host p))) ≤ 2 ^ 32)%N →
  ∃ s' cs,
    ensureLoaded pathfx host env fuel D s = Ok tt s' ∧ Inv s'
    ∧ _children <$> heap s' !! D = Some (Some cs)
    ∧ length cs = length (default [] (getItems host p))
    ∧ (∀ file, file ∈ default [] (getItems host p) →
         ∃ c ec, c ∈ cs ∧ heap s' !! c = Some ec ∧ built_from file ec
                 ∧ _parent ec = Some D).
Proof.
  intros [Hnext [g Hok]] HD Hcls Hnone Hpr Hw Hpath Hwf Hbound.
  destruct (reload_run pathfx host env fuel ∅ D eD p sp s g Hok HD Hcls Hnone Hpr Hw Hpath
              Hwf Hbound)
    as (s' & cs' & eD' & Hrun & Hok' & Hn' & _ & HD' & Hch' & Hlen & _ & _ & _ & _ & _ & _
        & Hbf).
  exists s', cs'. split.
  { unfold ensureLoaded. rewrite (bind_obj _ _ _ _ HD), Hnone.
    by destruct (cls eD). }
  split.
  { split; [by rewrite Hn'|]. eauto. }
  split; [by rewrite HD'; simpl; rewrite Hch'|]. split; [done|]. exact Hbf.
Qed.

Lemma ensureLoaded_keeps_Inv_witness :
  ∃ s' cs, ensureLoaded unix host_abc dev 8 2 abc_loaded_state = Ok tt s' ∧ Inv s'
           ∧ _children <$> heap s' !! 2%N = Some (Some cs) ∧ length cs = 1%nat.
Proof.
  destruct (ensureLoaded_keeps_Inv unix host_abc dev 8 2
              (default (mkEntry CFileEntry 0 None None 0 false None 0 None false None false None)
                       (heap abc_loaded_state !! 2%N))
              "/root/a" (default fresh (state_of (path unix 8 2 abc_loaded_state)))
              abc_loaded_state) as (s' & cs & H1 & H2 & H3 & H4 & _).
  - exact Inv_abc_loaded.
  - vm_compute. reflexivity.
  - vm_compute. discriminate.
  - reflexivity.
  - reflexivity.
  - reflexivity.
  - vm_compute. reflexivity.
  - vm_compute. repeat constructor.
  - vm_compute. discriminate.
  - exists s', cs. exact (conj H1 (conj H2 (conj H3 H4))).
Defined.

(** ** The root's constructor, with the host's answer *)

(** The constructor up to its first [await]. *)
Lemma Root_constructor_run pathfx root s :
  isRelative pathfx root = false →
  ∃ s1, Root_constructor pathfx root s = Ok (nextId s) s1
        ∧ heap s1 = <[nextId s := mkEntry CRoot (nextId s) None None 0 false None 0 None
                                          true None true None]> (heap s)
        ∧ nextId s1 = (nextId s + 1)%N ∧ rootId s1 = nextId s ∧ rootPath s1 = root.
Proof.
  intros Habs. unfold Root_constructor. rewrite Habs.
  unfold construct, unawaited, hardReloadChildren_begin, bind, gets, modify, update, obj, ret.
  simpl.
  repeat first [ rewrite lookup_insert_eq | rewrite insert_insert_eq
               | progress simpl | progress unfold bind, obj, gets, modify, ret ].
  eexists. split; [reflexivity|]. done.
Qed.

(** A new object that is not loaded yet, its expansion under way. *)
Lemma ghost_ok_new_root P s s1 g er :
  ghost_ok P s g → heap s1 = <[nextId s := er]> (heap s) → nextId s1 = (nextId s + 1)%N →
  _uid er = nextId s → cls er = CRoot → _parent er = None → _children er = None →
  flattenedBranch er = None →
  ghost_ok (P ∪ {[nextId s]}) s1 g.
Proof.
  intros Hok Hh Hn Hu Hc Hp Hch Hfl. set (r := nextId s) in *.
  assert (∀ n e, heap s !! n = Some e → n ≠ r) as Hne.
  { intros n e He ->. pose proof (ok_fresh _ _ _ _ _ (ghost_node P s g Hok r e He)). lia. }
  assert (heap s !! r = None) as Hr.
  { destruct (heap s !! r) as [e|] eqn:He; [|done]. by destruct (Hne r e He). }
  assert (∀ n e, n ≠ r → shown (P ∪ {[r]}) n e = shown P n e) as Hsh.
  { intros n e Hn'. unfold shown. f_equal. apply bool_decide_ext. set_solver. }
  split.
  2:{ intros n Hn'. rewrite Hh in Hn'. destruct (decide (n = r)) as [->|Hnr].
      - by rewrite lookup_insert_eq in Hn'.
      - rewrite lookup_insert_ne in Hn' by done. destruct Hok as [_ Hnone]. by apply Hnone. }
  intros n e' He'. rewrite Hh in He'. destruct (decide (n = r)) as [->|Hnr].
  { rewrite lookup_insert_eq in He'. injection He' as <-. split.
    - done.
    - lia.
    - intros q Hq. congruence.
    - done.
    - congruence.
    - intros _. split; [done|]. split.
      + unfold shown. rewrite (bool_decide_eq_false_2 (r ∉ P ∪ {[r]})) by set_solver.
        by rewrite andb_false_r.
      + destruct Hok as [_ Hnone]. by apply Hnone.
    - intros cs Hcs. congruence. }
  rewrite lookup_insert_ne in He' by done.
  pose proof (ghost_node P s g Hok n e' He') as [Huid Hfresh Hparent Hroot Hfile Hunl Hload].
  split.
  - done.
  - lia.
  - intros q Hq. destruct (Hparent q Hq) as (ep & pcs & Hep & Hpcs & Hin & Hdep).
    exists ep, pcs. split; [|done]. rewrite Hh, lookup_insert_ne; [done|].
    intros Heq. by apply (Hne q ep).
  - done.
  - done.
  - intros Hnone. destruct (Hunl Hnone) as (Hf & Hs & Hg).
    split; [done|]. split; [by rewrite Hsh|done].
  - intros cs Hcs.
    destruct (Hload cs Hcs) as (Hnd & Hkids & (o' & Hperm & Hgn) & Hsize & Hflat).
    split; [done|]. split.
    { intros c Hcin. destruct (Hkids c Hcin) as (ec & Hec & Hecp).
      exists ec. split; [|done]. rewrite Hh, lookup_insert_ne; [done|].
      intros Heq. by apply (Hne c ec). }
    split.
    { exists o'. split; [done|]. rewrite Hgn. apply bind_ext_in. intros c Hc'.
      assert (c ∈ cs) as Hcin by (by rewrite <- Hperm).
      destruct (Hkids c Hcin) as (ec & Hec & Hecp).
      assert (c ≠ r) as Hcr by by apply (Hne c ec).
      unfold block, shown_in. rewrite Hh, lookup_insert_ne by done.
      rewrite Hec. by rewrite Hsh. }
    split; [done|]. unfold owns. by rewrite Hsh.
Qed.

(** A loaded object without a parent owns its rows, pending or not. *)
Lemma ghost_ok_settle P s g D eD cs :
  ghost_ok (P ∪ {[D]}) s g → heap s !! D = Some eD → _parent eD = None →
  _children eD = Some cs → ghost_ok P s g.
Proof.
  intros Hok HD Hp Hcs. apply (ghost_ok_transfer (P ∪ {[D]}) P s s g Hok); [lia|].
  intros n. destruct (heap s !! n) as [e|] eqn:He; [|done].
  destruct (decide (n = D)) as [->|Hne].
  - assert (e = eD) as -> by congruence. repeat split; try done.
    + unfold owns. by rewrite Hp.
    + rewrite Hp, Hcs. intros [[? ?]|?]; done.
  - assert (shown P n e = shown (P ∪ {[D]}) n e) as Hsh.
    { unfold shown. f_equal. apply bool_decide_ext. set_solver. }
    repeat split; try done. unfold owns. by rewrite Hsh.
Qed.

(** X29: [new Root(host, root)] establishes the invariant.  With an
    absolute [root] and a host that lists well-formed items for it, few
    enough for the ids to stay below 2^32, the constructor followed by the
    host's answer returns the new root; the invariant holds, the root is
    loaded and holds one child, and one row, for each item listed. *)
Theorem Root_new_establishes_Inv pathfx host env fuel root s :
  Inv s → isRelative pathfx root = false →
  Forall (λ f, well_formed f = true) (default [] (getItems host root)) →
  (nextId s + 1 + N.of_nat (length (default [] (getItems host root))) ≤ 2 ^ 32)%N →
  (0 < fuel)%nat →
  ∃ s' re cs,
    Root_new pathfx host env fuel root s = Ok (nextId s) s'
    ∧ Inv s' ∧ root_loaded s' ∧ rootId s' = nextId s
    ∧ heap s' !! nextId s = Some re ∧ _children re = Some cs
    ∧ flattenedBranch re = Some cs
    ∧ length cs = length (default [] (getItems host root)).
Proof.
  intros [Hnext [g Hok]] Habs Hwf Hbound Hfuel.
  destruct (Root_constructor_run pathfx root s Habs)
    as (s1 & Hcon & Hh1 & Hn1 & Hrt1 & Hrp1).
  unfold Root_new. unfold bind at 1. rewrite Hcon.
  set (r := nextId s) in *.
  set (er := mkEntry CRoot r None None 0 false None 0 None true None true None) in *.
  assert (heap s1 !! r = Some er) as Hr1 by (rewrite Hh1; by rewrite lookup_insert_eq).
  pose proof (ghost_ok_new_root ∅ s s1 g er Hok Hh1 Hn1 eq_refl eq_refl eq_refl eq_refl
                eq_refl) as Hok1.
  fold r in Hok1.
  destruct fuel as [|fuel]; [lia|].
  assert (path pathfx (S fuel) r s1 = Ok root s1) as Hpath.
  { simpl. rewrite (bind_obj _ _ _ _ Hr1). unfold er. simpl. unfold gets.
    by rewrite Hrp1. }
  destruct (resume_run pathfx host env (S fuel) (∅ ∪ {[r]}) r er root s1
              (getItems host root) s1 g Hok1 Hr1)
    as (s2 & cs & re & Hres & Hok2 & Hn2 & Hr2 & Hre & Hch & Hlen & Hc & Hx & Hp & Hd
        & Hfl & Hfr & Hbf); try done.
  { by rewrite Hn1. }
  unfold bind at 1. unfold Root_constructor_resume. unfold bind at 1. rewrite Hres.
  rewrite (bind_obj _ _ _ _ Hre), Hx. cbn [isExpanded er when].
  unfold setExpanded_loaded. rewrite (bind_obj _ _ _ _ Hre).
  unfold bind at 1, gets at 1. rewrite Hp. cbn [_parent er].
  unfold bind at 1, ret at 1. rewrite (bind_obj _ _ _ _ Hre), Hx. cbn [isExpanded er when].
  unfold notifyWillChangeExpansionState.
  unfold bind at 1. unfold dispatch at 1, modify at 1.
  set (s3 := set_events (events s2 ++ [WillChangeExpansionState r true]) s2).
  assert (heap s3 = heap s2) as Hh3 by (unfold s3; by destruct s2).
  assert (heap s3 !! r = Some re) as Hre3 by by rewrite Hh3.
  unfold bind at 1. cbn [expandBranch]. rewrite (bind_obj _ _ _ _ Hre3).
  rewrite (bool_decide_eq_true_2 (r = r)) by done. cbn [negb when].
  unfold bind at 1, ret at 1. rewrite (bind_obj _ _ _ _ Hre3).
  rewrite Hp. cbn [_parent er]. unfold ret at 1.
  assert (rootId s3 = r) as Hr3.
  { transitivity (rootId s2); [unfold s3; by destruct s2|by rewrite Hr2]. }
  destruct (notifyDidChangeExpansionState_run r true s3) as [vis Hvis]; [by left|].
  rewrite Hvis. unfold ret.
  set (s4 := set_events _ s3).
  assert (heap s4 = heap s2) as Hh4 by (unfold s4, s3; by destruct s2).
  exists s4, re, cs. split; [done|]. split.
  { split.
    - assert (nextId s4 = nextId s2) as -> by (unfold s4, s3; by destruct s2).
      rewrite Hn2, Hn1. done.
    - eexists. unfold s4, s3. do 2 apply ghost_ok_events.
      by apply (ghost_ok_settle ∅ s2 _ r re cs). }
  assert (rootId s4 = r) as Hr4.
  { transitivity (rootId s3); [unfold s4; by destruct s3|done]. }
  split.
  { exists re, cs. rewrite Hr4, Hh4. done. }
  split; [done|]. rewrite Hh4. done.
Qed.

Lemma Root_new_establishes_Inv_witness :
  ∃ s', Root_new unix host_abc dev 8 "/root" fresh = Ok 0%N s' ∧ Inv s' ∧ root_loaded s'.
Proof.
  destruct (Root_new_establishes_Inv unix host_abc dev 8 "/root" fresh)
    as (s' & re & cs & H1 & H2 & H3 & _).
  - exact Inv_fresh.
  - reflexivity.
  - vm_compute. repeat constructor.
  - vm_compute. discriminate.
  - lia.
  - exists s'. exact (conj H1 (conj H2 H3)).
Defined.

(** ** Expanding a directory that was never loaded *)

(** X30: expanding a directory that was never loaded loads it and keeps
    the invariant.  With the root loaded, on a collapsed directory
    without children yet, whose [path] is [p], with no reload pending,
    when the host lists for [p] well-formed items only, few enough for
    the ids to stay below 2^32, [expandDirectory] returns whatever
    [ensureVisible] says; the directory is then expanded, the invariant
    holds again, the directory has as many children as the host listed
    items for [p], and every listed item has its child: an object below
    the directory, of the item's name and class. *)
Theorem expandDirectory_loads pathfx host env fuel D eD p sp ev s :
  Inv s → root_loaded s →
  heap s !! D = Some eD → cls eD = CDirectory → _children eD = None →
  hardReloadPromise eD = false → watchTerminator eD = None →
  path pathfx fuel D s = Ok p sp → (_depth eD < fuel)%nat →
  Forall (λ f, well_formed f = true) (default [] (getItems host p)) →
  (nextId s + N.of_nat (length (default [] (getItems host p))) ≤ 2 ^ 32)%N →
  ∃ s' cs,
    expandDirectory pathfx host env fuel D ev s = Ok tt s' ∧ Inv s'
    ∧ isExpanded <$> heap s' !! D = Some true
    ∧ _children <$> heap s' !! D = Some (Some cs)
    ∧ length cs = length (default [] (getItems host p))
    ∧ (∀ file, file ∈ default [] (getItems host p) →
         ∃ c ec, c ∈ cs ∧ heap s' !! c = Some ec ∧ built_from file ec
                 ∧ _parent ec = Some D).
Proof.
  intros [Hnext [g Hok]] Hroot HD Hcls Hnone Hpr Hw Hpath Hdepth Hwf Hbound.
  destruct fuel as [|fuel]; [lia|].
  unfold expandDirectory, setExpanded. rewrite (bind_obj _ _ _ _ HD), Hcls.
  cbn [Directory_setExpanded]. rewrite (bind_obj _ _ _ _ HD).
  assert (isExpanded eD = false) as Hexp.
  { destruct (ok_unloaded _ _ _ _ _ (ghost_node ∅ s g Hok D eD HD) Hnone) as (_ & Hsh & _).
    unfold shown, expanded in Hsh. rewrite Hcls in Hsh. simpl in Hsh.
    rewrite (bool_decide_eq_true_2 (D ∉ (∅ : gset N))) in Hsh by set_solver.
    by rewrite andb_true_r in Hsh. }
  rewrite Hexp. rewrite (bind_update _ _ _ _ _ HD), Hnone.
  set (eD0 := with_isExpanded true eD).
  set (s0 := set_heap (<[D:=eD0]> (heap s)) s).
  assert (heap s0 = <[D:=eD0]> (heap s)) as Hh0 by by destruct s.
  assert (heap s0 !! D = Some eD0) as HD0 by (rewrite Hh0; by rewrite lookup_insert_eq).
  assert (nextId s0 = nextId s) as Hn0 by by destruct s.
  assert (rootId s0 = rootId s) as Hr0 by by destruct s.
  destruct (path_parent pathfx (S fuel) D s p sp eD Hpath HD) as [q Hp]; [congruence|].
  pose proof (flag_set_attached ∅ s g D eD q Hok HD Hcls Hexp Hp) as Hok0.
  fold eD0 in Hok0. fold s0 in Hok0.
  assert (same_paths s s0) as Hsp0 by (by apply update_same_paths).
  destruct (path_again pathfx (S fuel) D s p sp s0 Hpath (same_paths_memo_ext _ _ _ Hsp0))
    as (sp0 & Hpath0).
  destruct (reload_run pathfx host env (S fuel) (∅ ∪ {[D]}) D eD0 p sp0 s0 g Hok0 HD0)
    as (s1 & cs & eD1 & Hrun & Hok1 & Hn1 & Hr1 & HD1 & Hch1 & Hlen & Hc1 & Hx1 & Hp1
        & Hd1 & _ & Hfr & Hbf); try done.
  { change (cls eD0) with (cls eD). by rewrite Hcls. }
  unfold bind at 1. unfold bind at 1. rewrite Hrun.
  rewrite (bind_obj _ _ _ _ HD1). unfold ret at 1. rewrite Hx1. cbn [isExpanded eD0].
  assert (root_loaded s1) as Hroot1.
  { destruct Hroot as (re & rfb & Hre & Hrc & Hrfb).
    assert (rootId s ≠ D) as HrD by (intros Heq; rewrite Heq in Hre; congruence).
    assert (heap s0 !! rootId s = Some re) as Hre0 by (rewrite Hh0; by rewrite lookup_insert_ne).
    destruct (Hfr (rootId s) re HrD Hre0)
      as (re1 & Hre1 & (_ & Hc & _ & _ & _ & _ & Hfl & _)%core_fields).
    exists re1, rfb. rewrite Hr1, Hr0. split; [done|]. split; congruence. }
  assert (pending_flagged (∅ ∪ {[D]}) s1) as Hpend1.
  { intros n Hn. assert (n = D) as -> by set_solver. exists eD1. split; [done|].
    by rewrite Hx1. }
  set (g1 := λ n : N, if decide (n = D) then cs else g n) in Hok1.
  destruct (setExpanded_tail pathfx host env fuel ∅ D eD1 cs q ev s1 g1)
    as (s2 & g2 & Hrun2 & Hok2 & Hsame2 & _ & _ & Hexp2); try done.
  { intros ep pcs H1 H2 H3 H4.
    by apply (setExpanded_rec pathfx host env fuel (∅ ∪ {[D]}) q ep pcs true s1 g1). }
  { by rewrite Hc1. }
  { by rewrite Hp1. }
  { rewrite Hd1. simpl. lia. }
  change (isExpanded eD0) with true. cbv iota.
  exists s2, cs. split; [done|].
  destruct (same_nodes_ids _ _ Hsame2) as [Hn2 _].
  split.
  { split; [|by exists g2]. by rewrite Hn2, Hn1, Hn0. }
  split; [done|].
  destruct (same_nodes_fields s1 s2 D eD1 Hsame2 HD1) as (eD2 & HD2 & _ & Hch2 & _).
  split; [rewrite HD2; simpl; by rewrite Hch2, Hch1|]. split; [done|].
  intros file Hfile. destruct (Hbf file Hfile) as (c & ec & Hc & Hec & Hb & Hpc).
  destruct (same_nodes_lookup s1 s2 c ec Hsame2 Hec) as (ec2 & Hec2 & Hsk).
  exists c, ec2. split; [done|]. split; [done|].
  pose proof (skeleton_fields _ _ Hsk) as Hflds.
  split.
  - unfold built_from in *. destruct file as [| | |type [| | |f| |]]; try done.
    destruct Hb as [Hbn Hbc]. split; [rewrite <- Hbn|rewrite <- Hbc]; naive_solver.
  - rewrite <- Hpc. naive_solver.
Qed.

Lemma expandDirectory_loads_witness :
  ∃ s' cs, expandDirectory unix host_abc dev 8 2 true abc_loaded_state = Ok tt s' ∧ Inv s'
           ∧ isExpanded <$> heap s' !! 2%N = Some true
           ∧ _children <$> heap s' !! 2%N = Some (Some cs) ∧ length cs = 1%nat.
Proof.
  destruct (expandDirectory_loads unix host_abc dev 8 2
              (default (mkEntry CFileEntry 0 None None 0 false None 0 None false None false None)
                       (heap abc_loaded_state !! 2%N))
              "/root/a" (default fresh (state_of (path unix 8 2 abc_loaded_state)))
              true abc_loaded_state) as (s' & cs & H1 & H2 & H3 & H4 & H5 & _).
  - exact Inv_abc_loaded.
  - eexists _, _. split; [vm_compute; reflexivity|]. split; reflexivity.
  - vm_compute. reflexivity.
  - reflexivity.
  - reflexivity.
  - reflexivity.
  - reflexivity.
  - vm_compute. reflexivity.
  - simpl. lia.
  - vm_compute. repeat constructor.
  - vm_compute. discriminate.
  - exists s', cs. exact (conj H1 (conj H2 (conj H3 (conj H4 H5)))).
Defined.

(** ** A malformed item in the host's answer (C5) *)









(** ** The sizes along the walk of a collapse (C4) *)

(** C4, as the code has it: [setCollapsed] on an expanded, loaded
    directory [D] whose rows sit in the array of the owner [o], reached
    from [D]'s parent through the directories [l] (the ancestors strictly
    between [D] and the owner).  The call returns; every directory of [l]
    has lost [D]'s branch size, and so has the owner itself; [D]'s own
    size and the size of every object off the walk are as before. *)
Theorem setCollapsed_walk_sizes fuel D eD cs p l o eo fb s :
  heap s !! D = Some eD → cls eD = CDirectory → isExpanded eD = true →
  _children eD = Some cs → _parent eD = Some p →
  owner_path (heap s) p l o → D ∉ l ++ [o] →
  heap s !! o = Some eo → flattenedBranch eo = Some fb →
  root_answers s D → (length l + 1 < fuel)%nat →
  ∃ s', setCollapsed fuel D s = Ok tt s'
    ∧ (∀ n, n ∈ l → ∃ e, heap s !! n = Some e
                         ∧ size_of s' n = Some (_branchSize e - _branchSize eD))
    ∧ size_of s' o = Some (_branchSize eo - _branchSize eD)
    ∧ size_of s' D = Some (_branchSize eD)
    ∧ (∀ n, n ∉ D :: l ++ [o] → size_of s' n = size_of s n).
Proof.
  intros HD Hcls Hexp Hcs Hp Hpath HDl Ho Hfb Hroot Hfuel.
  destruct (collapse_run fuel D eD cs p l o eo fb s) as (s' & vis & Hrun & Hheap & _);
    [done..|].
  exists s'. split; [done|]. unfold size_of.
  assert (∀ n e, n ∈ l ++ [o] → heap s !! n = Some e →
                 _branchSize <$> heap s' !! n = Some (_branchSize e - _branchSize eD)) as Hon.
  { intros n e Hn He. rewrite Hheap, He. simpl. f_equal.
    unfold collapsed_entry. assert (n ≠ D) by (intros ->; done).
    rewrite (bool_decide_eq_false_2 (n = D)) by done.
    rewrite rewalked_on_path by done. lia. }
  split; [|split; [|split]].
  - intros n Hn.
    destruct (owner_path_from_or_end (heap s) p l o n Hpath) as [e He]; [set_solver|].
    exists e. split; [done|]. apply Hon; [set_solver|done].
  - apply Hon; [set_solver|done].
  - rewrite Hheap, HD. simpl. unfold collapsed_entry.
    rewrite (bool_decide_eq_true_2 (D = D)) by done. by rewrite rewalked_branch.
  - intros n Hn. rewrite Hheap. destruct (heap s !! n) as [e|]; [|done]. simpl. f_equal.
    unfold collapsed_entry. rewrite (bool_decide_eq_false_2 (n = D)) by set_solver.
    by rewrite rewalked_off_path.
Qed.

Lemma setCollapsed_walk_sizes_witness :
  ∃ s', setCollapsed 8 2 pdx_expanded_state = Ok tt s'
        ∧ size_of pdx_expanded_state 1 = Some 2 ∧ size_of s' 1 = Some 1
        ∧ size_of pdx_expanded_state 0 = Some 3 ∧ size_of s' 0 = Some 2
        ∧ size_of s' 2 = Some 1.
Proof.
  destruct (setCollapsed_walk_sizes 8 2
              (default (mkEntry CFileEntry 0 None None 0 false None 0 None false None false None)
                       (heap pdx_expanded_state !! 2%N))
              [3%N] 1 [1%N] 0
              (default (mkEntry CFileEntry 0 None None 0 false None 0 None false None false None)
                       (heap pdx_expanded_state !! 0%N))
              [1%N; 2%N; 3%N] pdx_expanded_state)
    as (s' & Hrun & Hl & Ho & HD & _).
  - vm_compute. reflexivity.
  - reflexivity.
  - reflexivity.
  - reflexivity.
  - reflexivity.
  - eapply owner_up; [vm_compute; reflexivity|reflexivity|reflexivity|].
    eapply owner_here; [vm_compute; reflexivity|reflexivity].
  - vm_compute. intros H. repeat (apply elem_of_cons in H as [H|H]; [discriminate H|]).
    by apply elem_of_nil in H.
  - vm_compute. reflexivity.
  - reflexivity.
  - right. eexists _, _. split; [vm_compute; reflexivity|reflexivity].
  - simpl. lia.
  - exists s'. split; [exact Hrun|].
    destruct (Hl 1%N) as (e & He & Hsz); [by apply list_elem_of_singleton|].
    vm_compute in He. injection He as <-.
    split; [vm_compute; reflexivity|]. split; [exact Hsz|].
    split; [vm_compute; reflexivity|]. split; [exact Ho|exact HD].
Defined.

(** ** Expand, then collapse (C3) *)

(** C3, as the code has it: let the collapsed, loaded directory [D] hold
    its own rows [dfb], as many as its branch size says, and be a row of
    the array [fb] of its owner [o], reached from its parent through the
    directories [l]; let [setExpanded] have no ancestor to expand
    ([ensureVisible] is false, or the parent is the root or expanded
    already).  Then [setExpanded] returns with [D] expanded and its rows
    spliced into the owner's array, and the [setCollapsed] that follows
    returns with [D]'s branch size, the owner's array and the branch
    size of every directory between them as they were before: indeed
    every object is as before. *)
Theorem setExpanded_setCollapsed_restores
    pathfx host env fuel D eD cs p l o eo fb dfb ev s :
  heap s !! D = Some eD → cls eD = CDirectory → isExpanded eD = false →
  _children eD = Some cs → _parent eD = Some p →
  flattenedBranch eD = Some dfb → _branchSize eD = Z.of_nat (length dfb) →
  owner_path (heap s) p l o → D ∉ l ++ [o] →
  heap s !! o = Some eo → flattenedBranch eo = Some fb → D ∈ fb →
  root_answers s D → parent_shown s ev p → (length l + 1 < fuel)%nat →
  ∃ s1 s2,
    setExpanded pathfx host env fuel D ev s = Ok tt s1
    ∧ isExpanded <$> heap s1 !! D = Some true
    ∧ flat_of s1 o = Some (rows_with fb D (Some dfb))
    ∧ setCollapsed fuel D s1 = Ok tt s2
    ∧ size_of s2 D = Some (_branchSize eD)
    ∧ flat_of s2 D = Some dfb
    ∧ flat_of s2 o = Some fb
    ∧ (∀ n, n ∈ l → size_of s2 n = size_of s n)
    ∧ size_of s2 o = Some (_branchSize eo)
    ∧ heap s2 = heap s.
Proof.
  intros HD Hcls Hexp Hcs Hp Hdfb Hsz Hpath HDl Ho Hfb HDfb Hroot Hshown Hfuel.
  destruct (round_trip_run pathfx host env fuel D eD cs p l o eo fb dfb ev s)
    as (s1 & s2 & Hrun1 & Hheap1 & Hrun2 & Hheap & _); [done..|].
  assert (D ≠ o) as HDo by set_solver.
  exists s1, s2. unfold size_of, flat_of. rewrite Hheap, HD, Ho. simpl.
  split; [done|]. split; [|split; [|done]].
  - rewrite Hheap1, HD. simpl. unfold expanded_entry.
    rewrite (bool_decide_eq_true_2 (D = D)) by done. by rewrite rewalked_branch.
  - rewrite Hheap1, Ho. simpl. unfold expanded_entry.
    rewrite (bool_decide_eq_false_2 (o = D)) by done. by rewrite rewalked_owner.
Qed.

Lemma setExpanded_setCollapsed_restores_witness :
  ∃ s1 s2,
    setExpanded unix host_pdx dev 8 2 false pdx_loaded_state = Ok tt s1
    ∧ flat_of pdx_loaded_state 1 = Some [2%N]
    ∧ flat_of s1 1 = Some [2%N; 3%N]
    ∧ setCollapsed 8 2 s1 = Ok tt s2
    ∧ flat_of s2 1 = Some [2%N]
    ∧ heap s2 = heap pdx_loaded_state.
Proof.
  destruct (setExpanded_setCollapsed_restores unix host_pdx dev 8 2
              (default (mkEntry CFileEntry 0 None None 0 false None 0 None false None false None)
                       (heap pdx_loaded_state !! 2%N))
              [3%N] 1 [] 1
              (default (mkEntry CFileEntry 0 None None 0 false None 0 None false None false None)
                       (heap pdx_loaded_state !! 1%N))
              [2%N] [3%N] false pdx_loaded_state)
    as (s1 & s2 & H1 & _ & H3 & H4 & _ & _ & H7 & _ & _ & H10).
  - vm_compute. reflexivity.
  - reflexivity.
  - reflexivity.
  - reflexivity.
  - reflexivity.
  - reflexivity.
  - reflexivity.
  - eapply owner_here; [vm_compute; reflexivity|reflexivity].
  - vm_compute. intros H. repeat (apply elem_of_cons in H as [H|H]; [discriminate H|]).
    by apply elem_of_nil in H.
  - vm_compute. reflexivity.
  - reflexivity.
  - apply list_elem_of_singleton. reflexivity.
  - right. eexists _, _. split; [vm_compute; reflexivity|reflexivity].
  - left. reflexivity.
  - simpl. lia.
  - exists s1, s2. split; [exact H1|]. split; [vm_compute; reflexivity|].
    split; [exact H3|]. split; [exact H4|]. split; [exact H7|exact H10].
Defined.

(** ** A reload of a collapsed directory and the sizes (C2) *)

(** C2, on the code: in the tree [/root/p/d/x] the root (id 0) and [p]
    (id 1) are loaded and [p] is collapsed: the root's branch size is 1,
    the length of its array [[p]], and [p]'s own is 1.  [setCollapsed]
    on [p] finds it collapsed and leaves everything as it is.  A generic
    change reported for [/root/p] is queued, the queue is flushed and the
    host answers the reload: every step returns, [p] is still the root's
    only child and only row, and the root's branch size is 0. *)
Theorem reload_collapsed_breaks_size :
  (is_Ok (and_then (Root_new unix host_pdx dev 8 "/root" fresh)
                   (ensureLoaded unix host_pdx dev 8 1)) = true
   ∧ after (and_then (Root_new unix host_pdx dev 8 "/root" fresh)
                     (ensureLoaded unix host_pdx dev 8 1))
           (λ s, Some (size_of s 0, flat_of s 0, size_of s 1, flat_of s 1,
                       isExpanded <$> heap s !! 1%N))
     = Some (Some 1, Some [1%N], Some 1, Some [2%N], Some false)
   ∧ and_then (and_then (Root_new unix host_pdx dev 8 "/root" fresh)
                        (ensureLoaded unix host_pdx dev 8 1))
              (setCollapsed 8 1)
     = and_then (Root_new unix host_pdx dev 8 "/root" fresh)
                (ensureLoaded unix host_pdx dev 8 1))
  ∧ pdx_changed = Ok tt pdx_changed_state
  ∧ rootId pdx_changed_state = 0%N
  ∧ children_of pdx_changed_state 0 = Some [1%N]
  ∧ flat_of pdx_changed_state 0 = Some [1%N]
  ∧ size_of pdx_changed_state 0 = Some 0
  ∧ isExpanded <$> heap pdx_changed_state !! 1%N = Some false
  ∧ children_of pdx_changed_state 1 = Some [3%N]
  ∧ flat_of pdx_changed_state 1 = Some [3%N]
  ∧ size_of pdx_changed_state 1 = Some 1.
Proof. split; by_computation. Qed.
